(* ===== verification/_CoqProject ===== *)
-Q . S2P
Prelude.v
CString.v
Io.v
Wire.v
DList.v
Fdevent.v
Server.v
Transports.v
Sockets.v
Packets.v
SocketInv.v
SocketOps.v
SocketLink.v
PacketsSafe.v
Keeps.v
EngineProps.v
Registry.v
RegistryProps.v
Listeners.v
HostRequest.v
ListenersProps.v
SmartSocket.v
EventProps.v
RequestSafe.v
Preserve.v
StreamProps.v
Typed.v
Pump.v
PumpProps.v
TableSafe.v
ServiceSafe.v
ClientSafe.v
MainLoop.v
Services.v
ServicesProps.v
Client.v
ClientProps.v
FileSync.v
FileSyncProps.v
Shell.v
Commandline.v
CommandlineProps.v
Usb.v
UsbProps.v
AuthHost.v
AuthHostProps.v
Net.v
NetProps.v
Start.v
StartProps.v
