(* ===== verification/Prelude.v ===== *)
(** * Verification of pax_adb

    pax_adb is the host side of the Android Debug Bridge, version 1.0.32, with the
    extensions of PAX terminals: one executable that is a command line client and,
    in the background, the server that all clients share.  This library models
    the C sources of src/src as the Linux build compiles them ([ADB_HOST], little
    endian, [HAVE_SYMLINKS], the select version of the event loop) and proves what
    makes them correct.

    ** The program

    A client (commandline.c) connects to the server over TCP (adb_client.c),
    names a transport and a service, and then talks to the service: a shell, the
    file synchronisation service (file_sync_client.c), the PAX tools.  The server
    runs one event loop (fdevent.c).  A client's descriptor is a local socket
    (sockets.c) whose first peer is a smart socket, which collects the request and
    either answers it (adb.c, services.c) or opens a stream to a device.  A stream
    is a local and a remote socket that point at each other; packets from the
    device come through the two threads of its transport (transport.c) and are
    handled by [handle_packet] (adb.c).  Transports come and go with USB devices
    and emulators (transport_usb.c, usb_linux.c, transport_local.c).

    ** The files

    The common part:
    - [Prelude]: bytes, 32-bit integers, the outcome type [res] with its two kinds
      of failure ([Exit] for a deliberate end of the process, [UB] for undefined
      behaviour such as a use of freed memory or an overrun) and [Timeout] for
      fuel that ran out, and the lemmas on lists that the other files share.
    - [CString]: the string functions of libc that the program uses.
    - [Io]: [adb_read], [adb_write], [readx], [writex].  A descriptor is the list
      of answers that its calls will give; [stream] is the bytes they deliver.
    - [DList]: the four pointer styles of the circular lists, refined to lists.

    The server:
    - [Wire]: messages, packets and their checks; the two carriers of packets,
      TCP and USB, behind the class [RemoteIO] (transport_local.c,
      transport_usb.c, the transfer loops of usb_linux.c).
    - [Fdevent]: fdevent.c, with the select sets, the table and the pending list,
      and its invariant.
    - [Server]: the state of the server and the monad [M] its code runs in.  A
      pointer is a key of a map; every dereference of an object that is not there
      is [UB], and so is taking a lock twice.
    - [Transports]: selection and listing of devices (transport.c).
    - [Sockets]: the socket graph (sockets.c), its trackers and disconnects.
    - [Packets]: [handle_packet] and the authentication exchange (adb.c,
      adb_auth_host.c).
    - [SocketInv], [SocketOps], [SocketLink], [PacketsSafe], [Keeps]: the
      invariant [wf] and [quiet] of the socket graph, and that every operation
      keeps it.
    - [EngineProps]: what [handle_packet] guarantees.
    - [Registry], [RegistryProps]: creation, registration, reference counts and
      removal of transports (transport.c, transport_local.c).
    - [Listeners], [HostRequest], [ListenersProps]: forwardings and the requests
      that the server answers itself (adb.c, services.c).
    - [SmartSocket], [EventProps]: requests and the events of a client's
      descriptor (sockets.c).
    - [StreamProps]: one stream over any sequence of events, refined to an abstract
      duplex stream with flow control.
    - [Preserve]: the judgement [pres], for what a piece of code leaves alone.
    - [RequestSafe], [TableSafe], [ServiceSafe], [ClientSafe]: the requests of clients,
      from the first byte to the answer or to the stream that waits for its device:
      how a request ends, the tables of devices and forwardings, services and
      trackers, and all requests together.
    - [Typed]: the judgement [ty], which every function of the main thread has, and
      [serve], all that the main loop reacts to.
    - [Pump], [PumpProps]: the two threads of a transport and the packet socket
      between them and the main thread, as steps of an interleaving.
    - [MainLoop]: all events of the main thread as a step relation, with those of the
      threads that register devices.
    - [Services], [ServicesProps]: the threads of the host services (services.c).
    - [Usb], [UsbProps]: the discovery of USB devices: vendors, descriptors,
      handles, polls and bulk transfers (usb_linux.c, usb_vendors.c).
    - [AuthHost], [AuthHostProps]: the key files of the host (adb_auth_host.c), on
      the class [OpenSSL] of the library's operations and their laws.
    - [Net], [NetProps]: the helpers that open sockets (socket_*.c), in the monad
      [K] over the kernel's descriptors, and the start of the server (adb.c).
    - [Start], [StartProps]: [main], the trace mask, the log, the registration socket,
      the threads that accept devices and run services, the path of the executable,
      the progress display (adb.c, transport.c, transport_local.c, services.c,
      fdevent.c, get_my_path_linux.c, file_sync_client.c).

    The client:
    - [Client], [ClientProps]: adb_client.c in the monad [C], whose state has the
      client's globals, its descriptors and the local file system.
    - [FileSync], [FileSyncProps]: file_sync_client.c.
    - [Shell]: the helpers of commandline.c, load_file.c and console.c.
    - [Commandline], [CommandlineProps]: the flags and commands of commandline.c,
      the PAX ones included.

    ** What the theorems show

    - Memory safety of the server's main thread.  From a state with the invariant,
      after any sequence of packets, events of clients, requests of every kind, new
      clients, registrations and removals of devices, the next event is handled
      without undefined behaviour and the invariant holds again ([main_loop_safe]); what
      single operations do besides is stated with each of them ([packets_safe],
      [client_event_forwards], [close_safe], [close_all_complete],
      [offline_drops_all], [removal_frees]).  Five requests rely on more than the
      invariant, as [servable] says, and fail otherwise: [long_listing_overruns],
      [unlink_raw_twice_corrupts], [refused_emulator_dangles] and
      [tracker_use_after_free] are the states in which they do.
    - Data gets through: packets survive both carriers however they are cut
      ([tcp_roundtrip], [tcp_read_total_sound]); a stream implements an abstract
      duplex stream, one step per event ([stream_refines]), so both directions
      are complete and in order with the flow control the protocol asks for
      ([stream_transparent], and for one packet [wrte_delivered]); every packet
      the server sends is one the other end accepts ([server_typed]); a request is
      acted on once and whole ([request_reassembled]).
    - Devices: serials stay unique, a device is registered with the references of
      its threads, the authentication keys rotate, the banner is parsed
      ([serials_stay_unique], [registration_starts], [auth_rotation],
      [banner_identifies], [acquire_unique]); the threads of a transport send the
      connect message first, use no freed object and come to an end
      ([connect_comes_first], [pump_safe], [pump_shutdown]).
    - USB: a device with an ADB interface is found with its endpoints
      ([adb_device_found]), a poll drops exactly the devices that are gone and
      announces the new ones ([poll_tracks]), its serial is read and the vendor
      list fits its array ([usb_serial_read], [vendors_bounded]).
    - Keys: the public key that is written is the one a device needs
      ([public_key_sound]), the key of the first start is the key of all later
      ones ([keys_persist]) and its public form fits a packet ([userkey_fits]).
    - Sockets: the helpers return what was asked for or leave no descriptor behind
      ([sockets_accounted]), addresses of unix sockets fit and are distinct
      ([unix_address]), and a server that starts listens ([server_listens]) and
      watches its registration socket ([registration_watched]); a service thread
      is started with one end of a new pair or leaves nothing open
      ([service_thread_accounted]), and the thread that accepts devices holds what it
      accepted and nothing else ([server_socket_thread_accounted]).
    - The trace mask is the union of the tags ([trace_words]), the standard
      descriptors of a server lead to its log ([log_redirected]), the percentage
      and the rate that are shown are exact ([progress_percent], [rate_exact]).
    - The client and the server agree: requests, refusals, queries and the names
      of a forwarding mean the same to both ([requests_framed],
      [refusal_reported], [query_answered], [forward_agreed]).
    - Files: a push followed by a pull is the identity on contents
      ([push_pull_roundtrip]), the walks of local and remote directories end and
      the local one lists exactly the files of the tree ([local_tree_listed],
      [remote_tree_listed]), nothing is sent that the device has
      ([sync_current_tree]), the PAX unlink refuses directories
      ([unlink_spares_directories]).
    - The command line: quoting is inverted by a shell ([arguments_reach_shell]),
      the escape of the interactive shell does not depend on how the input is cut
      ([escape_found]), packages are served block by block ([sideload_serves]),
      systool's exit code is recovered ([tool_exit_code]), and a command line
      nests at most once ([depth_two]).
    - Where the code fails: theorems that end in [UB], or in a result the code
      does not mean, exhibit the failure on a concrete state.

    ** Conventions and bounds

    [wp m s Q] says that [m] run in [s] either leaves the process deliberately or
    returns with [Q]; it excludes [UB] and [Timeout].  [crun] is the same for the
    client and excludes leaving too.  Fuel is computed from what bounds the loop:
    the bytes and answers a descriptor has left, the length of a list, PATH_MAX
    for directories, the depth of the socket graph; the theorems show that the
    fuel suffices, as they exclude [Timeout] or prove a result.  The one loop
    without a bound is the one that waits for a device: its fuel is the number of
    connections to come, after which nothing changes any more.

    The steps of [Pump] are atomic between two blocking calls of a thread.  What
    the code reads and writes without a lock in between is taken as indivisible;
    races on single words are not modelled.

    ** Not modelled

    - The kernel, libc's allocation (which is taken not to fail), OpenSSL, the
      terminal settings: parameters, or left out.
    - The signal handlers, which do nothing.
    - Messages on stderr, trace output and the help text.
    - The device side of the shared sources, which the host build leaves out. *)

From Stdlib Require Import ZArith Lia.
From Stdlib Require Export Strings.String Strings.Byte.
From stdpp Require Export prelude gmap.

#[global] Open Scope Z_scope.

(** [lia] on goals with a division or a remainder by a constant. *)
Ltac div_mod_lia := Z.to_euclidean_division_equations; lia.

(** ** Bytes and buffers *)

Abbreviation bytes := (list byte).

#[export] Instance byte_eq_decision : EqDecision byte := Byte.byte_eq_dec.

(** The numeric value of a byte and its inverse, which wraps like a C
    conversion to [unsigned char]. *)
Definition b2z (b : byte) : Z := Z.of_N (Byte.to_N b).
Definition z2b (z : Z) : byte := default x00 (Byte.of_N (Z.to_N (z mod 256))).

Lemma b2z_range b : 0 <= b2z b < 256.
Proof.
  unfold b2z. pose proof (Byte.to_N_bounded b). split; [lia|].
  change 256 with (Z.of_N 256). apply N2Z.inj_lt. lia.
Qed.

Lemma z2b_b2z b : z2b (b2z b) = b.
Proof.
  unfold z2b. rewrite Z.mod_small by apply b2z_range.
  unfold b2z. rewrite N2Z.id, Byte.of_to_N. reflexivity.
Qed.

Lemma b2z_z2b z : b2z (z2b z) = z mod 256.
Proof.
  unfold z2b. pose proof (Z.mod_pos_bound z 256 ltac:(lia)) as Hm.
  destruct (Byte.of_N (Z.to_N (z mod 256))) as [b|] eqn:E; simpl.
  - apply Byte.to_of_N in E. unfold b2z. rewrite E. lia.
  - apply Byte.of_N_None_iff in E. lia.
Qed.

Lemma b2z_inj b1 b2 : b2z b1 = b2z b2 -> b1 = b2.
Proof. intros E. rewrite <- (z2b_b2z b1), <- (z2b_b2z b2), E. reflexivity. Qed.

#[export] Instance byte_countable : Countable byte := inj_countable' b2z z2b z2b_b2z.

(** A string literal as the bytes of a C string, without its terminator. *)
Definition lit (s : string) : bytes := list_byte_of_string s.
Arguments lit s%_string.

(** ** Machine integers: 32-bit [unsigned] and [int] *)

Definition u32_mod : Z := 4294967296.
Definition wrap32 (z : Z) : Z := z mod u32_mod.
Definition is_u32 (z : Z) : Prop := 0 <= z < u32_mod.

(** The value of an [unsigned] read back through an [int]. *)
Definition to_int (z : Z) : Z :=
  let w := wrap32 z in if w <? 2147483648 then w else w - u32_mod.

Lemma wrap32_range z : is_u32 (wrap32 z).
Proof. apply Z.mod_pos_bound. reflexivity. Qed.

Lemma wrap32_id z : is_u32 z -> wrap32 z = z.
Proof. apply Z.mod_small. Qed.

Lemma to_int_small z : 0 <= z < 2147483648 -> to_int z = z.
Proof.
  intros H. unfold to_int. rewrite wrap32_id by (unfold is_u32, u32_mod; lia).
  destruct (Z.ltb_spec z 2147483648); lia.
Qed.

(** Little-endian 32-bit words, the layout of every integer on the wire. *)
Definition le32 (z : Z) : bytes :=
  [z2b z; z2b (z / 256); z2b (z / 65536); z2b (z / 16777216)].

Definition unle32 (b : bytes) : Z :=
  match b with
  | b0 :: b1 :: b2 :: b3 :: _ =>
      b2z b0 + 256 * b2z b1 + 65536 * b2z b2 + 16777216 * b2z b3
  | _ => 0
  end.

Lemma length_le32 z : length (le32 z) = 4%nat.
Proof. reflexivity. Qed.

Lemma unle32_le32_app z rest : unle32 (le32 z ++ rest) = wrap32 z.
Proof.
  unfold le32, unle32, wrap32, u32_mod. simpl. rewrite !b2z_z2b. div_mod_lia.
Qed.

Lemma unle32_le32 z : is_u32 z -> unle32 (le32 z) = z.
Proof.
  intros H. rewrite <- (app_nil_r (le32 z)), unle32_le32_app. by apply wrap32_id.
Qed.

Lemma unle32_range b : is_u32 (unle32 b).
Proof.
  unfold is_u32, u32_mod. destruct b as [|b0 [|b1 [|b2 [|b3 r]]]]; simpl; try lia.
  pose proof (b2z_range b0). pose proof (b2z_range b1).
  pose proof (b2z_range b2). pose proof (b2z_range b3). lia.
Qed.

Lemma le32_unle32 b0 b1 b2 b3 rest :
  le32 (unle32 (b0 :: b1 :: b2 :: b3 :: rest)) = [b0; b1; b2; b3].
Proof.
  unfold unle32, le32.
  pose proof (b2z_range b0). pose proof (b2z_range b1).
  pose proof (b2z_range b2). pose proof (b2z_range b3).
  set (z := b2z b0 + 256 * b2z b1 + 65536 * b2z b2 + 16777216 * b2z b3).
  assert (z mod 256 = b2z b0) by (subst z; div_mod_lia).
  assert ((z / 256) mod 256 = b2z b1) by (subst z; div_mod_lia).
  assert ((z / 65536) mod 256 = b2z b2) by (subst z; div_mod_lia).
  assert ((z / 16777216) mod 256 = b2z b3) by (subst z; div_mod_lia).
  repeat f_equal; apply b2z_inj; rewrite b2z_z2b; assumption.
Qed.

(** ** Outcomes of C code

    [Ok] is a normal return, [Exit] a call of [exit], [fatal] or [abort],
    [UB] an access the C standard does not define (a NULL or freed pointer, an
    uninitialised cell, an index past a buffer), [Timeout] a loop whose fuel
    ran out; the theorems show where the last two cannot happen. *)
Inductive res (A : Type) : Type :=
| Ok (a : A)
| Exit (why : string)
| UB (why : string)
| Timeout.
Arguments Ok {A} a.
Arguments Exit {A} why%_string.
Arguments UB {A} why%_string.
Arguments Timeout {A}.

Definition rbind {A B} (m : res A) (k : A -> res B) : res B :=
  match m with Ok a => k a | Exit w => Exit w | UB w => UB w | Timeout => Timeout end.

Declare Scope res_scope.
Delimit Scope res_scope with res.
Notation "'let*' x := m 'in' k" := (rbind m (fun x => k))
  (at level 10, x name, m at level 100, k at level 200) : res_scope.
Notation "'let*' ' p := m 'in' k" := (rbind m (fun x => match x with p => k end))
  (at level 10, p pattern, m at level 100, k at level 200) : res_scope.
#[global] Open Scope res_scope.

Lemma rbind_Ok {A B} (m : res A) (k : A -> res B) b :
  rbind m k = Ok b <-> exists a, m = Ok a /\ k a = Ok b.
Proof. destruct m; simpl; naive_solver. Qed.

Lemma rbind_assoc {A B C} (m : res A) (f : A -> res B) (g : B -> res C) :
  rbind (rbind m f) g = rbind m (fun a => rbind (f a) g).
Proof. by destruct m. Qed.

(** A dereference: a pointer to a dead object is undefined behaviour. *)
Definition deref {A} (why : string) (o : option A) : res A :=
  match o with Some a => Ok a | None => UB why end.
Arguments deref {A} why%_string o.

Lemma deref_Ok {A} w (o : option A) a : deref w o = Ok a <-> o = Some a.
Proof. destruct o; simpl; naive_solver. Qed.

Definition is_ok {A} (m : res A) : Prop := exists a, m = Ok a.
Definition no_ub {A} (m : res A) : Prop :=
  match m with UB _ | Timeout => False | _ => True end.

Lemma no_ub_bind {A B} (m : res A) (k : A -> res B) :
  no_ub m -> (forall a, m = Ok a -> no_ub (k a)) -> no_ub (rbind m k).
Proof. destruct m; simpl; eauto. Qed.

(** ** Lists *)

Lemma take_app_exact {A} (l1 l2 : list A) n : n = length l1 -> take n (l1 ++ l2) = l1.
Proof. intros ->. apply take_app_length. Qed.

Lemma drop_app_exact {A} (l1 l2 : list A) n : n = length l1 -> drop n (l1 ++ l2) = l2.
Proof. intros ->. apply drop_app_length. Qed.

(** Sum of the bytes of a buffer, the ADB checksum before it wraps. *)
Definition sum_bytes (l : bytes) : Z := foldr (fun b s => b2z b + s) 0 l.

Lemma sum_bytes_app l1 l2 : sum_bytes (l1 ++ l2) = sum_bytes l1 + sum_bytes l2.
Proof. induction l1; simpl; lia. Qed.

Lemma sum_bytes_nonneg l : 0 <= sum_bytes l.
Proof. induction l as [|b l IH]; simpl; [lia|]. pose proof (b2z_range b). lia. Qed.

(** Removal of every occurrence of an element from a list. *)
Definition remove_elt {A} `{EqDecision A} (x : A) (l : list A) : list A :=
  filter (fun y => y <> x) l.

Lemma elem_of_remove_elt {A} `{EqDecision A} (x y : A) l :
  y ∈ remove_elt x l <-> y ∈ l /\ y <> x.
Proof. unfold remove_elt. rewrite list_elem_of_filter. naive_solver. Qed.

Lemma NoDup_remove_elt {A} `{EqDecision A} (x : A) l : NoDup l -> NoDup (remove_elt x l).
Proof. apply NoDup_filter. Qed.

Lemma remove_elt_notin {A} `{EqDecision A} (x : A) l : x ∉ l -> remove_elt x l = l.
Proof.
  intros H. induction l as [|y l IH]; [done|]. unfold remove_elt in *.
  apply not_elem_of_cons in H as [Hne Hin].
  rewrite filter_cons_True by done. by rewrite IH.
Qed.

(** ** Automation *)

Create HintDb adb.
Create Rewrite HintDb adb.
#[export] Hint Resolve b2z_range wrap32_range unle32_range sum_bytes_nonneg : adb.
#[export] Hint Rewrite @length_app @length_take @length_drop length_le32 : adb.

(** Split the boolean test of the outermost [if] or the scrutinee of the
    outermost [match] of the goal, naming the equation. *)
Ltac case_if_goal :=
  match goal with
  | |- context [if ?b then _ else _] => let E := fresh "E" in destruct b eqn:E
  end.

(** Invert a monadic computation known to return [Ok]. *)
Ltac inv_res :=
  repeat match goal with
  | H : rbind _ _ = Ok _ |- _ =>
      let a := fresh "a" in let H1 := fresh "H" in let H2 := fresh "H" in
      apply rbind_Ok in H as (a & H1 & H2)
  | H : deref _ _ = Ok _ |- _ => apply deref_Ok in H
  | H : Ok _ = Ok _ |- _ => injection H as H
  | H : Ok _ = Exit _ |- _ => discriminate H
  | H : Exit _ = Ok _ |- _ => discriminate H
  | H : UB _ = Ok _ |- _ => discriminate H
  | H : Timeout = Ok _ |- _ => discriminate H
  end; simplify_eq/=.

(** ** Maps of which one cell changes *)

Section one_cell.
Context `{Countable K} {A : Type} (m m' : gmap K A) (p : K).

Section insert.
Context (a : A) (E : m' = <[p := a]> m).
Lemma cell_inv q b : m' !! q = Some b -> (q = p /\ b = a) \/ (q <> p /\ m !! q = Some b).
Proof. rewrite E. intros [[-> ->]|[? ?]]%lookup_insert_Some; auto. Qed.
Lemma cell_self : m' !! p = Some a.
Proof. rewrite E. apply lookup_insert_eq. Qed.
Lemma cell_other q : q <> p -> m' !! q = m !! q.
Proof. intros Hq. rewrite E. by apply lookup_insert_ne. Qed.
(** What holds of some cell, when the change of this one makes no difference. *)
Lemma cell_iff (P : A -> Prop) : (P a <-> exists b, m !! p = Some b /\ P b) ->
  forall q, (exists b, m' !! q = Some b /\ P b) <-> (exists b, m !! q = Some b /\ P b).
Proof. intros HP q. destruct (decide (q = p)) as [->|Hne]; [rewrite cell_self; naive_solver|by rewrite cell_other]. Qed.
End insert.

Section delete.
Context (E : m' = delete p m).
Lemma gone_inv q b : m' !! q = Some b -> q <> p /\ m !! q = Some b.
Proof. rewrite E. intros [? ?]%lookup_delete_Some. auto. Qed.
Lemma gone_other q : q <> p -> m' !! q = m !! q.
Proof. intros Hq. rewrite E. by apply lookup_delete_ne. Qed.
Lemma gone_iff (P : A -> Prop) q : (exists b, m' !! q = Some b /\ P b) <-> (exists b, m !! q = Some b /\ P b) /\ q <> p.
Proof.
  split; [intros (b & [? ?]%gone_inv & HP); eauto|]. intros [(b & Hb & HP) Hne]. exists b. by rewrite gone_other.
Qed.
End delete.
End one_cell.

(** Maps of which one component of every value changes. *)
Section pointwise.
Context `{Countable K} {A B : Type} (m m' : gmap K A) (f : A -> B) (g : K -> A -> B) (E : forall t, f <$> m' !! t = g t <$> m !! t).
Lemma pointwise_old t u' : m' !! t = Some u' -> exists u, m !! t = Some u /\ f u' = g t u.
Proof. intros Ht. specialize (E t). rewrite Ht in E. destruct (m !! t) as [u|]; [|done]. injection E as E'. eauto. Qed.
Lemma pointwise_new t u : m !! t = Some u -> exists u', m' !! t = Some u' /\ f u' = g t u.
Proof. intros Ht. specialize (E t). rewrite Ht in E. destruct (m' !! t) as [u'|]; [|done]. injection E as E'. eauto. Qed.
Lemma pointwise_live t : is_Some (m !! t) -> is_Some (m' !! t).
Proof. intros [u Hu]. destruct (pointwise_new t u Hu) as (u' & -> & _). eauto. Qed.
End pointwise.
