(* ===== verification/CString.v ===== *)
(** * The C library functions the program calls on strings and numbers

    A C string is the list of its bytes without the terminating NUL; a buffer is
    a list of bytes and [cstr] the string it holds.  The functions below follow
    the C standard (and glibc where the standard leaves the result open, as for
    [atoi] on overflow). *)

From S2P Require Import Prelude.

(** ** Characters *)

Definition ch (n : Z) : byte := z2b n.
Definition byte_eqb (a b : byte) : bool := bool_decide (a = b).
Definition isdigit (b : byte) : bool := (48 <=? b2z b) && (b2z b <=? 57).
Definition isspace (b : byte) : bool :=
  let z := b2z b in (z =? 32) || ((9 <=? z) && (z <=? 13)).

(** The value of a digit in bases up to 16. *)
Definition digit_value (b : byte) : option Z :=
  let z := b2z b in
  if (48 <=? z) && (z <=? 57) then Some (z - 48)
  else if (97 <=? z) && (z <=? 102) then Some (z - 97 + 10)
  else if (65 <=? z) && (z <=? 70) then Some (z - 65 + 10)
  else None.

(** ** Strings *)

(** The C string stored in a buffer: everything before the first NUL. *)
Fixpoint cstr (buf : bytes) : bytes :=
  match buf with
  | [] => []
  | b :: r => if byte_eqb b x00 then [] else b :: cstr r
  end.

Definition no_nul (s : bytes) : Prop := x00 ∉ s.

Lemma cstr_no_nul s rest : no_nul s -> cstr (s ++ x00 :: rest) = s.
Proof.
  unfold no_nul. induction s as [|b s IH]; intros H; [done|]. simpl.
  apply not_elem_of_cons in H as [Hb Hs]. unfold byte_eqb.
  rewrite bool_decide_false by congruence. f_equal. auto.
Qed.

Lemma cstr_id s : no_nul s -> cstr s = s.
Proof.
  unfold no_nul. induction s as [|b s IH]; intros H; [done|]. simpl.
  apply not_elem_of_cons in H as [Hb Hs]. unfold byte_eqb.
  rewrite bool_decide_false by congruence. f_equal. auto.
Qed.

(** [strncmp(s, pre, strlen(pre)) == 0]. *)
Fixpoint has_prefix (pre s : bytes) : bool :=
  match pre, s with
  | [], _ => true
  | p :: pre', c :: s' => byte_eqb p c && has_prefix pre' s'
  | _ :: _, [] => false
  end.

Lemma byte_eqb_true a b : byte_eqb a b = true <-> a = b.
Proof. apply bool_decide_eq_true. Qed.

Lemma byte_eqb_refl a : byte_eqb a a = true.
Proof. by apply byte_eqb_true. Qed.

Lemma byte_eqb_false a b : byte_eqb a b = false <-> a <> b.
Proof. apply bool_decide_eq_false. Qed.

Lemma has_prefix_true pre s :
  has_prefix pre s = true <-> exists rest, s = pre ++ rest.
Proof.
  revert s. induction pre as [|p pre IH]; intros s; simpl.
  - split; [by exists s|done].
  - destruct s as [|c s]; [split; [done|intros [? ?]; done]|].
    rewrite andb_true_iff, byte_eqb_true, IH. split.
    + intros [-> [rest ->]]. by exists rest.
    + intros [rest E]. injection E as -> ->. eauto.
Qed.

Lemma has_prefix_app pre rest : has_prefix pre (pre ++ rest) = true.
Proof. apply has_prefix_true. eauto. Qed.

(** [strcmp(a, b) == 0]. *)
Definition streq (a b : bytes) : bool := bool_decide (a = b).

Lemma streq_true a b : streq a b = true <-> a = b.
Proof. apply bool_decide_eq_true. Qed.

Lemma streq_false a b : streq a b = false <-> a <> b.
Proof. apply bool_decide_eq_false. Qed.

Lemma streq_refl a : streq a a = true.
Proof. by apply streq_true. Qed.

(** [strchr]: the string before the first occurrence of a character and the
    string after it. *)
Fixpoint split_chr (c : byte) (s : bytes) : option (bytes * bytes) :=
  match s with
  | [] => None
  | b :: r =>
      if byte_eqb b c then Some ([], r)
      else match split_chr c r with
           | Some (h, t) => Some (b :: h, t)
           | None => None
           end
  end.

Lemma split_chr_Some c s h t :
  split_chr c s = Some (h, t) -> s = h ++ c :: t /\ c ∉ h.
Proof.
  revert h t. induction s as [|b s IH]; intros h t; simpl; [done|].
  destruct (byte_eqb b c) eqn:E.
  - apply byte_eqb_true in E as ->. intros [= <- <-]. split; [done|]. set_solver.
  - apply byte_eqb_false in E. destruct (split_chr c s) as [[h' t']|]; [|done].
    intros [= <- <-]. destruct (IH h' t' eq_refl) as [-> Hn]. split; [done|].
    apply not_elem_of_cons. split; [congruence|done].
Qed.

Lemma split_chr_None c s : split_chr c s = None <-> c ∉ s.
Proof.
  induction s as [|b s IH]; simpl; [split; [intros _; apply not_elem_of_nil|done]|].
  destruct (byte_eqb b c) eqn:E.
  - apply byte_eqb_true in E as ->. split; [done|]. intros H. set_solver.
  - apply byte_eqb_false in E. rewrite not_elem_of_cons, <- IH.
    destruct (split_chr c s) as [[? ?]|]; naive_solver.
Qed.

Lemma split_chr_app c h t : c ∉ h -> split_chr c (h ++ c :: t) = Some (h, t).
Proof.
  induction h as [|b h IH]; intros H; simpl.
  - by rewrite byte_eqb_refl.
  - apply not_elem_of_cons in H as [Hb Hh].
    rewrite (proj2 (byte_eqb_false b c)) by congruence. by rewrite IH.
Qed.

(** [strrchr]: the string after the last occurrence of a character. *)
Fixpoint after_last (c : byte) (s : bytes) : option bytes :=
  match s with
  | [] => None
  | b :: r =>
      match after_last c r with
      | Some t => Some t
      | None => if byte_eqb b c then Some r else None
      end
  end.

Lemma after_last_Some c s t :
  after_last c s = Some t -> c ∉ t /\ exists h, s = h ++ c :: t.
Proof.
  revert t. induction s as [|b s IH]; intros t; simpl; [done|].
  destruct (after_last c s) as [t'|] eqn:E.
  - intros [= <-]. destruct (IH _ eq_refl) as [Hn [h ->]]. split; [done|]. by exists (b :: h).
  - destruct (byte_eqb b c) eqn:Eb; [|done]. apply byte_eqb_true in Eb as ->.
    intros [= <-]. split; [|by exists []]. clear IH.
    induction s as [|d s IH]; [apply not_elem_of_nil|]. simpl in E.
    destruct (after_last c s); [done|]. destruct (byte_eqb d c) eqn:Ed; [done|].
    apply byte_eqb_false in Ed. apply not_elem_of_cons. auto.
Qed.

Lemma after_last_None c s : c ∉ s -> after_last c s = None.
Proof.
  induction s as [|b s IH]; intros H; simpl; [done|].
  apply not_elem_of_cons in H as [Hb Hs]. rewrite IH by done.
  by rewrite (proj2 (byte_eqb_false b c)) by congruence.
Qed.

(** [memmem] and [strstr]: what follows the first occurrence of a substring. *)
Fixpoint after_sub (pat s : bytes) : option bytes :=
  if has_prefix pat s then Some (drop (length pat) s)
  else match s with
       | [] => None
       | _ :: r => after_sub pat r
       end.

Definition contains (pat s : bytes) : bool :=
  match after_sub pat s with Some _ => true | None => false end.

Lemma after_sub_Some pat s t :
  after_sub pat s = Some t -> exists h, s = h ++ pat ++ t.
Proof.
  revert t. induction s as [|b s IH]; intros t; simpl.
  - destruct (has_prefix pat []) eqn:E; [|done]. apply has_prefix_true in E as [r E].
    intros [= <-]. exists []. simpl. rewrite E. by rewrite drop_app_length.
  - destruct (has_prefix pat (b :: s)) eqn:E.
    + apply has_prefix_true in E as [r E]. intros [= <-]. exists []. simpl.
      rewrite E. by rewrite drop_app_length.
    + intros H. destruct (IH _ H) as [h ->]. by exists (b :: h).
Qed.

Lemma contains_app pat h t : contains pat (h ++ pat ++ t) = true.
Proof.
  unfold contains. induction h as [|b h IH]; cbn [app].
  - destruct (pat ++ t) as [|c r] eqn:E; simpl;
    rewrite <- E, has_prefix_app; done.
  - simpl. destruct (has_prefix pat (b :: h ++ pat ++ t)); done.
Qed.

(** [strtok_r] called repeatedly with a one-character separator: the non-empty
    tokens in order. *)
Fixpoint tokens_aux (sep : byte) (cur : bytes) (s : bytes) : list bytes :=
  match s with
  | [] => match cur with [] => [] | _ => [rev cur] end
  | b :: r =>
      if byte_eqb b sep
      then match cur with [] => tokens_aux sep [] r | _ => rev cur :: tokens_aux sep [] r end
      else tokens_aux sep (b :: cur) r
  end.
Definition tokens (sep : byte) (s : bytes) : list bytes := tokens_aux sep [] s.

Lemma tokens_aux_last sep cur s :
  sep ∉ s -> tokens_aux sep cur s = match rev cur ++ s with [] => [] | l => [l] end.
Proof.
  revert cur. induction s as [|b s IH]; intros cur H; simpl.
  - rewrite app_nil_r. destruct cur as [|c cur]; [done|]. simpl.
    destruct (rev cur ++ [c]) eqn:E; [by destruct (rev cur)|done].
  - apply not_elem_of_cons in H as [Hb Hs].
    rewrite (proj2 (byte_eqb_false b sep)) by congruence.
    rewrite IH by done. simpl. by rewrite <- app_assoc.
Qed.

Lemma tokens_aux_step sep cur tok rest :
  sep ∉ tok -> tokens_aux sep cur (tok ++ sep :: rest) =
  match rev cur ++ tok with [] => tokens_aux sep [] rest | l => l :: tokens_aux sep [] rest end.
Proof.
  revert cur. induction tok as [|b tok IH]; intros cur H; simpl.
  - rewrite byte_eqb_refl, app_nil_r. destruct cur as [|c cur]; [done|]. simpl.
    destruct (rev cur ++ [c]) eqn:E; [by destruct (rev cur)|done].
  - apply not_elem_of_cons in H as [Hb Ht].
    rewrite (proj2 (byte_eqb_false b sep)) by congruence.
    rewrite IH by done. simpl. by rewrite <- app_assoc.
Qed.

(** A well-formed ';'-terminated list of tokens is read back token by token. *)
Lemma tokens_join sep (l : list bytes) :
  Forall (fun t => t <> [] /\ sep ∉ t) l ->
  tokens sep (concat (map (fun t => t ++ [sep]) l)) = l.
Proof.
  induction 1 as [|t l [Hne Ht] _ IH]; [done|]. unfold tokens in *. simpl.
  rewrite <- app_assoc. simpl. rewrite tokens_aux_step by done. simpl.
  destruct t; [done|]. by rewrite IH.
Qed.

(** [snprintf] into a buffer of [size] bytes: the string the buffer then holds. *)
Definition snprintf (size : nat) (s : bytes) : bytes := take (size - 1) s.

Lemma snprintf_fits size s : (length s < size)%nat -> snprintf size s = s.
Proof. intros H. unfold snprintf. apply take_ge. lia. Qed.

Lemma snprintf_bound size s : (0 < size)%nat -> (length (snprintf size s) < size)%nat.
Proof. intros H. unfold snprintf. rewrite length_take. lia. Qed.

(** ** Numbers *)

(** Digits of a non-negative number, most significant first. *)
Fixpoint digits (base : Z) (fuel : nat) (n : Z) (acc : list Z) : list Z :=
  match fuel with
  | O => acc
  | S f => if n <? base then n :: acc else digits base f (n / base) (n mod base :: acc)
  end.

Definition of_digits (base : Z) (ds : list Z) : Z := foldl (fun n d => n * base + d) 0 ds.

Lemma foldl_digits base n ds :
  foldl (fun n d => n * base + d) n ds = n * base ^ Z.of_nat (length ds) + of_digits base ds.
Proof.
  unfold of_digits. revert n. induction ds as [|d ds IH]; intros n; cbn [foldl length].
  - rewrite Z.pow_0_r. lia.
  - rewrite IH, (IH (0 * base + d)), Nat2Z.inj_succ, Z.pow_succ_r by lia. ring.
Qed.

Lemma of_digits_digits base fuel n acc :
  2 <= base -> 0 <= n < base ^ Z.of_nat fuel ->
  of_digits base (digits base fuel n acc) =
  n * base ^ Z.of_nat (length acc) + of_digits base acc.
Proof.
  intros Hb. revert n acc. induction fuel as [|f IH]; intros n acc Hn; cbn [digits].
  - rewrite Z.pow_0_r in Hn. replace n with 0 by lia. lia.
  - rewrite Nat2Z.inj_succ, Z.pow_succ_r in Hn by lia.
    destruct (Z.ltb_spec n base).
    + unfold of_digits. cbn [foldl]. rewrite foldl_digits. unfold of_digits. ring.
    + pose proof (Z.div_lt_upper_bound n base (base ^ Z.of_nat f) ltac:(lia) ltac:(lia)).
      pose proof (Z.div_pos n base ltac:(lia) ltac:(lia)).
      rewrite IH by lia. unfold of_digits at 1. cbn [foldl length].
      rewrite foldl_digits, Nat2Z.inj_succ, Z.pow_succ_r by lia.
      rewrite (Z.div_mod n base) at 3 by lia. ring.
Qed.

Lemma digits_range base fuel n acc :
  2 <= base -> 0 <= n ->
  Forall (fun d => 0 <= d < base) acc ->
  Forall (fun d => 0 <= d < base) (digits base fuel n acc).
Proof.
  intros Hb. revert n acc. induction fuel as [|f IH]; intros n acc Hn Ha; cbn [digits]; [done|].
  destruct (Z.ltb_spec n base); [constructor; [lia|done]|].
  apply IH; [by apply Z.div_pos; lia|]. constructor; [|done]. apply Z.mod_pos_bound. lia.
Qed.

Lemma digits_nonempty base fuel n acc :
  acc <> [] \/ (0 < fuel)%nat -> digits base fuel n acc <> [].
Proof.
  revert n acc. induction fuel as [|f IH]; intros n acc H; cbn [digits]; [naive_solver lia|].
  destruct (n <? base); [done|]. apply IH. by left.
Qed.

(** The character of a digit, as [printf] writes it (lower-case hexadecimal). *)
Definition digit_char (d : Z) : byte := if d <? 10 then ch (48 + d) else ch (97 + d - 10).

Lemma digit_value_char d : 0 <= d < 16 -> digit_value (digit_char d) = Some d.
Proof.
  intros H. assert (d = 0 \/ d = 1 \/ d = 2 \/ d = 3 \/ d = 4 \/ d = 5 \/ d = 6 \/ d = 7 \/
    d = 8 \/ d = 9 \/ d = 10 \/ d = 11 \/ d = 12 \/ d = 13 \/ d = 14 \/ d = 15) as Hd by lia.
  destruct_or! Hd; subst d; reflexivity.
Qed.

(** Enough digits for any 64-bit number in base 10 or 16. *)
Definition num_fuel : nat := 24.

(** ["%d"] and ["%u"]. *)
Definition fmt_dec (z : Z) : bytes :=
  if z <? 0 then ch 45 :: map digit_char (digits 10 num_fuel (- z) [])
  else map digit_char (digits 10 num_fuel z []).

(** ["%0<w>x"] on an [unsigned]. *)
Definition pad_zero (w : nat) (l : list Z) : list Z := replicate (w - length l) 0 ++ l.
Definition fmt_hex (w : nat) (z : Z) : bytes :=
  map digit_char (pad_zero w (digits 16 num_fuel z [])).

(** The digit values a numeric prefix of a string has in a base, and the rest. *)
Fixpoint digit_prefix (base : Z) (s : bytes) : list Z * bytes :=
  match s with
  | [] => ([], [])
  | b :: r =>
      match digit_value b with
      | Some d => if d <? base then let '(ds, t) := digit_prefix base r in (d :: ds, t)
                  else ([], s)
      | None => ([], s)
      end
  end.

Fixpoint skip_spaces (s : bytes) : bytes :=
  match s with
  | b :: r => if isspace b then skip_spaces r else s
  | [] => []
  end.

Definition sign_prefix (s : bytes) : bool * bytes :=
  match s with
  | b :: r => if b2z b =? 45 then (true, r) else if b2z b =? 43 then (false, r) else (false, s)
  | [] => (false, [])
  end.

Definition clamp64 (z : Z) : Z :=
  Z.max (-9223372036854775808) (Z.min 9223372036854775807 z).

(** [strtol(s, NULL, 10)] with a 64-bit [long]: saturation on overflow, 0 when
    there are no digits. *)
Definition strtol10 (s : bytes) : Z :=
  let '(neg, r) := sign_prefix (skip_spaces s) in
  let v := of_digits 10 (fst (digit_prefix 10 r)) in
  clamp64 (if neg then - v else v).

(** glibc's [atoi] is [(int) strtol(s, NULL, 10)]. *)
Definition atoi (s : bytes) : Z := to_int (strtol10 s).

(** Does [sscanf(s, "%d", &v)] assign (return 1)? *)
Definition has_decimal (s : bytes) : bool :=
  let '(_, r) := sign_prefix (skip_spaces s) in
  match fst (digit_prefix 10 r) with [] => false | _ => true end.

(** [strtoul(s, NULL, 16)] with a 64-bit [unsigned long], for a string of at
    most a few digits: an optional sign and an optional 0x prefix. *)
Definition strtoul16 (s : bytes) : Z :=
  let '(neg, r) := sign_prefix (skip_spaces s) in
  let r' := match r with
            | z :: x :: d :: t =>
                if (b2z z =? 48) && ((b2z x =? 120) || (b2z x =? 88)) &&
                   bool_decide (is_Some (digit_value d)) then d :: t else r
            | _ => r
            end in
  let v := of_digits 16 (fst (digit_prefix 16 r')) in
  (if neg then - v else v) mod 18446744073709551616.

Lemma digit_prefix_chars base ds rest :
  base <= 16 -> Forall (fun d => 0 <= d < base) ds ->
  match rest with [] => True | b :: _ => digit_value b = None end ->
  digit_prefix base (map digit_char ds ++ rest) = (ds, rest).
Proof.
  intros Hb Hd Hr. induction Hd as [|d ds Hd _ IH]; cbn [map app digit_prefix].
  - destruct rest as [|b r]; [done|]. simpl. by rewrite Hr.
  - rewrite digit_value_char by lia. rewrite (proj2 (Z.ltb_lt d base)) by lia. by rewrite IH.
Qed.

Lemma digit_char_plain d rest : 0 <= d < 10 ->
  skip_spaces (digit_char d :: rest) = digit_char d :: rest /\
  sign_prefix (digit_char d :: rest) = (false, digit_char d :: rest).
Proof.
  intros H. assert (d = 0 \/ d = 1 \/ d = 2 \/ d = 3 \/ d = 4 \/ d = 5 \/ d = 6 \/ d = 7 \/
    d = 8 \/ d = 9) as Hd by lia.
  destruct_or! Hd; subst d; split; reflexivity.
Qed.

Lemma fmt_dec_nonneg_digits z :
  0 <= z < 1000000000000000000 ->
  exists d ds, digits 10 num_fuel z [] = d :: ds /\ Forall (fun d => 0 <= d < 10) (d :: ds) /\
  of_digits 10 (d :: ds) = z.
Proof.
  intros Hz. pose proof (digits_range 10 num_fuel z [] ltac:(lia) ltac:(lia) ltac:(constructor)).
  pose proof (digits_nonempty 10 num_fuel z [] ltac:(right; unfold num_fuel; lia)).
  pose proof (of_digits_digits 10 num_fuel z [] ltac:(lia)) as E.
  destruct (digits 10 num_fuel z []) as [|d ds]; [done|]. exists d, ds. split_and!; [done..|].
  rewrite E; [unfold of_digits; simpl; lia|]. unfold num_fuel. simpl. lia.
Qed.

Lemma length_digits base fuel n acc : (length (digits base fuel n acc) <= fuel + 1 + length acc)%nat.
Proof.
  revert n acc. induction fuel as [|f IH]; intros n acc; cbn [digits]; [simpl; lia|].
  destruct (n <? base); [simpl; lia|]. specialize (IH (n / base) (n mod base :: acc)). simpl in IH. lia.
Qed.
Lemma length_fmt_dec z : (length (fmt_dec z) <= 40)%nat.
Proof.
  unfold fmt_dec. pose proof (length_digits 10 num_fuel z []) as H1. pose proof (length_digits 10 num_fuel (- z) []) as H2. unfold num_fuel in *.
  cbn [length] in H1, H2. destruct (z <? 0); cbn [length]; rewrite length_map; lia.
Qed.

(** Printing an [int] and reading it back with [strtol], with any non-digit after it. *)
Lemma strtol10_fmt_dec z rest :
  -1000000000000000000 < z < 1000000000000000000 ->
  match rest with [] => True | b :: _ => digit_value b = None end ->
  strtol10 (fmt_dec z ++ rest) = z.
Proof.
  intros Hz Hr. unfold strtol10, fmt_dec. destruct (Z.ltb_spec z 0).
  - destruct (fmt_dec_nonneg_digits (- z) ltac:(lia)) as (d & ds & -> & Hf & Hv).
    cbn [app skip_spaces]. change (isspace (ch 45)) with false. cbn [sign_prefix].
    change (b2z (ch 45) =? 45) with true. cbv iota.
    rewrite digit_prefix_chars by (done || lia). cbn [fst]. rewrite Hv. unfold clamp64. lia.
  - destruct (fmt_dec_nonneg_digits z ltac:(lia)) as (d & ds & -> & Hf & Hv).
    cbn [map app]. inversion Hf as [|? ? Hd Hds]; subst.
    destruct (digit_char_plain d (map digit_char ds ++ rest) Hd) as [-> ->].
    change (digit_char d :: map digit_char ds ++ rest) with (map digit_char (d :: ds) ++ rest).
    rewrite digit_prefix_chars by (done || lia). cbn [fst]. unfold clamp64. lia.
Qed.

Lemma atoi_fmt_dec z rest :
  -2147483648 <= z < 2147483648 ->
  match rest with [] => True | b :: _ => digit_value b = None end ->
  atoi (fmt_dec z ++ rest) = z.
Proof.
  intros Hz Hr. unfold atoi. rewrite strtol10_fmt_dec by (done || lia).
  unfold to_int, wrap32, u32_mod. destruct (Z.ltb_spec (z mod 4294967296) 2147483648); div_mod_lia.
Qed.

(** [strtol(s, NULL, 0)]: the base is 16 after 0x, 8 after 0, and 10 otherwise. *)
Definition strtol0 (s : bytes) : Z :=
  let '(neg, r) := sign_prefix (skip_spaces s) in
  let v :=
    match r with
    | z :: x :: d :: t =>
        if b2z z =? 48 then
          if ((b2z x =? 120) || (b2z x =? 88)) && bool_decide (is_Some (digit_value d))
          then of_digits 16 (fst (digit_prefix 16 (d :: t)))
          else of_digits 8 (fst (digit_prefix 8 r))
        else of_digits 10 (fst (digit_prefix 10 r))
    | z :: _ => if b2z z =? 48 then of_digits 8 (fst (digit_prefix 8 r)) else of_digits 10 (fst (digit_prefix 10 r))
    | [] => 0
    end in
  clamp64 (if neg then - v else v).

(** [sscanf(s, "%d", &v)] returns -1 at the end of the string, 0 when no number
    follows, and 1 when it has assigned one. *)
Inductive scanned := ScanEof | ScanFail | Scan (v : Z).
Definition sscanf_d (s : bytes) : scanned :=
  match skip_spaces s with
  | [] => ScanEof
  | _ => if has_decimal s then Scan (to_int (strtol10 s)) else ScanFail
  end.

Lemma sscanf_d_fmt_dec z : 0 <= z < 2147483648 -> sscanf_d (fmt_dec z) = Scan z.
Proof.
  intros Hz. unfold sscanf_d. pose proof (atoi_fmt_dec z [] ltac:(lia) I) as Ha. rewrite app_nil_r in Ha.
  unfold atoi in Ha. rewrite Ha. unfold has_decimal, fmt_dec. rewrite (proj2 (Z.ltb_ge z 0)) by lia.
  destruct (fmt_dec_nonneg_digits z ltac:(lia)) as (d & ds & -> & Hf & Hv). cbn [map]. inversion Hf as [|? ? Hd Hds]; subst.
  destruct (digit_char_plain d (map digit_char ds) Hd) as [-> ->].
  change (digit_char d :: map digit_char ds) with (map digit_char (d :: ds)).
  rewrite <- (app_nil_r (map digit_char (d :: ds))), digit_prefix_chars by (done || lia). done.
Qed.

(** The four digits of a length header. *)
Lemma hex4 n : 0 <= n < 65536 ->
  fmt_hex 4 n = map digit_char [n / 4096; (n / 256) mod 16; (n / 16) mod 16; n mod 16].
Proof.
  intros Hn. unfold fmt_hex. f_equal. unfold num_fuel, pad_zero. cbn [digits].
  destruct (Z.ltb_spec n 16) as [H1|H1]; [|destruct (Z.ltb_spec (n / 16) 16) as [H2|H2];
    [|destruct (Z.ltb_spec (n / 16 / 16) 16) as [H3|H3]; [|rewrite (proj2 (Z.ltb_lt (n / 16 / 16 / 16) 16)) by div_mod_lia]]];
    cbn [length replicate Nat.sub app]; repeat (apply (f_equal2 cons); [div_mod_lia|]); reflexivity.
Qed.

Lemma hex4_digits n : 0 <= n < 65536 ->
  Forall (fun d => 0 <= d < 16) [n / 4096; (n / 256) mod 16; (n / 16) mod 16; n mod 16] /\
  of_digits 16 [n / 4096; (n / 256) mod 16; (n / 16) mod 16; n mod 16] = n.
Proof. intros Hn. split; [repeat constructor; div_mod_lia|]. unfold of_digits. cbn [foldl]. div_mod_lia. Qed.

Lemma length_hex4 n : 0 <= n < 65536 -> length (fmt_hex 4 n) = 4%nat.
Proof. intros Hn. by rewrite hex4. Qed.

(** [strtoul(buf, 0, 16)] of a length header that was read into [buf]. *)
Lemma digit_char_hex_plain d rest : 0 <= d < 16 ->
  skip_spaces (digit_char d :: rest) = digit_char d :: rest /\ sign_prefix (digit_char d :: rest) = (false, digit_char d :: rest).
Proof.
  intros H. assert (d = 0 \/ d = 1 \/ d = 2 \/ d = 3 \/ d = 4 \/ d = 5 \/ d = 6 \/ d = 7 \/
    d = 8 \/ d = 9 \/ d = 10 \/ d = 11 \/ d = 12 \/ d = 13 \/ d = 14 \/ d = 15) as Hd by lia.
  destruct_or! Hd; subst d; split; reflexivity.
Qed.
Lemma digit_char_not_x d : 0 <= d < 16 -> (b2z (digit_char d) =? 120) || (b2z (digit_char d) =? 88) = false.
Proof.
  intros H. assert (d = 0 \/ d = 1 \/ d = 2 \/ d = 3 \/ d = 4 \/ d = 5 \/ d = 6 \/ d = 7 \/
    d = 8 \/ d = 9 \/ d = 10 \/ d = 11 \/ d = 12 \/ d = 13 \/ d = 14 \/ d = 15) as Hd by lia.
  destruct_or! Hd; subst d; reflexivity.
Qed.

Lemma strtoul16_hex4 n : 0 <= n < 65536 -> strtoul16 (fmt_hex 4 n) = n.
Proof.
  intros Hn. destruct (hex4_digits n Hn) as [Hd Hv]. rewrite hex4 by done.
  set (d0 := n / 4096) in *. set (d1 := (n / 256) mod 16) in *. set (d2 := (n / 16) mod 16) in *. set (d3 := n mod 16) in *.
  pose proof (Forall_inv Hd) as H0. pose proof (Forall_inv (Forall_inv_tail Hd)) as H1. cbn beta in H0, H1.
  unfold strtoul16. cbn [map]. destruct (digit_char_hex_plain d0 (map digit_char [d1; d2; d3]) H0) as [E1 E2].
  cbn [map] in E1, E2. rewrite E1, E2, (digit_char_not_x d1 H1), andb_false_r. cbn [andb].
  change ([digit_char d0; digit_char d1; digit_char d2; digit_char d3]) with (map digit_char [d0; d1; d2; d3]).
  rewrite <- (app_nil_r (map digit_char _)), digit_prefix_chars by (done || lia). cbn [fst]. rewrite Hv.
  apply Z.mod_small. lia.
Qed.
