(* ===== verification/Io.v ===== *)
(** * System calls and the exact-transfer loops [readx] and [writex]

    The kernel is a parameter of the program, so a file descriptor is modelled
    by the results it will give: a script of answers to [read] and one of
    answers to [write], with the bytes written so far.  [adb_read] and
    [adb_write] (sysdeps.h) retry [EINTR]; [readx] and [writex] (transport.c)
    loop until the whole buffer is transferred.  The theorems show that the two
    loops terminate and that their result depends only on the byte stream and
    never on how the kernel cuts it into chunks. *)

From S2P Require Import Prelude.

(** One answer of [read(fd, buf, n)]: bytes ([[]] is end of file; a chunk larger
    than the buffer is delivered over several calls), or an error. *)
Inductive rres := RBytes (b : bytes) | RIntr | RAgain | RFail.

(** One answer of [write(fd, buf, n)]: [WUpto k] accepts at most [S k] bytes. *)
Inductive wres := WUpto (k : nat) | WIntr | WAgain | WZero | WFail.

(** What a call returned to the program, with [errno] when it is -1. *)
Inductive ioret := Got (b : bytes) | Eof | Again | Err.
Inductive wrret := Wrote (n : nat) | WroteZero | WAgainR | WErrR.

(** [adb_read]: [TEMP_FAILURE_RETRY(read(fd, buf, len))].  An exhausted script is
    a peer that is gone. *)
Fixpoint adb_read (n : nat) (script : list rres) : ioret * list rres :=
  match script with
  | [] => (Eof, [])
  | RIntr :: s => adb_read n s
  | RAgain :: s => (Again, s)
  | RFail :: s => (Err, s)
  | RBytes [] :: s => (Eof, s)
  | RBytes (b :: l) :: s =>
      if (length (b :: l) <=? n)%nat then (Got (b :: l), s)
      else (Got (take n (b :: l)), RBytes (drop n (b :: l)) :: s)
  end.

(** [adb_write]: [TEMP_FAILURE_RETRY(write(fd, buf, len))].  An exhausted script
    accepts everything. *)
Fixpoint adb_write (n : nat) (script : list wres) : wrret * list wres :=
  match script with
  | [] => (Wrote n, [])
  | WIntr :: s => adb_write n s
  | WAgain :: s => (WAgainR, s)
  | WZero :: s => (WroteZero, s)
  | WFail :: s => (WErrR, s)
  | WUpto k :: s => (Wrote (Nat.min (S k) n), s)
  end.

(** [readx]: read exactly [n] bytes or fail.  [acc] is what the buffer holds. *)
Fixpoint readx_loop (fuel n : nat) (acc : bytes) (s : list rres)
  : res (option bytes * list rres) :=
  match n with
  | O => Ok (Some acc, s)
  | _ =>
    match fuel with
    | O => Timeout
    | S f =>
      match adb_read n s with
      | (Got b, s') => readx_loop f (n - length b) (acc ++ b) s'
      | (_, s') => Ok (None, s')
      end
    end
  end.
Definition readx (n : nat) (s : list rres) : res (option bytes * list rres) :=
  readx_loop n n [] s.

(** [writex]: write the whole buffer, yielding and retrying on [EAGAIN].  The
    result is success or failure, the bytes that reached the descriptor and the
    rest of the script. *)
Fixpoint writex_loop (fuel : nat) (data sent : bytes) (s : list wres)
  : res (bool * bytes * list wres) :=
  match data with
  | [] => Ok (true, sent, s)
  | _ =>
    match fuel with
    | O => Timeout
    | S f =>
      match adb_write (length data) s with
      | (Wrote n, s') => writex_loop f (drop n data) (sent ++ take n data) s'
      | (WAgainR, s') => writex_loop f data sent s'
      | (_, s') => Ok (false, sent, s')
      end
    end
  end.
Definition writex (data : bytes) (s : list wres) : res (bool * bytes * list wres) :=
  writex_loop (length data + length s) data [] s.

(** ** The byte stream of a descriptor *)

(** Everything a descriptor delivers before its first end of file or error. *)
Fixpoint stream (s : list rres) : bytes :=
  match s with
  | RIntr :: s' => stream s'
  | RBytes (b :: l) :: s' => (b :: l) ++ stream s'
  | _ => []
  end.

Lemma adb_read_stream n s : (0 < n)%nat ->
  match adb_read n s with
  | (Got b, s') => stream s = b ++ stream s' /\ (0 < length b <= n)%nat
  | (_, _) => stream s = []
  end.
Proof.
  intros Hn. induction s as [|[[|b l]| | |] s IH]; cbn [adb_read stream]; try done.
  destruct (Nat.leb_spec (length (b :: l)) n) as [Hl|Hl].
  - split; [done|]. simpl in *. lia.
  - rewrite length_take. split; [|lia].
    assert (drop n (b :: l) <> []) as Hd.
    { intros E. apply (f_equal length) in E. rewrite length_drop in E. simpl in *. lia. }
    destruct (drop n (b :: l)) as [|c t] eqn:E; [done|].
    cbn [stream]. rewrite <- E, app_assoc, take_drop. done.
Qed.

(** The full specification of [readx]: it always terminates; it returns exactly
    the next [n] bytes of the stream when there are that many, whatever the
    chunk boundaries, and fails otherwise. *)
Lemma readx_loop_spec fuel n acc s : (n <= fuel)%nat ->
  exists s',
    readx_loop fuel n acc s =
      Ok (if (n <=? length (stream s))%nat then Some (acc ++ take n (stream s)) else None, s') /\
    ((n <= length (stream s))%nat -> stream s' = drop n (stream s)).
Proof.
  revert n acc s. induction fuel as [|f IH]; intros n acc s Hf.
  - replace n with 0%nat by lia. exists s. cbn. rewrite app_nil_r. done.
  - destruct n as [|n]; [exists s; cbn; rewrite app_nil_r; done|].
    cbn [readx_loop]. pose proof (adb_read_stream (S n) s ltac:(lia)) as Hr.
    destruct (adb_read (S n) s) as [[b| | |] s']; try (exists s'; rewrite Hr; cbn; split; [done|lia]).
    destruct Hr as [-> [H1 H2]].
    destruct (IH (S n - length b)%nat (acc ++ b) s' ltac:(lia)) as (s'' & -> & Hs).
    exists s''. rewrite length_app, take_app, <- app_assoc, drop_app.
    rewrite (take_ge b) by lia. rewrite (drop_ge b) by lia. simpl app at 3. split.
    + destruct (Nat.leb_spec (S n - length b) (length (stream s')));
      destruct (Nat.leb_spec (S n) (length b + length (stream s'))); (lia || done).
    + intros. apply Hs. lia.
Qed.

Lemma readx_spec n s :
  exists s',
    readx n s = Ok (if (n <=? length (stream s))%nat then Some (take n (stream s)) else None, s') /\
    ((n <= length (stream s))%nat -> stream s' = drop n (stream s)).
Proof. apply (readx_loop_spec n n [] s). lia. Qed.

(** Reading a message that is a prefix of the stream. *)
Lemma readx_app n s b rest :
  stream s = b ++ rest -> length b = n ->
  exists s', readx n s = Ok (Some b, s') /\ stream s' = rest.
Proof.
  intros E Hl. destruct (readx_spec n s) as (s' & -> & H). exists s'.
  rewrite E in *. rewrite length_app in *.
  rewrite (proj2 (Nat.leb_le _ _)) by lia.
  rewrite take_app_exact by lia. split; [done|].
  rewrite H by lia. by rewrite drop_app_exact by lia.
Qed.

Lemma readx_short n s :
  (length (stream s) < n)%nat -> exists s', readx n s = Ok (None, s').
Proof.
  intros H. destruct (readx_spec n s) as (s' & -> & _).
  rewrite (proj2 (Nat.leb_gt _ _)) by lia. eauto.
Qed.

Definition wr_blocks (w : wres) : bool :=
  match w with WZero | WFail => true | _ => false end.

Lemma adb_write_cases n s :
  match adb_write n s with
  | (Wrote m, s') => (m <= n)%nat /\ ((0 < n)%nat -> (0 < m)%nat) /\ s' `suffix_of` s
  | (WAgainR, s') => (length s' < length s)%nat /\ s' `suffix_of` s
  | (_, s') => Exists (fun w => wr_blocks w = true) s /\ s' `suffix_of` s
  end.
Proof.
  induction s as [|[k| | | |] s IH]; cbn [adb_write length].
  - split_and!; [lia|lia|apply suffix_nil].
  - split_and!; [lia|lia|]. by apply suffix_cons_r.
  - destruct (adb_write n s) as [[m| | |] s']; destruct_and?; split_and?; auto using suffix_cons_r; lia.
  - split; [lia|]. by apply suffix_cons_r.
  - split; [by constructor|]. by apply suffix_cons_r.
  - split; [by constructor|]. by apply suffix_cons_r.
Qed.

(** [writex] always terminates; on success every byte was written, in order; on
    failure what was written is a proper prefix; and it fails only when the
    kernel refused a write. *)
Lemma writex_loop_spec fuel data sent s : (length data + length s <= fuel)%nat ->
  exists ok out s',
    writex_loop fuel data sent s = Ok (ok, sent ++ out, s') /\ s' `suffix_of` s /\
    (if ok then out = data
     else out `prefix_of` data /\ Exists (fun w => wr_blocks w = true) s).
Proof.
  revert data sent s. induction fuel as [|f IH]; intros data sent s Hf.
  { destruct data; [|simpl in *; lia]. exists true, [], s. cbn. rewrite app_nil_r. done. }
  destruct data as [|d data]; [exists true, [], s; cbn; rewrite app_nil_r; done|].
  cbn [writex_loop]. pose proof (adb_write_cases (length (d :: data)) s) as Hw.
  destruct (adb_write (length (d :: data)) s) as [[m| | |] s'].
  - destruct Hw as (Hm & Hp & Hsuf). specialize (Hp ltac:(simpl; lia)).
    pose proof (suffix_length _ _ Hsuf) as Hsl.
    destruct (IH (drop m (d :: data)) (sent ++ take m (d :: data)) s') as (ok & out & s'' & -> & Hs & H).
    { rewrite length_drop. simpl in *. lia. }
    exists ok, (take m (d :: data) ++ out), s''. rewrite app_assoc. split_and!; [done|by etrans|].
    destruct ok; [subst; apply take_drop|]. destruct H as [Hpre Hex]. split.
    + rewrite <- (take_drop m (d :: data)) at 2. by apply prefix_app.
    + destruct Hsuf as [pre ->]. apply Exists_app. by right.
  - destruct Hw as [Hex Hsuf]. exists false, [], s'. rewrite app_nil_r.
    split_and!; [done..|apply prefix_nil|done].
  - destruct Hw as [Hl Hsuf]. destruct (IH (d :: data) sent s') as (ok & out & s'' & -> & Hs & H).
    { simpl in *. lia. }
    exists ok, out, s''. split_and!; [done|by etrans|]. destruct ok; [done|].
    destruct H as [Hpre Hex]. split; [done|]. destruct Hsuf as [pre ->]. apply Exists_app. by right.
  - destruct Hw as [Hex Hsuf]. exists false, [], s'. rewrite app_nil_r.
    split_and!; [done..|apply prefix_nil|done].
Qed.

Lemma writex_spec data s :
  exists ok out s',
    writex data s = Ok (ok, out, s') /\ s' `suffix_of` s /\
    (if ok then out = data
     else out `prefix_of` data /\ Exists (fun w => wr_blocks w = true) s).
Proof. apply (writex_loop_spec _ data [] s). lia. Qed.
