(* ===== verification/Wire.v ===== *)
(** * The ADB wire protocol: messages, packets, checks and framing

    Models the message and packet structures of adb.h, the header that
    [send_packet] fills in and the two checks of transport.c, and the two
    implementations of [read_from_remote]/[write_to_remote]: a TCP stream
    (transport_local.c) and USB bulk transfers (transport_usb.c over
    usb_linux.c).  Both implement one interface, the class [RemoteIO]. *)

From S2P Require Import Prelude Io.

(** ** Constants of adb.h *)

Definition MAX_PAYLOAD : Z := 4096.
Definition A_SYNC : Z := 0x434e5953.
Definition A_CNXN : Z := 0x4e584e43.
Definition A_OPEN : Z := 0x4e45504f.
Definition A_OKAY : Z := 0x59414b4f.
Definition A_CLSE : Z := 0x45534c43.
Definition A_WRTE : Z := 0x45545257.
Definition A_AUTH : Z := 0x48545541.
Definition A_HDSK : Z := 0x4b534448.
Definition PAX_HANDSHAKE_REQ : Z := 1.
Definition PAX_HANDSHAKE_RES : Z := 2.
Definition PAX_HANDSHAKE_MAGIC : bytes := lit "paxadb".
Definition A_VERSION : Z := 0x01000000.
Definition ADB_AUTH_TOKEN : Z := 1.
Definition ADB_AUTH_SIGNATURE : Z := 2.
Definition ADB_AUTH_RSAPUBLICKEY : Z := 3.

(** ** Messages and packets *)

Record amessage := mkmsg {
  command : Z; arg0 : Z; arg1 : Z; data_length : Z; data_check : Z; magic : Z }.

(** A packet: its header and the initialised prefix of its 4096-byte data
    array.  [p_len] and [p_ptr] are the queueing fields [len] and [ptr - data]. *)
Record apacket := mkpkt { msg : amessage; p_len : Z; p_ptr : nat; data : bytes }.

#[export] Instance amessage_eq_dec : EqDecision amessage.
Proof. solve_decision. Defined.
#[export] Instance apacket_eq_dec : EqDecision apacket.
Proof. solve_decision. Defined.

(** [get_apacket]: everything but the data array is zeroed. *)
Definition get_apacket : apacket := mkpkt (mkmsg 0 0 0 0 0 0) 0 0 [].

Definition with_msg (m : amessage) (p : apacket) : apacket :=
  mkpkt m (p_len p) (p_ptr p) (data p).
Definition with_data (d : bytes) (p : apacket) : apacket :=
  mkpkt (msg p) (p_len p) (p_ptr p) d.
Definition with_len (n : Z) (p : apacket) : apacket :=
  mkpkt (msg p) n (p_ptr p) (data p).

(** ** The checksum *)

(** [while (count-- > 0) sum += *x++;] over the data array, in [unsigned]. *)
Fixpoint checksum_loop (count : nat) (x : bytes) (sum : Z) : res Z :=
  match count with
  | O => Ok sum
  | S c =>
      match x with
      | [] => UB "read past the initialised packet data"
      | b :: r => checksum_loop c r (wrap32 (sum + b2z b))
      end
  end.
Definition checksum (m : amessage) (d : bytes) : res Z :=
  checksum_loop (Z.to_nat (data_length m)) d 0.

(** [send_packet] before the packet is queued: the magic and the checksum. *)
Definition send_packet_fill (p : apacket) : res apacket :=
  let m := msg p in
  let* sum := checksum m (data p) in
  Ok (with_msg (mkmsg (command m) (arg0 m) (arg1 m) (data_length m) sum
                      (Z.lxor (command m) 0xffffffff)) p).

(** [check_header]: 0 is accepted. *)
Definition check_header (p : apacket) : bool :=
  let m := msg p in
  if negb (magic m =? Z.lxor (command m) 0xffffffff) then false
  else if MAX_PAYLOAD <? data_length m then false
  else true.

(** [check_data]. *)
Definition check_data (p : apacket) : res bool :=
  let* sum := checksum (msg p) (data p) in
  Ok (sum =? data_check (msg p)).

(** ** Serialisation of the 24-byte header *)

Definition encode_msg (m : amessage) : bytes :=
  le32 (command m) ++ le32 (arg0 m) ++ le32 (arg1 m) ++
  le32 (data_length m) ++ le32 (data_check m) ++ le32 (magic m).

Definition decode_msg (b : bytes) : amessage :=
  mkmsg (unle32 b) (unle32 (drop 4 b)) (unle32 (drop 8 b))
        (unle32 (drop 12 b)) (unle32 (drop 16 b)) (unle32 (drop 20 b)).

Definition msg_ok (m : amessage) : Prop :=
  is_u32 (command m) /\ is_u32 (arg0 m) /\ is_u32 (arg1 m) /\
  is_u32 (data_length m) /\ is_u32 (data_check m) /\ is_u32 (magic m).

Lemma length_encode_msg m : length (encode_msg m) = 24%nat.
Proof. reflexivity. Qed.

Lemma decode_encode_msg m rest : msg_ok m -> decode_msg (encode_msg m ++ rest) = m.
Proof.
  destruct m as [c a0 a1 dl dc mg]. intros (Hc & H0 & H1 & Hl & Hd & Hm).
  unfold decode_msg, encode_msg. cbn [command arg0 arg1 data_length data_check magic] in *.
  rewrite <- !app_assoc, unle32_le32_app, (wrap32_id c) by done.
  set (r5 := le32 mg ++ rest). set (r4 := le32 dc ++ r5). set (r3 := le32 dl ++ r4).
  set (r2 := le32 a1 ++ r3).
  change (drop 4 (le32 c ++ le32 a0 ++ r2)) with (le32 a0 ++ r2).
  change (drop 8 (le32 c ++ le32 a0 ++ r2)) with r2.
  change (drop 12 (le32 c ++ le32 a0 ++ r2)) with r3.
  change (drop 16 (le32 c ++ le32 a0 ++ r2)) with r4.
  change (drop 20 (le32 c ++ le32 a0 ++ r2)) with r5.
  unfold r2, r3, r4, r5. rewrite !unle32_le32_app, !wrap32_id by done.
  done.
Qed.

Lemma decode_msg_ok b : msg_ok (decode_msg b).
Proof. unfold msg_ok, decode_msg; simpl. split_and!; apply unle32_range. Qed.

(** ** Facts about the checksum *)

Lemma checksum_loop_spec n x sum :
  (n <= length x)%nat -> is_u32 sum ->
  checksum_loop n x sum = Ok (wrap32 (sum + sum_bytes (take n x))).
Proof.
  revert x sum. induction n as [|n IH]; intros x sum Hn Hs; cbn [checksum_loop take sum_bytes].
  - simpl. rewrite Z.add_0_r, wrap32_id by done. done.
  - destruct x as [|b x]; [simpl in Hn; lia|]. rewrite IH; [|simpl in Hn; lia|apply wrap32_range].
    cbn [take]. unfold sum_bytes. simpl. fold (sum_bytes (take n x)). f_equal.
    unfold wrap32. rewrite Zplus_mod_idemp_l. f_equal. lia.
Qed.

Lemma sum_bytes_bound l : sum_bytes l <= 255 * Z.of_nat (length l).
Proof. induction l as [|b l IH]; cbn [sum_bytes foldr length]; [lia|]. pose proof (b2z_range b).
  change (foldr (fun b s => b2z b + s) 0 l) with (sum_bytes l). lia. Qed.

(** A payload that fits a packet never makes the 32-bit checksum wrap. *)
Lemma checksum_exact m d :
  0 <= data_length m <= MAX_PAYLOAD -> data_length m <= Z.of_nat (length d) ->
  checksum m d = Ok (sum_bytes (take (Z.to_nat (data_length m)) d)).
Proof.
  intros H1 H2. unfold checksum. rewrite checksum_loop_spec; [|lia|unfold is_u32, u32_mod; lia].
  f_equal. rewrite Z.add_0_l. apply wrap32_id.
  pose proof (sum_bytes_nonneg (take (Z.to_nat (data_length m)) d)).
  pose proof (sum_bytes_bound (take (Z.to_nat (data_length m)) d)).
  rewrite length_take in *. unfold is_u32, u32_mod, MAX_PAYLOAD in *. lia.
Qed.

(** The first [n] bytes of the data array. *)
Definition data_prefix (n : Z) (d : bytes) : res bytes :=
  if n <=? Z.of_nat (length d) then Ok (take (Z.to_nat n) d)
  else UB "read past the initialised packet data".

(** ** TCP transports (transport_local.c) *)

(** [remote_read] over a socket: header, check, payload, check. *)
Definition tcp_remote_read (s : list rres) : res (option apacket * list rres) :=
  let* '(h, s1) := readx 24 s in
  match h with
  | None => Ok (None, s1)
  | Some hb =>
      let p := with_msg (decode_msg hb) get_apacket in
      if negb (check_header p) then Ok (None, s1)
      else
        let* '(d, s2) := readx (Z.to_nat (data_length (msg p))) s1 in
        match d with
        | None => Ok (None, s2)
        | Some db =>
            let p' := with_data db p in
            let* good := check_data p' in
            Ok (if good then Some p' else None, s2)
        end
  end.

(** [remote_write] over a socket: header and payload are contiguous in the
    packet and leave in one [writex]. *)
Definition tcp_remote_write (p : apacket) (s : list wres)
  : res (bool * bytes * list wres) :=
  let* d := data_prefix (data_length (msg p)) (data p) in
  writex (encode_msg (msg p) ++ d) s.

(** ** USB transports (transport_usb.c, usb_linux.c) *)

(** The answer to one bulk-in request, and to one bulk-out request: [UTimeout]
    sets [errno] to [ETIMEDOUT]. *)
Inductive urbin := UIn (b : bytes) | UTimeout (b : bytes) | UFail.
Inductive urbout := UDone | UShort (n : nat) | UOutFail.

(** [usb_read]: requests of at most 4096 bytes until [len] bytes arrived; a
    timeout keeps what came and retries, any other short transfer is an error. *)
Fixpoint usb_read_loop (fuel len : nat) (acc : bytes) (s : list urbin)
  : res (option bytes * list urbin) :=
  match len with
  | O => Ok (Some acc, s)
  | _ =>
    match fuel with
    | O => Timeout
    | S f =>
      let xfer := if (4096 <? len)%nat then 4096%nat else len in
      match s with
      | [] => Ok (None, [])
      | UFail :: s' => Ok (None, s')
      | UIn b :: s' =>
          if (length b =? xfer)%nat then usb_read_loop f (len - xfer) (acc ++ b) s'
          else Ok (None, s')
      | UTimeout b0 :: s' =>
          let b := take xfer b0 in usb_read_loop f (len - length b) (acc ++ b) s'
      end
    end
  end.
Definition usb_read (len : nat) (s : list urbin) : res (option bytes * list urbin) :=
  usb_read_loop (length s + 1) len [] s.

(** [usb_write]: transfers of at most 4096 bytes, then an empty transfer when
    the length is a multiple of the packet size.  Returns success, the bulk
    transfers that completed and the rest of the script. *)
Fixpoint usb_write_loop (fuel : nat) (d : bytes) (sent : list bytes) (s : list urbout)
  : bool * list bytes * list urbout :=
  match d, fuel with
  | [], _ => (true, sent, s)
  | _, O => (false, sent, s)
  | _, S f =>
      let xfer := if (4096 <? length d)%nat then 4096%nat else length d in
      match s with
      | [] => usb_write_loop f (drop xfer d) (sent ++ [take xfer d]) []
      | UDone :: s' => usb_write_loop f (drop xfer d) (sent ++ [take xfer d]) s'
      | UShort n :: s' =>
          if (n =? xfer)%nat then usb_write_loop f (drop xfer d) (sent ++ [take xfer d]) s'
          else (false, sent, s')
      | UOutFail :: s' => (false, sent, s')
      end
  end.
Definition need_zero (zero_mask len : Z) : bool :=
  if negb (zero_mask =? 0) then Z.land len zero_mask =? 0 else false.
Definition usb_write (zero_mask : Z) (d : bytes) (s : list urbout)
  : bool * list bytes * list urbout :=
  let '(ok, sent, s1) := usb_write_loop (length d) d [] s in
  if negb ok then (false, sent, s1)
  else if need_zero zero_mask (Z.of_nat (length d)) then
    match s1 with
    | [] => (true, sent ++ [[]], [])
    | UDone :: s2 => (true, sent ++ [[]], s2)
    | UShort n :: s2 => ((n =? 0)%nat, sent ++ [[]], s2)
    | UOutFail :: s2 => (false, sent, s2)
    end
  else (true, sent, s1).

(** [remote_read] and [remote_write] over USB. *)
Definition usb_remote_read (s : list urbin) : res (option apacket * list urbin) :=
  let* '(h, s1) := usb_read 24 s in
  match h with
  | None => Ok (None, s1)
  | Some hb =>
      let p := with_msg (decode_msg hb) get_apacket in
      if negb (check_header p) then Ok (None, s1)
      else
        let* '(d, s2) :=
          (if data_length (msg p) =? 0 then Ok (Some [], s1)
           else usb_read (Z.to_nat (data_length (msg p))) s1) in
        match d with
        | None => Ok (None, s2)
        | Some db =>
            let p' := with_data db p in
            let* good := check_data p' in
            Ok (if good then Some p' else None, s2)
        end
  end.

Definition usb_remote_write (zero_mask : Z) (p : apacket) (s : list urbout)
  : res (bool * list bytes * list urbout) :=
  let '(ok, t1, s1) := usb_write zero_mask (encode_msg (msg p)) s in
  if negb ok then Ok (false, t1, s1)
  else if data_length (msg p) =? 0 then Ok (true, t1, s1)
  else
    let* d := data_prefix (data_length (msg p)) (data p) in
    let '(ok2, t2, s2) := usb_write zero_mask d s1 in
    Ok (ok2, t1 ++ t2, s2).

(** ** Well-formed packets and the transport interface *)

(** A packet as [send_packet] leaves it and as a reader accepts it. *)
Definition packet_ok (p : apacket) : Prop :=
  msg_ok (msg p) /\ check_header p = true /\
  Z.of_nat (length (data p)) = data_length (msg p) /\
  data_check (msg p) = sum_bytes (data p) /\ p_len p = 0 /\ p_ptr p = 0%nat.

(** What a transport promises to the packet pump: what one end writes with
    [write_to_remote], the other reads back with [read_from_remote]; a read
    always returns, and one that succeeds gives a well-formed packet and uses up
    input. *)
Class RemoteIO (S W : Type) := {
  rio_read : S -> res (option apacket * S);
  rio_pending : S -> list W;
  rio_encode : apacket -> list W;
  rio_read_encode : forall s p rest,
    packet_ok p -> rio_pending s = rio_encode p ++ rest ->
    exists s', rio_read s = Ok (Some p, s') /\ rio_pending s' = rest;
  rio_left : S -> nat;
  rio_read_total : forall s, exists o s', rio_read s = Ok (o, s') /\
    match o with Some p => packet_ok p /\ (rio_left s' < rio_left s)%nat | None => True end
}.

Section RemoteIO_client.
Context {S W : Type} `{RemoteIO S W}.

(** Reading packets until a read fails or [n] were read, as [output_thread]
    does. *)
Fixpoint read_packets (n : nat) (s : S) : res (list apacket * S) :=
  match n with
  | O => Ok ([], s)
  | Datatypes.S n' =>
      let* '(op, s1) := rio_read s in
      match op with
      | None => Ok ([], s1)
      | Some p => let* '(ps, s2) := read_packets n' s1 in Ok (p :: ps, s2)
      end
  end.

Lemma read_packets_encode ps s rest :
  Forall packet_ok ps -> rio_pending s = concat (map rio_encode ps) ++ rest ->
  exists s', read_packets (length ps) s = Ok (ps, s') /\ rio_pending s' = rest.
Proof.
  intros Hok. revert s. induction Hok as [|p ps Hp _ IH]; intros s Hs; cbn [length read_packets].
  - by exists s.
  - cbn [map concat] in Hs. rewrite <- app_assoc in Hs.
    destruct (rio_read_encode s p _ Hp Hs) as (s1 & -> & Hs1). cbn [rbind].
    destruct (IH s1 Hs1) as (s' & -> & Hs'). by exists s'.
Qed.
End RemoteIO_client.

Lemma packet_ok_check_data p : packet_ok p -> check_data p = Ok true.
Proof.
  intros (Hm & Hh & Hl & Hc & _). unfold check_data. rewrite checksum_exact.
  - simpl. rewrite take_ge by lia. by rewrite Hc, Z.eqb_refl.
  - unfold check_header in Hh. destruct (negb _); [done|].
    destruct (Z.ltb_spec MAX_PAYLOAD (data_length (msg p))); [done|lia].
  - lia.
Qed.

Lemma packet_ok_header p : packet_ok p ->
  check_header (with_msg (msg p) get_apacket) = true.
Proof. intros (_ & Hh & _). exact Hh. Qed.

Lemma packet_ok_rebuild p : packet_ok p -> with_data (data p) (with_msg (msg p) get_apacket) = p.
Proof. intros (_ & _ & _ & _ & Hl & Hp). destruct p. simpl in *. by subst. Qed.

Definition tcp_encode (p : apacket) : bytes := encode_msg (msg p) ++ data p.

Lemma tcp_read_encode s p rest :
  packet_ok p -> stream s = tcp_encode p ++ rest ->
  exists s', tcp_remote_read s = Ok (Some p, s') /\ stream s' = rest.
Proof.
  intros Hp Hs. unfold tcp_encode in Hs. rewrite <- app_assoc in Hs.
  destruct (readx_app 24 s _ _ Hs (length_encode_msg _)) as (s1 & E1 & Hs1).
  pose proof Hp as (Hm & _ & Hl & _).
  destruct (readx_app (length (data p)) s1 _ _ Hs1 eq_refl) as (s2 & E2 & Hs2).
  exists s2. split; [|done]. unfold tcp_remote_read. rewrite E1. cbn [rbind].
  rewrite <- (app_nil_r (encode_msg (msg p))), decode_encode_msg by done.
  rewrite packet_ok_header by done. cbn [negb].
  change (msg (with_msg (msg p) get_apacket)) with (msg p).
  rewrite <- Hl, Nat2Z.id, E2. cbn [rbind].
  by rewrite packet_ok_rebuild, packet_ok_check_data by done.
Qed.

(** ** Soundness of the reader *)

Lemma le32_unle32_take b : (4 <= length b)%nat -> le32 (unle32 b) = take 4 b.
Proof.
  destruct b as [|b0 [|b1 [|b2 [|b3 r]]]]; cbn [length]; try lia. intros _.
  rewrite le32_unle32. done.
Qed.

Lemma encode_decode_msg b : length b = 24%nat -> encode_msg (decode_msg b) = b.
Proof.
  intros H. unfold encode_msg, decode_msg.
  cbn [command arg0 arg1 data_length data_check magic].
  rewrite !le32_unle32_take by (rewrite ?length_drop; lia).
  do 24 (destruct b as [|? b]; [simpl in H; lia|]). destruct b; [done|simpl in H; lia].
Qed.

Lemma check_header_true p : check_header p = true ->
  magic (msg p) = Z.lxor (command (msg p)) 0xffffffff /\ data_length (msg p) <= MAX_PAYLOAD.
Proof.
  unfold check_header. destruct (Z.eqb_spec (magic (msg p)) (Z.lxor (command (msg p)) 0xffffffff)); simpl; [|done].
  destruct (Z.ltb_spec MAX_PAYLOAD (data_length (msg p))); [done|]. done.
Qed.

(** The two readers end alike: a payload of the announced length is accepted
    exactly when the packet is well formed. *)
Lemma accept_sound hb db (p := with_msg (decode_msg hb) get_apacket) :
  check_header p = true -> Z.of_nat (length db) = data_length (msg p) ->
  exists good, check_data (with_data db p) = Ok good /\ (good = true -> packet_ok (with_data db p)).
Proof.
  intros Eh Hlen. pose proof (decode_msg_ok hb) as Hmok. pose proof (check_header_true _ Eh) as [_ Hmax].
  assert (0 <= data_length (msg p)) as Hnn by apply Hmok.
  unfold check_data. rewrite checksum_exact; [|done|cbn [data with_data]; change (msg (with_data db p)) with (msg p); lia].
  eexists. split; [reflexivity|]. intros Hc%Z.eqb_eq. cbn [data with_data] in Hc. rewrite take_ge in Hc
    by (change (msg (with_data db p)) with (msg p); lia).
  unfold packet_ok. split_and!; [exact Hmok|exact Eh|exact Hlen|by symmetry|done|done].
Qed.

Lemma tcp_remote_read_sound s :
  exists o s', tcp_remote_read s = Ok (o, s') /\
    match o with
    | Some p => packet_ok p /\ stream s = tcp_encode p ++ stream s'
    | None => True
    end.
Proof.
  unfold tcp_remote_read. destruct (readx_spec 24 s) as (s1 & -> & Hs1). cbn [rbind].
  destruct (Nat.leb_spec 24 (length (stream s))) as [H24|]; [|by eexists _, _].
  specialize (Hs1 H24). set (p := with_msg _ get_apacket).
  destruct (check_header p) eqn:Eh; cbn [negb]; [|by eexists _, _].
  destruct (readx_spec (Z.to_nat (data_length (msg p))) s1) as (s2 & -> & Hs2). cbn [rbind].
  destruct (Nat.leb_spec (Z.to_nat (data_length (msg p))) (length (stream s1))) as [Hd|]; [|by eexists _, _].
  specialize (Hs2 Hd). set (db := take (Z.to_nat (data_length (msg p))) (stream s1)).
  assert (0 <= data_length (msg p)) as Hnn by apply decode_msg_ok.
  destruct (accept_sound (take 24 (stream s)) db Eh) as (good & E & Hgood).
  { unfold db. rewrite length_take_le by done. apply Z2Nat.id, Hnn. }
  unfold p in *. rewrite E. cbn [rbind]. destruct good; [|by eexists _, _].
  eexists _, _. split; [reflexivity|]. split; [by apply Hgood|].
  rewrite Hs2. unfold tcp_encode. change (msg (with_data db _)) with (decode_msg (take 24 (stream s))).
  rewrite encode_decode_msg by (rewrite length_take; lia). unfold db. cbn [data with_data].
  rewrite <- app_assoc, take_drop, Hs1, take_drop. done.
Qed.

Lemma tcp_read_total s :
  exists o s', tcp_remote_read s = Ok (o, s') /\
    match o with Some p => packet_ok p /\ (length (stream s') < length (stream s))%nat | None => True end.
Proof.
  destruct (tcp_remote_read_sound s) as ([p|] & s' & E & H); eexists _, _; (split; [exact E|]); [|done].
  destruct H as [Hp Hs]. split; [done|]. rewrite Hs. unfold tcp_encode. rewrite !length_app, length_encode_msg. lia.
Qed.

#[export] Instance tcp_remote_io : RemoteIO (list rres) byte := {|
  rio_read := tcp_remote_read; rio_pending := stream;
  rio_encode := tcp_encode; rio_read_encode := tcp_read_encode;
  rio_left s := length (stream s); rio_read_total := tcp_read_total |}.

(** ** The USB instance *)

(** The bulk-in transfers that arrive before the first failure. *)
Fixpoint usb_pending (s : list urbin) : list bytes :=
  match s with
  | UIn b :: s' => b :: usb_pending s'
  | _ => []
  end.

(** A packet is a 24-byte transfer followed by its payload, if it has one. *)
Definition usb_encode (p : apacket) : list bytes :=
  encode_msg (msg p) :: match data p with [] => [] | d => [d] end.

Lemma usb_read_one n s b rest :
  usb_pending s = b :: rest -> length b = n -> (0 < n <= 4096)%nat ->
  exists s', usb_read n s = Ok (Some b, s') /\ usb_pending s' = rest.
Proof.
  intros Hs Hl Hn. destruct s as [|[b'| |] s]; simpl in Hs; try done.
  injection Hs as -> <-. exists s. split; [|done]. unfold usb_read. cbn [length Nat.add usb_read_loop].
  destruct n as [|n]; [lia|]. rewrite (proj2 (Nat.ltb_ge _ _)) by lia.
  rewrite Hl, Nat.eqb_refl, Nat.sub_diag. by destruct (length s + 1)%nat.
Qed.

Lemma usb_read_encode s p rest :
  packet_ok p -> usb_pending s = usb_encode p ++ rest ->
  exists s', usb_remote_read s = Ok (Some p, s') /\ usb_pending s' = rest.
Proof.
  intros Hp Hs. pose proof Hp as (Hm & Hh & Hl & _). cbn [usb_encode app] in Hs.
  destruct (usb_read_one 24 s _ _ Hs (length_encode_msg _) ltac:(lia)) as (s1 & E1 & Hs1).
  unfold usb_remote_read. rewrite E1. cbn [rbind].
  rewrite <- (app_nil_r (encode_msg (msg p))), decode_encode_msg by done.
  rewrite packet_ok_header by done. cbn [negb].
  change (msg (with_msg (msg p) get_apacket)) with (msg p).
  destruct (Z.eqb_spec (data_length (msg p)) 0) as [E0|E0].
  - assert (data p = []) as Ed by (destruct (data p); [done|simpl in Hl; lia]).
    rewrite Ed in Hs1. exists s1. cbn [rbind]. split; [|done]. rewrite <- Ed.
    by rewrite packet_ok_rebuild, packet_ok_check_data by done.
  - assert (data p <> []) as Ed by (intros Ed; rewrite Ed in Hl; simpl in Hl; lia).
    assert (Z.of_nat (length (data p)) <= MAX_PAYLOAD) as Hmax.
    { unfold check_header in Hh. destruct (negb _); [done|].
      destruct (Z.ltb_spec MAX_PAYLOAD (data_length (msg p))); [done|lia]. }
    assert (usb_pending s1 = data p :: rest) as Hs1' by (by destruct (data p)).
    destruct (usb_read_one (length (data p)) s1 _ _ Hs1' eq_refl) as (s2 & E2 & Hs2).
    { unfold MAX_PAYLOAD in Hmax. lia. }
    exists s2. split; [|done]. rewrite <- Hl, Nat2Z.id, E2. cbn [rbind].
    by rewrite packet_ok_rebuild, packet_ok_check_data by done.
Qed.

Lemma usb_read_loop_total f len acc s :
  (length s < f)%nat ->
  exists o s', usb_read_loop f len acc s = Ok (o, s') /\
    match o with
    | Some b => length b = (length acc + len)%nat /\ (length s' <= length s)%nat /\ (0 < len -> length s' < length s)%nat
    | None => True
    end.
Proof.
  revert len acc s. induction f as [|f IH]; intros [|n] acc s Hf; cbn [usb_read_loop]; [eexists _, _; by repeat split; lia|lia|
    eexists _, _; by repeat split; lia|].
  set (xfer := if (4096 <? S n)%nat then 4096%nat else S n). destruct s as [|[b|b|] s]; [by eexists _, _|..|by eexists _, _].
  - destruct (Nat.eqb_spec (length b) xfer) as [Hb|]; [|by eexists _, _].
    destruct (IH (S n - xfer)%nat (acc ++ b) s) as (o & s' & -> & H); [simpl in Hf; lia|]. eexists _, _. split; [done|].
    assert (xfer <= S n)%nat by (unfold xfer; destruct (4096 <? S n)%nat eqn:E4; [apply Nat.ltb_lt in E4|]; lia).
    destruct o; [|done]. rewrite length_app in H. cbn [length]. lia.
  - destruct (IH (S n - length (take xfer b))%nat (acc ++ take xfer b) s) as (o & s' & -> & H); [simpl in Hf; lia|].
    eexists _, _. split; [done|].
    assert (xfer <= S n)%nat by (unfold xfer; destruct (4096 <? S n)%nat eqn:E4; [apply Nat.ltb_lt in E4|]; lia).
    destruct o; [|done]. rewrite length_app, length_take in *. cbn [length]. lia.
Qed.

Lemma usb_read_total s :
  exists o s', usb_remote_read s = Ok (o, s') /\
    match o with Some p => packet_ok p /\ (length s' < length s)%nat | None => True end.
Proof.
  unfold usb_remote_read, usb_read.
  destruct (usb_read_loop_total (length s + 1) 24 [] s ltac:(lia)) as ([hb|] & s1 & -> & H1); cbn [rbind]; [|by eexists _, _].
  destruct H1 as (_ & _ & H1). specialize (H1 ltac:(lia)). set (p := with_msg (decode_msg hb) get_apacket).
  destruct (check_header p) eqn:Eh; cbn [negb]; [|by eexists _, _].
  assert (0 <= data_length (msg p)) as Hnn by apply decode_msg_ok.
  assert (exists o s2, (if data_length (msg p) =? 0 then Ok (Some [], s1)
      else usb_read_loop (length s1 + 1) (Z.to_nat (data_length (msg p))) [] s1) = Ok (o, s2) /\
    match o with Some db => Z.of_nat (length db) = data_length (msg p) /\ (length s2 <= length s1)%nat | None => True end)
    as (o & s2 & -> & H2).
  { destruct (Z.eqb_spec (data_length (msg p)) 0) as [E0|E0]; [by eexists _, _|].
    destruct (usb_read_loop_total (length s1 + 1) (Z.to_nat (data_length (msg p))) [] s1 ltac:(lia)) as (o & s2 & -> & H2).
    eexists _, _. split; [done|]. destruct o; [|done]. cbn [length] in H2. split; [rewrite (proj1 H2); lia|apply H2]. }
  cbn [rbind]. destruct o as [db|]; [|by eexists _, _]. destruct H2 as [Hdb H2].
  destruct (accept_sound hb db Eh Hdb) as (good & E & Hgood). unfold p in *. rewrite E. cbn [rbind].
  destruct good; [|by eexists _, _]. eexists _, _. split; [reflexivity|]. split; [by apply Hgood|lia].
Qed.

#[export] Instance usb_remote_io : RemoteIO (list urbin) bytes := {|
  rio_read := usb_remote_read; rio_pending := usb_pending;
  rio_encode := usb_encode; rio_read_encode := usb_read_encode;
  rio_left := length; rio_read_total := usb_read_total |}.

(** ** What the sender produces *)

(** A packet handed to [send_packet]: header fields in range and exactly
    [data_length] bytes of data. *)
Definition sendable (p : apacket) : Prop :=
  is_u32 (command (msg p)) /\ is_u32 (arg0 (msg p)) /\ is_u32 (arg1 (msg p)) /\
  Z.of_nat (length (data p)) = data_length (msg p) /\ data_length (msg p) <= MAX_PAYLOAD /\
  p_len p = 0 /\ p_ptr p = 0%nat.

Lemma lxor_u32 c : is_u32 c -> is_u32 (Z.lxor c 0xffffffff).
Proof.
  unfold is_u32, u32_mod. intros H. change 0xffffffff with (Z.ones 32).
  split; [apply Z.lxor_nonneg; split; [done|lia]|].
  destruct (Z.eq_dec (Z.lxor c (Z.ones 32)) 0) as [->|Hne]; [lia|].
  assert (0 <= Z.lxor c (Z.ones 32)) by (apply Z.lxor_nonneg; split; [done|lia]).
  change 4294967296 with (2 ^ 32). apply Z.log2_lt_pow2; [lia|].
  pose proof (Z.log2_lxor c (Z.ones 32) ltac:(lia) ltac:(done)) as Hx.
  assert (Z.log2 c <= 31) by (destruct (Z.eq_dec c 0) as [->|]; [done|]; apply Z.lt_succ_r; apply Z.log2_lt_pow2; lia).
  change (Z.log2 (Z.ones 32)) with 31 in Hx. lia.
Qed.

Lemma send_packet_fill_ok p : sendable p ->
  exists p', send_packet_fill p = Ok p' /\ packet_ok p' /\ data p' = data p /\
    command (msg p') = command (msg p) /\ arg0 (msg p') = arg0 (msg p) /\
    arg1 (msg p') = arg1 (msg p) /\ data_length (msg p') = data_length (msg p).
Proof.
  intros (Hc & H0 & H1 & Hl & Hmax & Hpl & Hpp). unfold send_packet_fill.
  rewrite checksum_exact by lia. cbn [rbind]. rewrite take_ge by lia.
  eexists. split; [reflexivity|]. unfold packet_ok, msg_ok, check_header. simpl.
  rewrite Z.eqb_refl. cbn [negb]. rewrite (proj2 (Z.ltb_ge _ _)) by lia.
  pose proof (sum_bytes_nonneg (data p)). pose proof (sum_bytes_bound (data p)).
  pose proof (lxor_u32 _ Hc). unfold is_u32, u32_mod, MAX_PAYLOAD in *. split_and!; try done; lia.
Qed.

Lemma tcp_remote_write_ok p s : packet_ok p ->
  exists ok out s', tcp_remote_write p s = Ok (ok, out, s') /\
    (if ok then out = tcp_encode p else out `prefix_of` tcp_encode p).
Proof.
  intros (_ & _ & Hl & _). unfold tcp_remote_write, data_prefix.
  rewrite (proj2 (Z.leb_le _ _)) by lia. cbn [rbind]. rewrite take_ge by lia.
  destruct (writex_spec (encode_msg (msg p) ++ data p) s) as (ok & out & s' & -> & _ & H).
  exists ok, out, s'. split; [done|]. destruct ok; [done|]. by destruct H.
Qed.

(** The sender's loop: fill in each packet and write it, stopping at the first
    failure; the bytes that reached the socket. *)
Fixpoint tcp_send_all (ps : list apacket) (s : list wres) : res (bool * bytes * list apacket) :=
  match ps with
  | [] => Ok (true, [], [])
  | p :: r =>
      let* p' := send_packet_fill p in
      let* '(ok, out, s') := tcp_remote_write p' s in
      if negb ok then Ok (false, out, [])
      else
        let* '(ok2, out2, sent) := tcp_send_all r s' in
        Ok (ok2, out ++ out2, p' :: sent)
  end.

Definition same_payload (p q : apacket) : Prop :=
  command (msg p) = command (msg q) /\ arg0 (msg p) = arg0 (msg q) /\
  arg1 (msg p) = arg1 (msg q) /\ data p = data q.

Lemma tcp_send_all_spec ps s : Forall sendable ps ->
  exists ok out sent, tcp_send_all ps s = Ok (ok, out, sent) /\
    Forall packet_ok sent /\ (exists tail, out = concat (map tcp_encode sent) ++ tail) /\
    (ok = true -> Forall2 same_payload ps sent /\ out = concat (map tcp_encode sent)).
Proof.
  intros H. revert s. induction H as [|p ps Hp _ IH]; intros s; cbn [tcp_send_all].
  - exists true, [], []. split_and!; try done. by exists [].
  - destruct (send_packet_fill_ok p Hp) as (p' & -> & Hok & Hd & Hc & H0 & H1 & _). cbn [rbind].
    destruct (tcp_remote_write_ok p' s Hok) as (ok & out & s' & -> & Ho). cbn [rbind].
    destruct ok; cbn [negb].
    + destruct (IH s') as (ok2 & out2 & sent & -> & Hs & [tail ->] & Hall). cbn [rbind].
      eexists _, _, _. split; [reflexivity|]. subst out. cbn [map concat]. split_and!.
      * by constructor.
      * exists tail. by rewrite app_assoc.
      * intros ->. destruct (Hall eq_refl) as [H2 ->]. split; [|done].
        constructor; [|done]. unfold same_payload. rewrite Hc, H0, H1, Hd. done.
    + exists false, out, []. split_and!; [done..| |done]. by exists out.
Qed.

Lemma sum_bytes_insert (d : bytes) i b c :
  d !! i = Some c -> sum_bytes (<[i := b]> d) = sum_bytes d - b2z c + b2z b.
Proof.
  revert i. induction d as [|x d IH]; intros i H; [done|]. destruct i as [|i]; simpl in *.
  - injection H as ->. lia.
  - rewrite (IH _ H). lia.
Qed.

(** ** USB transfers *)

Lemma usb_write_loop_spec fuel d sent s : (length d <= fuel)%nat ->
  match usb_write_loop fuel d sent s with
  | (true, out, _) => exists ch, out = sent ++ ch /\ concat ch = d /\
       Forall (fun t => (0 < length t <= 4096)%nat) ch
  | (false, out, _) => exists ch, out = sent ++ ch /\ concat ch `prefix_of` d
  end.
Proof.
  revert d sent s. induction fuel as [|f IH]; intros d sent s Hf.
  { destruct d; [|simpl in Hf; lia]. simpl. exists []. by rewrite app_nil_r. }
  destruct d as [|x d]; [simpl; exists []; by rewrite app_nil_r|].
  cbn [usb_write_loop]. set (xf := if (4096 <? length (x :: d))%nat then 4096%nat else length (x :: d)).
  assert (0 < xf <= 4096)%nat as Hxf.
  { subst xf. destruct (Nat.ltb_spec 4096 (length (x :: d))); simpl in *; lia. }
  assert (xf <= length (x :: d))%nat as Hxl.
  { subst xf. destruct (Nat.ltb_spec 4096 (length (x :: d))); lia. }
  assert (forall s', match usb_write_loop f (drop xf (x :: d)) (sent ++ [take xf (x :: d)]) s' with
    | (true, out, _) => exists ch, out = sent ++ ch /\ concat ch = x :: d /\
         Forall (fun t => (0 < length t <= 4096)%nat) ch
    | (false, out, _) => exists ch, out = sent ++ ch /\ concat ch `prefix_of` x :: d
    end) as Hstep.
  { intros s'. specialize (IH (drop xf (x :: d)) (sent ++ [take xf (x :: d)]) s').
    rewrite length_drop in IH. specialize (IH ltac:(simpl in *; lia)).
    destruct (usb_write_loop f _ _ s') as [[[] out] s''].
    - destruct IH as (ch & -> & Hc & Hall). exists (take xf (x :: d) :: ch).
      rewrite <- app_assoc. split_and!; [done| |].
      + cbn [concat]. rewrite Hc. apply take_drop.
      + constructor; [|done]. rewrite length_take. lia.
    - destruct IH as (ch & -> & Hc). exists (take xf (x :: d) :: ch).
      rewrite <- app_assoc. split; [done|]. cbn [concat].
      rewrite <- (take_drop xf (x :: d)) at 2. by apply prefix_app. }
  destruct s as [|[|n|] s]; try apply Hstep.
  - destruct (n =? xf)%nat; [apply Hstep|]. exists []. rewrite app_nil_r. split; [done|apply prefix_nil].
  - exists []. rewrite app_nil_r. split; [done|apply prefix_nil].
Qed.

(** ** Theorems *)


Definition demo_packet : apacket := mkpkt (mkmsg A_WRTE 1 2 2 0 0) 0 0 (lit "hi").


(** C9. The TCP reader is total and sound: on any input it returns (it never reads
    past a buffer and never loops), and a packet it accepts has a correct magic,
    a length of at most 4096 and a matching checksum, and is exactly the bytes
    consumed from the stream. *)
Theorem tcp_read_total_sound s :
  exists o s', tcp_remote_read s = Ok (o, s') /\
    (forall p, o = Some p -> packet_ok p /\ stream s = tcp_encode p ++ stream s').
Proof.
  destruct (tcp_remote_read_sound s) as (o & s' & E & H). exists o, s'. split; [done|].
  intros p ->. done.
Qed.

(** The checksum detects the corruption of any one payload byte. *)
Theorem checksum_detects p i b c
  (Hp : packet_ok p) (Hi : data p !! i = Some c) (Hne : b <> c) :
  check_data (with_data (<[i := b]> (data p)) p) = Ok false.
Proof.
  pose proof Hp as (Hm & Hh & Hl & Hc & _). pose proof (check_header_true _ Hh) as [_ Hmax].
  unfold check_data. rewrite checksum_exact; simpl; [|lia|rewrite length_insert; lia].
  rewrite take_ge by (rewrite length_insert; lia).
  rewrite (sum_bytes_insert _ _ _ _ Hi), Hc. f_equal. apply Z.eqb_neq.
  intros E. apply Hne, b2z_inj. lia.
Qed.

Lemma checksum_detects_witness :
  match send_packet_fill demo_packet with
  | Ok p => check_data (with_data (lit "ha") p) = Ok false
  | _ => False
  end.
Proof.
  pose (p := mkpkt (mkmsg A_WRTE 1 2 2 209 (Z.lxor A_WRTE 0xffffffff)) 0 0 (lit "hi")).
  assert (E : send_packet_fill demo_packet = Ok p) by (vm_compute; reflexivity).
  rewrite E. apply (checksum_detects p 1 x61 x69); vm_compute; repeat split; congruence.
Defined.

(** [usb_write] sends the data in order in transfers of 1 to 4096 bytes, and
    ends it with an empty transfer exactly when zero-length packets are in use
    and the length is a multiple of the packet size. *)
Theorem usb_write_transfers zm d s out s'
  (Hw : usb_write zm d s = (true, out, s')) :
  exists ch, concat ch = d /\ Forall (fun t => (0 < length t <= 4096)%nat) ch /\
    out = if need_zero zm (Z.of_nat (length d)) then ch ++ [[]] else ch.
Proof.
  unfold usb_write in Hw. pose proof (usb_write_loop_spec (length d) d [] s ltac:(lia)) as H.
  destruct (usb_write_loop (length d) d [] s) as [[ok sent] s1].
  destruct ok; cbn [negb] in Hw; [|done]. destruct H as (chk & Hs & Hc & Hall). simpl in Hs. subst sent.
  exists chk. split_and!; [done..|].
  destruct (need_zero zm (Z.of_nat (length d))).
  - destruct s1 as [|[|n|] s2]; by simplify_eq.
  - by simplify_eq.
Qed.

Lemma usb_write_transfers_witness :
  exists chs, concat chs = lit "abcd" /\ Forall (fun t => (0 < length t <= 4096)%nat) chs /\
    [lit "abcd"; []] = if need_zero 3 4 then chs ++ [[]] else chs.
Proof. apply (usb_write_transfers 3 (lit "abcd") [UDone; UDone] [lit "abcd"; []] []). vm_compute. reflexivity. Defined.
