(* ===== verification/DList.v ===== *)
(** * Intrusive doubly linked lists

    Every registry of the program (transports, pending transports, disconnect
    callbacks, local and closing sockets, listeners, pending fdevents, USB
    handles) is a circular list threaded through the [next] and [prev] fields of
    its elements, with a sentinel head.  This file models the field writes of
    the four idioms the sources use and shows that they implement operations on
    an abstract list; the other components then work with that list. *)

From S2P Require Import Prelude.

Definition ptr := nat.

(** The two link fields of a node; [None] is NULL. *)
Record node := mknode { nx : option ptr; pv : option ptr }.
Abbreviation heap := (gmap ptr node).

Definition set_nx (x : ptr) (v : option ptr) (H : heap) : res heap :=
  let* n := deref "node is not live" (H !! x) in Ok (<[x := mknode v (pv n)]> H).
Definition set_pv (x : ptr) (v : option ptr) (H : heap) : res heap :=
  let* n := deref "node is not live" (H !! x) in Ok (<[x := mknode (nx n) v]> H).
Definition get_nx (x : ptr) (H : heap) : res ptr :=
  let* n := deref "node is not live" (H !! x) in deref "next is NULL" (nx n).
Definition get_pv (x : ptr) (H : heap) : res ptr :=
  let* n := deref "node is not live" (H !! x) in deref "prev is NULL" (pv n).

(** [s->next = list; s->prev = s->next->prev; s->prev->next = s;
    s->next->prev = s;]: append at the tail, as [insert_local_socket],
    [add_transport_disconnect], [fdevent_plist_enqueue] and the registration
    code do. *)
Definition insert_tail (s list : ptr) (H : heap) : res heap :=
  let* H := set_nx s (Some list) H in
  let* last := get_pv list H in
  let* H := set_pv s (Some last) H in
  let* H := set_nx last (Some s) H in
  set_pv list (Some s) H.

(** [t->next->prev = t->prev; t->prev->next = t->next;]: unlink and leave the
    fields of the node as they are (transports, USB handles). *)
Definition unlink_raw (t : ptr) (H : heap) : res heap :=
  let* n := get_nx t H in
  let* p := get_pv t H in
  let* H := set_pv n (Some p) H in
  let* n' := get_nx t H in
  let* p' := get_pv t H in
  set_nx p' (Some n') H.

(** The same followed by [dis->next = dis->prev = dis]
    ([remove_transport_disconnect], [free_listener]). *)
Definition unlink_self (d : ptr) (H : heap) : res heap :=
  let* H := unlink_raw d H in
  let* H := set_pv d (Some d) H in
  set_nx d (Some d) H.

(** The same followed by [next = prev = 0], guarded by both being set
    ([remove_socket]). *)
Definition unlink_null (s : ptr) (H : heap) : res heap :=
  let* n := deref "node is not live" (H !! s) in
  match nx n, pv n with
  | Some _, Some _ =>
      let* H := unlink_raw s H in
      let* H := set_nx s None H in
      set_pv s None H
  | _, _ => Ok H
  end.

(** [fdevent_plist_dequeue]: take the first element, if there is one. *)
Definition dequeue (list : ptr) (H : heap) : res (option ptr * heap) :=
  let* first := get_nx list H in
  if bool_decide (first = list) then Ok (None, H)
  else
    let* n := get_nx first H in
    let* H := set_nx list (Some n) H in
    let* H := set_pv n (Some list) H in
    let* H := set_nx first None H in
    let* H := set_pv first None H in
    Ok (Some first, H).

(** ** Representation *)

Definition fnx (H : heap) (x : ptr) : option ptr := H !! x ≫= nx.
Definition fpv (H : heap) (x : ptr) : option ptr := H !! x ≫= pv.

(** [chain H a l b]: following [next] from [a] one meets [l] and then [b], and
    the [prev] fields point back. *)
Definition edge (H : heap) (a b : ptr) : Prop := fnx H a = Some b /\ fpv H b = Some a.
Fixpoint chain (H : heap) (a : ptr) (l : list ptr) (b : ptr) : Prop :=
  match l with
  | [] => edge H a b
  | x :: l' => edge H a x /\ chain H x l' b
  end.

(** [dlist H h l]: the list with sentinel [h] holds the elements [l]. *)
Definition dlist (H : heap) (h : ptr) (l : list ptr) : Prop :=
  NoDup (h :: l) /\ chain H h l h.

Lemma chain_app H a l1 x l2 b :
  chain H a (l1 ++ x :: l2) b <-> chain H a l1 x /\ chain H x l2 b.
Proof.
  revert a. induction l1 as [|y l1 IH]; intros a; simpl; [done|]. rewrite IH. tauto.
Qed.

Lemma chain_ext H H' a l b :
  (forall x, x ∈ a :: l -> fnx H' x = fnx H x) ->
  (forall x, x ∈ b :: l -> fpv H' x = fpv H x) ->
  chain H a l b -> chain H' a l b.
Proof.
  revert a. induction l as [|x l IH]; intros a En Ep; simpl.
  - intros [E1 E2]. split; [rewrite En; [done|left]|rewrite Ep; [done|left]].
  - intros [[E1 E2] Hc]. split; [split; [rewrite En; [done|left]|rewrite Ep; [done|right; left]]|].
    apply IH; [intros y Hy; apply En; by right| |done].
    intros y Hy. apply Ep. apply elem_of_cons in Hy as [->|Hy]; [left|right; by right].
Qed.

(** A list with no node among the changed ones is untouched. *)
Lemma dlist_frame H H' h l :
  (forall x, x ∈ h :: l -> H' !! x = H !! x) -> dlist H h l -> dlist H' h l.
Proof.
  intros E [Hn Hc]. split; [done|].
  eapply chain_ext; [..|done]; intros x Hx; unfold fnx, fpv; by rewrite E.
Qed.

(** The node before the end of a chain: its last element or its start. *)
Definition last_node (a : ptr) (l : list ptr) : ptr := default a (last l).

Lemma chain_last H a l b : chain H a l b -> edge H (last_node a l) b.
Proof.
  revert a. induction l as [|x l IH]; intros a; simpl; [done|]. intros [_ Hc].
  specialize (IH _ Hc). unfold last_node in *. rewrite last_cons. by destruct (last l).
Qed.

Lemma chain_first H a l b : chain H a l b -> edge H a (default b (head l)).
Proof. destruct l; simpl; [done|]. by intros [? _]. Qed.

Lemma last_node_in a l : last_node a l ∈ a :: l.
Proof.
  unfold last_node. destruct (last l) as [x|] eqn:E; simpl; [|left].
  right. apply last_Some in E as [l' ->]. set_solver.
Qed.

(** Redirect the end of a chain to another node. *)
Lemma chain_retarget H H' a l b b' :
  chain H a l b -> NoDup (a :: l) ->
  (forall x, x ∈ a :: l -> x <> last_node a l -> fnx H' x = fnx H x) ->
  fnx H' (last_node a l) = Some b' -> fpv H' b' = Some (last_node a l) ->
  (forall x, x ∈ l -> fpv H' x = fpv H x) -> chain H' a l b'.
Proof.
  revert a. induction l as [|x l IH]; intros a Hc Hnd Fn En Ep Fp; simpl in *.
  - done.
  - destruct Hc as [[E1 E2] Hc]. apply NoDup_cons in Hnd as [Ha Hnd].
    assert (last_node a (x :: l) = last_node x l) as El.
    { unfold last_node. rewrite last_cons. by destruct (last l). }
    rewrite El in *. pose proof (last_node_in x l). split.
    + split; [|rewrite Fp by left; done]. rewrite Fn; [done|left|]. intros ->. done.
    + apply IH; try done; intros y Hy; [intros Hne; apply Fn; [by right|done]|]. apply Fp. by right.
Qed.

(** ** The effect of one field write *)

Definition live (H : heap) (x : ptr) : Prop := is_Some (H !! x).

Lemma fnx_live H x v : fnx H x = Some v -> live H x.
Proof. unfold fnx, live. destruct (H !! x); [eauto|done]. Qed.
Lemma fpv_live H x v : fpv H x = Some v -> live H x.
Proof. unfold fpv, live. destruct (H !! x); [eauto|done]. Qed.

Lemma get_nx_ok H x v : fnx H x = Some v -> get_nx x H = Ok v.
Proof. unfold fnx, get_nx. destruct (H !! x) as [n|]; [|done]. simpl. by intros ->. Qed.
Lemma get_pv_ok H x v : fpv H x = Some v -> get_pv x H = Ok v.
Proof. unfold fpv, get_pv. destruct (H !! x) as [n|]; [|done]. simpl. by intros ->. Qed.

Lemma set_nx_ok H x v : live H x ->
  exists H', set_nx x v H = Ok H' /\ (forall y, fpv H' y = fpv H y) /\
    (forall y, fnx H' y = if decide (y = x) then v else fnx H y) /\
    (forall y, live H' y <-> live H y) /\ (forall y, y <> x -> H' !! y = H !! y).
Proof.
  intros [n Hn]. unfold set_nx. rewrite Hn. simpl. eexists. split; [reflexivity|].
  unfold fnx, fpv, live. split_and!; intros y; destruct (decide (y = x)) as [->|Hne];
    rewrite ?lookup_insert_eq, ?lookup_insert_ne, ?Hn by congruence; naive_solver.
Qed.

Lemma set_pv_ok H x v : live H x ->
  exists H', set_pv x v H = Ok H' /\ (forall y, fnx H' y = fnx H y) /\
    (forall y, fpv H' y = if decide (y = x) then v else fpv H y) /\
    (forall y, live H' y <-> live H y) /\ (forall y, y <> x -> H' !! y = H !! y).
Proof.
  intros [n Hn]. unfold set_pv. rewrite Hn. simpl. eexists. split; [reflexivity|].
  unfold fnx, fpv, live. split_and!; intros y; destruct (decide (y = x)) as [->|Hne];
    rewrite ?lookup_insert_eq, ?lookup_insert_ne, ?Hn by congruence; naive_solver.
Qed.

(** Run one field write whose target is known to be live. *)
Ltac write_nx x := let H' := fresh "H" in let Ew := fresh "Ew" in let Ep := fresh "Ep" in
  let En := fresh "En" in let El := fresh "El" in let Ef := fresh "Ef" in
  match goal with |- context [set_nx x ?v ?H] =>
    destruct (set_nx_ok H x v) as (H' & Ew & Ep & En & El & Ef); [|rewrite Ew; cbn [rbind]] end.
Ltac write_pv x := let H' := fresh "H" in let Ew := fresh "Ew" in let Ep := fresh "Ep" in
  let En := fresh "En" in let El := fresh "El" in let Ef := fresh "Ef" in
  match goal with |- context [set_pv x ?v ?H] =>
    destruct (set_pv_ok H x v) as (H' & Ew & En & Ep & El & Ef); [|rewrite Ew; cbn [rbind]] end.

(** ** The operations implement list operations *)

(** Appending: the element goes to the end, every list that shares no node is
    untouched. *)
Lemma insert_tail_spec H h l s :
  dlist H h l -> s ∉ h :: l -> live H s ->
  exists H', insert_tail s h H = Ok H' /\ dlist H' h (l ++ [s]) /\
    (forall y, y ∉ s :: h :: l -> H' !! y = H !! y) /\ (forall y, live H' y <-> live H y).
Proof.
  intros [Hnd Hc] Hs Hls. pose proof (chain_last _ _ _ _ Hc) as [Eln Elp].
  pose proof (last_node_in h l) as Hlin.
  assert (s <> h) as Hsh by set_solver. assert (s <> last_node h l) as Hsl by set_solver.
  unfold insert_tail. write_nx s; [done|].
  rewrite (get_pv_ok _ h (last_node h l)) by (by rewrite Ep). cbn [rbind].
  write_pv s; [by apply El|]. write_nx (last_node h l).
  { apply El0, El. by eapply fnx_live. }
  write_pv h; [by apply El1, El0, El; eapply fpv_live|].
  eexists. split; [reflexivity|].
  assert (forall y, fnx H3 y = if decide (y = last_node h l) then Some s
     else if decide (y = s) then Some h else fnx H y) as Fn.
  { intros y. rewrite En2, En1, En0, En. done. }
  assert (forall y, fpv H3 y = if decide (y = h) then Some s
     else if decide (y = s) then Some (last_node h l) else fpv H y) as Fp.
  { intros y. rewrite Ep2, Ep1, Ep0. by rewrite Ep. }
  split_and!.
  - split.
    + rewrite app_comm_cons. apply NoDup_app. split_and!; [done|set_solver|apply NoDup_singleton].
    + apply chain_app. split.
      * eapply chain_retarget; [exact Hc|done|..].
        -- intros x Hx Hne. rewrite Fn, !decide_False; [done| |done]. intros ->. done.
        -- rewrite Fn. by rewrite decide_True.
        -- rewrite Fp, decide_False, decide_True by done. done.
        -- intros x Hx. apply NoDup_cons in Hnd as [Hh _].
           rewrite Fp, !decide_False; [done| |]; intros ->; [|done]. apply Hs. by right.
      * split; [rewrite Fn|rewrite Fp]; repeat case_decide; done || set_solver.
  - intros y Hy. rewrite Ef2, Ef1, Ef0, Ef; [done|..]; set_solver.
  - intros y. by rewrite El2, El1, El0, El.
Qed.

(** Unlinking: the element leaves the list, its own fields keep pointing at its
    old neighbours. *)
(** A chain in which the neighbours of one node point at each other. *)
Lemma dlist_unlinked H H1 h l1 t l2 (p := last_node h l1) (n := default h (head l2)) :
  dlist H h (l1 ++ t :: l2) ->
  (forall y, fnx H1 y = if decide (y = p) then Some n else fnx H y) ->
  (forall y, fpv H1 y = if decide (y = n) then Some p else fpv H y) -> dlist H1 h (l1 ++ l2).
Proof.
  intros [Hnd Hc] Fn Fp. apply chain_app in Hc as [Hc1 Hc2]. assert (p ∈ h :: l1) as Hp by apply last_node_in.
  apply NoDup_cons in Hnd as [Hh Hnd]. apply NoDup_app in Hnd as (Hn1 & Hd & [Ht2 Hn2]%NoDup_cons).
  split; [apply NoDup_cons; split; [set_solver|apply NoDup_app; split_and!; [done|set_solver|done]]|].
  assert (n ∉ l1) as Hnl1 by (unfold n; destruct l2; set_solver).
  assert (chain H1 h l1 n) as Hc1'.
  { eapply chain_retarget; [exact Hc1| |..].
    - apply NoDup_cons. split; [set_solver|done].
    - intros x _ Hne. by rewrite Fn, decide_False.
    - rewrite Fn. by rewrite decide_True.
    - rewrite Fp. by rewrite decide_True.
    - intros x Hx. rewrite Fp, decide_False; [done|]. by intros ->. }
  destruct l2 as [|y l2]; [by rewrite app_nil_r|]. apply chain_app. split; [done|].
  destruct Hc2 as [_ Hc2]. apply NoDup_cons in Hn2 as [Hy2 Hn2].
  eapply chain_ext; [..|exact Hc2]; intros x Hx.
  - rewrite Fn, decide_False; [done|]. intros ->. apply elem_of_cons in Hp as [Hp|Hp].
    + rewrite Hp in Hx. apply Hh, elem_of_app. right. by right.
    + apply (Hd _ Hp). by right.
  - rewrite Fp, decide_False; [done|]. intros ->. unfold n in Hx. simpl in Hx.
    apply elem_of_cons in Hx as [->|Hx]; [|done]. apply Hh, elem_of_app. right. right. left.
Qed.

Lemma unlink_raw_spec H h l1 t l2 :
  dlist H h (l1 ++ t :: l2) ->
  exists H', unlink_raw t H = Ok H' /\ dlist H' h (l1 ++ l2) /\ H' !! t = H !! t /\
    (forall y, y ∉ h :: l1 ++ t :: l2 -> H' !! y = H !! y) /\ (forall y, live H' y <-> live H y).
Proof.
  intros HL. pose proof HL as [Hnd Hc]. apply chain_app in Hc as [Hc1 Hc2].
  pose proof (chain_last _ _ _ _ Hc1) as [E1 E2]. pose proof (chain_first _ _ _ _ Hc2) as [E3 E4].
  set (p := last_node h l1) in *. set (n := default h (head l2)) in *.
  assert (p ∈ h :: l1) as Hp by apply last_node_in.
  assert (n ∈ h :: l2) as Hn by (unfold n; destruct l2; simpl; set_solver).
  assert (t ∉ h :: l1 ++ l2) as Ht.
  { apply NoDup_cons in Hnd as [Hh Hnd]. apply NoDup_app in Hnd as (_ & Hd & Hnd2).
    apply NoDup_cons in Hnd2 as [Ht2 _]. set_solver. }
  assert (t <> p) as Htp by set_solver. assert (t <> n) as Htn by set_solver.
  unfold unlink_raw. rewrite (get_nx_ok _ _ _ E3), (get_pv_ok _ _ _ E2). cbn [rbind].
  write_pv n; [by eapply fpv_live|].
  rewrite (get_nx_ok _ t n) by (by rewrite En).
  rewrite (get_pv_ok _ t p) by (by rewrite Ep, decide_False). cbn [rbind].
  write_nx p; [apply El; by eapply fnx_live|].
  eexists. split; [reflexivity|]. split_and!.
  - eapply dlist_unlinked; [exact HL|intros y; by rewrite En0, En|intros y; by rewrite Ep0, Ep].
  - rewrite Ef0, Ef; done.
  - intros y Hy. rewrite Ef0, Ef; [done|..]; set_solver.
  - intros y. by rewrite El0, El.
Qed.

Lemma dlist_split H h l t : dlist H h l -> t ∈ l ->
  exists l1 l2, l = l1 ++ t :: l2 /\ remove_elt t l = l1 ++ l2.
Proof.
  intros [Hnd _] Ht. apply list_elem_of_split in Ht as (l1 & l2 & ->). exists l1, l2.
  split; [done|]. apply NoDup_cons in Hnd as [_ Hnd].
  apply NoDup_app in Hnd as (_ & Hd & Hn2). apply NoDup_cons in Hn2 as [Hn2 _].
  unfold remove_elt. rewrite filter_app, filter_cons_False by naive_solver.
  fold (remove_elt t l1). fold (remove_elt t l2).
  rewrite !remove_elt_notin; set_solver.
Qed.

(** Removal with self-links: the element leaves the list and a second removal
    changes nothing. *)
Lemma unlink_self_spec H h l t :
  dlist H h l -> t ∈ l ->
  exists H', unlink_self t H = Ok H' /\ dlist H' h (remove_elt t l) /\
    H' !! t = Some (mknode (Some t) (Some t)) /\
    (forall y, y ∉ h :: l -> H' !! y = H !! y).
Proof.
  intros Hd Ht. destruct (dlist_split _ _ _ _ Hd Ht) as (l1 & l2 & -> & ->).
  destruct (unlink_raw_spec _ _ _ _ _ Hd) as (H1 & E & Hd1 & Et & Hf & Hl).
  unfold unlink_self. rewrite E. cbn [rbind].
  assert (t ∉ h :: l1 ++ l2) as Htn.
  { destruct Hd as [Hnd _]. apply NoDup_cons in Hnd as [Hh Hnd].
    apply NoDup_app in Hnd as (_ & Hdj & Hnd2). apply NoDup_cons in Hnd2 as [? _]. set_solver. }
  assert (live H1 t) as Hlt.
  { apply Hl. destruct Hd as [_ Hc]. apply chain_app in Hc as [_ Hc].
    apply chain_first in Hc as [Hc _]. by eapply fnx_live. }
  destruct Hlt as [n Hn]. unfold set_pv, set_nx. rewrite Hn. simpl.
  rewrite lookup_insert_eq. simpl. eexists. split; [reflexivity|].
  rewrite lookup_insert_eq. split_and!; [|done|].
  - eapply dlist_frame; [|exact Hd1]. intros x Hx. rewrite !lookup_insert_ne; set_solver.
  - intros y Hy. rewrite !lookup_insert_ne by set_solver. by apply Hf.
Qed.

Lemma unlink_self_again H t :
  H !! t = Some (mknode (Some t) (Some t)) -> unlink_self t H = Ok H.
Proof.
  intros E. unfold unlink_self, unlink_raw, get_nx, get_pv, set_pv, set_nx.
  rewrite E. simpl. rewrite E. simpl.
  repeat (rewrite lookup_insert_eq; simpl). f_equal.
  rewrite !insert_insert_eq. by apply insert_id.
Qed.

(** Removal that clears the links ([remove_socket]): likewise, and a second
    removal does nothing. *)
Lemma unlink_null_spec H h l t :
  dlist H h l -> t ∈ l ->
  exists H', unlink_null t H = Ok H' /\ dlist H' h (remove_elt t l) /\
    H' !! t = Some (mknode None None) /\ (forall y, y ∉ h :: l -> H' !! y = H !! y).
Proof.
  intros Hd Ht. destruct (dlist_split _ _ _ _ Hd Ht) as (l1 & l2 & -> & ->).
  destruct (unlink_raw_spec _ _ _ _ _ Hd) as (H1 & E & Hd1 & Et & Hf & Hl).
  assert (exists n p, H !! t = Some (mknode (Some n) (Some p))) as (n & p & En).
  { destruct Hd as [_ Hc]. apply chain_app in Hc as [Hc1 Hc].
    apply chain_first in Hc as [Hc _]. apply chain_last in Hc1 as [_ Hc1].
    unfold fnx, fpv in *. destruct (H !! t) as [[a b]|]; [|done]. simpl in *. subst. eauto. }
  assert (t ∉ h :: l1 ++ l2) as Htn.
  { destruct Hd as [Hnd _]. apply NoDup_cons in Hnd as [Hh Hnd].
    apply NoDup_app in Hnd as (_ & Hdj & Hnd2). apply NoDup_cons in Hnd2 as [? _]. set_solver. }
  unfold unlink_null. rewrite En. simpl. rewrite E. cbn [rbind].
  unfold set_nx, set_pv. rewrite Et, En. simpl. rewrite lookup_insert_eq. simpl.
  eexists. split; [reflexivity|]. rewrite lookup_insert_eq. split_and!; [|done|].
  - eapply dlist_frame; [|exact Hd1]. intros x Hx. rewrite !lookup_insert_ne; set_solver.
  - intros y Hy. rewrite !lookup_insert_ne by set_solver. by apply Hf.
Qed.

Lemma unlink_null_again H t :
  H !! t = Some (mknode None None) -> unlink_null t H = Ok H.
Proof. intros E. unfold unlink_null. by rewrite E. Qed.

(** [fdevent_plist_dequeue] takes the head of the list, if any. *)
Lemma dequeue_spec H h l :
  dlist H h l ->
  exists H', dequeue h H = Ok (head l, H') /\ dlist H' h (tail l).
Proof.
  intros [Hnd Hc]. unfold dequeue. destruct l as [|x l]; simpl in *.
  - destruct Hc as [E1 E2]. rewrite (get_nx_ok _ _ _ E1). cbn [rbind].
    rewrite bool_decide_true by done. exists H. done.
  - destruct Hc as [[E1 E2] Hc]. rewrite (get_nx_ok _ _ _ E1). cbn [rbind].
    pose proof (chain_first _ _ _ _ Hc) as [E3 E4].
    apply NoDup_cons in Hnd as [Hh Hnd]. apply NoDup_cons in Hnd as [Hx Hnd].
    rewrite bool_decide_false by set_solver. rewrite (get_nx_ok _ _ _ E3). cbn [rbind].
    set (n := default h (head l)) in *.
    assert (n ∈ h :: l) as Hn by (unfold n; destruct l; simpl; set_solver).
    assert (x <> h) as Hxh by set_solver.
    write_nx h; [by eapply fnx_live|]. write_pv n; [apply El; by eapply fpv_live|].
    write_nx x; [apply El0, El; by eapply fnx_live|]. write_pv x; [apply El1, El0, El; by eapply fnx_live|].
    eexists. split; [reflexivity|]. split; [by constructor; [set_solver|]|].
    assert (forall y, fnx H3 y = if decide (y = x) then None else if decide (y = h) then Some n else fnx H y) as Fn
      by (intros y; by rewrite En2, En1, En0, En).
    assert (forall y, fpv H3 y = if decide (y = x) then None else if decide (y = n) then Some h else fpv H y) as Fp
      by (intros y; by rewrite Ep2, Ep1, Ep0, Ep).
    destruct l as [|y l]; simpl in *.
    + subst n. split; [rewrite Fn|rewrite Fp]; repeat case_decide; done || set_solver.
    + destruct Hc as [_ Hc]. subst n. split.
      * split; [rewrite Fn|rewrite Fp]; repeat case_decide; done || set_solver.
      * apply NoDup_cons in Hnd as [Hy Hnd].
        eapply chain_ext; [..|exact Hc]; intros z Hz; [rewrite Fn|rewrite Fp];
          repeat case_decide; subst; try done; exfalso; set_solver.
Qed.

(** ** Theorems *)

(** A list and the heap that represents it: the sentinel's own cell. *)
Definition init_head (h : ptr) : heap := {[ h := mknode (Some h) (Some h) ]}.

(** One step of a client of a list: append a fresh node, remove an element (in
    either safe style). *)
Inductive lop := LInsert (x : ptr) | LRemoveSelf (x : ptr) | LRemoveNull (x : ptr) | LDequeue.

Definition lop_run (h : ptr) (o : lop) (H : heap) : res heap :=
  match o with
  | LInsert x => insert_tail x h H
  | LRemoveSelf x => unlink_self x H
  | LRemoveNull x => unlink_null x H
  | LDequeue => let* '(_, H') := dequeue h H in Ok H'
  end.

(** Its abstract counterpart on a list of elements. *)
Definition lop_abs (o : lop) (l : list ptr) : list ptr :=
  match o with
  | LInsert x => l ++ [x]
  | LRemoveSelf x | LRemoveNull x => remove_elt x l
  | LDequeue => tail l
  end.

Definition lop_pre (h : ptr) (o : lop) (H : heap) (l : list ptr) : Prop :=
  match o with
  | LInsert x => x ∉ h :: l /\ live H x
  | LRemoveSelf x | LRemoveNull x => x ∈ l
  | LDequeue => True
  end.

(** C18. The pointer manipulation refines the list operation: from a heap that
    represents [l], every operation succeeds without touching a dead node and
    ends in a heap that represents the abstract result. *)
Theorem lop_refines h o H l (Hd : dlist H h l) (Hpre : lop_pre h o H l) :
  exists H', lop_run h o H = Ok H' /\ dlist H' h (lop_abs o l).
Proof.
  destruct o as [x|x|x|]; simpl in *.
  - destruct Hpre as [Hx Hl]. destruct (insert_tail_spec _ _ _ _ Hd Hx Hl) as (H' & ? & ? & _). eauto.
  - destruct (unlink_self_spec _ _ _ _ Hd Hpre) as (H' & ? & ? & _). eauto.
  - destruct (unlink_null_spec _ _ _ _ Hd Hpre) as (H' & ? & ? & _). eauto.
  - destruct (dequeue_spec _ _ _ Hd) as (H' & -> & ?). simpl. eauto.
Qed.

(** The heap of a list of sentinel 0 with the elements 1 and 2. *)
Definition demo_heap : heap :=
  list_to_map [(0%nat, mknode (Some 1%nat) (Some 2%nat));
               (1%nat, mknode (Some 2%nat) (Some 0%nat));
               (2%nat, mknode (Some 0%nat) (Some 1%nat))].
Lemma demo_dlist : dlist demo_heap 0%nat [1%nat; 2%nat].
Proof. split; [repeat constructor; set_solver|]. repeat split; reflexivity. Qed.

Lemma lop_refines_witness :
  exists H', lop_run 0%nat (LRemoveNull 1%nat) demo_heap = Ok H' /\ dlist H' 0%nat [2%nat].
Proof. apply (lop_refines 0%nat (LRemoveNull 1%nat) demo_heap [1%nat; 2%nat]); [apply demo_dlist|simpl; set_solver]. Defined.

(** Removing an element of either safe style twice is harmless: the second
    removal leaves the heap unchanged. *)
Theorem remove_twice_safe H h l t (Hd : dlist H h l) (Ht : t ∈ l) :
  (exists H1, unlink_self t H = Ok H1 /\ unlink_self t H1 = Ok H1) /\
  (exists H2, unlink_null t H = Ok H2 /\ unlink_null t H2 = Ok H2).
Proof.
  split.
  - destruct (unlink_self_spec _ _ _ _ Hd Ht) as (H' & E & _ & Et & _). exists H'.
    split; [done|]. by apply unlink_self_again.
  - destruct (unlink_null_spec _ _ _ _ Hd Ht) as (H' & E & _ & Et & _). exists H'.
    split; [done|]. by apply unlink_null_again.
Qed.

Lemma remove_twice_safe_witness :
  (exists H1, unlink_self 2%nat demo_heap = Ok H1 /\ unlink_self 2%nat H1 = Ok H1) /\
  (exists H2, unlink_null 2%nat demo_heap = Ok H2 /\ unlink_null 2%nat H2 = Ok H2).
Proof. apply (remove_twice_safe demo_heap 0%nat [1%nat; 2%nat] 2%nat demo_dlist). set_solver. Defined.

(** The raw style is not idempotent.  With elements [1; 2] on the list of
    sentinel 0, unlinking 1, then 2, then 1 again puts 2 back at the head of the
    list; if 2 was freed in between, the second unlink of 1 writes to freed
    memory.  [unregister_transport] followed by the removal action of
    [transport_registration_func] unlinks one transport twice this way. *)
Theorem unlink_raw_twice_corrupts :
  exists H H1 H2 H3,
    dlist H 0%nat [1%nat; 2%nat] /\ unlink_raw 1%nat H = Ok H1 /\ unlink_raw 2%nat H1 = Ok H2 /\
    dlist H2 0%nat [] /\ unlink_raw 1%nat H2 = Ok H3 /\ fnx H3 0%nat = Some 2%nat /\
    unlink_raw 1%nat (delete 2%nat H2) = UB "node is not live".
Proof.
  exists demo_heap. do 3 eexists. split; [apply demo_dlist|].
  split; [vm_compute; reflexivity|]. split; [vm_compute; reflexivity|]. split.
  { split; [repeat constructor; set_solver|]. split; reflexivity. }
  split; [vm_compute; reflexivity|]. split; vm_compute; reflexivity.
Qed.
