(* ===== verification/Fdevent.v ===== *)
(** * The event loop of fdevent.c (select back end)

    The state is the table of descriptors, the three [fd_set]s, [select_n], the
    list of pending fdevents and the fdevent structures themselves, kept by
    address.  Table cells can be uninitialised: [fdevent_register] clears
    [sizeof(int)] bytes per new pointer-sized cell, and a read of an
    uninitialised cell is undefined behaviour. *)

From S2P Require Import Prelude DList.

(** ** Constants *)

Definition FDE_READ : Z := 0x0001.
Definition FDE_WRITE : Z := 0x0002.
Definition FDE_ERROR : Z := 0x0004.
Definition FDE_DONT_CLOSE : Z := 0x0080.
Definition FDE_EVENTMASK : Z := 0x00ff.
Definition FDE_STATEMASK : Z := 0xff00.
Definition FDE_ACTIVE : Z := 0x0100.
Definition FDE_PENDING : Z := 0x0200.
Definition FDE_CREATED : Z := 0x0400.

Definition has (v bit : Z) : bool := negb (Z.land v bit =? 0).

(** ** State *)

(** [struct fdevent] without its links, its callback and its argument (the
    address of the owner stands for both). *)
Record fdevent := mkfde { f_fd : Z; f_force_eof : bool; f_state : Z; f_events : Z }.

(** A cell of [fd_table]. *)
Inductive cell := Cundef | Cnull | Cptr (p : ptr).

Record loop := mkloop {
  fdes : gmap ptr fdevent;
  fd_table : list cell;
  pending : list ptr;
  read_fds : gset Z; write_fds : gset Z; error_fds : gset Z;
  select_n : Z;
  closed : list Z }.

Definition with_fdes m l := mkloop m (fd_table l) (pending l) (read_fds l) (write_fds l) (error_fds l) (select_n l) (closed l).
Definition with_table t l := mkloop (fdes l) t (pending l) (read_fds l) (write_fds l) (error_fds l) (select_n l) (closed l).
Definition with_pending q l := mkloop (fdes l) (fd_table l) q (read_fds l) (write_fds l) (error_fds l) (select_n l) (closed l).
Definition with_sets r w e l := mkloop (fdes l) (fd_table l) (pending l) r w e (select_n l) (closed l).
Definition with_select n l := mkloop (fdes l) (fd_table l) (pending l) (read_fds l) (write_fds l) (error_fds l) n (closed l).
Definition with_closed c l := mkloop (fdes l) (fd_table l) (pending l) (read_fds l) (write_fds l) (error_fds l) (select_n l) c.

Definition init_loop : loop := mkloop ∅ [] [] ∅ ∅ ∅ 0 [].

Definition get_fde (p : ptr) (l : loop) : res fdevent := deref "fdevent is not live" (fdes l !! p).
Definition put_fde (p : ptr) (f : fdevent) (l : loop) : loop := with_fdes (<[p := f]> (fdes l)) l.

Definition set_state (s : Z) (f : fdevent) := mkfde (f_fd f) (f_force_eof f) s (f_events f).
Definition set_events (e : Z) (f : fdevent) := mkfde (f_fd f) (f_force_eof f) (f_state f) e.
Definition set_force_eof (b : bool) (f : fdevent) := mkfde (f_fd f) b (f_state f) (f_events f).

(** ** The select back end *)

(** [fdevent_connect]. *)
Definition fdevent_connect (f : fdevent) (l : loop) : loop :=
  if select_n l <=? f_fd f then with_select (f_fd f + 1) l else l.

(** [for (n = 0, i = 0; i < select_n; i++) if (fd_table[i] != 0) n = i;] *)
Fixpoint last_used (cells : list cell) (i n : Z) (count : nat) {struct count} : res Z :=
  match count with
  | O => Ok n
  | S c =>
      match cells with
      | [] => UB "fd_table index out of range"
      | Cundef :: _ => UB "fd_table cell is uninitialised"
      | Cnull :: r => last_used r (i + 1) n c
      | Cptr _ :: r => last_used r (i + 1) i c
      end
  end.

(** [fdevent_disconnect]. *)
Definition fdevent_disconnect (f : fdevent) (l : loop) : res loop :=
  let fd := f_fd f in
  let l1 := with_sets (read_fds l ∖ {[fd]}) (write_fds l ∖ {[fd]}) (error_fds l ∖ {[fd]}) l in
  let* n := last_used (fd_table l1) 0 0 (Z.to_nat (select_n l1)) in
  Ok (with_select (n + 1) l1).

Definition fd_update (set : bool) (fd : Z) (s : gset Z) : gset Z :=
  if set then {[fd]} ∪ s else s ∖ {[fd]}.

(** [fdevent_update]. *)
Definition fdevent_update (p : ptr) (events : Z) (l : loop) : res loop :=
  let* f := get_fde p l in
  let fd := f_fd f in
  let l1 := with_sets (fd_update (has events FDE_READ) fd (read_fds l))
                      (fd_update (has events FDE_WRITE) fd (write_fds l))
                      (fd_update (has events FDE_ERROR) fd (error_fds l)) l in
  Ok (put_fde p (set_state (Z.lor (Z.land (f_state f) FDE_STATEMASK) events) f) l1).

(** ** Registration *)

(** [while (fd_table_max <= fde->fd) fd_table_max *= 2;] *)
Fixpoint grow (fuel : nat) (max fd : Z) : res Z :=
  if max <=? fd then
    match fuel with O => Timeout | S f => grow f (max * 2) fd end
  else Ok max.

(** [fdevent_register].  [realloc] leaves the new cells uninitialised and the
    [memset] covers [sizeof(int) * (max - oldmax)] bytes, half of the new
    8-byte cells. *)
Definition fdevent_register (p : ptr) (f : fdevent) (l : loop) : res loop :=
  let fd := f_fd f in
  if fd <? 0 then Exit "bogus negative fd"
  else
    let oldmax := Z.of_nat (length (fd_table l)) in
    let* l1 :=
      (if oldmax <=? fd then
         if 32000 <? fd then Exit "bogus huuuuge fd"
         else
           let l0 := if oldmax =? 0 then with_sets ∅ ∅ ∅ l else l in
           let* max := grow 8 (if oldmax =? 0 then 256 else oldmax) fd in
           let cleared := Z.to_nat (4 * (max - oldmax) / 8) in
           let fresh := Z.to_nat (max - oldmax) in
           Ok (with_table (fd_table l ++ replicate cleared Cnull ++
                           replicate (fresh - cleared) Cundef) l0)
       else Ok l) in
    Ok (with_table (<[Z.to_nat fd := Cptr p]> (fd_table l1)) l1).

(** [fdevent_unregister]. *)
Definition fdevent_unregister (p : ptr) (f : fdevent) (l : loop) : res loop :=
  let fd := f_fd f in
  if (fd <? 0) || (Z.of_nat (length (fd_table l)) <=? fd) then Exit "fd out of range"
  else
    match fd_table l !! Z.to_nat fd with
    | Some Cundef => UB "fd_table cell is uninitialised"
    | Some (Cptr q) =>
        if bool_decide (q = p) then
          let l1 := with_table (<[Z.to_nat fd := Cnull]> (fd_table l)) l in
          Ok (if negb (has (f_state f) FDE_DONT_CLOSE)
              then with_closed (closed l1 ++ [fd]) l1 else l1)
        else Exit "fd_table out of sync"
    | _ => Exit "fd_table out of sync"
    end.

(** [fdevent_install] on the fdevent at address [p]. *)
Definition fdevent_install (p : ptr) (fd : Z) (l : loop) : res loop :=
  let f := mkfde fd false FDE_ACTIVE 0 in
  let l0 := put_fde p f l in
  let* l1 := fdevent_register p f l0 in
  let l2 := fdevent_connect f l1 in
  Ok (put_fde p (set_state (Z.lor (f_state f) FDE_ACTIVE) f) l2).

(** [fdevent_remove]; the owner frees the structure later. *)
Definition fdevent_remove (p : ptr) (l : loop) : res loop :=
  let* f := get_fde p l in
  let l1 := if has (f_state f) FDE_PENDING then with_pending (remove_elt p (pending l)) l else l in
  let* l2 :=
    (if has (f_state f) FDE_ACTIVE then
       let* l' := fdevent_disconnect f l1 in fdevent_unregister p f l'
     else Ok l1) in
  Ok (put_fde p (set_events 0 (set_state 0 f)) l2).

(** ** Interest *)

(** [fdevent_set]. *)
Definition fdevent_set (p : ptr) (events0 : Z) (l : loop) : res loop :=
  let events := Z.land events0 FDE_EVENTMASK in
  let* f := get_fde p l in
  if Z.land (f_state f) FDE_EVENTMASK =? events then Ok l
  else
    let* l1 := (if has (f_state f) FDE_ACTIVE then fdevent_update p events l else Ok l) in
    let* f1 := get_fde p l1 in
    let f2 := set_state (Z.lor (Z.land (f_state f1) FDE_STATEMASK) events) f1 in
    if has (f_state f2) FDE_PENDING then
      let f3 := set_events (Z.land (f_events f2) (Z.lnot events)) f2 in
      if f_events f3 =? 0 then
        Ok (put_fde p (set_state (Z.land (f_state f3) (Z.lnot FDE_PENDING)) f3)
             (with_pending (remove_elt p (pending l1)) l1))
      else Ok (put_fde p f3 l1)
    else Ok (put_fde p f2 l1).

(** [fdevent_add] and [fdevent_del]. *)
Definition fdevent_add (p : ptr) (events : Z) (l : loop) : res loop :=
  let* f := get_fde p l in
  fdevent_set p (Z.lor (Z.land (f_state f) FDE_EVENTMASK) (Z.land events FDE_EVENTMASK)) l.
Definition fdevent_del (p : ptr) (events : Z) (l : loop) : res loop :=
  let* f := get_fde p l in
  fdevent_set p (Z.land (Z.land (f_state f) FDE_EVENTMASK)
                        (Z.lnot (Z.land events FDE_EVENTMASK))) l.

(** ** Dispatch *)

(** The outcome of [select]: the three result sets, or an error. *)
Inductive selres :=
| SelReady (r w e : gset Z)
| SelIntr
| SelBadf
| SelOther.

(** [fdevent_fd_check]: the registered descriptors the kernel says are bad. *)
Fixpoint fd_check (cells : list cell) (bad : gset Z) (i : Z) (count : nat)
  {struct count} : res (gset Z) :=
  match count with
  | O => Ok ∅
  | S c =>
      match cells with
      | [] => UB "fd_table index out of range"
      | Cundef :: _ => UB "fd_table cell is uninitialised"
      | Cnull :: r => fd_check r bad (i + 1) c
      | Cptr _ :: r =>
          let* s := fd_check r bad (i + 1) c in
          Ok (if bool_decide (i ∈ bad) then {[i]} ∪ s else s)
      end
  end.

Definition ev_bits (r w e : bool) : Z :=
  Z.lor (if r then FDE_READ else 0) (Z.lor (if w then FDE_WRITE else 0) (if e then FDE_ERROR else 0)).

(** The loop over the ready descriptors: record the events and queue each
    fdevent once. *)
Fixpoint process_fds (r w e : gset Z) (i : Z) (count : nat) (n : Z) (l : loop) : res loop :=
  match count with
  | O => Ok l
  | S c =>
      if n <=? 0 then Ok l
      else
        let br := bool_decide (i ∈ r) in
        let bw := bool_decide (i ∈ w) in
        let be := bool_decide (i ∈ e) in
        let events := ev_bits br bw be in
        let n' := n - Z.b2z br - Z.b2z bw - Z.b2z be in
        if events =? 0 then process_fds r w e (i + 1) c n' l
        else
          match fd_table l !! Z.to_nat i with
          | Some (Cptr p) =>
              let* f := get_fde p l in
              let f1 := set_events (Z.lor (f_events f) events) f in
              if has (f_state f1) FDE_PENDING
              then process_fds r w e (i + 1) c n' (put_fde p f1 l)
              else
                process_fds r w e (i + 1) c n'
                  (with_pending (pending l ++ [p])
                     (put_fde p (set_state (Z.lor (f_state f1) FDE_PENDING) f1) l))
          | Some Cundef => UB "fd_table cell is uninitialised"
          | _ => Exit "missing fde for fd"
          end
  end.

(** [fdevent_process], given what [select] and [fcntl] answer. *)
Definition fdevent_process (sel : selres) (bad : gset Z) (l : loop) : res loop :=
  let count := Z.to_nat (select_n l) in
  let run r w e n := process_fds r w e 0 count n l in
  let fake :=
    let* r := fd_check (fd_table l) bad 0 count in
    run r ∅ ∅ (Z.of_nat (size r)) in
  match sel with
  | SelIntr => Ok l
  | SelOther => Ok l
  | SelBadf => fake
  | SelReady r w e =>
      let n := Z.of_nat (size r) + Z.of_nat (size w) + Z.of_nat (size e) in
      if n <=? 0 then fake else run r w e n
  end.

(** [fdevent_plist_dequeue] then [fdevent_call_fdfunc]: the next callback, as
    the owner, the descriptor and the events it is called with. *)
Definition fdevent_next (l : loop) : res (option (ptr * Z * Z) * loop) :=
  match pending l with
  | [] => Ok (None, l)
  | p :: q =>
      let l1 := with_pending q l in
      let* f := get_fde p l1 in
      let events := f_events f in
      let f1 := set_events 0 f in
      if negb (has (f_state f1) FDE_PENDING) then Ok (None, put_fde p f1 l1)
      else
        let f2 := set_state (Z.land (f_state f1) (Z.lnot FDE_PENDING)) f1 in
        Ok (Some (p, f_fd f2, events), put_fde p f2 l1)
  end.

(** [fdevent_subproc_event_func] for the wake-up descriptor [fd]:
    [subproc_read] is the number of the shell's descriptor when [readx] got it,
    [rcount] what [FIONREAD] reports.  The callback to run at once, if any. *)
Definition fdevent_subproc_event_func (fd ev : Z) (subproc_read : option Z) (rcount : Z) (l : loop)
  : res (option (ptr * Z * Z) * loop) :=
  let max := Z.of_nat (length (fd_table l)) in
  if (fd <? 0) || (max <=? fd) then Exit "fd out of range for fd_table"
  else
    match fd_table l !! Z.to_nat fd with
    | Some (Cptr p) =>
        let* l1 := fdevent_add p FDE_READ l in
        if negb (has ev FDE_READ) then Ok (None, l1)
        else
          match subproc_read with
          | None => Exit "Failed to read the subproc's fd"
          | Some subproc_fd =>
              if (subproc_fd <? 0) || (max <=? subproc_fd) then Ok (None, l1)
              else
                match fd_table l1 !! Z.to_nat subproc_fd with
                | Some (Cptr q) =>
                    let* g := get_fde q l1 in
                    if negb (f_fd g =? subproc_fd) then Ok (None, l1)
                    else
                      let g1 := set_force_eof true g in
                      if negb (rcount =? 0) then Ok (None, put_fde q g1 l1)
                      else
                        let g2 := set_events (Z.lor (f_events g1) FDE_READ) g1 in
                        if has (f_state g2) FDE_PENDING then Ok (None, put_fde q g2 l1)
                        else
                          let g3 := set_state (Z.lor (f_state g2) FDE_PENDING) g2 in
                          let events := f_events g3 in
                          let g4 := set_state (Z.land (f_state g3) (Z.lnot FDE_PENDING))
                                              (set_events 0 g3) in
                          Ok (Some (q, f_fd g4, events), put_fde q g4 l1)
                | Some Cundef => UB "fd_table cell is uninitialised"
                | _ => Ok (None, l1)
                end
          end
    | _ => UB "fd_table cell is not an fdevent"
    end.

(** [fdevent_create] and [fdevent_destroy]. *)
Definition fdevent_create (p : ptr) (fd : Z) (l : loop) : res loop :=
  let* l1 := fdevent_install p fd l in
  let* f := get_fde p l1 in
  Ok (put_fde p (set_state (Z.lor (f_state f) FDE_CREATED) f) l1).
Definition fdevent_destroy (p : ptr) (l : loop) : res loop :=
  let* f := get_fde p l in
  if negb (has (f_state f) FDE_CREATED) then Exit "fde not created by fdevent_create()"
  else fdevent_remove p l.

(** ** Bits *)

Lemma has_testbit v k : 0 <= k -> has v (2 ^ k) = Z.testbit v k.
Proof.
  intros Hk. unfold has. destruct (Z.testbit v k) eqn:E.
  - apply negb_true_iff, Z.eqb_neq. intros H. apply (f_equal (fun x => Z.testbit x k)) in H.
    rewrite Z.land_spec, Z.pow2_bits_true, Z.bits_0, E in H by lia. done.
  - apply negb_false_iff, Z.eqb_eq. apply Z.bits_inj'. intros n Hn.
    rewrite Z.land_spec, Z.bits_0. destruct (decide (n = k)) as [->|Hne].
    + by rewrite E.
    + rewrite Z.pow2_bits_false by congruence. apply andb_false_r.
Qed.

Lemma has_READ v : has v FDE_READ = Z.testbit v 0. Proof. by apply (has_testbit v 0). Qed.
Lemma has_WRITE v : has v FDE_WRITE = Z.testbit v 1. Proof. by apply (has_testbit v 1). Qed.
Lemma has_ERROR v : has v FDE_ERROR = Z.testbit v 2. Proof. by apply (has_testbit v 2). Qed.
Lemma has_ACTIVE v : has v FDE_ACTIVE = Z.testbit v 8. Proof. by apply (has_testbit v 8). Qed.
Lemma has_PENDING v : has v FDE_PENDING = Z.testbit v 9. Proof. by apply (has_testbit v 9). Qed.

(** Reduce the flag tests of a goal to bits and evaluate those of constants. *)
Ltac eval_bits :=
  repeat match goal with
  | |- context [Z.testbit ?c ?k] =>
      let v := eval vm_compute in (Z.testbit c k) in
      match v with
      | true => change (Z.testbit c k) with true
      | false => change (Z.testbit c k) with false
      end
  end.
Ltac bits :=
  rewrite ?has_READ, ?has_WRITE, ?has_ERROR, ?has_ACTIVE, ?has_PENDING;
  cbn [f_state f_events f_fd f_force_eof set_state set_events set_force_eof];
  repeat (rewrite Z.lor_spec || rewrite Z.land_spec || rewrite Z.lnot_spec by lia);
  eval_bits; rewrite ?andb_true_r, ?andb_false_r, ?orb_false_r, ?orb_false_l, ?orb_true_r.

(** The events an fdevent asks for. *)
Definition interest (f : fdevent) : Z := Z.land (f_state f) FDE_EVENTMASK.

(** What [fdevent_set] makes of one fdevent structure. *)
Definition fde_set (events0 : Z) (f : fdevent) : fdevent :=
  let events := Z.land events0 FDE_EVENTMASK in
  if interest f =? events then f
  else
    let f2 := set_state (Z.lor (Z.land (f_state f) FDE_STATEMASK) events) f in
    if has (f_state f2) FDE_PENDING then
      let f3 := set_events (Z.land (f_events f2) (Z.lnot events)) f2 in
      if f_events f3 =? 0 then set_state (Z.land (f_state f3) (Z.lnot FDE_PENDING)) f3 else f3
    else f2.
Definition fde_add (events : Z) (f : fdevent) : fdevent :=
  fde_set (Z.lor (interest f) (Z.land events FDE_EVENTMASK)) f.
Definition fde_del (events : Z) (f : fdevent) : fdevent :=
  fde_set (Z.land (interest f) (Z.lnot (Z.land events FDE_EVENTMASK))) f.

Lemma mask_disjoint s e :
  Z.land (Z.lor (Z.land s FDE_STATEMASK) e) FDE_EVENTMASK = Z.land e FDE_EVENTMASK.
Proof. rewrite Z.land_lor_distr_l, <- Z.land_assoc, Z.land_0_r. done. Qed.

Lemma mask_idem e : Z.land (Z.land e FDE_EVENTMASK) FDE_EVENTMASK = Z.land e FDE_EVENTMASK.
Proof. by rewrite <- Z.land_assoc. Qed.

(** [fdevent_set] makes the interest exactly the requested events. *)
Lemma interest_fde_set e f : interest (fde_set e f) = Z.land e FDE_EVENTMASK.
Proof.
  unfold fde_set. destruct (Z.eqb_spec (interest f) (Z.land e FDE_EVENTMASK)); [done|].
  unfold interest in *. cbv zeta. repeat case_if_goal; cbn [f_state set_state set_events].
  - rewrite <- Z.land_assoc. change (Z.land (Z.lnot FDE_PENDING) FDE_EVENTMASK) with FDE_EVENTMASK.
    by rewrite mask_disjoint, mask_idem.
  - by rewrite mask_disjoint, mask_idem.
  - by rewrite mask_disjoint, mask_idem.
Qed.

Lemma fde_set_fd e f : f_fd (fde_set e f) = f_fd f.
Proof. unfold fde_set. by repeat case_if_goal. Qed.

Lemma fde_set_active e f : has (f_state (fde_set e f)) FDE_ACTIVE = has (f_state f) FDE_ACTIVE.
Proof. unfold fde_set. cbv zeta. repeat case_if_goal; bits; done. Qed.

(** The bits of the state after [fdevent_set]. *)
Lemma fde_set_testbit e f k : 0 <= k < 8 ->
  Z.testbit (f_state (fde_set e f)) k = Z.testbit e k.
Proof.
  intros Hk. pose proof (interest_fde_set e f) as H. unfold interest in H.
  apply (f_equal (fun x => Z.testbit x k)) in H. rewrite !Z.land_spec in H.
  change FDE_EVENTMASK with (Z.ones 8) in H. rewrite Z.ones_spec_low in H by lia.
  by rewrite !andb_true_r in H.
Qed.

Lemma fd_update_same (b : bool) fd (s : gset Z) : (fd ∈ s <-> b = true) -> fd_update b fd s = s.
Proof. unfold fd_update. intros H. apply set_eq. intros x. destruct b; set_solver. Qed.

(** The state of the loop after [fdevent_set] on a live fdevent. *)
Definition after_set (p : ptr) (e : Z) (f : fdevent) (l : loop) : loop :=
  let f' := fde_set e f in
  let l1 := put_fde p f' l in
  let l2 := if has (f_state f) FDE_ACTIVE then
      with_sets (fd_update (has (f_state f') FDE_READ) (f_fd f) (read_fds l))
                (fd_update (has (f_state f') FDE_WRITE) (f_fd f) (write_fds l))
                (fd_update (has (f_state f') FDE_ERROR) (f_fd f) (error_fds l)) l1
    else l1 in
  if has (f_state f) FDE_PENDING && negb (has (f_state f') FDE_PENDING)
  then with_pending (remove_elt p (pending l)) l2 else l2.

(** The select sets agree with the interest of an fdevent. *)
Definition sets_agree (f : fdevent) (l : loop) : Prop :=
  (f_fd f ∈ read_fds l <-> has (f_state f) FDE_READ = true) /\
  (f_fd f ∈ write_fds l <-> has (f_state f) FDE_WRITE = true) /\
  (f_fd f ∈ error_fds l <-> has (f_state f) FDE_ERROR = true).

Lemma loop_eq l m :
  fdes l = fdes m -> fd_table l = fd_table m -> pending l = pending m ->
  read_fds l = read_fds m -> write_fds l = write_fds m -> error_fds l = error_fds m ->
  select_n l = select_n m -> closed l = closed m -> l = m.
Proof. destruct l, m; simpl. congruence. Qed.

Lemma land_mask_bit e k : 0 <= k < 8 -> Z.testbit (Z.land e FDE_EVENTMASK) k = Z.testbit e k.
Proof.
  intros Hk. rewrite Z.land_spec. change FDE_EVENTMASK with (Z.ones 8).
  rewrite Z.ones_spec_low by lia. apply andb_true_r.
Qed.

Lemma pending_cleared s : has (Z.land s (Z.lnot FDE_PENDING)) FDE_PENDING = false.
Proof. bits. done. Qed.

Lemma state_mask_again s e :
  Z.land (Z.lor (Z.land s FDE_STATEMASK) (Z.land e FDE_EVENTMASK)) FDE_STATEMASK =
  Z.land s FDE_STATEMASK.
Proof.
  rewrite Z.land_lor_distr_l, <- !Z.land_assoc.
  change (Z.land FDE_EVENTMASK FDE_STATEMASK) with 0. by rewrite Z.land_0_r, Z.lor_0_r.
Qed.

(** The end of [fdevent_set], once the select sets are up to date: the event is not
    pending any more when nothing is left of what it is pending for. *)
Lemma fdevent_set_tail p e l f l1 (g := set_state (Z.lor (Z.land (f_state f) FDE_STATEMASK) (Z.land e FDE_EVENTMASK)) f) (f' := fde_set e f) :
  (Z.land (f_state f) FDE_EVENTMASK =? Z.land e FDE_EVENTMASK) = false ->
  fdes l1 !! p = Some f \/ fdes l1 !! p = Some g -> pending l1 = pending l ->
  (let* f1 := deref "fdevent is not live" (fdes l1 !! p) in
   let f2 := set_state (Z.lor (Z.land (f_state f1) FDE_STATEMASK) (Z.land e FDE_EVENTMASK)) f1 in
   if has (f_state f2) FDE_PENDING then
     let f3 := set_events (Z.land (f_events f2) (Z.lnot (Z.land e FDE_EVENTMASK))) f2 in
     if f_events f3 =? 0 then
       Ok (put_fde p (set_state (Z.land (f_state f3) (Z.lnot FDE_PENDING)) f3)
            (with_pending (remove_elt p (pending l1)) l1))
     else Ok (put_fde p f3 l1)
   else Ok (put_fde p f2 l1)) =
  Ok (put_fde p f' (if has (f_state f) FDE_PENDING && negb (has (f_state f') FDE_PENDING)
       then with_pending (remove_elt p (pending l)) l1 else l1)).
Proof.
  intros E Hl1 Hq.
  assert (exists f1, fdes l1 !! p = Some f1 /\
    set_state (Z.lor (Z.land (f_state f1) FDE_STATEMASK) (Z.land e FDE_EVENTMASK)) f1 = g) as (f1 & -> & Eg).
  { destruct Hl1 as [->| ->]; eexists; (split; [reflexivity|]); [done|].
    unfold g, set_state. cbn [f_fd f_force_eof f_state f_events]. by rewrite state_mask_again. }
  cbn [deref rbind]. cbv zeta. rewrite Eg.
  assert (has (f_state g) FDE_PENDING = has (f_state f) FDE_PENDING) as Ep by (unfold g; bits; done).
  unfold f', fde_set, interest. rewrite E. fold g. rewrite Ep. cbv zeta.
  destruct (has (f_state f) FDE_PENDING) eqn:Epf; [|done]. cbn [andb].
  destruct (f_events (set_events _ g) =? 0) eqn:E0.
  - cbn [f_state set_state]. rewrite pending_cleared. cbn [negb]. by rewrite Hq.
  - cbn [f_state set_events]. by rewrite Ep.
Qed.

Lemma fdevent_set_spec p e l f :
  fdes l !! p = Some f -> (has (f_state f) FDE_ACTIVE = true -> sets_agree f l) ->
  fdevent_set p e l = Ok (after_set p e f l).
Proof.
  intros Hp Hag. unfold fdevent_set, get_fde. rewrite Hp. cbn [deref rbind].
  unfold after_set. set (f' := fde_set e f).
  destruct (Z.land (f_state f) FDE_EVENTMASK =? Z.land e FDE_EVENTMASK) eqn:E.
  - assert (f' = f) as Ef by (unfold f', fde_set, interest; rewrite E; done). rewrite !Ef.
    rewrite andb_negb_r. f_equal.
    destruct (has (f_state f) FDE_ACTIVE) eqn:Ea.
    + destruct (Hag eq_refl) as (Hr & Hw & He).
      apply loop_eq; simpl; try done; [by rewrite insert_id|..];
      by rewrite fd_update_same.
    + apply loop_eq; simpl; try done. by rewrite insert_id.
  - assert (has (f_state f') FDE_READ = has (Z.land e FDE_EVENTMASK) FDE_READ /\
            has (f_state f') FDE_WRITE = has (Z.land e FDE_EVENTMASK) FDE_WRITE /\
            has (f_state f') FDE_ERROR = has (Z.land e FDE_EVENTMASK) FDE_ERROR) as (H1 & H2 & H3).
    { rewrite ?has_READ, ?has_WRITE, ?has_ERROR. unfold f'.
      rewrite !fde_set_testbit, !land_mask_bit by lia. done. }
    rewrite H1, H2, H3. clear H1 H2 H3.
    pose proof (fdevent_set_tail p e l f) as Hrun. cbv zeta in Hrun. fold f' in Hrun.
    destruct (has (f_state f) FDE_ACTIVE).
    + unfold fdevent_update, get_fde. rewrite Hp. cbn [deref rbind].
      rewrite (Hrun (put_fde p _ _)); [|done|right; apply lookup_insert_eq|done].
      f_equal. destruct (has (f_state f) FDE_PENDING && _);
        apply loop_eq; simpl; by rewrite ?insert_insert_eq.
    + cbn [rbind]. pose proof (Hrun l E (or_introl Hp) eq_refl) as Hr. rewrite Hp in Hr.
      etransitivity; [unfold get_fde; rewrite Hp; exact Hr|]. f_equal.
      destruct (has (f_state f) FDE_PENDING && _); done.
Qed.

(** ** The invariant of the loop

    Descriptors are below 128, the cells the first allocation of the table
    clears; [memset_half] below shows what happens above. *)

Definition active (f : fdevent) : Prop := has (f_state f) FDE_ACTIVE = true.

(** A select set holds exactly the descriptors of the active fdevents that ask
    for its event. *)
Definition sel_ok (l : loop) (s : gset Z) (bit : Z) : Prop :=
  forall fd, fd ∈ s <-> exists p f, fdes l !! p = Some f /\ active f /\ f_fd f = fd /\
    has (f_state f) bit = true.

Record wf_loop (l : loop) : Prop := {
  wf_active : forall p f, fdes l !! p = Some f -> active f ->
    0 <= f_fd f < 128 /\ f_fd f < select_n l /\ fd_table l !! Z.to_nat (f_fd f) = Some (Cptr p);
  wf_cells : forall i p, fd_table l !! i = Some (Cptr p) ->
    exists f, fdes l !! p = Some f /\ active f /\ f_fd f = Z.of_nat i;
  wf_init : fd_table l <> [] -> forall i, (i < 128)%nat ->
    exists c, fd_table l !! i = Some c /\ c <> Cundef;
  wf_select : 0 <= select_n l <= 128 /\ (fd_table l = [] -> select_n l = 0);
  wf_nodup : NoDup (pending l);
  wf_pending : forall p, p ∈ pending l <->
    exists f, fdes l !! p = Some f /\ has (f_state f) FDE_PENDING = true;
  wf_read : sel_ok l (read_fds l) FDE_READ;
  wf_write : sel_ok l (write_fds l) FDE_WRITE;
  wf_error : sel_ok l (error_fds l) FDE_ERROR }.

Lemma wf_init_loop : wf_loop init_loop.
Proof.
  assert (forall bit, sel_ok init_loop ∅ bit) as Hs
    by (intros bit fd; split; [set_solver|intros (p & f & H & _); done]).
  constructor; try apply Hs; simpl; try done; [constructor|].
  intros p. split; [set_solver|by intros (f & H & _)].
Qed.

(** Two active fdevents never share a descriptor. *)
Lemma wf_fd_unique l p q f g : wf_loop l ->
  fdes l !! p = Some f -> active f -> fdes l !! q = Some g -> active g ->
  f_fd f = f_fd g -> p = q.
Proof.
  intros W Hp Ap Hq Aq E. destruct (wf_active _ W _ _ Hp Ap) as (_ & _ & H1).
  destruct (wf_active _ W _ _ Hq Aq) as (_ & _ & H2). rewrite E in H1. congruence.
Qed.

Lemma wf_sets_agree l p f : wf_loop l -> fdes l !! p = Some f -> active f -> sets_agree f l.
Proof.
  intros W Hp Ha.
  assert (forall s bit, sel_ok l s bit -> f_fd f ∈ s <-> has (f_state f) bit = true) as Hs.
  { intros s bit Hs. rewrite (Hs (f_fd f)). split.
    - intros (q & g & Hq & Aq & E & Hb). rewrite (wf_fd_unique l q p g f W Hq Aq Hp Ha E) in Hq.
      congruence.
    - intros Hb. eauto 6. }
  split_and!; apply Hs; apply W.
Qed.

(** Replacing one active fdevent by another with the same descriptor moves that
    descriptor in or out of a select set. *)
Lemma sel_ok_update l p f f' s bit m :
  wf_loop l -> fdes l !! p = Some f -> active f -> active f' -> f_fd f' = f_fd f ->
  fdes m = <[p := f']> (fdes l) -> sel_ok l s bit ->
  sel_ok m (fd_update (has (f_state f') bit) (f_fd f) s) bit.
Proof.
  intros W Hp Ha Ha' Efd Em Hs fd. rewrite Em.
  assert (fd ∈ fd_update (has (f_state f') bit) (f_fd f) s <->
    (fd = f_fd f /\ has (f_state f') bit = true) \/ (fd <> f_fd f /\ fd ∈ s)) as ->.
  { unfold fd_update. destruct (has (f_state f') bit);
    [rewrite elem_of_union, elem_of_singleton|rewrite elem_of_difference, elem_of_singleton];
    destruct (decide (fd = f_fd f)); intuition congruence. }
  rewrite (Hs fd). split.
  - intros [[-> Hb]|[Hne (q & g & Hq & Aq & E & Hb)]].
    + exists p, f'. by rewrite lookup_insert_eq.
    + exists q, g. rewrite lookup_insert_ne; [done|]. intros <-. congruence.
  - intros (q & g & Hq & Aq & E & Hb). destruct (decide (q = p)) as [->|Hne].
    + rewrite lookup_insert_eq in Hq. simplify_eq. left. done.
    + rewrite lookup_insert_ne in Hq by done. right. split; [|by eauto 6].
      intros Efd2. apply Hne. eapply (wf_fd_unique l q p g f); try done. congruence.
Qed.

(** An fdevent that is not active does not occur in the select sets. *)
Lemma sel_ok_inactive l p f' s bit m :
  (forall f, fdes l !! p = Some f -> ~ active f) -> ~ active f' ->
  fdes m = <[p := f']> (fdes l) -> sel_ok l s bit -> sel_ok m s bit.
Proof.
  intros Hn Hn' Em Hs fd. rewrite (Hs fd), Em. split.
  - intros (q & g & Hq & Aq & E & Hb). exists q, g. rewrite lookup_insert_ne; [done|].
    intros <-. by eapply Hn.
  - intros (q & g & Hq & Aq & E & Hb). destruct (decide (q = p)) as [->|Hne].
    + rewrite lookup_insert_eq in Hq. by simplify_eq.
    + rewrite lookup_insert_ne in Hq by done. eauto 6.
Qed.

Lemma pending_insert l p f f' q m :
  (forall p, p ∈ pending l <-> exists f, fdes l !! p = Some f /\ has (f_state f) FDE_PENDING = true) ->
  fdes l !! p = Some f ->
  q = (if has (f_state f) FDE_PENDING && negb (has (f_state f') FDE_PENDING)
       then remove_elt p (pending l) else pending l) ->
  (has (f_state f') FDE_PENDING = true -> has (f_state f) FDE_PENDING = true) ->
  fdes m = <[p := f']> (fdes l) ->
  forall x, x ∈ q <-> exists f, fdes m !! x = Some f /\ has (f_state f) FDE_PENDING = true.
Proof.
  intros Hw Hp -> Himp -> x. destruct (decide (x = p)) as [->|Hne].
  - rewrite lookup_insert_eq. pose proof (Hw p) as Hwp. rewrite Hp in Hwp.
    destruct (has (f_state f) FDE_PENDING) eqn:E, (has (f_state f') FDE_PENDING) eqn:E';
      cbn [andb negb]; rewrite ?elem_of_remove_elt, ?Hwp; split;
      [intros (g & Hg & Hgp)|intros (g & Hg & Hgp)| intros [_ Hn]|intros (g & Hg & Hgp)
      |intros (g & Hg & Hgp)|intros (g & Hg & Hgp)|intros (g & Hg & Hgp)|intros (g & Hg & Hgp)];
      simplify_eq; eauto; try congruence; by specialize (Himp eq_refl).
  - rewrite lookup_insert_ne by done. rewrite <- Hw.
    destruct (_ && _); [rewrite elem_of_remove_elt; tauto|done].
Qed.

Lemma fde_set_pending e f :
  has (f_state (fde_set e f)) FDE_PENDING = true -> has (f_state f) FDE_PENDING = true.
Proof.
  unfold fde_set. cbv zeta. repeat case_if_goal; try done.
  - cbn [f_state set_state]. by rewrite pending_cleared.
  - revert E0. bits. done.
  - congruence.
Qed.

Lemma after_set_fdes p e f l : fdes (after_set p e f l) = <[p := fde_set e f]> (fdes l).
Proof. unfold after_set. by repeat case_if_goal. Qed.

Lemma sel_ok_after_set l p e f s s' bit :
  wf_loop l -> fdes l !! p = Some f -> sel_ok l s bit ->
  s' = (if has (f_state f) FDE_ACTIVE
        then fd_update (has (f_state (fde_set e f)) bit) (f_fd f) s else s) ->
  sel_ok (after_set p e f l) s' bit.
Proof.
  intros W Hp Hs ->. pose proof (fde_set_active e f) as Ea.
  destruct (has (f_state f) FDE_ACTIVE) eqn:Ef.
  - eapply sel_ok_update; [done..| |apply after_set_fdes|done]. apply fde_set_fd.
  - eapply sel_ok_inactive; [| |apply after_set_fdes|done].
    + intros g Hg. simplify_eq. unfold active. congruence.
    + unfold active. congruence.
Qed.

Lemma wf_after_set l p e f :
  wf_loop l -> fdes l !! p = Some f -> wf_loop (after_set p e f l).
Proof.
  intros W Hp. set (m := after_set p e f l).
  pose proof (after_set_fdes p e f l) as Em. fold m in Em.
  assert (fd_table m = fd_table l) as Et by (unfold m, after_set; by repeat case_if_goal).
  assert (select_n m = select_n l) as En by (unfold m, after_set; by repeat case_if_goal).
  assert (pending m = if has (f_state f) FDE_PENDING && negb (has (f_state (fde_set e f)) FDE_PENDING)
       then remove_elt p (pending l) else pending l) as Eq
    by (unfold m, after_set; by repeat case_if_goal).
  assert (active (fde_set e f) <-> active f) as Ea by (unfold active; by rewrite fde_set_active).
  constructor.
  - intros q g Hq Aq. rewrite Em in Hq. rewrite En, Et. destruct (decide (q = p)) as [->|Hne].
    + rewrite lookup_insert_eq in Hq. injection Hq as <-. rewrite fde_set_fd.
      apply (wf_active _ W); [done|]. by apply Ea.
    + rewrite lookup_insert_ne in Hq by done. by apply (wf_active _ W).
  - intros i q Hi. rewrite Et in Hi. destruct (wf_cells _ W _ _ Hi) as (g & Hg & Ag & Eg).
    rewrite Em. destruct (decide (q = p)) as [->|Hne].
    + exists (fde_set e f). rewrite lookup_insert_eq, fde_set_fd. simplify_eq. by rewrite Ea.
    + exists g. by rewrite lookup_insert_ne.
  - rewrite Et. apply (wf_init _ W).
  - rewrite Et, En. apply (wf_select _ W).
  - rewrite Eq. destruct (_ && _); [apply NoDup_remove_elt|]; apply (wf_nodup _ W).
  - eapply pending_insert; [exact (wf_pending _ W)|exact Hp|exact Eq|apply fde_set_pending|exact Em].
  - eapply sel_ok_after_set; [done|done|apply W|]. unfold m, after_set. by repeat case_if_goal.
  - eapply sel_ok_after_set; [done|done|apply W|]. unfold m, after_set. by repeat case_if_goal.
  - eapply sel_ok_after_set; [done|done|apply W|]. unfold m, after_set. by repeat case_if_goal.
Qed.

(** *** Installation *)

Lemma grow_small n max fd : fd < max -> grow n max fd = Ok max.
Proof. intros H. destruct n; simpl; rewrite (proj2 (Z.leb_gt _ _)) by lia; done. Qed.

(** The table [fdevent_register] leaves for a descriptor below 128. *)
Definition table_for (l : loop) : list cell :=
  match fd_table l with
  | [] => replicate 128 Cnull ++ replicate 128 Cundef
  | t => t
  end.

Lemma table_for_init l : wf_loop l -> forall i, (i < 128)%nat ->
  exists c, table_for l !! i = Some c /\ c <> Cundef.
Proof.
  intros W i Hi. unfold table_for. destruct (fd_table l) as [|c t] eqn:E.
  - exists Cnull. rewrite lookup_app_l by (rewrite length_replicate; lia).
    split; [|done]. by apply lookup_replicate_2.
  - rewrite <- E. apply (wf_init _ W); [by rewrite E|done].
Qed.

Lemma table_for_cell l i p : table_for l !! i = Some (Cptr p) <-> fd_table l !! i = Some (Cptr p).
Proof.
  unfold table_for. destruct (fd_table l) as [|c t] eqn:E; [|done]. split; [|done].
  intros H. apply list_elem_of_lookup_2, elem_of_app in H as [H|H]; apply elem_of_replicate in H; naive_solver.
Qed.

Lemma fdevent_register_spec p f l : wf_loop l -> 0 <= f_fd f < 128 ->
  exists l', fdevent_register p f l = Ok l' /\ fdes l' = fdes l /\ pending l' = pending l /\
    fd_table l' = <[Z.to_nat (f_fd f) := Cptr p]> (table_for l) /\ select_n l' = select_n l /\
    read_fds l' = read_fds l /\ write_fds l' = write_fds l /\ error_fds l' = error_fds l.
Proof.
  intros W Hfd. unfold fdevent_register. rewrite (proj2 (Z.ltb_ge _ _)) by lia.
  destruct (fd_table l) as [|c t] eqn:E.
  - rewrite (proj2 (Z.leb_le _ _)) by (simpl; lia). rewrite (proj2 (Z.ltb_ge _ _)) by lia.
    cbn [length Z.of_nat]. rewrite Z.eqb_refl, grow_small by lia. cbn [rbind].
    change (Z.to_nat (4 * (256 - 0) / 8)) with 128%nat. change (Z.to_nat (256 - 0) - 128)%nat with 128%nat.
    eexists. split; [reflexivity|]. unfold table_for. rewrite E. simpl app.
    assert (forall bit s, sel_ok l s bit -> s = ∅) as Hs.
    { intros bit s Hs. apply set_eq. intros fd. rewrite (Hs fd). split; [|set_solver].
      intros (q & g & Hq & Aq & _). destruct (wf_active _ W _ _ Hq Aq) as (_ & _ & H). by rewrite E in H. }
    rewrite (Hs _ _ (wf_read _ W)), (Hs _ _ (wf_write _ W)), (Hs _ _ (wf_error _ W)). done.
  - assert (127 < length (fd_table l))%nat as Hlen.
    { destruct (wf_init _ W ltac:(by rewrite E) 127%nat ltac:(lia)) as (? & H & _).
      by apply lookup_lt_Some in H. }
    rewrite E in Hlen. rewrite (proj2 (Z.leb_gt _ _)) by lia. cbn [rbind].
    eexists. split; [reflexivity|]. unfold table_for. rewrite E. done.
Qed.

Lemma fdevent_register_put p f g l : fdevent_register p f (put_fde p g l) = rbind (fdevent_register p f l) (fun m => Ok (put_fde p g m)).
Proof. unfold fdevent_register. simpl. repeat case_if_goal; try done. all: try (destruct (grow _ _ _); done). Qed.

(** What installing an event changes. *)
Lemma fdevent_install_shape l p fd : wf_loop l -> 0 <= fd < 128 ->
  exists l', fdevent_install p fd l = Ok l' /\ fdes l' = <[p := mkfde fd false FDE_ACTIVE 0]> (fdes l) /\
    fd_table l' = <[Z.to_nat fd := Cptr p]> (table_for l) /\ pending l' = pending l /\ select_n l' = Z.max (select_n l) (fd + 1) /\
    read_fds l' = read_fds l /\ write_fds l' = write_fds l /\ error_fds l' = error_fds l.
Proof.
  intros W Hfd. set (f := mkfde fd false FDE_ACTIVE 0).
  destruct (fdevent_register_spec p f l W Hfd) as (m & Em & Ef & Eq & Et & En & Er & Ew & Ee).
  unfold fdevent_install. fold f. rewrite fdevent_register_put, Em. cbn [rbind]. eexists. split; [done|].
  unfold fdevent_connect. simpl. rewrite En. destruct (Z.leb_spec (select_n l) fd); simpl;
    rewrite !insert_insert_eq, Ef; split_and!; first [done|lia].
Qed.

(** A descriptor is watched for what the installed events want. *)
Lemma sel_ok_install l l' p f s bit : fdes l' = <[p := f]> (fdes l) -> (forall g, fdes l !! p = Some g -> ~ active g) ->
  has (f_state f) bit = false -> sel_ok l s bit -> sel_ok l' s bit.
Proof.
  intros Ef Hna Hb Hs x. rewrite (Hs x), Ef. split; intros (q & g & Hq & Aq & E & Hg).
  - exists q, g. rewrite lookup_insert_ne; [done|]. intros <-. by eapply Hna.
  - apply lookup_insert_Some in Hq as [[-> <-]|[Hne Hq]]; [congruence|eauto 6].
Qed.

Lemma wf_install l p fd l' :
  wf_loop l -> (forall f, fdes l !! p = Some f -> f_state f = 0) ->
  0 <= fd < 128 -> (forall q, fd_table l !! Z.to_nat fd <> Some (Cptr q)) ->
  fdevent_install p fd l = Ok l' -> wf_loop l'.
Proof.
  intros W Hfree Hfd Hcell Hrun. set (f := mkfde fd false FDE_ACTIVE 0).
  destruct (fdevent_install_shape l p fd W Hfd) as (l0 & Erun & Ef' & Et' & Eq' & En' & Er & Ew & Ee). fold f in Ef'.
  rewrite Erun in Hrun. injection Hrun as ->.
  assert (forall f0, fdes l !! p = Some f0 -> ~ active f0) as Hna.
  { intros f0 H0. unfold active. by rewrite (Hfree _ H0). }
  pose proof (wf_select _ W) as [Hsel _].
  assert (Z.to_nat fd < length (table_for l))%nat as Hlen.
  { destruct (table_for_init l W (Z.to_nat fd) ltac:(lia)) as (c & Hc & _). by apply lookup_lt_Some in Hc. }
  constructor.
  - intros q g Hq Aq. rewrite Ef' in Hq. rewrite Et', En'. destruct (decide (q = p)) as [->|Hne].
    + rewrite lookup_insert_eq in Hq. injection Hq as <-. simpl. split_and!; [lia..|].
      by rewrite list_lookup_insert_eq.
    + rewrite lookup_insert_ne in Hq by done. destruct (wf_active _ W _ _ Hq Aq) as (H1 & H2 & H3).
      split_and!; [lia..|]. rewrite list_lookup_insert_ne; [by apply table_for_cell|].
      intros E. rewrite <- E in H3. by eapply Hcell.
  - intros i q Hi. rewrite Et' in Hi. rewrite Ef'. destruct (decide (i = Z.to_nat fd)) as [->|Hne].
    + rewrite list_lookup_insert_eq in Hi by done. injection Hi as <-. exists f.
      rewrite lookup_insert_eq. split_and!; [done..|]. simpl. lia.
    + rewrite list_lookup_insert_ne in Hi by done. apply table_for_cell in Hi.
      destruct (wf_cells _ W _ _ Hi) as (g & Hg & Ag & Eg). exists g.
      rewrite lookup_insert_ne; [done|]. intros <-. by eapply Hna.
  - intros _ i Hi. rewrite Et'. destruct (decide (i = Z.to_nat fd)) as [->|Hne].
    + exists (Cptr p). by rewrite list_lookup_insert_eq.
    + rewrite list_lookup_insert_ne by done. by apply table_for_init.
  - rewrite En', Et'. split; [lia|]. intros E. apply (f_equal length) in E.
    rewrite length_insert in E. simpl in E. lia.
  - rewrite Eq'. apply W.
  - intros q. rewrite Eq', (wf_pending _ W q), Ef'. destruct (decide (q = p)) as [->|Hne].
    + rewrite lookup_insert_eq. split.
      * intros (g & Hg & Hp). rewrite (Hfree _ Hg) in Hp. done.
      * intros (g & [= <-] & Hp). done.
    + by rewrite lookup_insert_ne.
  - rewrite Er. eapply sel_ok_install; [done..|apply W].
  - rewrite Ew. eapply sel_ok_install; [done..|apply W].
  - rewrite Ee. eapply sel_ok_install; [done..|apply W].
Qed.

Lemma fdevent_install_ok l p fd : wf_loop l -> 0 <= fd < 128 ->
  exists l', fdevent_install p fd l = Ok l'.
Proof. intros W Hfd. destruct (fdevent_install_shape l p fd W Hfd) as (l' & E & _). eauto. Qed.

(** *** Changes that keep the shape of an fdevent *)

(** [f'] differs from [f] only in recorded events, [force_eof] and flags the
    loop does not index. *)
Record same_shape (f f' : fdevent) : Prop := {
  ss_fd : f_fd f' = f_fd f;
  ss_bit : forall b, b ∈ [FDE_READ; FDE_WRITE; FDE_ERROR; FDE_ACTIVE] ->
    has (f_state f') b = has (f_state f) b }.

Lemma same_shape_active f f' : same_shape f f' -> (active f' <-> active f).
Proof. intros H. unfold active. rewrite (ss_bit _ _ H); [done|set_solver]. Qed.

Lemma wf_touch l p f f' m :
  wf_loop l -> fdes l !! p = Some f -> same_shape f f' ->
  fdes m = <[p := f']> (fdes l) -> fd_table m = fd_table l -> select_n m = select_n l ->
  read_fds m = read_fds l -> write_fds m = write_fds l -> error_fds m = error_fds l ->
  NoDup (pending m) ->
  (forall q, q ∈ pending m <-> exists g, fdes m !! q = Some g /\ has (f_state g) FDE_PENDING = true) ->
  wf_loop m.
Proof.
  intros W Hp Hss Em Et En Er Ew Ee Hnd Hpend.
  pose proof (same_shape_active _ _ Hss) as Ha. pose proof (ss_fd _ _ Hss) as Hfd.
  assert (forall s bit, bit ∈ [FDE_READ; FDE_WRITE; FDE_ERROR; FDE_ACTIVE] ->
            sel_ok l s bit -> sel_ok m s bit) as Hsel.
  { intros s bit Hb Hs fd. rewrite (Hs fd), Em. split; intros (q & g & Hq & Aq & E & Hg).
    - destruct (decide (q = p)) as [->|Hne].
      + simplify_eq. exists p, f'. rewrite lookup_insert_eq, Ha, Hfd, (ss_bit _ _ Hss) by done. done.
      + exists q, g. by rewrite lookup_insert_ne.
    - destruct (decide (q = p)) as [->|Hne].
      + rewrite lookup_insert_eq in Hq. injection Hq as <-. exists p, f.
        rewrite <- Ha, <- Hfd, <- (ss_bit _ _ Hss) by done. done.
      + rewrite lookup_insert_ne in Hq by done. eauto 6. }
  constructor; [| |by rewrite Et; apply W|by rewrite Et, En; apply W|done|done|..].
  - intros q g Hq Aq. rewrite Em in Hq. rewrite Et, En. destruct (decide (q = p)) as [->|Hne].
    + rewrite lookup_insert_eq in Hq. injection Hq as <-. rewrite Hfd. apply (wf_active _ W); [done|by apply Ha].
    + rewrite lookup_insert_ne in Hq by done. by apply (wf_active _ W).
  - intros i q Hi. rewrite Et in Hi. destruct (wf_cells _ W _ _ Hi) as (g & Hg & Ag & Eg). rewrite Em.
    destruct (decide (q = p)) as [->|Hne].
    + simplify_eq. exists f'. by rewrite lookup_insert_eq, Ha, Hfd.
    + exists g. by rewrite lookup_insert_ne.
  - rewrite Er. apply Hsel; [set_solver|apply W].
  - rewrite Ew. apply Hsel; [set_solver|apply W].
  - rewrite Ee. apply Hsel; [set_solver|apply W].
Qed.

Lemma same_shape_low f s e :
  (forall k, k = 0 \/ k = 1 \/ k = 2 \/ k = 8 -> Z.testbit s k = Z.testbit (f_state f) k) ->
  forall b, same_shape f (mkfde (f_fd f) b s e).
Proof.
  intros H b. split; [done|]. intros bit Hb. repeat (apply elem_of_cons in Hb as [->|Hb]);
    [..|by apply elem_of_nil in Hb]; bits; apply H; lia.
Qed.

(** Changing events, [force_eof] or a flag other than [FDE_PENDING]. *)
Lemma wf_touch_quiet l p f f' :
  wf_loop l -> fdes l !! p = Some f -> same_shape f f' ->
  has (f_state f') FDE_PENDING = has (f_state f) FDE_PENDING ->
  wf_loop (put_fde p f' l).
Proof.
  intros W Hp Hss Ep. eapply wf_touch; [done..|apply W|].
  intros q. simpl. rewrite (wf_pending _ W q). destruct (decide (q = p)) as [->|Hne].
  - rewrite lookup_insert_eq, Hp. split; intros (g & [= <-] & Hg); eexists; (split; [done|congruence]).
  - by rewrite lookup_insert_ne.
Qed.

(** Queueing an fdevent with new events. *)
Definition mark (p : ptr) (events : Z) (f : fdevent) (l : loop) : loop :=
  let f1 := set_events (Z.lor (f_events f) events) f in
  if has (f_state f1) FDE_PENDING then put_fde p f1 l
  else with_pending (pending l ++ [p]) (put_fde p (set_state (Z.lor (f_state f1) FDE_PENDING) f1) l).

(** What [select]'s answer makes of one fdevent. *)
Definition noted (r w e : gset Z) (f : fdevent) : fdevent :=
  let ev := ev_bits (bool_decide (f_fd f ∈ r)) (bool_decide (f_fd f ∈ w)) (bool_decide (f_fd f ∈ e)) in
  if has (f_state f) FDE_ACTIVE && negb (ev =? 0)
  then set_state (Z.lor (f_state f) FDE_PENDING) (set_events (Z.lor (f_events f) ev) f)
  else f.

Lemma lor_absorb s k : 0 <= k -> Z.testbit s k = true -> Z.lor s (2 ^ k) = s.
Proof.
  intros Hk Hs. apply Z.bits_inj'. intros n Hn. rewrite Z.lor_spec.
  destruct (decide (n = k)) as [->|Hne]; [by rewrite Hs|].
  by rewrite Z.pow2_bits_false, orb_false_r by congruence.
Qed.

Lemma mark_fdes p ev f l :
  fdes (mark p ev f l) =
  <[p := set_state (Z.lor (f_state f) FDE_PENDING) (set_events (Z.lor (f_events f) ev) f)]> (fdes l).
Proof.
  unfold mark. case_if_goal; [|done]. simpl in *. f_equal. unfold set_state, set_events. simpl.
  rewrite has_PENDING in E. by rewrite (lor_absorb _ 9) by done.
Qed.

Lemma mark_fields p ev f l :
  fd_table (mark p ev f l) = fd_table l /\ select_n (mark p ev f l) = select_n l /\
  read_fds (mark p ev f l) = read_fds l /\ write_fds (mark p ev f l) = write_fds l /\
  error_fds (mark p ev f l) = error_fds l.
Proof. unfold mark. by case_if_goal. Qed.

Lemma wf_mark p ev f l : wf_loop l -> fdes l !! p = Some f -> wf_loop (mark p ev f l).
Proof.
  intros W Hp. destruct (mark_fields p ev f l) as (Et & En & Er & Ew & Ee).
  assert (p ∈ pending l <-> has (f_state f) FDE_PENDING = true) as Hin.
  { rewrite (wf_pending _ W p), Hp. split; [by intros (g & [= <-] & ?)|eauto]. }
  eapply wf_touch; [done|exact Hp| |apply mark_fdes|done..| |].
  - apply (same_shape_low f). intros k Hk. rewrite Z.lor_spec.
    destruct Hk as [->|[->|[->| ->]]]; eval_bits; apply orb_false_r.
  - unfold mark. simpl. case_if_goal; simpl; [apply W|]. apply NoDup_app. split; [apply W|].
    split; [|apply NoDup_singleton]. intros x Hx. rewrite list_elem_of_singleton. intros ->.
    apply Hin in Hx. congruence.
  - intros q. rewrite mark_fdes. destruct (decide (q = p)) as [->|Hne].
    + rewrite lookup_insert_eq. split; [|intros _].
      * intros _. eexists. split; [done|]. bits. done.
      * unfold mark. simpl. case_if_goal; simpl; [by apply Hin|set_solver].
    + rewrite lookup_insert_ne by done. rewrite <- (wf_pending _ W q).
      unfold mark. simpl. case_if_goal; simpl; [done|]. set_solver.
Qed.

(** *** [fdevent_process] *)

(** How many members of a result set are left from [i] on. *)
Definition left_from (i : Z) (s : gset Z) : Z := Z.of_nat (size (filter (fun x => i <= x) s)).

Lemma left_from_step i s : left_from i s = Z.b2z (bool_decide (i ∈ s)) + left_from (i + 1) s.
Proof.
  unfold left_from. case_bool_decide as Hi; simpl.
  - assert (filter (fun x => i <= x) s = {[i]} ∪ filter (fun x => i + 1 <= x) s) as ->.
    { apply set_eq. intros x. rewrite elem_of_union, elem_of_singleton, !elem_of_filter.
      split; [intros [? ?]; destruct (decide (x = i)); [by left|right; split; [lia|done]]|].
      intros [->|[? ?]]; split; try done; lia. }
    rewrite size_union, size_singleton; [lia|].
    intros x Hx Hf. apply elem_of_singleton in Hx as ->. apply elem_of_filter in Hf as [? _]. lia.
  - rewrite Z.add_0_l. do 2 f_equal. apply set_eq. intros x. rewrite !elem_of_filter.
    split; intros [? ?]; (split; [|done]); [|lia]. destruct (decide (x = i)); [congruence|lia].
Qed.

Lemma left_from_none i s : left_from i s = 0 -> forall x, i <= x -> x ∉ s.
Proof.
  unfold left_from. intros H x Hx Hin.
  assert (size (filter (fun x => i <= x) s) = 0%nat) as H0 by lia.
  apply size_empty_iff in H0. specialize (H0 x). rewrite elem_of_filter in H0. set_solver.
Qed.

Lemma left_from_all s : (forall x, x ∈ s -> 0 <= x) -> left_from 0 s = Z.of_nat (size s).
Proof.
  intros H. unfold left_from. do 2 f_equal. apply set_eq. intros x. rewrite elem_of_filter. naive_solver.
Qed.

Lemma ev_bits_0 a b c : ev_bits a b c = 0 <-> a = false /\ b = false /\ c = false.
Proof. destruct a, b, c; vm_compute; naive_solver. Qed.

(** The descriptors of a result set belong to active fdevents. *)
Definition owned (l : loop) (s : gset Z) : Prop :=
  forall fd, fd ∈ s -> exists p f, fdes l !! p = Some f /\ active f /\ f_fd f = fd.

Definition noted_from (i : Z) (r w e : gset Z) (f : fdevent) : fdevent :=
  if i <=? f_fd f then noted r w e f else f.

Lemma noted_nothing r w e f : f_fd f ∉ r -> f_fd f ∉ w -> f_fd f ∉ e -> noted r w e f = f.
Proof. intros. unfold noted. rewrite !bool_decide_eq_false_2 by done. by rewrite andb_false_r. Qed.

Lemma noted_inactive r w e f : ~ active f -> noted r w e f = f.
Proof. unfold noted, active. intros H. by destruct (has (f_state f) FDE_ACTIVE). Qed.

(** No bit is left from [i] on. *)
Lemma noted_from_rest i r w e l : left_from i r = 0 -> left_from i w = 0 -> left_from i e = 0 -> fdes l = noted_from i r w e <$> fdes l.
Proof.
  intros H1 H2 H3. apply map_eq. intros q. rewrite lookup_fmap. destruct (fdes l !! q) as [f|] eqn:Hq; [|done]. simpl. f_equal. unfold noted_from.
  destruct (Z.leb_spec i (f_fd f)); [|done]. symmetry. apply noted_nothing; eapply left_from_none; eauto.
Qed.
(** No active event is left from [i] on. *)
Lemma noted_from_end i r w e l : wf_loop l -> select_n l <= i -> fdes l = noted_from i r w e <$> fdes l.
Proof.
  intros W Hi. apply map_eq. intros q. rewrite lookup_fmap. destruct (fdes l !! q) as [f|] eqn:Hq; [|done]. simpl. f_equal. unfold noted_from.
  destruct (Z.leb_spec i (f_fd f)); [|done]. symmetry. apply noted_inactive. intros Ha. destruct (wf_active _ W _ _ Hq Ha). lia.
Qed.
(** The event of one descriptor is marked. *)
Lemma owned_mark p ev f l s : fdes l !! p = Some f -> active f -> owned l s -> owned (mark p ev f l) s.
Proof.
  intros Hp Ha Hs fd Hin. destruct (Hs fd Hin) as (q & g & Hq & Ag & Eg). rewrite mark_fdes. destruct (decide (q = p)) as [->|Hne].
  - simplify_eq. eexists p, _. rewrite lookup_insert_eq. split; [done|]. split; [|done]. unfold active in *. rewrite has_ACTIVE in *. bits. by rewrite Ha.
  - exists q, g. by rewrite lookup_insert_ne.
Qed.
Lemma noted_from_mark i (r w e : gset Z) p f l (ev := ev_bits (bool_decide (i ∈ r)) (bool_decide (i ∈ w)) (bool_decide (i ∈ e))) :
  wf_loop l -> fdes l !! p = Some f -> active f -> f_fd f = i -> ev <> 0 ->
  noted_from (i + 1) r w e <$> fdes (mark p ev f l) = noted_from i r w e <$> fdes l.
Proof.
  intros W Hp Ha Hfd E0. rewrite mark_fdes. apply map_eq. intros q. rewrite !lookup_fmap. destruct (decide (q = p)) as [->|Hne].
  - rewrite lookup_insert_eq, Hp. simpl. f_equal. unfold noted_from. cbn [f_fd set_state set_events].
    rewrite (proj2 (Z.leb_gt _ _)), (proj2 (Z.leb_le _ _)) by lia. unfold noted. rewrite Hfd.
    fold ev. unfold active in Ha. rewrite Ha, (proj2 (Z.eqb_neq _ _)) by done. done.
  - rewrite lookup_insert_ne by done. destruct (fdes l !! q) as [g|] eqn:Hq; [|done]. simpl. f_equal.
    unfold noted_from. destruct (Z.leb_spec (i + 1) (f_fd g)), (Z.leb_spec i (f_fd g)); try done; [lia|].
    symmetry. apply noted_inactive. intros Ag. apply Hne.
    eapply (wf_fd_unique l); [exact W|exact Hq|exact Ag|exact Hp|exact Ha|lia].
Qed.

Lemma process_fds_spec r w e : forall count i n l,
  wf_loop l -> owned l r -> owned l w -> owned l e ->
  0 <= i -> i + Z.of_nat count = select_n l ->
  n = left_from i r + left_from i w + left_from i e ->
  exists l', process_fds r w e i count n l = Ok l' /\ wf_loop l' /\
    fdes l' = noted_from i r w e <$> fdes l.
Proof.
  induction count as [|c IH]; intros i n l W Hr Hw He Hi Hc Hn.
  - exists l. split_and!; [done..|]. apply noted_from_end; [done|lia].
  - simpl. destruct (Z.leb_spec n 0) as [Hle|Hgt].
    { exists l. split_and!; [done..|]. apply noted_from_rest; unfold left_from in *; lia. }
    pose proof (left_from_step i r) as Sr. pose proof (left_from_step i w) as Sw.
    pose proof (left_from_step i e) as Se.
    destruct (Z.eqb_spec (ev_bits (bool_decide (i ∈ r)) (bool_decide (i ∈ w)) (bool_decide (i ∈ e))) 0) as [E0|E0].
    + destruct (IH (i + 1) (n - Z.b2z (bool_decide (i ∈ r)) - Z.b2z (bool_decide (i ∈ w)) -
                     Z.b2z (bool_decide (i ∈ e))) l) as (l' & -> & W' & Hf); [done..|lia|lia|lia|].
      exists l'. split_and!; [done..|]. rewrite Hf. apply map_fmap_ext. intros q f Hq. unfold noted_from.
      destruct (Z.leb_spec (i + 1) (f_fd f)), (Z.leb_spec i (f_fd f)); try done; [lia|].
      symmetry. replace i with (f_fd f) in * by lia. apply ev_bits_0 in E0 as (H1 & H2 & H3).
      apply noted_nothing; by eapply bool_decide_eq_false_1.
    + assert (exists p f, fdes l !! p = Some f /\ active f /\ f_fd f = i) as (p & f & Hp & Ha & Hfd).
      { destruct (decide (i ∈ r)); [by apply Hr|]. destruct (decide (i ∈ w)); [by apply Hw|].
        destruct (decide (i ∈ e)); [by apply He|].
        exfalso. apply E0, ev_bits_0. split_and!; by apply bool_decide_eq_false_2. }
      destruct (wf_active _ W _ _ Hp Ha) as (_ & _ & Hcell). rewrite Hfd in Hcell. rewrite Hcell.
      set (ev := ev_bits _ _ _) in *.
      unfold get_fde. rewrite Hp. cbn [deref rbind].
      destruct (mark_fields p ev f l) as (Et & En & _).
      destruct (IH (i + 1) (n - Z.b2z (bool_decide (i ∈ r)) - Z.b2z (bool_decide (i ∈ w)) -
                     Z.b2z (bool_decide (i ∈ e))) (mark p ev f l))
        as (l' & Hrun & W' & Hf); [by apply wf_mark|by apply owned_mark..|lia|rewrite En; lia|lia|].
      exists l'. split; [|split; [done|]].
      * rewrite <- Hrun. unfold mark. cbn [f_state set_events].
        by destruct (has (f_state f) FDE_PENDING).
      * rewrite Hf. by apply noted_from_mark.
Qed.

Lemma wf_owned l s : wf_loop l ->
  s ⊆ read_fds l \/ s ⊆ write_fds l \/ s ⊆ error_fds l -> owned l s.
Proof.
  intros W H fd Hin.
  assert (forall t bit, sel_ok l t bit -> s ⊆ t ->
    exists p f, fdes l !! p = Some f /\ active f /\ f_fd f = fd) as Hs.
  { intros t bit Ht Hst. destruct (proj1 (Ht fd) (Hst _ Hin)) as (p & f & ? & ? & ? & _). eauto. }
  destruct H as [H|[H|H]]; eapply Hs; eauto; apply W.
Qed.

Lemma owned_nonneg l s : wf_loop l -> owned l s -> forall x, x ∈ s -> 0 <= x.
Proof.
  intros W Hs x Hx. destruct (Hs x Hx) as (p & f & Hp & Ha & <-).
  destruct (wf_active _ W _ _ Hp Ha). lia.
Qed.

Lemma fd_check_spec l bad : wf_loop l ->
  forall count i, i + Z.of_nat count = select_n l -> 0 <= i ->
  exists s, fd_check (drop (Z.to_nat i) (fd_table l)) bad i count = Ok s /\ owned l s.
Proof.
  intros W. induction count as [|c IH]; intros i Hc Hi; simpl.
  - exists ∅. split; [done|]. intros fd. set_solver.
  - assert (fd_table l <> []) as Hne by (intros E; apply (wf_select _ W) in E; lia).
    destruct (wf_select _ W) as [Hsel _].
    destruct (wf_init _ W Hne (Z.to_nat i) ltac:(lia)) as (x & Hx & Hu).
    destruct (IH (i + 1) ltac:(lia) ltac:(lia)) as (s & Es & Hs).
    rewrite (drop_S _ _ _ Hx). replace (S (Z.to_nat i)) with (Z.to_nat (i + 1)) by lia.
    destruct x as [| |p]; [by destruct Hu|eauto|]. rewrite Es. simpl. eexists. split; [done|].
    case_bool_decide; [|done]. intros fd [->%elem_of_singleton|Hin]%elem_of_union; [|by apply Hs].
    destruct (wf_cells _ W _ _ Hx) as (f & Hf & Ha & E). exists p, f. split_and!; [done..|lia].
Qed.

(** One round of [select]: whatever it answers, the loop goes on in a
    well-formed state; on success every reported event is recorded on the
    fdevent of its descriptor, which is queued. *)
Lemma fdevent_process_spec sel bad l :
  wf_loop l ->
  (forall r w e, sel = SelReady r w e -> r ⊆ read_fds l /\ w ⊆ write_fds l /\ e ⊆ error_fds l) ->
  exists l', fdevent_process sel bad l = Ok l' /\ wf_loop l' /\
    (forall r w e, sel = SelReady r w e -> r ∪ w ∪ e ≠ ∅ -> fdes l' = noted r w e <$> fdes l).
Proof.
  intros W Hsel. pose proof (wf_select _ W) as [Hn _].
  assert (exists l', (let* r := fd_check (fd_table l) bad 0 (Z.to_nat (select_n l)) in
     process_fds r ∅ ∅ 0 (Z.to_nat (select_n l)) (Z.of_nat (size r)) l) = Ok l' /\ wf_loop l') as (lf & Hf & Wf).
  { destruct (fd_check_spec l bad W (Z.to_nat (select_n l)) 0) as (s & Es & Hs); [lia|lia|].
    change (drop (Z.to_nat 0) (fd_table l)) with (fd_table l) in Es. rewrite Es. cbn [rbind].
    assert (owned l ∅) as H0 by (intros fd; set_solver).
    destruct (process_fds_spec s ∅ ∅ (Z.to_nat (select_n l)) 0 (Z.of_nat (size s)) l)
      as (l' & ? & ? & _); [done|done|done|done|lia|lia| |by eauto].
    rewrite !left_from_all by (by eapply owned_nonneg). rewrite size_empty. lia. }
  unfold fdevent_process. destruct sel as [r w e| | |]; [|exists l; done|exists lf; done|exists l; done].
  destruct (Hsel r w e eq_refl) as (Hr & Hw & He).
  assert (owned l r) as Or by (apply wf_owned; auto).
  assert (owned l w) as Ow by (apply wf_owned; auto).
  assert (owned l e) as Oe by (apply wf_owned; auto).
  destruct (Z.leb_spec (Z.of_nat (size r) + Z.of_nat (size w) + Z.of_nat (size e)) 0) as [Hle|Hgt].
  - exists lf. split_and!; [done..|]. intros ??? [= <- <- <-] Hne. exfalso. apply Hne.
    assert (size r = 0%nat /\ size w = 0%nat /\ size e = 0%nat) as (H1 & H2 & H3) by lia.
    apply size_empty_iff in H1, H2, H3. set_solver.
  - destruct (process_fds_spec r w e (Z.to_nat (select_n l)) 0
      (Z.of_nat (size r) + Z.of_nat (size w) + Z.of_nat (size e)) l) as (l' & ? & ? & Hfd);
      [done|done|done|done|lia|lia| |].
    { rewrite !left_from_all by (by apply (owned_nonneg l)). lia. }
    exists l'. split_and!; [done..|]. intros ??? [= <- <- <-] _. rewrite Hfd.
    apply map_fmap_ext. intros q f Hq. unfold noted_from. destruct (Z.leb_spec 0 (f_fd f)); [done|].
    symmetry. apply noted_inactive. intros Ha. destruct (wf_active _ W _ _ Hq Ha). lia.
Qed.

(** *** [fdevent_remove] *)

Lemma last_used_spec l : wf_loop l -> fd_table l <> [] ->
  forall count i n, i + Z.of_nat count <= 128 -> 0 <= n <= i -> n < 128 ->
  exists m, last_used (drop (Z.to_nat i) (fd_table l)) i n count = Ok m /\ n <= m < 128 /\
    forall j p, (Z.to_nat i <= j < Z.to_nat i + count)%nat ->
      fd_table l !! j = Some (Cptr p) -> Z.of_nat j <= m.
Proof.
  intros W Hne. induction count as [|c IH]; intros i n Hc Hn Hn'; simpl.
  - exists n. split_and!; [done|lia..|]. intros j p Hj. lia.
  - destruct (wf_init _ W Hne (Z.to_nat i) ltac:(lia)) as (x & Hx & Hu).
    rewrite (drop_S _ _ _ Hx). replace (S (Z.to_nat i)) with (Z.to_nat (i + 1)) by lia.
    destruct x as [| |q]; [by destruct Hu| |].
    + destruct (IH (i + 1) n) as (m & -> & Hm & Hall); [lia..|]. exists m. split_and!; [done|lia..|].
      intros j p Hj Hjp. destruct (decide (j = Z.to_nat i)) as [->|Hnj]; [congruence|].
      eapply Hall; [lia|done].
    + destruct (IH (i + 1) i) as (m & -> & Hm & Hall); [lia..|]. exists m. split_and!; [done|lia..|].
      intros j p Hj Hjp. destruct (decide (j = Z.to_nat i)) as [->|Hnj]; [lia|].
      eapply Hall; [lia|done].
Qed.

(** The loop after the removal of an active fdevent, with a new [select_n]. *)
Definition after_remove (p : ptr) (f : fdevent) (n : Z) (l : loop) : loop :=
  let fd := f_fd f in
  mkloop (<[p := set_events 0 (set_state 0 f)]> (fdes l))
    (<[Z.to_nat fd := Cnull]> (fd_table l))
    (if has (f_state f) FDE_PENDING then remove_elt p (pending l) else pending l)
    (read_fds l ∖ {[fd]}) (write_fds l ∖ {[fd]}) (error_fds l ∖ {[fd]}) n
    (if has (f_state f) FDE_DONT_CLOSE then closed l else closed l ++ [fd]).

Lemma fdevent_remove_active l p f : wf_loop l -> fdes l !! p = Some f -> active f ->
  exists n, fdevent_remove p l = Ok (after_remove p f n l) /\ 0 < n <= 128 /\
    forall i q, fd_table l !! i = Some (Cptr q) -> Z.of_nat i < n.
Proof.
  intros W Hp Ha. destruct (wf_active _ W _ _ Hp Ha) as (Hfd & Hsel & Hcell).
  destruct (wf_select _ W) as [Hn _].
  assert (fd_table l <> []) as Hne by (intros E; by rewrite E in Hcell).
  destruct (last_used_spec l W Hne (Z.to_nat (select_n l)) 0 0) as (m & Em & Hm & Hall); [lia..|].
  change (drop (Z.to_nat 0) (fd_table l)) with (fd_table l) in Em.
  exists (m + 1). split; [|split; [lia|]].
  - unfold fdevent_remove, get_fde. rewrite Hp. cbn [deref rbind]. unfold active in Ha. rewrite Ha.
    unfold fdevent_disconnect.
    destruct (has (f_state f) FDE_PENDING) eqn:Epend; simpl; rewrite Em; cbn [rbind];
      unfold fdevent_unregister; simpl; rewrite (proj2 (Z.ltb_ge _ _)) by lia; cbn [orb];
      (rewrite (proj2 (Z.leb_gt _ _)); [|apply lookup_lt_Some in Hcell; lia]); rewrite Hcell;
      rewrite bool_decide_eq_true_2 by done; cbn [rbind]; unfold after_remove; rewrite Epend;
      by destruct (has (f_state f) FDE_DONT_CLOSE).
  - intros i q Hi. destruct (wf_cells _ W _ _ Hi) as (g & Hg & Ag & Eg).
    destruct (wf_active _ W _ _ Hg Ag) as (_ & H2 & _).
    enough (Z.of_nat i <= m) by lia. eapply Hall; [lia|done].
Qed.

Lemma sel_ok_remove l p f s bit m :
  wf_loop l -> fdes l !! p = Some f -> active f ->
  fdes m = <[p := set_events 0 (set_state 0 f)]> (fdes l) ->
  sel_ok l s bit -> sel_ok m (s ∖ {[f_fd f]}) bit.
Proof.
  intros W Hp Ha Em Hs fd. rewrite Em, elem_of_difference, elem_of_singleton, (Hs fd). split.
  - intros [(q & g & Hq & Aq & E & Hb) Hne]. exists q, g.
    rewrite lookup_insert_ne; [done|]. intros <-. congruence.
  - intros (q & g & Hq & Aq & E & Hb). destruct (decide (q = p)) as [->|Hne].
    + rewrite lookup_insert_eq in Hq. injection Hq as <-. done.
    + rewrite lookup_insert_ne in Hq by done. split; [by eauto 6|]. intros ->. apply Hne.
      by eapply (wf_fd_unique l).
Qed.

Lemma pending_removed l p f m :
  wf_loop l -> fdes l !! p = Some f -> fdes m = <[p := set_events 0 (set_state 0 f)]> (fdes l) ->
  pending m = (if has (f_state f) FDE_PENDING then remove_elt p (pending l) else pending l) ->
  NoDup (pending m) /\
  forall q, q ∈ pending m <-> exists g, fdes m !! q = Some g /\ has (f_state g) FDE_PENDING = true.
Proof.
  intros W Hp Em Eq. split.
  - rewrite Eq. case_if_goal; [apply NoDup_remove_elt|]; apply W.
  - rewrite Eq. apply (pending_insert l p f (set_events 0 (set_state 0 f)) _ m); [exact (wf_pending _ W)|exact Hp| |done|exact Em].
    change (has (f_state (set_events 0 (set_state 0 f))) FDE_PENDING) with false. by rewrite andb_true_r.
Qed.

Lemma wf_remove l p f : wf_loop l -> fdes l !! p = Some f ->
  exists l', fdevent_remove p l = Ok l' /\ wf_loop l' /\
    fdes l' = <[p := set_events 0 (set_state 0 f)]> (fdes l).
Proof.
  intros W Hp. destruct (has (f_state f) FDE_ACTIVE) eqn:Ha.
  - destruct (fdevent_remove_active l p f W Hp Ha) as (n & -> & Hn & Hcells).
    eexists. split; [done|split; [|done]]. set (m := after_remove p f n l).
    destruct (wf_active _ W _ _ Hp Ha) as (Hfd & Hsel & Hcell).
    destruct (pending_removed l p f m W Hp eq_refl eq_refl) as [Hnd Hpe].
    constructor; [| | | |exact Hnd|exact Hpe|..].
    + intros q g Hq Aq. simpl in *. destruct (decide (q = p)) as [->|Hne].
      * rewrite lookup_insert_eq in Hq. by injection Hq as <-.
      * rewrite lookup_insert_ne in Hq by done. destruct (wf_active _ W _ _ Hq Aq) as (H1 & H2 & H3).
        split_and!; [lia..|apply Hcells in H3; lia|]. rewrite list_lookup_insert_ne; [done|].
        intros E. apply Hne. rewrite <- E in H3. congruence.
    + intros i q Hi. simpl in *. destruct (decide (i = Z.to_nat (f_fd f))) as [->|Hne].
      * rewrite list_lookup_insert_eq in Hi; [done|by eapply lookup_lt_Some].
      * rewrite list_lookup_insert_ne in Hi by done. destruct (wf_cells _ W _ _ Hi) as (g & Hg & Ag & Eg).
        exists g. rewrite lookup_insert_ne; [done|]. intros <-. simplify_eq. lia.
    + intros _ i Hi. simpl. destruct (decide (i = Z.to_nat (f_fd f))) as [->|Hne].
      * exists Cnull. rewrite list_lookup_insert_eq; [done|by eapply lookup_lt_Some].
      * rewrite list_lookup_insert_ne by done. apply (wf_init _ W); [|done]. intros E. by rewrite E in Hcell.
    + simpl. split; [lia|]. intros E. apply (f_equal length) in E. rewrite length_insert in E.
      apply lookup_lt_Some in Hcell. simpl in E. lia.
    + eapply sel_ok_remove; [done..|apply W].
    + eapply sel_ok_remove; [done..|apply W].
    + eapply sel_ok_remove; [done..|apply W].
  - unfold fdevent_remove, get_fde. rewrite Hp. cbn [deref rbind]. rewrite Ha. cbn [rbind].
    eexists. split; [done|]. set (m := put_fde _ _ _).
    assert (fdes m = <[p := set_events 0 (set_state 0 f)]> (fdes l)) as Em by (unfold m; by case_if_goal).
    split; [|done].
    destruct (pending_removed l p f m W Hp Em) as [Hnd Hpe]; [unfold m; by case_if_goal|].
    assert (forall s bit, sel_ok l s bit -> sel_ok m s bit) as Hs.
    { intros s bit. apply (sel_ok_inactive l p (set_events 0 (set_state 0 f))); [|done|done].
      intros g Hg. simplify_eq. unfold active. congruence. }
    assert (fd_table m = fd_table l /\ select_n m = select_n l /\ read_fds m = read_fds l /\
      write_fds m = write_fds l /\ error_fds m = error_fds l) as (Et & En & Er & Ew & Ee)
      by (unfold m; by case_if_goal).
    constructor; rewrite ?Et, ?En, ?Er, ?Ew, ?Ee; [| |apply W|apply W|done|done|apply Hs, W..].
    + intros q g Hq Aq. rewrite Em in Hq. destruct (decide (q = p)) as [->|Hne].
      * rewrite lookup_insert_eq in Hq. by injection Hq as <-.
      * rewrite lookup_insert_ne in Hq by done. by apply (wf_active _ W).
    + intros i q Hi. destruct (wf_cells _ W _ _ Hi) as (g & Hg & Ag & Eg). exists g.
      rewrite Em, lookup_insert_ne; [done|]. intros <-. simplify_eq. unfold active in Ag. congruence.
Qed.

(** *** Dispatch *)

Definition dispatched (f : fdevent) : fdevent :=
  set_state (Z.land (f_state f) (Z.lnot FDE_PENDING)) (set_events 0 f).

Lemma fdevent_next_spec l p q : wf_loop l -> pending l = p :: q ->
  exists f, fdes l !! p = Some f /\
    fdevent_next l = Ok (Some (p, f_fd f, f_events f), put_fde p (dispatched f) (with_pending q l)) /\
    wf_loop (put_fde p (dispatched f) (with_pending q l)).
Proof.
  intros W Hq. pose proof (wf_nodup _ W) as Hnd. rewrite Hq in Hnd. apply NoDup_cons in Hnd as [Hni Hnd].
  destruct (proj1 (wf_pending _ W p)) as (f & Hp & Hpe); [rewrite Hq; set_solver|].
  exists f. split_and!; [done| |].
  - unfold fdevent_next. rewrite Hq. unfold get_fde. simpl. rewrite Hp. cbn [deref rbind].
    cbn [f_state set_events]. by rewrite Hpe.
  - eapply wf_touch; [exact W|exact Hp| |done..|].
    + apply (same_shape_low f). intros k Hk. rewrite Z.land_spec.
      destruct Hk as [->|[->|[->| ->]]]; eval_bits; apply andb_true_r.
    + intros x. simpl. destruct (decide (x = p)) as [->|Hne].
      * rewrite lookup_insert_eq. split; [done|]. intros (g & [= <-] & Hg). revert Hg.
        cbn [f_state dispatched set_state]. by rewrite pending_cleared.
      * rewrite lookup_insert_ne by done. rewrite <- (wf_pending _ W x), Hq. set_solver.
Qed.

(** Drains the pending list, with callbacks that do not touch the loop. *)
Fixpoint drain (n : nat) (l : loop) : res (list (ptr * Z * Z) * loop) :=
  match n with
  | O => Ok ([], l)
  | S n' =>
      let* '(c, l1) := fdevent_next l in
      match c with
      | None => Ok ([], l1)
      | Some call => let* '(cs, l2) := drain n' l1 in Ok (call :: cs, l2)
      end
  end.

Definition call_of (l : loop) (p : ptr) : ptr * Z * Z :=
  match fdes l !! p with Some f => (p, f_fd f, f_events f) | None => (p, 0, 0) end.

Lemma drain_spec : forall q l, wf_loop l -> pending l = q ->
  exists l', drain (length q) l = Ok (call_of l <$> q, l') /\ wf_loop l' /\ pending l' = [].
Proof.
  induction q as [|p q IH]; intros l W Hq; [by exists l|].
  destruct (fdevent_next_spec l p q W Hq) as (f & Hp & Hn & W'). simpl. rewrite Hn. cbn [rbind].
  destruct (IH _ W' eq_refl) as (l' & Hd & Wl' & Hnil). rewrite Hd. cbn [rbind].
  exists l'. split_and!; [|done..]. do 3 f_equal.
  - unfold call_of. by rewrite Hp.
  - apply list_fmap_ext. intros i x Hx. unfold call_of. simpl. rewrite lookup_insert_ne; [done|].
    pose proof (wf_nodup _ W) as Hnd. rewrite Hq in Hnd. apply NoDup_cons in Hnd as [Hni _].
    intros ->. apply Hni. by eapply list_elem_of_lookup_2.
Qed.

(** ** The loop as a transition system *)

Inductive fop :=
| OInstall (p : ptr) (fd : Z)
| OCreate (p : ptr) (fd : Z)
| ORemove (p : ptr)
| ODestroy (p : ptr)
| OSet (p : ptr) (events : Z)
| OAdd (p : ptr) (events : Z)
| ODel (p : ptr) (events : Z)
| OProcess (sel : selres) (bad : gset Z)
| ONext
| OSubproc (fd ev : Z) (subproc : option Z) (rcount : Z).

Definition run_fop (op : fop) (l : loop) : res loop :=
  match op with
  | OInstall p fd => fdevent_install p fd l
  | OCreate p fd => fdevent_create p fd l
  | ORemove p => fdevent_remove p l
  | ODestroy p => fdevent_destroy p l
  | OSet p e => fdevent_set p e l
  | OAdd p e => fdevent_add p e l
  | ODel p e => fdevent_del p e l
  | OProcess sel bad => fdevent_process sel bad l
  | ONext => let* '(_, l1) := fdevent_next l in Ok l1
  | OSubproc fd ev s rc => let* '(_, l1) := fdevent_subproc_event_func fd ev s rc l in Ok l1
  end.

Definition free_slot (p : ptr) (fd : Z) (l : loop) : Prop :=
  (forall f, fdes l !! p = Some f -> f_state f = 0) /\ 0 <= fd < 128 /\
  (forall q, fd_table l !! Z.to_nat fd <> Some (Cptr q)).

(** What the callers and the kernel guarantee: a fresh structure is installed
    on a descriptor nobody has, the other operations get a live structure,
    [select] reports a subset of what it was asked, and the shell's wake-up
    message carries a descriptor number. *)
Definition fop_pre (op : fop) (l : loop) : Prop :=
  match op with
  | OInstall p fd | OCreate p fd => free_slot p fd l
  | ORemove p | OSet p _ | OAdd p _ | ODel p _ => is_Some (fdes l !! p)
  | ODestroy p => exists f, fdes l !! p = Some f /\ has (f_state f) FDE_CREATED = true
  | OProcess (SelReady r w e) _ => r ⊆ read_fds l /\ w ⊆ write_fds l /\ e ⊆ error_fds l
  | OProcess _ _ | ONext => True
  | OSubproc fd _ s _ =>
      0 <= fd < 128 /\ (exists p, fd_table l !! Z.to_nat fd = Some (Cptr p)) /\
      (exists n, s = Some n /\ n < 128)
  end.

Lemma fdevent_set_wf l p e : wf_loop l -> is_Some (fdes l !! p) ->
  exists l', fdevent_set p e l = Ok l' /\ wf_loop l' /\ fd_table l' = fd_table l.
Proof.
  intros W [f Hp]. rewrite (fdevent_set_spec p e l f Hp); [|intros Ha; by eapply wf_sets_agree].
  eexists. split; [done|split; [by apply wf_after_set|]]. unfold after_set. by repeat case_if_goal.
Qed.

Lemma fdevent_add_wf l p e : wf_loop l -> is_Some (fdes l !! p) ->
  exists l', fdevent_add p e l = Ok l' /\ wf_loop l' /\ fd_table l' = fd_table l.
Proof.
  intros W Hp. unfold fdevent_add, get_fde. destruct Hp as [f Hp]. rewrite Hp. simpl.
  by apply fdevent_set_wf.
Qed.

Lemma fdevent_subproc_wf l fd ev n rc : wf_loop l -> 0 <= fd < 128 ->
  (exists p, fd_table l !! Z.to_nat fd = Some (Cptr p)) -> n < 128 ->
  exists c l', fdevent_subproc_event_func fd ev (Some n) rc l = Ok (c, l') /\ wf_loop l'.
Proof.
  intros W Hfd [p Hcell] Hn. unfold fdevent_subproc_event_func.
  assert (fd_table l <> []) as Hne by (intros E; by rewrite E in Hcell).
  assert (Z.of_nat (length (fd_table l)) > 127) as Hlen.
  { destruct (wf_init _ W Hne 127%nat ltac:(lia)) as (? & H%lookup_lt_Some & _). lia. }
  rewrite (proj2 (Z.ltb_ge fd 0)), (proj2 (Z.leb_gt _ fd)), Hcell by lia. cbn [orb].
  destruct (wf_cells _ W _ _ Hcell) as (f & Hp & _).
  destruct (fdevent_add_wf l p FDE_READ W (ex_intro _ f Hp)) as (l1 & -> & W1 & Et). cbn [rbind].
  case_if_goal; [by eauto|]. destruct (Z.ltb_spec n 0); [by eauto|].
  rewrite (proj2 (Z.leb_gt _ n)) by lia. cbn [orb]. rewrite Et.
  destruct (wf_init _ W Hne (Z.to_nat n) ltac:(lia)) as (c & Hc & Hu). rewrite Hc.
  destruct c as [| |q]; [by destruct Hu|by eauto|].
  rewrite <- Et in Hc. destruct (wf_cells _ W1 _ _ Hc) as (g & Hg & _).
  unfold get_fde. rewrite Hg. cbn [deref rbind]. case_if_goal; [by eauto|].
  case_if_goal.
  { do 2 eexists. split; [done|]. eapply wf_touch_quiet; [done..| |done]. by apply (same_shape_low g). }
  cbn [f_state set_events set_force_eof]. case_if_goal.
  { do 2 eexists. split; [done|]. eapply wf_touch_quiet; [done..| |done]. by apply (same_shape_low g). }
  do 2 eexists. split; [done|]. eapply wf_touch_quiet; [done..| |].
  - apply (same_shape_low g). intros k Hk. cbn [f_state set_state set_events set_force_eof].
    rewrite Z.land_spec, Z.lor_spec.
    destruct Hk as [->|[->|[->| ->]]]; eval_bits; by rewrite orb_false_r, andb_true_r.
  - cbn [f_state set_state]. rewrite pending_cleared. congruence.
Qed.

Lemma wf_create l p fd : wf_loop l -> free_slot p fd l ->
  exists l', fdevent_create p fd l = Ok l' /\ wf_loop l'.
Proof.
  intros W (Hf & Hfd & Hc). destruct (fdevent_install_ok l p fd W Hfd) as (l1 & E).
  pose proof (wf_install l p fd l1 W Hf Hfd Hc E) as W1.
  assert (exists f, fdes l1 !! p = Some f) as (f & Hp).
  { revert E. unfold fdevent_install. destruct (fdevent_register _ _ _); simpl; [|done..].
    intros [= <-]. eexists. apply lookup_insert_eq. }
  unfold fdevent_create, get_fde. rewrite E. simpl. rewrite Hp. simpl. eexists. split; [done|].
  eapply wf_touch_quiet; [done..| |bits; done].
  apply (same_shape_low f). intros k Hk. rewrite Z.lor_spec.
  destruct Hk as [->|[->|[->| ->]]]; eval_bits; by rewrite orb_false_r.
Qed.

Lemma fop_ok op l : wf_loop l -> fop_pre op l -> exists l', run_fop op l = Ok l' /\ wf_loop l'.
Proof.
  intros W Hpre. destruct op as [p fd|p fd|p|p|p e|p e|p e|sel bad| |fd ev s rc]; simpl in *.
  - destruct Hpre as (Hf & Hfd & Hc). destruct (fdevent_install_ok l p fd W Hfd) as (l1 & E).
    eauto using wf_install.
  - by apply wf_create.
  - destruct Hpre as [f Hp]. destruct (wf_remove l p f W Hp) as (l' & ? & ? & _). eauto.
  - destruct Hpre as (f & Hp & Hcr). destruct (wf_remove l p f W Hp) as (l' & ? & ? & _).
    unfold fdevent_destroy, get_fde. rewrite Hp. simpl. rewrite Hcr. simpl. eauto.
  - destruct (fdevent_set_wf l p e W Hpre) as (l' & ? & ? & _). eauto.
  - destruct (fdevent_add_wf l p e W Hpre) as (l' & ? & ? & _). eauto.
  - unfold fdevent_del, get_fde. destruct Hpre as [f Hp]. rewrite Hp. simpl.
    edestruct (fdevent_set_wf l p) as (l' & ? & ? & _); [done|by eexists|eauto].
  - destruct (fdevent_process_spec sel bad l W) as (l' & ? & ? & _); [|by eauto].
    intros r w e ->. done.
  - destruct (pending l) as [|p q] eqn:Hq.
    + exists l. unfold fdevent_next. by rewrite Hq.
    + destruct (fdevent_next_spec l p q W Hq) as (f & _ & -> & ?). simpl. eauto.
  - destruct Hpre as (Hfd & Hp & n & -> & Hn).
    destruct (fdevent_subproc_wf l fd ev n rc W Hfd Hp Hn) as (c & l' & -> & ?). simpl. eauto.
Qed.

(** The states the event loop can reach when its callers respect [fop_pre]. *)
Inductive loop_reach : loop -> Prop :=
| reach_init : loop_reach init_loop
| reach_step l op l' : loop_reach l -> fop_pre op l -> run_fop op l = Ok l' -> loop_reach l'.

Lemma loop_reach_wf l : loop_reach l -> wf_loop l.
Proof.
  induction 1 as [|l op l' _ W Hpre Hrun]; [apply wf_init_loop|].
  destruct (fop_ok op l W Hpre) as (l2 & E & W2). congruence.
Qed.

(** ** Properties *)



(** An idle loop: nothing is pending and no event is recorded. *)
Definition idle (l : loop) : Prop :=
  pending l = [] /\ map_Forall (fun _ f => f_events f = 0) (fdes l).

Definition reported (r w e : gset Z) (f : fdevent) : Z :=
  ev_bits (bool_decide (f_fd f ∈ r)) (bool_decide (f_fd f ∈ w)) (bool_decide (f_fd f ∈ e)).

Lemma noted_pending_idle r w e l p f : wf_loop l -> idle l -> fdes l !! p = Some f ->
  has (f_state (noted r w e f)) FDE_PENDING = true <-> active f /\ reported r w e f <> 0.
Proof.
  intros W [Hq _] Hp.
  assert (has (f_state f) FDE_PENDING = false) as Hn.
  { destruct (has (f_state f) FDE_PENDING) eqn:E; [|done].
    assert (p ∈ pending l) as H by (apply (wf_pending _ W); eauto). rewrite Hq in H. set_solver. }
  unfold noted, active. fold (reported r w e f).
  destruct (has (f_state f) FDE_ACTIVE) eqn:Ea; cbn [andb]; [|by rewrite Hn; naive_solver].
  destruct (Z.eqb_spec (reported r w e f) 0); cbn [negb]; [rewrite Hn; naive_solver|].
  split; [done|]. intros _. bits. done.
Qed.


(** Two fdevents installed on descriptors 5 and 7 that ask to read. *)
Definition two_readers : loop :=
  match (let* l1 := fdevent_install 1%nat 5 init_loop in let* l2 := fdevent_install 2%nat 7 l1 in
         let* l3 := fdevent_add 1%nat FDE_READ l2 in fdevent_add 2%nat (Z.lor FDE_READ FDE_WRITE) l3)
  with Ok l => l | _ => init_loop end.

Lemma two_readers_wf : wf_loop two_readers.
Proof.
  apply loop_reach_wf.
  apply (reach_step (match (let* l1 := fdevent_install 1%nat 5 init_loop in
      let* l2 := fdevent_install 2%nat 7 l1 in fdevent_add 1%nat FDE_READ l2)
      with Ok l => l | _ => init_loop end) (OAdd 2%nat (Z.lor FDE_READ FDE_WRITE)));
    [|by eexists|by vm_compute].
  apply (reach_step (match (let* l1 := fdevent_install 1%nat 5 init_loop in
      fdevent_install 2%nat 7 l1) with Ok l => l | _ => init_loop end) (OAdd 1%nat FDE_READ));
    [|by eexists|by vm_compute].
  apply (reach_step (match fdevent_install 1%nat 5 init_loop with Ok l => l | _ => init_loop end)
           (OInstall 2%nat 7)); [| |by vm_compute].
  - apply (reach_step init_loop (OInstall 1%nat 5)); [constructor| |by vm_compute].
    split; [done|split; [lia|done]].
  - split; [intros f H; vm_compute in H; discriminate|split; [lia|]].
    intros q H. vm_compute in H. discriminate.
Qed.


(** Replacing the interest of an active fdevent puts its descriptor in the
    [select] sets of exactly the events asked for and leaves every other
    descriptor where it was; [fdevent_add] and [fdevent_del] are union and
    difference. *)
Theorem fdevent_interest l p f e :
  wf_loop l -> fdes l !! p = Some f -> active f ->
  exists l', fdevent_set p e l = Ok l' /\
    (forall fd, fd ∈ read_fds l' <-> if decide (fd = f_fd f) then has e FDE_READ = true else fd ∈ read_fds l) /\
    (forall fd, fd ∈ write_fds l' <-> if decide (fd = f_fd f) then has e FDE_WRITE = true else fd ∈ write_fds l) /\
    (forall fd, fd ∈ error_fds l' <-> if decide (fd = f_fd f) then has e FDE_ERROR = true else fd ∈ error_fds l) /\
    fdevent_add p e l = fdevent_set p (Z.lor (f_state f) e) l /\
    fdevent_del p e l = fdevent_set p (Z.ldiff (f_state f) e) l.
Proof.
  intros W Hp Ha. rewrite (fdevent_set_spec p e l f Hp) by (intros; by eapply wf_sets_agree).
  eexists. split; [done|].
  assert (forall k, 0 <= k < 8 -> has (f_state (fde_set e f)) (2 ^ k) = has e (2 ^ k)) as Hbit.
  { intros k Hk. rewrite !has_testbit by lia. by apply fde_set_testbit. }
  assert (forall k s fd, 0 <= k < 8 ->
    fd ∈ fd_update (has (f_state (fde_set e f)) (2 ^ k)) (f_fd f) s <->
    if decide (fd = f_fd f) then has e (2 ^ k) = true else fd ∈ s) as Hup.
  { intros k s fd Hk. rewrite Hbit by done. unfold fd_update.
    destruct (has e (2 ^ k)), (decide (fd = f_fd f)); set_solver. }
  assert (forall z, Z.land (Z.land z FDE_EVENTMASK) FDE_EVENTMASK = Z.land z FDE_EVENTMASK) as Hm by apply mask_idem.
  unfold active in Ha.
  assert (read_fds (after_set p e f l) = fd_update (has (f_state (fde_set e f)) (2 ^ 0)) (f_fd f) (read_fds l) /\
    write_fds (after_set p e f l) = fd_update (has (f_state (fde_set e f)) (2 ^ 1)) (f_fd f) (write_fds l) /\
    error_fds (after_set p e f l) = fd_update (has (f_state (fde_set e f)) (2 ^ 2)) (f_fd f) (error_fds l))
    as (-> & -> & ->) by (unfold after_set; rewrite Ha; cbv zeta; by destruct (has (f_state f) FDE_PENDING && _)).
  split_and!; [intros; apply Hup; lia..| |].
  - unfold fdevent_add, fdevent_set, get_fde. rewrite Hp. cbn [deref rbind].
    rewrite Z.land_lor_distr_l, !Hm, <- Z.land_lor_distr_l. done.
  - unfold fdevent_del, fdevent_set, get_fde. rewrite Hp. cbn [deref rbind].
    replace (Z.land (Z.land (Z.land (f_state f) FDE_EVENTMASK) (Z.lnot (Z.land e FDE_EVENTMASK))) FDE_EVENTMASK)
      with (Z.land (Z.ldiff (f_state f) e) FDE_EVENTMASK); [done|].
    apply Z.bits_inj'. intros n Hn. rewrite ?Z.land_spec, ?Z.ldiff_spec, ?Z.lnot_spec, ?Z.land_spec by lia.
    destruct (Z.testbit (f_state f) n), (Z.testbit e n), (Z.testbit FDE_EVENTMASK n); done.
Qed.

Lemma fdevent_interest_witness :
  exists l', fdevent_set 2%nat FDE_ERROR two_readers = Ok l' /\
    (forall fd, fd ∈ read_fds l' <-> if decide (fd = 7) then has FDE_ERROR FDE_READ = true else fd ∈ read_fds two_readers) /\
    (forall fd, fd ∈ write_fds l' <-> if decide (fd = 7) then has FDE_ERROR FDE_WRITE = true else fd ∈ write_fds two_readers) /\
    (forall fd, fd ∈ error_fds l' <-> if decide (fd = 7) then has FDE_ERROR FDE_ERROR = true else fd ∈ error_fds two_readers) /\
    fdevent_add 2%nat FDE_ERROR two_readers = fdevent_set 2%nat (Z.lor 0x103 FDE_ERROR) two_readers /\
    fdevent_del 2%nat FDE_ERROR two_readers = fdevent_set 2%nat (Z.ldiff 0x103 FDE_ERROR) two_readers.
Proof.
  apply (fdevent_interest two_readers 2%nat (mkfde 7 false 0x103 0) FDE_ERROR);
    [exact two_readers_wf|by vm_compute|by vm_compute].
Defined.

Lemma last_used_undef : forall j cells i n count,
  cells !! j = Some Cundef -> (j < count)%nat ->
  (forall k, (k < j)%nat -> exists c, cells !! k = Some c /\ c <> Cundef) ->
  last_used cells i n count = UB "fd_table cell is uninitialised".
Proof.
  induction j as [|j IH]; intros cells i n [|c] Hj Hc Hall; try lia; destruct cells as [|x cells]; try done.
  - injection Hj as ->. done.
  - destruct (Hall 0%nat ltac:(lia)) as (y & [= ->] & Hy). simpl in *.
    assert (forall n, last_used cells (i + 1) n c = UB "fd_table cell is uninitialised") as Hrec.
    { intros n'. apply IH; [done|lia|]. intros k Hk. apply (Hall (S k)). lia. }
    destruct y; [done|apply Hrec..].
Qed.

(** The first registration clears half of the 256 cells it allocates: a
    descriptor from 129 on is registered all right, but the next removal scans
    [fd_table] up to [select_n] and reads a cell that was never written. *)
Theorem fdevent_table_half_cleared fd :
  128 < fd < 256 ->
  exists l1 l2, fdevent_install 1%nat 5 init_loop = Ok l1 /\ fdevent_install 2%nat fd l1 = Ok l2 /\
    fdevent_remove 1%nat l2 = UB "fd_table cell is uninitialised".
Proof.
  intros Hfd. set (t := <[5%nat := Cptr 1%nat]> (replicate 128 Cnull ++ replicate 128 Cundef)).
  set (f1 := mkfde 5 false FDE_ACTIVE 0). set (f2 := mkfde fd false FDE_ACTIVE 0).
  set (l1 := mkloop {[1%nat := f1]} t [] ∅ ∅ ∅ 6 []).
  set (l2 := put_fde 2%nat f2 (with_select (fd + 1) (with_table (<[Z.to_nat fd := Cptr 2%nat]> t) l1))).
  exists l1, l2. split; [by vm_compute|].
  assert (length t = 256%nat) as Hlen by done.
  assert (get_fde 1%nat l2 = Ok f1) as H1 by done.
  split.
  - unfold fdevent_install, fdevent_register, fdevent_connect. cbn [f_fd].
    rewrite (proj2 (Z.ltb_ge _ _)) by lia. change (length (fd_table _)) with (length t).
    rewrite Hlen, (proj2 (Z.leb_gt _ _)) by lia. cbn [rbind].
    cbn [select_n with_table put_fde with_fdes]. change (select_n l1) with 6.
    by rewrite (proj2 (Z.leb_le _ _)) by lia.
  - unfold fdevent_remove. rewrite H1. cbn [rbind]. change (has (f_state f1) FDE_PENDING) with false.
    change (has (f_state f1) FDE_ACTIVE) with true. unfold fdevent_disconnect.
    change (fd_table (with_sets _ _ _ l2)) with (<[Z.to_nat fd := Cptr 2%nat]> t).
    change (select_n (with_sets _ _ _ l2)) with (fd + 1). rewrite (last_used_undef 128); [done| |lia|].
    + rewrite list_lookup_insert_ne by lia. by vm_compute.
    + intros k Hk. rewrite list_lookup_insert_ne by lia.
      destruct (decide (k = 5%nat)) as [->|Hk5]; [by exists (Cptr 1%nat)|].
      exists Cnull. split; [|done]. unfold t. rewrite list_lookup_insert_ne by done.
      rewrite lookup_app_l by (rewrite length_replicate; lia). by apply lookup_replicate_2.
Qed.

Lemma fdevent_table_half_cleared_witness :
  exists l1 l2, fdevent_install 1%nat 5 init_loop = Ok l1 /\ fdevent_install 2%nat 200 l1 = Ok l2 /\
    fdevent_remove 1%nat l2 = UB "fd_table cell is uninitialised".
Proof. apply (fdevent_table_half_cleared 200). lia. Defined.

(** [fdevent_set] on a pending fdevent discards the events that are
    wanted and keeps those that no longer are: an fdevent queued for [FDE_READ]
    that adds [FDE_WRITE] loses its read event and its place in the queue,
    while one that withdraws [FDE_READ] is still called back for it. *)
Theorem fdevent_set_keeps_unwanted p l f :
  wf_loop l -> fdes l !! p = Some f -> active f -> has (f_state f) FDE_PENDING = true ->
  interest f = FDE_READ -> f_events f = FDE_READ ->
  (exists l' f', fdevent_add p FDE_WRITE l = Ok l' /\ fdes l' !! p = Some f' /\
     f_events f' = 0 /\ p ∉ pending l') /\
  (exists l' f', fdevent_del p FDE_READ l = Ok l' /\ fdes l' !! p = Some f' /\
     f_events f' = FDE_READ /\ interest f' = 0 /\ p ∈ pending l').
Proof.
  intros W Hp Ha Hpe Hi Hev.
  assert (forall e, exists f', fdevent_set p e l = Ok (after_set p e f l) /\
      fdes (after_set p e f l) !! p = Some f' /\ f' = fde_set e f) as Hset.
  { intros e. eexists. rewrite (fdevent_set_spec p e l f Hp) by (intros; by eapply wf_sets_agree).
    rewrite after_set_fdes, lookup_insert_eq. done. }
  assert (forall e, has (f_state (set_state (Z.lor (Z.land (f_state f) FDE_STATEMASK) e) f)) FDE_PENDING =
      has (f_state f) FDE_PENDING || has e FDE_PENDING) as Hs by (intros e; bits; done).
  assert (p ∈ pending l) as Hin by (apply (wf_pending _ W); eauto).
  split.
  - destruct (Hset 3) as (f' & E & Hf & Ef). exists (after_set p 3 f l), f'.
    unfold fdevent_add, get_fde. rewrite Hp. cbn [deref rbind]. fold (interest f). rewrite Hi.
    split; [exact E|]. split; [done|].
    assert (f_events f' = 0 /\ has (f_state f') FDE_PENDING = false) as [H0 Hn].
    { rewrite Ef. unfold fde_set. rewrite Hi. change (FDE_READ =? Z.land 3 FDE_EVENTMASK) with false.
      change (Z.land 3 FDE_EVENTMASK) with 3. cbv zeta. rewrite Hs, Hpe. cbn [orb f_events set_events set_state f_state].
      rewrite Hev. change (Z.land FDE_READ (Z.lnot 3) =? 0) with true. cbn [f_events f_state set_state set_events].
      split; [done|apply pending_cleared]. }
    split; [done|]. unfold after_set. rewrite Hpe, <- Ef, Hn. cbn. rewrite elem_of_remove_elt. naive_solver.
  - destruct (Hset 0) as (f' & E & Hf & Ef). exists (after_set p 0 f l), f'.
    unfold fdevent_del, get_fde. rewrite Hp. cbn [deref rbind]. fold (interest f). rewrite Hi.
    split; [exact E|]. split; [done|].
    assert (f_events f' = FDE_READ /\ has (f_state f') FDE_PENDING = true) as [H0 Hn].
    { rewrite Ef. unfold fde_set. rewrite Hi. change (FDE_READ =? Z.land 0 FDE_EVENTMASK) with false.
      change (Z.land 0 FDE_EVENTMASK) with 0. cbv zeta. rewrite Hs, Hpe. cbn [orb f_events set_events set_state f_state].
      rewrite Hev. change (Z.land FDE_READ (Z.lnot 0) =? 0) with false. cbn [f_events f_state set_state set_events].
      split; [done|]. revert Hpe. bits. done. }
    split; [done|]. split; [rewrite Ef; apply interest_fde_set|].
    unfold after_set. rewrite Hpe, <- Ef, Hn. simpl. by case_if_goal.
Qed.

Definition one_ready : loop :=
  match fdevent_process (SelReady {[5]} ∅ ∅) ∅ two_readers with Ok l => l | _ => init_loop end.

Lemma fdevent_set_keeps_unwanted_witness :
  (exists l' f', fdevent_add 1%nat FDE_WRITE one_ready = Ok l' /\ fdes l' !! 1%nat = Some f' /\
     f_events f' = 0 /\ 1%nat ∉ pending l') /\
  (exists l' f', fdevent_del 1%nat FDE_READ one_ready = Ok l' /\ fdes l' !! 1%nat = Some f' /\
     f_events f' = FDE_READ /\ interest f' = 0 /\ 1%nat ∈ pending l').
Proof.
  apply (fdevent_set_keeps_unwanted 1%nat one_ready (mkfde 5 false 0x301 1)); [|by vm_compute..].
  destruct (fdevent_process_spec (SelReady {[5]} ∅ ∅) ∅ two_readers two_readers_wf) as (l' & E & W & _).
  - intros ? ? ? [= <- <- <-]. split_and!; apply (bool_decide_unpack _); by vm_compute.
  - unfold one_ready. rewrite E. exact W.
Defined.
