(* ===== verification/Server.v ===== *)
(** * The state of the adb server and the monad its code runs in

    One record holds what the server's globals and heap hold: the [asocket]
    structures by address, the lists of local and of closing sockets, the device
    trackers, the transports with their queue towards the input thread, the
    listeners, the descriptors the kernel gave, and [socket_list_lock].  A
    function pointer of an [asocket] is the name of the function it points to.
    Code runs in [M]: a state transformer that can return, exit, hit undefined
    behaviour (a freed or NULL pointer) or never return (a second acquisition of
    the lock, a loop without end). *)

From S2P Require Import Prelude CString Io Wire DList Fdevent.

(** ** Data *)

(** The functions an [asocket] can point to (sockets.c and the device tracker
    of transport.c). *)
Inductive enqueue_fn := local_enqueue | remote_enqueue | smart_enqueue | tracker_enqueue.
Inductive ready_fn := local_ready | local_ready_notify | remote_ready | smart_ready | tracker_ready.
Inductive close_fn := local_close | local_close_notify | remote_close | smart_close | tracker_close.

#[export] Instance enqueue_fn_eq_dec : EqDecision enqueue_fn.
Proof. solve_decision. Defined.
#[export] Instance ready_fn_eq_dec : EqDecision ready_fn.
Proof. solve_decision. Defined.
#[export] Instance close_fn_eq_dec : EqDecision close_fn.
Proof. solve_decision. Defined.

(** [struct asocket]; [a_pkts] is the queue [pkt_first .. pkt_last], [a_update]
    the tracker's [update_needed], and [a_shutdown] says whether [shutdown] is
    [remote_socket_shutdown] or NULL. *)
Record asocket := mksock {
  a_id : Z; a_closing : bool; a_exit_on_close : bool; a_peer : option ptr;
  a_fde : fdevent; a_fd : Z; a_pkts : list apacket;
  a_enqueue : enqueue_fn; a_ready : ready_fn; a_shutdown : bool; a_close : close_fn;
  a_transport : option ptr; a_update : Z }.

Definition sk_id (x : Z) (s : asocket) : asocket :=
  mksock x (a_closing s) (a_exit_on_close s) (a_peer s) (a_fde s) (a_fd s) (a_pkts s) (a_enqueue s) (a_ready s) (a_shutdown s) (a_close s) (a_transport s) (a_update s).
Definition sk_closing (x : bool) (s : asocket) : asocket :=
  mksock (a_id s) x (a_exit_on_close s) (a_peer s) (a_fde s) (a_fd s) (a_pkts s) (a_enqueue s) (a_ready s) (a_shutdown s) (a_close s) (a_transport s) (a_update s).
Definition sk_peer (x : option ptr) (s : asocket) : asocket :=
  mksock (a_id s) (a_closing s) (a_exit_on_close s) x (a_fde s) (a_fd s) (a_pkts s) (a_enqueue s) (a_ready s) (a_shutdown s) (a_close s) (a_transport s) (a_update s).
Definition sk_fde (x : fdevent) (s : asocket) : asocket :=
  mksock (a_id s) (a_closing s) (a_exit_on_close s) (a_peer s) x (a_fd s) (a_pkts s) (a_enqueue s) (a_ready s) (a_shutdown s) (a_close s) (a_transport s) (a_update s).
Definition sk_pkts (x : list apacket) (s : asocket) : asocket :=
  mksock (a_id s) (a_closing s) (a_exit_on_close s) (a_peer s) (a_fde s) (a_fd s) x (a_enqueue s) (a_ready s) (a_shutdown s) (a_close s) (a_transport s) (a_update s).
Definition sk_transport (x : option ptr) (s : asocket) : asocket :=
  mksock (a_id s) (a_closing s) (a_exit_on_close s) (a_peer s) (a_fde s) (a_fd s) (a_pkts s) (a_enqueue s) (a_ready s) (a_shutdown s) (a_close s) x (a_update s).
Definition sk_update (x : Z) (s : asocket) : asocket :=
  mksock (a_id s) (a_closing s) (a_exit_on_close s) (a_peer s) (a_fde s) (a_fd s) (a_pkts s) (a_enqueue s) (a_ready s) (a_shutdown s) (a_close s) (a_transport s) x.
(** [s->ready = r; s->shutdown = NULL; s->close = c]. *)
Definition sk_plain (r : ready_fn) (c : close_fn) (s : asocket) : asocket :=
  mksock (a_id s) (a_closing s) (a_exit_on_close s) (a_peer s) (a_fde s) (a_fd s) (a_pkts s)
    (a_enqueue s) r false c (a_transport s) (a_update s).

(** An entry of [t->disconnects]: the function and its opaque argument. *)
Inductive adisconnect := DisRemote (s : ptr) | DisListener (l : ptr).
#[export] Instance adisconnect_eq_dec : EqDecision adisconnect.
Proof. solve_decision. Defined.

Inductive transport_type := kTransportUsb | kTransportLocal | kTransportAny | kTransportHost.

(** Connection states ([CS_*] of adb.h). *)
Definition CS_ANY : Z := -1.
Definition CS_OFFLINE : Z := 0.
Definition CS_BOOTLOADER : Z := 1.
Definition CS_DEVICE : Z := 2.
Definition CS_HOST : Z := 3.
Definition CS_RECOVERY : Z := 4.
Definition CS_NOPERM : Z := 5.
Definition CS_SIDELOAD : Z := 6.
Definition CS_UNAUTHORIZED : Z := 7.

(** [struct atransport]; [t_out] are the packets the main thread wrote to
    [transport_socket] and the input thread has not read, [t_room] how many more
    packet pointers fit in that socket pair, [t_key] the number of the private
    key in use, [t_socket] and [t_fd] the two ends of the pair
    ([transport_socket] and [fd]).  [t_stale] holds the links [prev] and [next]
    (None is the list head) of a transport that was unlinked, which keeps them. *)
Record atransport := mktr {
  t_serial : option bytes; t_product : option bytes; t_model : option bytes;
  t_device : option bytes; t_devpath : option bytes;
  t_type : transport_type; t_adb_port : Z; t_connection_state : Z; t_online : bool;
  t_kicked : bool; t_ref_count : Z; t_key : option nat; t_failed_auth : Z;
  t_disconnects : list adisconnect; t_out : list apacket; t_room : nat;
  t_usb : option nat; t_sfd : Z; t_socket : Z; t_fd : Z;
  t_stale : option (option ptr * option ptr) }.
Definition tr_connection_state (x : Z) (s : atransport) : atransport :=
  mktr (t_serial s) (t_product s) (t_model s) (t_device s) (t_devpath s) (t_type s) (t_adb_port s) x (t_online s) (t_kicked s) (t_ref_count s) (t_key s) (t_failed_auth s) (t_disconnects s) (t_out s) (t_room s) (t_usb s) (t_sfd s) (t_socket s) (t_fd s) (t_stale s).
Definition tr_online (x : bool) (s : atransport) : atransport :=
  mktr (t_serial s) (t_product s) (t_model s) (t_device s) (t_devpath s) (t_type s) (t_adb_port s) (t_connection_state s) x (t_kicked s) (t_ref_count s) (t_key s) (t_failed_auth s) (t_disconnects s) (t_out s) (t_room s) (t_usb s) (t_sfd s) (t_socket s) (t_fd s) (t_stale s).
Definition tr_kicked (x : bool) (s : atransport) : atransport :=
  mktr (t_serial s) (t_product s) (t_model s) (t_device s) (t_devpath s) (t_type s) (t_adb_port s) (t_connection_state s) (t_online s) x (t_ref_count s) (t_key s) (t_failed_auth s) (t_disconnects s) (t_out s) (t_room s) (t_usb s) (t_sfd s) (t_socket s) (t_fd s) (t_stale s).
Definition tr_ref_count (x : Z) (s : atransport) : atransport :=
  mktr (t_serial s) (t_product s) (t_model s) (t_device s) (t_devpath s) (t_type s) (t_adb_port s) (t_connection_state s) (t_online s) (t_kicked s) x (t_key s) (t_failed_auth s) (t_disconnects s) (t_out s) (t_room s) (t_usb s) (t_sfd s) (t_socket s) (t_fd s) (t_stale s).
Definition tr_key (x : option nat) (s : atransport) : atransport :=
  mktr (t_serial s) (t_product s) (t_model s) (t_device s) (t_devpath s) (t_type s) (t_adb_port s) (t_connection_state s) (t_online s) (t_kicked s) (t_ref_count s) x (t_failed_auth s) (t_disconnects s) (t_out s) (t_room s) (t_usb s) (t_sfd s) (t_socket s) (t_fd s) (t_stale s).
Definition tr_failed_auth (x : Z) (s : atransport) : atransport :=
  mktr (t_serial s) (t_product s) (t_model s) (t_device s) (t_devpath s) (t_type s) (t_adb_port s) (t_connection_state s) (t_online s) (t_kicked s) (t_ref_count s) (t_key s) x (t_disconnects s) (t_out s) (t_room s) (t_usb s) (t_sfd s) (t_socket s) (t_fd s) (t_stale s).
Definition tr_disconnects (x : list adisconnect) (s : atransport) : atransport :=
  mktr (t_serial s) (t_product s) (t_model s) (t_device s) (t_devpath s) (t_type s) (t_adb_port s) (t_connection_state s) (t_online s) (t_kicked s) (t_ref_count s) (t_key s) (t_failed_auth s) x (t_out s) (t_room s) (t_usb s) (t_sfd s) (t_socket s) (t_fd s) (t_stale s).
Definition tr_quals (p m d : option bytes) (s : atransport) : atransport :=
  mktr (t_serial s) p m d (t_devpath s) (t_type s) (t_adb_port s) (t_connection_state s) (t_online s) (t_kicked s) (t_ref_count s) (t_key s) (t_failed_auth s) (t_disconnects s) (t_out s) (t_room s) (t_usb s) (t_sfd s) (t_socket s) (t_fd s) (t_stale s).
Definition tr_sfd (x : Z) (s : atransport) : atransport :=
  mktr (t_serial s) (t_product s) (t_model s) (t_device s) (t_devpath s) (t_type s) (t_adb_port s) (t_connection_state s) (t_online s) (t_kicked s) (t_ref_count s) (t_key s) (t_failed_auth s) (t_disconnects s) (t_out s) (t_room s) (t_usb s) x (t_socket s) (t_fd s) (t_stale s).
Definition tr_pair (x y : Z) (room : nat) (s : atransport) : atransport :=
  mktr (t_serial s) (t_product s) (t_model s) (t_device s) (t_devpath s) (t_type s) (t_adb_port s) (t_connection_state s) (t_online s) (t_kicked s) (t_ref_count s) (t_key s) (t_failed_auth s) (t_disconnects s) [] room (t_usb s) (t_sfd s) x y (t_stale s).
Definition tr_stale (x : option (option ptr * option ptr)) (s : atransport) : atransport :=
  mktr (t_serial s) (t_product s) (t_model s) (t_device s) (t_devpath s) (t_type s) (t_adb_port s) (t_connection_state s) (t_online s) (t_kicked s) (t_ref_count s) (t_key s) (t_failed_auth s) (t_disconnects s) (t_out s) (t_room s) (t_usb s) (t_sfd s) (t_socket s) (t_fd s) x.
Definition tr_queue (q : list apacket) (r : nat) (s : atransport) : atransport :=
  mktr (t_serial s) (t_product s) (t_model s) (t_device s) (t_devpath s) (t_type s) (t_adb_port s) (t_connection_state s) (t_online s) (t_kicked s) (t_ref_count s) (t_key s) (t_failed_auth s) (t_disconnects s) q r (t_usb s) (t_sfd s) (t_socket s) (t_fd s) (t_stale s).

(** [struct alistener]; its fdevent only ever asks for [FDE_READ]. *)
Record alistener := mklis {
  l_local_name : bytes; l_connect_to : bytes; l_transport : option ptr; l_fd : Z; l_smart : bool }.
Definition li_rebind (c : bytes) (t : option ptr) (l : alistener) : alistener :=
  mklis (l_local_name l) c t (l_fd l) (l_smart l).

(** A descriptor: what reads and writes will answer, and the bytes written. *)
Record fio := mkfio { io_in : list rres; io_wr : list wres; io_sent : bytes }.

(** ** The server *)

Record sv := mksv {
  heap : gmap ptr asocket;
  local_list : list ptr;
  closing_list : list ptr;
  next_id : Z;
  next_ptr : ptr;
  trackers : list ptr;
  trs : gmap ptr atransport;
  transport_list : list ptr;
  pending_list : list ptr;
  listeners : gmap ptr alistener;
  listener_list : list ptr;
  io : gmap Z fio;
  conns : list (Z * fio);
  closed_fds : list Z;
  slock : bool;
  actions : list (ptr * Z);
  locals : list (option ptr) }.

Definition set_heap (x : gmap ptr asocket) (s : sv) : sv :=
  mksv x (local_list s) (closing_list s) (next_id s) (next_ptr s) (trackers s) (trs s) (transport_list s) (pending_list s) (listeners s) (listener_list s) (io s) (conns s) (closed_fds s) (slock s) (actions s) (locals s).
Definition set_local_list (x : list ptr) (s : sv) : sv :=
  mksv (heap s) x (closing_list s) (next_id s) (next_ptr s) (trackers s) (trs s) (transport_list s) (pending_list s) (listeners s) (listener_list s) (io s) (conns s) (closed_fds s) (slock s) (actions s) (locals s).
Definition set_closing_list (x : list ptr) (s : sv) : sv :=
  mksv (heap s) (local_list s) x (next_id s) (next_ptr s) (trackers s) (trs s) (transport_list s) (pending_list s) (listeners s) (listener_list s) (io s) (conns s) (closed_fds s) (slock s) (actions s) (locals s).
Definition set_next_id (x : Z) (s : sv) : sv :=
  mksv (heap s) (local_list s) (closing_list s) x (next_ptr s) (trackers s) (trs s) (transport_list s) (pending_list s) (listeners s) (listener_list s) (io s) (conns s) (closed_fds s) (slock s) (actions s) (locals s).
Definition set_next_ptr (x : ptr) (s : sv) : sv :=
  mksv (heap s) (local_list s) (closing_list s) (next_id s) x (trackers s) (trs s) (transport_list s) (pending_list s) (listeners s) (listener_list s) (io s) (conns s) (closed_fds s) (slock s) (actions s) (locals s).
Definition set_trackers (x : list ptr) (s : sv) : sv :=
  mksv (heap s) (local_list s) (closing_list s) (next_id s) (next_ptr s) x (trs s) (transport_list s) (pending_list s) (listeners s) (listener_list s) (io s) (conns s) (closed_fds s) (slock s) (actions s) (locals s).
Definition set_trs (x : gmap ptr atransport) (s : sv) : sv :=
  mksv (heap s) (local_list s) (closing_list s) (next_id s) (next_ptr s) (trackers s) x (transport_list s) (pending_list s) (listeners s) (listener_list s) (io s) (conns s) (closed_fds s) (slock s) (actions s) (locals s).
Definition set_transport_list (x : list ptr) (s : sv) : sv :=
  mksv (heap s) (local_list s) (closing_list s) (next_id s) (next_ptr s) (trackers s) (trs s) x (pending_list s) (listeners s) (listener_list s) (io s) (conns s) (closed_fds s) (slock s) (actions s) (locals s).
Definition set_pending_list (x : list ptr) (s : sv) : sv :=
  mksv (heap s) (local_list s) (closing_list s) (next_id s) (next_ptr s) (trackers s) (trs s) (transport_list s) x (listeners s) (listener_list s) (io s) (conns s) (closed_fds s) (slock s) (actions s) (locals s).
Definition set_listeners (x : gmap ptr alistener) (s : sv) : sv :=
  mksv (heap s) (local_list s) (closing_list s) (next_id s) (next_ptr s) (trackers s) (trs s) (transport_list s) (pending_list s) x (listener_list s) (io s) (conns s) (closed_fds s) (slock s) (actions s) (locals s).
Definition set_listener_list (x : list ptr) (s : sv) : sv :=
  mksv (heap s) (local_list s) (closing_list s) (next_id s) (next_ptr s) (trackers s) (trs s) (transport_list s) (pending_list s) (listeners s) x (io s) (conns s) (closed_fds s) (slock s) (actions s) (locals s).
Definition set_io (x : gmap Z fio) (s : sv) : sv :=
  mksv (heap s) (local_list s) (closing_list s) (next_id s) (next_ptr s) (trackers s) (trs s) (transport_list s) (pending_list s) (listeners s) (listener_list s) x (conns s) (closed_fds s) (slock s) (actions s) (locals s).
Definition set_conns (x : list (Z * fio)) (s : sv) : sv :=
  mksv (heap s) (local_list s) (closing_list s) (next_id s) (next_ptr s) (trackers s) (trs s) (transport_list s) (pending_list s) (listeners s) (listener_list s) (io s) x (closed_fds s) (slock s) (actions s) (locals s).
Definition set_closed_fds (x : list Z) (s : sv) : sv :=
  mksv (heap s) (local_list s) (closing_list s) (next_id s) (next_ptr s) (trackers s) (trs s) (transport_list s) (pending_list s) (listeners s) (listener_list s) (io s) (conns s) x (slock s) (actions s) (locals s).
Definition set_slock (x : bool) (s : sv) : sv :=
  mksv (heap s) (local_list s) (closing_list s) (next_id s) (next_ptr s) (trackers s) (trs s) (transport_list s) (pending_list s) (listeners s) (listener_list s) (io s) (conns s) (closed_fds s) x (actions s) (locals s).
Definition set_actions (x : list (ptr * Z)) (s : sv) : sv :=
  mksv (heap s) (local_list s) (closing_list s) (next_id s) (next_ptr s) (trackers s) (trs s) (transport_list s) (pending_list s) (listeners s) (listener_list s) (io s) (conns s) (closed_fds s) (slock s) x (locals s).

Definition set_locals (x : list (option ptr)) (s : sv) : sv :=
  mksv (heap s) (local_list s) (closing_list s) (next_id s) (next_ptr s) (trackers s) (trs s) (transport_list s) (pending_list s) (listeners s) (listener_list s) (io s) (conns s) (closed_fds s) (slock s) (actions s) x.

(** ** The monad *)

Definition M (A : Type) : Type := sv -> res (A * sv).
Definition ret {A} (a : A) : M A := fun s => Ok (a, s).
Definition bind {A B} (m : M A) (k : A -> M B) : M B :=
  fun s => match m s with Ok (a, s1) => k a s1 | Exit w => Exit w | UB w => UB w | Timeout => Timeout end.
Definition stop {A} (why : string) : M A := fun _ => Exit why.
Definition undefined {A} (why : string) : M A := fun _ => UB why.
Definition diverge {A} : M A := fun _ => Timeout.
Definition gets {A} (f : sv -> A) : M A := fun s => Ok (f s, s).
Definition modify (f : sv -> sv) : M unit := fun s => Ok (tt, f s).
Definition lift {A} (m : res A) : M A := fun s => rbind m (fun a => Ok (a, s)).
Arguments stop {A} why%_string.
Arguments undefined {A} why%_string.

Declare Scope adb_scope.
Delimit Scope adb_scope with adb.
Notation "'do' x <- m ; k" := (bind m (fun x => k))
  (at level 200, x name, m at level 99, k at level 200) : adb_scope.
Notation "'do' ' p <- m ; k" := (bind m (fun x => match x with p => k end))
  (at level 200, p pattern, m at level 99, k at level 200) : adb_scope.
Notation "m ;; k" := (bind m (fun _ => k)) (at level 100, k at level 200, right associativity) : adb_scope.
#[global] Open Scope adb_scope.

Definition when (b : bool) (m : M unit) : M unit := if b then m else ret tt.

(** ** Memory *)

Definition get_sock (p : ptr) : M asocket := fun s =>
  match heap s !! p with Some a => Ok (a, s) | None => UB "asocket is not live" end.
Definition put_sock (p : ptr) (a : asocket) : M unit := modify (fun s => set_heap (<[p := a]> (heap s)) s).
Definition upd_sock (p : ptr) (f : asocket -> asocket) : M unit :=
  do a <- get_sock p; put_sock p (f a).
Definition free_sock (p : ptr) : M unit :=
  get_sock p ;; modify (fun s => set_heap (delete p (heap s)) s).
Definition new_sock (a : asocket) : M ptr := fun s =>
  Ok (next_ptr s, set_next_ptr (S (next_ptr s)) (set_heap (<[next_ptr s := a]> (heap s)) s)).

Definition get_tr (t : ptr) : M atransport := fun s =>
  match trs s !! t with Some a => Ok (a, s) | None => UB "atransport is not live" end.
Definition upd_tr (t : ptr) (f : atransport -> atransport) : M unit :=
  do a <- get_tr t; modify (fun s => set_trs (<[t := f a]> (trs s)) s).

Definition get_lis (l : ptr) : M alistener := fun s =>
  match listeners s !! l with Some a => Ok (a, s) | None => UB "alistener is not live" end.

(** [socket_list_lock] is a default pthread mutex: a second acquisition by the
    same thread never returns. *)
Definition lock : M unit := fun s => if slock s then Timeout else Ok (tt, set_slock true s).
Definition unlock : M unit := modify (set_slock false).

(** ** Descriptors *)

Definition get_fd (fd : Z) : M (option fio) := gets (fun s => io s !! fd).
Definition put_fd (fd : Z) (f : fio) : M unit := modify (fun s => set_io (<[fd := f]> (io s)) s).

(** A call on a descriptor that is not open fails with [EBADF]. *)
Definition fd_write (fd : Z) (d : bytes) : M wrret :=
  do o <- get_fd fd;
  match o with
  | None => ret WErrR
  | Some f =>
      let '(r, w) := adb_write (length d) (io_wr f) in
      put_fd fd (mkfio (io_in f) w
                   (io_sent f ++ match r with Wrote n => take n d | _ => [] end)) ;;
      ret r
  end.
Definition fd_writex (fd : Z) (d : bytes) : M bool :=
  do o <- get_fd fd;
  match o with
  | None => ret (bool_decide (d = []))
  | Some f =>
      do '(ok, sent, w) <- lift (writex d (io_wr f));
      put_fd fd (mkfio (io_in f) w (io_sent f ++ sent)) ;;
      ret ok
  end.
Definition fd_read (fd : Z) (n : nat) : M ioret :=
  do o <- get_fd fd;
  match o with
  | None => ret Err
  | Some f =>
      let '(r, i) := adb_read n (io_in f) in
      put_fd fd (mkfio i (io_wr f) (io_sent f)) ;;
      ret r
  end.
Definition fd_close (fd : Z) : M unit :=
  modify (fun s => set_closed_fds (closed_fds s ++ [fd]) (set_io (delete fd (io s)) s)).

(** The next descriptor an [accept], a [connect] or a [socketpair] returns; -1
    when the call fails. *)
Definition next_fd : M Z := fun s =>
  match conns s with
  | [] => Ok (-1, s)
  | (fd, f) :: r => Ok (fd, if 0 <=? fd then set_io (<[fd := f]> (io s)) (set_conns r s) else set_conns r s)
  end.
