(* ===== verification/Transports.v ===== *)
(** * Choosing and listing transports (transport.c)

    [acquire_one_transport] selects the transport a request is meant for, by
    serial, device path, product, model or device name, or by type;
    [list_transports] formats the device list into a caller's buffer.  The
    theorems characterise the selection and bound what the listing writes. *)

From S2P Require Import Prelude CString DList Server.

(** ** Matching *)

(** [qual_char_is_invalid]. *)
Definition qual_char_is_invalid (c : byte) : bool :=
  let z := b2z c in
  negb ((65 <=? z) && (z <=? 90) || (97 <=? z) && (z <=? 122) || (48 <=? z) && (z <=? 57)).

Definition sanitize (c : byte) : byte := if qual_char_is_invalid c then ch 95 else c.

(** The loop over [*prefix]: the rest of [to_test] when it starts with it. *)
Fixpoint match_prefix (prefix to_test : bytes) : option bytes :=
  match prefix, to_test with
  | [], _ => Some to_test
  | p :: ps, t :: ts => if byte_eqb p t then match_prefix ps ts else None
  | _ :: _, [] => None
  end.

(** The loop over [*qual], then the test that [*to_test] is a NUL. *)
Fixpoint match_qual (sanitize_qual : bool) (qual to_test : bytes) : bool :=
  match qual, to_test with
  | [], [] => true
  | [], _ :: _ => false
  | _ :: _, [] => false
  | q :: qs, t :: ts =>
      let c := if sanitize_qual && qual_char_is_invalid q then ch 95 else q in
      if byte_eqb c t then match_qual sanitize_qual qs ts else false
  end.

(** [qual_match]; a C string that can be NULL is an [option]. *)
Definition qual_match (to_test : option bytes) (prefix : bytes) (qual : option bytes)
  (sanitize_qual : bool) : bool :=
  match to_test with
  | None | Some [] => match qual with None | Some [] => true | Some _ => false end
  | Some t =>
      match qual with
      | None => false
      | Some q =>
          match match_prefix prefix t with
          | None => false
          | Some rest => match_qual sanitize_qual q rest
          end
      end
  end.

(** Does the serial a client gave name transport [t]? *)
Definition serial_matches (serial : bytes) (t : atransport) : bool :=
  match t_serial t with Some s => streq serial s | None => false end ||
  match t_devpath t with Some s => streq serial s | None => false end ||
  qual_match (Some serial) (lit "product:") (t_product t) false ||
  qual_match (Some serial) (lit "model:") (t_model t) true ||
  qual_match (Some serial) (lit "device:") (t_device t) false.

(** ** [acquire_one_transport] *)

Definition type_eqb (a b : transport_type) : bool :=
  match a, b with
  | kTransportUsb, kTransportUsb | kTransportLocal, kTransportLocal | kTransportAny, kTransportAny
  | kTransportHost, kTransportHost => true
  | _, _ => false
  end.

(** Does the loop consider [t], and which message does a second one give? *)
Definition candidate (ttype : transport_type) (serial : option bytes) (t : atransport) : option string :=
  match serial with
  | Some s => if serial_matches s t then Some "more than one device"%string else None
  | None =>
      if type_eqb ttype kTransportUsb && type_eqb (t_type t) kTransportUsb
      then Some "more than one device"%string
      else if type_eqb ttype kTransportLocal && type_eqb (t_type t) kTransportLocal
      then Some "more than one emulator"%string
      else if type_eqb ttype kTransportAny then Some "more than one device and emulator"%string
      else None
  end.

(** The state of the scan: [result], [ambiguous] and [*error_out]. *)
Record scan := mkscan { s_result : option (ptr * atransport); s_ambiguous : bool; s_error : string }.

Fixpoint scan_transports (ttype : transport_type) (serial : option bytes)
  (l : list (ptr * atransport)) (st : scan) : scan :=
  match l with
  | [] => st
  | (p, t) :: r =>
      if t_connection_state t =? CS_NOPERM
      then scan_transports ttype serial r
             (mkscan (s_result st) (s_ambiguous st) "insufficient permissions for device")
      else
        match candidate ttype serial t with
        | None => scan_transports ttype serial r st
        | Some many =>
            match s_result st with
            | Some _ => mkscan None true many
            | None => scan_transports ttype serial r (mkscan (Some (p, t)) (s_ambiguous st) (s_error st))
            end
        end
  end.

Definition msg_unauthorized : string :=
  "device unauthorized. Please check the confirmation dialog on your device.".

(** The outcome of one pass: a transport, an error to report, or another try
    after a second. *)
Inductive acquired := Acquired (p : ptr) | Refused (why : string) | Retry.

Definition acquire_pass (state : Z) (ttype : transport_type) (serial : option bytes)
  (l : list (ptr * atransport)) : acquired :=
  let st := scan_transports ttype serial l (mkscan None false "device not found") in
  let '(result, err) :=
    match s_result st with
    | None => (None, s_error st)
    | Some (p, t) =>
        if t_connection_state t =? CS_UNAUTHORIZED then (None, msg_unauthorized)
        else if t_connection_state t =? CS_OFFLINE then (None, "device offline"%string)
        else if negb (state =? CS_ANY) && negb (t_connection_state t =? state)
        then (None, "invalid device state"%string)
        else (Some p, s_error st)
    end in
  match result with
  | Some p => Acquired p
  | None =>
      if negb (state =? CS_ANY) &&
         (match serial with Some _ => true | None => negb (s_ambiguous st) end)
      then Retry
      else Refused err
  end.

(** The retry loop, over the transport lists its passes see. *)
Fixpoint acquire_wait (state : Z) (ttype : transport_type) (serial : option bytes)
  (views : list (list (ptr * atransport))) : acquired :=
  match views with
  | [] => Retry
  | l :: r => match acquire_pass state ttype serial l with
              | Retry => acquire_wait state ttype serial r
              | a => a
              end
  end.

(** ** Formatting *)

(** [statename]. *)
Definition statename (t : atransport) : bytes :=
  let s := t_connection_state t in
  if s =? CS_OFFLINE then lit "offline" else if s =? CS_BOOTLOADER then lit "bootloader"
  else if s =? CS_DEVICE then lit "device" else if s =? CS_HOST then lit "host"
  else if s =? CS_RECOVERY then lit "recovery" else if s =? CS_SIDELOAD then lit "sideload"
  else if s =? CS_NOPERM then lit "no permissions"
  else if s =? CS_UNAUTHORIZED then lit "unauthorized" else lit "unknown".

Definition shown_serial (t : atransport) : bytes :=
  match t_serial t with None | Some [] => lit "????????????" | Some s => s end.

(** A write cursor: the bytes formatted so far, whose count is the amount
    subtracted from [remaining].  Once more than the buffer was subtracted,
    [remaining] has wrapped around and the next [snprintf] writes past the end. *)
Definition cursor_put (bufsize : nat) (acc s : bytes) : res bytes :=
  if (bufsize <? length acc)%nat then UB "write past the end of the list buffer"
  else Ok (acc ++ s).

(** [add_qual]. *)
Definition add_qual (bufsize : nat) (prefix : bytes) (qual : option bytes) (sanitize_qual : bool)
  (acc : bytes) : res bytes :=
  match qual with
  | None | Some [] => Ok acc
  | Some q =>
      if (length acc =? bufsize)%nat then Ok acc
      else
        let q' := if sanitize_qual then map sanitize q else q in
        if sanitize_qual && (bufsize <? length acc + length (prefix ++ q'))%nat
        then UB "read past the end of the list buffer"
        else cursor_put bufsize acc (prefix ++ q')
  end.

(** [format_transport]: the whole line; [snprintf] keeps what fits. *)
Definition format_transport (t : atransport) (bufsize : nat) (long_listing : bool) : res bytes :=
  let serial := shown_serial t in
  if negb long_listing then Ok (serial ++ [ch 9] ++ statename t ++ [ch 10])
  else
    let* a1 := cursor_put bufsize [] (serial ++ replicate (22 - length serial) (ch 32) ++ [ch 32] ++ statename t) in
    let* a2 := add_qual bufsize (lit " ") (t_devpath t) false a1 in
    let* a3 := add_qual bufsize (lit " product:") (t_product t) false a2 in
    let* a4 := add_qual bufsize (lit " model:") (t_model t) true a3 in
    let* a5 := add_qual bufsize (lit " device:") (t_device t) false a4 in
    cursor_put bufsize a5 [ch 10].

(** [list_transports]: the text in the buffer, without its terminator. *)
Fixpoint list_lines (l : list atransport) (bufsize : nat) (long_listing : bool) (acc : bytes) : res bytes :=
  match l with
  | [] => Ok acc
  | t :: r =>
      let* line := format_transport t (bufsize - length acc) long_listing in
      if (bufsize <=? length acc + length line)%nat then Ok acc
      else list_lines r bufsize long_listing (acc ++ line)
  end.
Definition list_transports (l : list atransport) (bufsize : nat) (long_listing : bool) : res bytes :=
  list_lines l bufsize long_listing [].

(** [list_transports_msg]. *)
Definition list_transports_msg (l : list atransport) (bufsize : nat) : res bytes :=
  let* text := list_transports l (bufsize - 4) false in
  Ok (snprintf 5 (fmt_hex 4 (Z.of_nat (length text))) ++ text).

(** [connection_state_name], whose argument can be NULL. *)
Definition connection_state_name (t : option atransport) : bytes :=
  match t with
  | None => lit "unknown"
  | Some t =>
      let s := t_connection_state t in
      if s =? CS_BOOTLOADER then lit "bootloader" else if s =? CS_DEVICE then lit "device"
      else if s =? CS_RECOVERY then lit "recovery" else if s =? CS_SIDELOAD then lit "sideload"
      else if s =? CS_OFFLINE then lit "offline" else if s =? CS_UNAUTHORIZED then lit "unauthorized"
      else lit "unknown"
  end.

(** ** Facts about the selection *)

(** The transports the scan can pick: accessible and matching. *)
Definition eligible (ttype : transport_type) (serial : option bytes) (t : atransport) : bool :=
  negb (t_connection_state t =? CS_NOPERM) &&
  match candidate ttype serial t with Some _ => true | None => false end.

Definition matching (ttype : transport_type) (serial : option bytes) (l : list (ptr * atransport))
  : list (ptr * atransport) :=
  filter (fun x => eligible ttype serial (snd x) = true) l.

Lemma matching_cons ttype serial p t l :
  matching ttype serial ((p, t) :: l) =
  if eligible ttype serial t then (p, t) :: matching ttype serial l else matching ttype serial l.
Proof.
  unfold matching. destruct (eligible ttype serial t) eqn:E.
  - by rewrite filter_cons_True.
  - rewrite filter_cons_False; [done|]. simpl. congruence.
Qed.

Lemma scan_spec ttype serial l : forall st, s_ambiguous st = false ->
  let r := scan_transports ttype serial l st in
  match s_result st, matching ttype serial l with
  | None, [] => s_result r = None /\ s_ambiguous r = false
  | None, [x] => s_result r = Some x /\ s_ambiguous r = false
  | Some x, [] => s_result r = Some x /\ s_ambiguous r = false
  | _, _ => s_result r = None /\ s_ambiguous r = true
  end.
Proof.
  induction l as [|[p t] l IH]; intros st Ha; simpl.
  - by destruct (s_result st).
  - rewrite matching_cons. unfold eligible. destruct (t_connection_state t =? CS_NOPERM); simpl.
    { apply (IH (mkscan (s_result st) (s_ambiguous st) _) Ha). }
    destruct (candidate ttype serial t) as [many|]; simpl; [|by apply IH].
    destruct (s_result st) as [x|] eqn:E; simpl.
    + by destruct (matching ttype serial l).
    + specialize (IH (mkscan (Some (p, t)) (s_ambiguous st) (s_error st)) Ha). simpl in IH.
      by destruct (matching ttype serial l).
Qed.

(** The error of the scan when nothing, or too much, matched. *)
Lemma scan_error_none ttype serial l : forall st,
  matching ttype serial l = [] -> s_result st = None ->
  s_error (scan_transports ttype serial l st) =
  if existsb (fun x => t_connection_state (snd x) =? CS_NOPERM) l
  then "insufficient permissions for device"%string else s_error st.
Proof.
  induction l as [|[p t] l IH]; intros st Hm Hr; simpl; [done|].
  rewrite matching_cons in Hm. unfold eligible in Hm.
  destruct (t_connection_state t =? CS_NOPERM) eqn:E; simpl in *.
  - rewrite IH by done. simpl. by destruct (existsb _ l).
  - destruct (candidate ttype serial t); [done|]. by apply IH.
Qed.

(** C20. A request that names its device gets a transport exactly when one and
    only one accessible transport matches and that transport is neither
    offline nor unauthorised nor in another state than the one asked for. *)
Theorem acquire_unique state ttype serial l p :
  acquire_pass state ttype serial l = Acquired p <->
  exists t, matching ttype serial l = [(p, t)] /\
    t_connection_state t <> CS_UNAUTHORIZED /\ t_connection_state t <> CS_OFFLINE /\
    (state = CS_ANY \/ t_connection_state t = state).
Proof.
  unfold acquire_pass. pose proof (scan_spec ttype serial l (mkscan None false "device not found") eq_refl) as H.
  cbv zeta in H. simpl in H. set (r := scan_transports _ _ _ _) in *.
  assert (forall b w, (if b : bool then Retry else Refused w) <> Acquired p) as Hno by (by intros []).
  destruct (matching ttype serial l) as [|[q u] [|? ?]]; destruct H as [-> Hamb].
  - split; [|by intros (t & ? & _)]. intros E. exfalso. by eapply Hno.
  - destruct (Z.eqb_spec (t_connection_state u) CS_UNAUTHORIZED) as [E1|E1].
    { split; [intros E; exfalso; by eapply Hno|]. intros (t & [= -> ->] & ? & _). done. }
    destruct (Z.eqb_spec (t_connection_state u) CS_OFFLINE) as [E2|E2].
    { split; [intros E; exfalso; by eapply Hno|]. intros (t & [= -> ->] & _ & ? & _). done. }
    destruct (Z.eqb_spec state CS_ANY) as [E3|E3], (Z.eqb_spec (t_connection_state u) state) as [E4|E4]; simpl;
      (split; [|intros (t & [= -> ->] & _ & _ & [?|?]); done]);
      try (intros [= ->]; eauto 8); intros E; exfalso; by eapply Hno.
  - split; [|by intros (t & ? & _)]. intros E. exfalso. by eapply Hno.
Qed.

(** A request without a required state never waits: the pass answers with
    a transport or with a message, and when nothing matches the message is
    "insufficient permissions" as soon as an inaccessible device is present. *)
Theorem acquire_any_answers ttype serial l :
  acquire_pass CS_ANY ttype serial l <> Retry /\
  (matching ttype serial l = [] ->
   acquire_pass CS_ANY ttype serial l =
   Refused (if existsb (fun x => t_connection_state (snd x) =? CS_NOPERM) l
            then "insufficient permissions for device" else "device not found")).
Proof.
  unfold acquire_pass. cbn [CS_ANY Z.eqb negb andb]. split.
  - destruct (s_result _) as [[q u]|]; [|done]. by repeat case_if_goal.
  - intros Hm. pose proof (scan_spec ttype serial l (mkscan None false "device not found") eq_refl) as H.
    cbv zeta in H. simpl in H. rewrite Hm in H. destruct H as [Hr _]. rewrite Hr.
    rewrite scan_error_none by done. done.
Qed.

(** ** Facts about the listing *)

Definition short_line (t : atransport) : bytes := shown_serial t ++ [ch 9] ++ statename t ++ [ch 10].

Lemma list_lines_short l bufsize : forall acc, (length acc < bufsize)%nat ->
  exists k, list_lines l bufsize false acc = Ok (acc ++ concat (map short_line (take k l))) /\
    (length (acc ++ concat (map short_line (take k l))) < bufsize)%nat /\
    (forall t, l !! k = Some t ->
       bufsize <= length (acc ++ concat (map short_line (take k l))) + length (short_line t))%nat.
Proof.
  induction l as [|t l IH]; intros acc Hacc; cbn [list_lines].
  - exists 0%nat. simpl. rewrite app_nil_r. split_and!; [done|done|]. by intros t H.
  - change (format_transport t _ false) with (Ok (short_line t)). cbn [rbind].
    destruct (Nat.leb_spec bufsize (length acc + length (short_line t))) as [Hle|Hgt].
    + exists 0%nat. simpl. rewrite app_nil_r. split_and!; [done|done|by intros u [= <-]].
    + destruct (IH (acc ++ short_line t)) as (k & E & Hlt & Hnext); [rewrite length_app; lia|].
      exists (S k). cbn [take map concat]. rewrite E. rewrite <- !app_assoc in *.
      split_and!; [done|done|].
      intros u Hu. apply Hnext, Hu.
Qed.

(** The short device list never overruns its buffer: it is the lines of
    the longest prefix of the transport list that fits with its terminator. *)
Theorem list_transports_bounded l bufsize :
  (0 < bufsize)%nat ->
  exists k, list_transports l bufsize false = Ok (concat (map short_line (take k l))) /\
    (length (concat (map short_line (take k l))) < bufsize)%nat /\
    (forall t, l !! k = Some t ->
       bufsize <= length (concat (map short_line (take k l))) + length (short_line t))%nat.
Proof. intros H. exact (list_lines_short l bufsize [] H). Qed.

(** A transport as the USB code registers it, with the names of its banner. *)
Definition usb_transport (serial : bytes) (product model device : option bytes) (state : Z) : atransport :=
  mktr (Some serial) product model device None kTransportUsb 0 state true false 2 None 0 [] [] 100 None (-1) (-1) (-1) None.

Lemma list_transports_bounded_witness :
  exists k, list_transports [usb_transport (lit "P8") None None None CS_DEVICE;
                             usb_transport (lit "D210") None None None CS_OFFLINE] 14 false =
      Ok (concat (map short_line (take k [usb_transport (lit "P8") None None None CS_DEVICE;
                             usb_transport (lit "D210") None None None CS_OFFLINE]))) /\
    (length (concat (map short_line (take k [usb_transport (lit "P8") None None None CS_DEVICE;
                             usb_transport (lit "D210") None None None CS_OFFLINE]))) < 14)%nat /\
    (forall t, [usb_transport (lit "P8") None None None CS_DEVICE;
                usb_transport (lit "D210") None None None CS_OFFLINE] !! k = Some t ->
       14 <= length (concat (map short_line (take k [usb_transport (lit "P8") None None None CS_DEVICE;
                             usb_transport (lit "D210") None None None CS_OFFLINE]))) + length (short_line t))%nat.
Proof. apply list_transports_bounded. lia. Defined.

Lemma cursor_put_over bufsize acc s : (bufsize < length acc)%nat -> exists w, cursor_put bufsize acc s = UB w.
Proof. intros H. unfold cursor_put. rewrite (proj2 (Nat.ltb_lt _ _)) by lia. eauto. Qed.

Lemma add_qual_over bufsize prefix qual b acc : (bufsize < length acc)%nat ->
  add_qual bufsize prefix qual b acc = Ok acc \/ exists w, add_qual bufsize prefix qual b acc = UB w.
Proof.
  intros H. unfold add_qual. destruct qual as [[|c q]|]; [by left| |by left].
  rewrite (proj2 (Nat.eqb_neq _ _)) by lia. right.
  case_if_goal; [eauto|]. by apply cursor_put_over.
Qed.

(** The long listing trusts the names a device puts in its banner: when
    the first columns of a line are longer than the buffer, [remaining] wraps
    around and the next column is written past the end. *)
Theorem long_listing_overruns t rest bufsize a3 :
  (let* a1 := cursor_put bufsize [] (shown_serial t ++ replicate (22 - length (shown_serial t)) (ch 32) ++
                                     [ch 32] ++ statename t) in
   let* a2 := add_qual bufsize (lit " ") (t_devpath t) false a1 in
   add_qual bufsize (lit " product:") (t_product t) false a2) = Ok a3 ->
  (bufsize < length a3)%nat ->
  exists w, list_transports (t :: rest) bufsize true = UB w.
Proof.
  intros E H. unfold list_transports. cbn [list_lines length]. rewrite Nat.sub_0_r. unfold format_transport.
  cbn [negb]. apply rbind_Ok in E as (a1 & E1 & E). apply rbind_Ok in E as (a2 & E2 & E3).
  rewrite E1. cbn [rbind]. rewrite E2. cbn [rbind]. rewrite E3. cbn [rbind].
  destruct (add_qual_over bufsize (lit " model:") (t_model t) true a3 H) as [->|[w ->]]; [|by eauto].
  cbn [rbind]. destruct (add_qual_over bufsize (lit " device:") (t_device t) false a3 H) as [->|[w ->]]; [|by eauto].
  cbn [rbind]. destruct (cursor_put_over bufsize a3 [ch 10] H) as [w ->]. by eauto.
Qed.

Lemma long_listing_overruns_witness :
  exists w, list_transports [usb_transport (lit "P8") (Some (replicate 4070 (ch 65))) None None CS_DEVICE]
              4096 true = UB w.
Proof. eapply long_listing_overruns; [vm_compute; reflexivity|]. apply Nat.ltb_lt. vm_compute. reflexivity. Defined.
