(* ===== verification/Sockets.v ===== *)
(** * Sockets (sockets.c, the device tracker of transport.c, send_packet)

    A local socket is bound to a descriptor, a remote socket to a stream of a
    transport, a smart socket parses the first request of a client and a device
    tracker pushes device lists.  Two sockets that exchange data are peers.  The
    operations below are those the function pointers of an [asocket] name;
    [do_close] is [s->close(s)], whose recursion runs through the peers. *)

From S2P Require Import Prelude CString Io Wire DList Fdevent Server Transports.

(** ** Packets to a transport *)

(** [send_packet]: complete the header and hand the packet to the input thread
    through the (non-blocking) transport socket. *)
Definition send_packet (p : apacket) (t : option ptr) : M unit :=
  do p1 <- lift (send_packet_fill p);
  match t with
  | None => stop "Transport is null"
  | Some tp =>
      do a <- get_tr tp;
      match t_room a with
      | O => stop "cannot enqueue packet on transport socket"
      | S r => upd_tr tp (tr_queue (t_out a ++ [p1]) r)
      end
  end.

Definition mk_packet (cmd a0 a1 : Z) (d : bytes) : apacket :=
  mkpkt (mkmsg cmd a0 a1 (Z.of_nat (length d)) 0 0) 0 0 d.

(** [send_ready] and [send_close]. *)
Definition send_ready (local remote : Z) (t : option ptr) : M unit :=
  send_packet (mk_packet A_OKAY local remote []) t.
Definition send_close (local remote : Z) (t : option ptr) : M unit :=
  send_packet (mk_packet A_CLSE local remote []) t.

(** [sendfailmsg]. *)
Definition sendfailmsg (fd : Z) (reason : bytes) : M bool :=
  let len := Z.min (Z.of_nat (length reason)) 0xffff in
  do ok <- fd_writex fd (take 8 (snprintf 9 (lit "FAIL" ++ fmt_hex 4 len)));
  if negb ok then ret false else fd_writex fd (take (Z.to_nat len) reason).

(** ** The socket lists *)

(** [find_local_socket]. *)
Fixpoint find_in (l : list ptr) (local_id peer_id : Z) : M (option ptr) :=
  match l with
  | [] => ret None
  | p :: r =>
      do a <- get_sock p;
      if negb (a_id a =? local_id) then find_in r local_id peer_id
      else if peer_id =? 0 then ret (Some p)
      else
        match a_peer a with
        | None => ret None
        | Some q => do b <- get_sock q; ret (if a_id b =? peer_id then Some p else None)
        end
  end.
Definition find_local_socket (local_id peer_id : Z) : M (option ptr) :=
  lock ;;
  do l <- gets local_list;
  do r <- find_in l local_id peer_id;
  unlock ;; ret r.

(** [install_local_socket]. *)
Definition install_local_socket (p : ptr) : M unit :=
  lock ;;
  do i <- gets next_id;
  upd_sock p (sk_id i) ;;
  modify (set_next_id (let n := wrap32 (i + 1) in if n =? 0 then 1 else n)) ;;
  modify (fun s => set_local_list (local_list s ++ [p]) s) ;;
  unlock.

(** [remove_socket]: a socket without links is in no list. *)
Definition remove_socket (p : ptr) : M unit :=
  get_sock p ;;
  do linked <- gets (fun s => bool_decide (p ∈ local_list s) || bool_decide (p ∈ closing_list s));
  when linked
    (modify (fun s => set_local_list (remove_elt p (local_list s))
                        (set_closing_list (remove_elt p (closing_list s)) s)) ;;
     upd_sock p (sk_id 0)).

(** ** Interest of a socket's fdevent *)

Definition sock_fde_add (ev : Z) (p : ptr) : M unit := upd_sock p (fun a => sk_fde (fde_add ev (a_fde a)) a).
Definition sock_fde_del (ev : Z) (p : ptr) : M unit := upd_sock p (fun a => sk_fde (fde_del ev (a_fde a)) a).

(** [fdevent_remove(&s->fde)]: an active fdevent closes its descriptor. *)
Definition sock_fde_remove (p : ptr) : M unit :=
  do a <- get_sock p;
  let f := a_fde a in
  when (has (f_state f) FDE_ACTIVE && negb (has (f_state f) FDE_DONT_CLOSE)) (fd_close (f_fd f)) ;;
  upd_sock p (sk_fde (set_events 0 (set_state 0 f))).

(** ** Closing *)

(** [local_socket_destroy]. *)
Definition local_socket_destroy (p : ptr) : M unit :=
  do a <- get_sock p;
  sock_fde_remove p ;;
  remove_socket p ;;
  free_sock p ;;
  if a_exit_on_close a then stop "exit_on_close" else ret tt.

(** [add_transport_disconnect] and [remove_transport_disconnect]. *)
Definition add_transport_disconnect (t : option ptr) (d : adisconnect) : M unit :=
  match t with
  | None => undefined "NULL transport"
  | Some tp => do a <- get_tr tp; upd_tr tp (tr_disconnects (t_disconnects a ++ [d]))
  end.
Definition remove_transport_disconnect (t : option ptr) (d : adisconnect) : M unit :=
  match t with
  | None => undefined "NULL transport"
  | Some tp => do a <- get_tr tp; upd_tr tp (tr_disconnects (remove_elt d (t_disconnects a)))
  end.

(** The id of [s->peer], which must exist. *)
Definition peer_id (a : asocket) : M Z :=
  match a_peer a with
  | None => undefined "NULL peer"
  | Some q => do b <- get_sock q; ret (a_id b)
  end.

(** [remote_socket_shutdown]. *)
Definition remote_socket_shutdown (p : ptr) : M unit :=
  do a <- get_sock p;
  do i <- (match a_peer a with None => ret 0 | Some _ => peer_id a end);
  send_packet (mk_packet A_CLSE i (a_id a) []) (a_transport a).

Definition no_pkts (a : asocket) : bool := match a_pkts a with [] => true | _ => false end.

(** The end of [local_socket_close_locked]: destroy the socket, or keep it on
    the closing list until its queue is written. *)
Definition local_socket_finish (p : ptr) : M unit :=
  do a <- get_sock p;
  if a_closing a || no_pkts a then local_socket_destroy p
  else
    upd_sock p (sk_closing true) ;;
    sock_fde_del FDE_READ p ;;
    remove_socket p ;;
    modify (fun s => set_closing_list (closing_list s ++ [p]) s).

(** [device_tracker_remove]. *)
Definition device_tracker_remove (p : ptr) : M unit :=
  modify (fun s => set_trackers (remove_elt p (trackers s)) s).

(** The close functions of the five kinds of socket.  [close d q] closes the peer:
    [q->close(q)], or [local_socket_close_locked(q)] when [d] is true. *)
Section close_functions.
Context (close : bool -> ptr -> M unit).

Definition local_socket_close_locked (p : ptr) : M unit :=
  do a <- get_sock p;
  (match a_peer a with
   | None => ret tt
   | Some q =>
       do b <- get_sock q;
       when (a_shutdown b) (remote_socket_shutdown q) ;;
       upd_sock q (sk_peer None) ;;
       close (match a_close b with local_close => true | _ => false end) q ;;
       upd_sock p (sk_peer None)
   end) ;;
  local_socket_finish p.

Definition local_socket_close (p : ptr) : M unit := lock ;; local_socket_close_locked p ;; unlock.

Definition local_socket_close_notify (p : ptr) : M unit :=
  do a <- get_sock p;
  upd_sock p (sk_plain local_ready local_close) ;;
  sendfailmsg (a_fd a) (lit "closed") ;;
  close false p.

(** [s->peer->peer = 0; s->peer->close(s->peer)], when there is a peer. *)
Definition close_peer (a : asocket) : M unit :=
  match a_peer a with
  | None => ret tt
  | Some q => upd_sock q (sk_peer None) ;; close false q
  end.

Definition remote_socket_close (p : ptr) : M unit :=
  do a <- get_sock p;
  close_peer a ;;
  remove_transport_disconnect (a_transport a) (DisRemote p) ;;
  free_sock p.

Definition smart_socket_close (p : ptr) : M unit :=
  do a <- get_sock p;
  close_peer a ;;
  upd_sock p (sk_peer None) ;;
  free_sock p.

Definition device_tracker_close (p : ptr) : M unit :=
  do a <- get_sock p;
  close_peer a ;;
  device_tracker_remove p ;;
  free_sock p.
End close_functions.

(** [p->close(p)] ([direct] false) and [local_socket_close_locked(p)] ([direct]
    true): each closes its peer, and a notify stage goes on to the close function
    it has put in place of itself. *)
Fixpoint do_close (fuel : nat) (direct : bool) (p : ptr) : M unit :=
  match fuel with
  | O => diverge
  | S f =>
      if direct then local_socket_close_locked (do_close f) p
      else
        do a <- get_sock p;
        match a_close a with
        | local_close => local_socket_close (do_close f) p
        | local_close_notify => local_socket_close_notify (do_close f) p
        | remote_close => remote_socket_close (do_close f) p
        | smart_close => smart_socket_close (do_close f) p
        | tracker_close => device_tracker_close (do_close f) p
        end
  end.

Lemma do_close_S f p : do_close (S f) false p =
  (do a <- get_sock p;
   match a_close a with
   | local_close => local_socket_close (do_close f) p
   | local_close_notify => local_socket_close_notify (do_close f) p
   | remote_close => remote_socket_close (do_close f) p
   | smart_close => smart_socket_close (do_close f) p
   | tracker_close => device_tracker_close (do_close f) p
   end).
Proof. reflexivity. Qed.

(** One step of a close. *)
Ltac close_step := cbn [do_close];
  unfold local_socket_close, local_socket_close_locked, local_socket_close_notify, remote_socket_close, smart_socket_close, device_tracker_close, close_peer.

(** Enough for every close: the socket, a notify stage, the peer and a notify
    stage of the peer ([close_terminates]). *)
Definition close_fuel : nat := 4.
Definition sock_close (p : ptr) : M unit := do_close close_fuel false p.

(** [close_all_sockets]: scan, close the first match, start again. *)
Fixpoint first_of_transport (l : list ptr) (t : ptr) : M (option ptr) :=
  match l with
  | [] => ret None
  | p :: r =>
      do a <- get_sock p;
      do hit <- (if bool_decide (a_transport a = Some t) then ret true
                 else match a_peer a with
                      | None => ret false
                      | Some q => do b <- get_sock q; ret (bool_decide (a_transport b = Some t))
                      end);
      if hit : bool then ret (Some p) else first_of_transport r t
  end.
Fixpoint close_all_loop (fuel : nat) (t : ptr) : M unit :=
  match fuel with
  | O => diverge
  | S f =>
      do l <- gets local_list;
      do h <- first_of_transport l t;
      match h with
      | None => ret tt
      | Some p => do_close close_fuel true p ;; close_all_loop f t
      end
  end.
Definition close_all_sockets (t : ptr) : M unit :=
  lock ;;
  do n <- gets (fun s => length (local_list s));
  close_all_loop (S n) t ;;
  unlock.

(** ** Writing to a local socket *)

(** The unsent bytes of a packet. *)
Definition pkt_bytes (p : apacket) : res bytes :=
  let d := drop (p_ptr p) (data p) in
  if p_len p <=? Z.of_nat (length d) then Ok (take (Z.to_nat (p_len p)) d)
  else UB "read past the initialised packet data".
Definition advance (n : nat) (p : apacket) : apacket :=
  mkpkt (msg p) (p_len p - Z.of_nat n) (p_ptr p + n) (data p).

Inductive wstat := WDone | WBlocked | WBroken.

(** [while (p->len > 0) { r = adb_write(fd, p->ptr, p->len); ... }]. *)
Fixpoint flush_pkt (fuel : nat) (fd : Z) (p : apacket) : M (wstat * apacket) :=
  if p_len p <=? 0 then ret (WDone, p)
  else
    match fuel with
    | O => diverge
    | S f =>
        do d <- lift (pkt_bytes p);
        do r <- fd_write fd d;
        match r with
        | Wrote n => flush_pkt f fd (advance n p)
        | WAgainR => ret (WBlocked, p)
        | _ => ret (WBroken, p)
        end
    end.
Definition flush (fd : Z) (p : apacket) : M (wstat * apacket) := flush_pkt (Z.to_nat (p_len p)) fd p.

(** [local_socket_enqueue]: 0 when the packet went out, 1 when it was queued or
    the socket was closed. *)
Definition local_socket_enqueue (p : ptr) (pkt0 : apacket) : M Z :=
  let pkt := mkpkt (msg pkt0) (p_len pkt0) 0 (data pkt0) in
  let enqueue (k : apacket) : M Z :=
    upd_sock p (fun a => sk_pkts (a_pkts a ++ [k]) a) ;;
    sock_fde_add FDE_WRITE p ;;
    ret 1 in
  do a <- get_sock p;
  if negb (no_pkts a) then enqueue pkt
  else
    do '(st, k) <- flush (a_fd a) pkt;
    match st with
    | WDone => ret 0
    | WBroken => sock_close p ;; ret 1
    | WBlocked => enqueue k
    end.

(** [remote_socket_enqueue]. *)
Definition remote_socket_enqueue (p : ptr) (pkt : apacket) : M Z :=
  do a <- get_sock p;
  do i <- peer_id a;
  send_packet (with_msg (mkmsg A_WRTE i (a_id a) (p_len pkt) (data_check (msg pkt)) (magic (msg pkt))) pkt)
    (a_transport a) ;;
  ret 1.

(** [device_tracker_enqueue]: a client must not write to a tracker. *)
Definition device_tracker_enqueue (p : ptr) (pkt : apacket) : M Z :=
  device_tracker_close (fun _ q => sock_close q) p ;; ret (-1).

(** ** Device trackers *)

Definition live_transports : M (list atransport) := fun s =>
  match mapM (fun t => trs s !! t) (transport_list s) with
  | Some l => Ok (l, s)
  | None => UB "atransport is not live"
  end.

(** [device_tracker_send]; the peer of a tracker is the client's local socket. *)
Definition device_tracker_send (p : ptr) (buffer : bytes) : M Z :=
  do a <- get_sock p;
  match a_peer a with
  | None => undefined "NULL peer"
  | Some q =>
      do b <- get_sock q;
      match a_enqueue b with
      | local_enqueue => local_socket_enqueue q (mkpkt (msg get_apacket) (Z.of_nat (length buffer)) 0 buffer)
      | _ => undefined "the peer of a tracker is a local socket"
      end
  end.

(** [update_transports]: each tracker's successor is read before the send, which
    can free that tracker only. *)
Fixpoint send_to_trackers (l : list ptr) (buffer : bytes) : M unit :=
  match l with
  | [] => ret tt
  | p :: r => device_tracker_send p buffer ;; send_to_trackers r buffer
  end.
Definition update_transports : M unit :=
  do ts <- live_transports;
  do buffer <- lift (list_transports_msg ts 1024);
  do l <- gets trackers;
  send_to_trackers l buffer.

(** ** Ready *)

(** [local_socket_ready]. *)
Definition local_socket_ready (p : ptr) : M unit := sock_fde_add FDE_READ p.

Definition local_socket_ready_notify (p : ptr) : M unit :=
  do a <- get_sock p;
  upd_sock p (sk_plain local_ready local_close) ;;
  fd_write (a_fd a) (lit "OKAY") ;;
  local_socket_ready p.

Definition remote_socket_ready (p : ptr) : M unit :=
  do a <- get_sock p;
  do i <- peer_id a;
  send_packet (mk_packet A_OKAY i (a_id a) []) (a_transport a).

Definition smart_socket_ready (p : ptr) : M unit := ret tt.

(** The first device list is sent when the tracker is connected. *)
Definition device_tracker_ready (p : ptr) : M unit :=
  do a <- get_sock p;
  if 0 <? a_update a then
    upd_sock p (sk_update 0) ;;
    do ts <- live_transports;
    do buffer <- lift (list_transports_msg ts 1024);
    device_tracker_send p buffer ;;
    ret tt
  else ret tt.

(** [p->ready(p)]. *)
Definition sock_ready (p : ptr) : M unit :=
  do a <- get_sock p;
  match a_ready a with
  | local_ready => local_socket_ready p
  | local_ready_notify => local_socket_ready_notify p
  | remote_ready => remote_socket_ready p
  | smart_ready => smart_socket_ready p
  | tracker_ready => device_tracker_ready p
  end.

(** ** Creation *)

Definition blank_fde : fdevent := mkfde 0 false 0 0.
Definition blank_sock : asocket :=
  mksock 0 false false None blank_fde 0 [] local_enqueue local_ready false local_close None 0.

(** [create_local_socket]; [fdevent_install] refuses a bad descriptor. *)
Definition create_local_socket (fd : Z) : M ptr :=
  do p <- new_sock (mksock 0 false false None blank_fde fd [] local_enqueue local_ready false local_close None 0);
  install_local_socket p ;;
  (if fd <? 0 then stop "bogus negative fd"
   else if 32000 <? fd then stop "bogus huuuuge fd"
   else upd_sock p (sk_fde (mkfde fd false FDE_ACTIVE 0))) ;;
  ret p.

(** [create_remote_socket]. *)
Definition create_remote_socket (id : Z) (t : ptr) : M ptr :=
  if id =? 0 then stop "invalid remote socket id (0)"
  else
    do p <- new_sock (mksock id false false None blank_fde 0 [] remote_enqueue remote_ready true remote_close (Some t) 0);
    add_transport_disconnect (Some t) (DisRemote p) ;;
    ret p.

(** [create_device_tracker]. *)
Definition create_device_tracker : M ptr :=
  do p <- new_sock (mksock 0 false false None blank_fde 0 [] tracker_enqueue tracker_ready false tracker_close None 1);
  modify (fun s => set_trackers (p :: trackers s) s) ;;
  ret p.

(** [create_smart_socket] and [connect_to_smartsocket]. *)
Definition create_smart_socket : M ptr :=
  new_sock (mksock 0 false false None blank_fde 0 [] smart_enqueue smart_ready false smart_close None 0).
Definition connect_to_smartsocket (p : ptr) : M unit :=
  do q <- create_smart_socket;
  upd_sock p (sk_peer (Some q)) ;;
  upd_sock q (sk_peer (Some p)) ;;
  sock_ready p.

(** [connect_to_remote]. *)
Definition connect_to_remote (p : ptr) (destination : bytes) : M unit :=
  do a <- get_sock p;
  let len := Z.of_nat (length destination) + 1 in
  if MAX_PAYLOAD - 1 <? len then stop "destination oversized"
  else send_packet (mkpkt (mkmsg A_OPEN (a_id a) 0 len 0 0) 0 0 (destination ++ [x00])) (a_transport a).

(** ** Listeners *)

(** [connect_to[0] == '*']: the server's own port, not a forwarding. *)
Definition starts_star (s : bytes) : bool := match s with c :: _ => byte_eqb c (ch 42) | [] => false end.

(** [free_listener]: [fdevent_remove] closes the descriptor. *)
Definition free_listener (l : ptr) : M unit :=
  do a <- get_lis l;
  modify (fun s => set_listener_list (remove_elt l (listener_list s)) s) ;;
  fd_close (l_fd a) ;;
  (match l_transport a with
   | None => ret tt
   | Some t => remove_transport_disconnect (Some t) (DisListener l)
   end) ;;
  modify (fun s => set_listeners (delete l (listeners s)) s).

(** ** Disconnects *)

(** [remote_socket_disconnect] and [listener_disconnect]. *)
Definition run_disconnect (d : adisconnect) : M unit :=
  match d with
  | DisRemote p =>
      do a <- get_sock p;
      (match a_peer a with
       | None => ret tt
       | Some q => upd_sock q (sk_peer None) ;; sock_close q
       end) ;;
      remove_transport_disconnect (a_transport a) (DisRemote p) ;;
      free_sock p
  | DisListener l => free_listener l
  end.

(** [run_transport_disconnects]: each entry's successor is read before its
    function runs. *)
Fixpoint run_disconnects (l : list adisconnect) : M unit :=
  match l with [] => ret tt | d :: r => run_disconnect d ;; run_disconnects r end.
Definition run_transport_disconnects (t : ptr) : M unit :=
  do a <- get_tr t;
  run_disconnects (t_disconnects a).

(** [handle_online] and [handle_offline]. *)
Definition handle_online (t : ptr) : M unit := upd_tr t (tr_online true).
Definition handle_offline (t : ptr) : M unit :=
  upd_tr t (tr_online false) ;;
  run_transport_disconnects t.

(** ** The event function of a local socket, writable part *)

(** [while ((p = s->pkt_first) != 0)]: the packet at the head is updated in
    place, and dropped when it is written. *)
Fixpoint drain_pkts (fuel : nat) (fd : Z) (p : ptr) : M wstat :=
  match fuel with
  | O => diverge
  | S f =>
      do a <- get_sock p;
      match a_pkts a with
      | [] => ret WDone
      | k :: r =>
          do '(st, k1) <- flush fd k;
          match st with
          | WDone => upd_sock p (sk_pkts r) ;; drain_pkts f fd p
          | _ => upd_sock p (sk_pkts (k1 :: r)) ;; ret st
          end
      end
  end.

(** The [FDE_WRITE] part of [local_socket_event_func]; false when it returns. *)
Definition event_write (fd : Z) (p : ptr) : M bool :=
  do a0 <- get_sock p;
  do st <- drain_pkts (S (length (a_pkts a0))) fd p;
  match st with
  | WBlocked => ret false
  | WBroken => sock_close p ;; ret false
  | WDone =>
      do a <- get_sock p;
      if a_closing a then sock_close p ;; ret false
      else
        sock_fde_del FDE_WRITE p ;;
        match a_peer a with
        | None => undefined "NULL peer"
        | Some q => sock_ready q ;; ret true
        end
  end.
