(* ===== verification/Packets.v ===== *)
(** * The protocol engine: [handle_packet] (adb.c) with the host side of
    authentication (adb_auth_host.c) and [service_to_fd] (services.c)

    [handle_packet] is what the main thread does with a packet a device sent.
    The RSA signature and the public key file are parameters. *)

From S2P Require Import Prelude CString Io Wire DList Fdevent Server Transports Sockets.

(** ** Authentication *)

(** What the authentication code depends on: the list of loaded private keys
    (by address), [RSA_sign] of a key ([[]] when it fails) and the contents of
    adbkey.pub. *)
Record auth_env := mkauth { e_keys : list nat; e_sign : nat -> bytes -> bytes; e_pubkey : option bytes }.

(** [adb_auth_nextkey]. *)
Fixpoint key_after (l : list nat) (cur : nat) : option nat :=
  match l with
  | [] => None
  | k :: r => if (k =? cur)%nat then match r with [] => None | n :: _ => Some n end else key_after r cur
  end.
Definition adb_auth_nextkey (key_list : list nat) (current : option nat) : option nat :=
  match key_list with
  | [] => None
  | k :: _ => match current with None => Some k | Some c => key_after key_list c end
  end.

(** [adb_auth_get_userkey]: the key and its terminator when they fit. *)
Definition adb_auth_get_userkey (env : auth_env) (len : Z) : bytes :=
  match e_pubkey env with
  | None => []
  | Some file => if len <? Z.of_nat (length file) + 1 then [] else file ++ [x00]
  end.

(** [send_auth_response] and [send_auth_publickey]. *)
Definition send_auth_response (env : auth_env) (key : nat) (token : bytes) (t : ptr) : M unit :=
  match e_sign env key token with
  | [] => ret tt
  | sig => send_packet (mk_packet A_AUTH ADB_AUTH_SIGNATURE 0 sig) (Some t)
  end.
Definition send_auth_publickey (env : auth_env) (t : ptr) : M unit :=
  match adb_auth_get_userkey env MAX_PAYLOAD with
  | [] => ret tt
  | key => send_packet (mk_packet A_AUTH ADB_AUTH_RSAPUBLICKEY 0 key) (Some t)
  end.

(** ** Connection *)

(** [send_connect]: the host's banner with its terminator. *)
Definition send_connect (t : ptr) : M unit :=
  send_packet (mk_packet A_CNXN A_VERSION MAX_PAYLOAD (lit "host::" ++ [x00])) (Some t).

(** [qual_overwrite]: an empty string clears the qualifier. *)
Definition qual_overwrite (src : bytes) : option bytes := match src with [] => None | _ => Some src end.

(** One [key=value] of the banner. *)
Definition banner_prop (t : atransport) (tok : bytes) : atransport :=
  match split_chr (ch 61) tok with
  | None => t
  | Some (key, val) =>
      if streq key (lit "ro.product.name") then tr_quals (qual_overwrite val) (t_model t) (t_device t) t
      else if streq key (lit "ro.product.model") then tr_quals (t_product t) (qual_overwrite val) (t_device t) t
      else if streq key (lit "ro.product.device") then tr_quals (t_product t) (t_model t) (qual_overwrite val) t
      else t
  end.

(** The type of a banner and the transport with its qualifiers. *)
Definition banner_split (banner : bytes) (t : atransport) : bytes * atransport :=
  match split_chr (ch 58) banner with
  | None => (banner, t)
  | Some (type, rest) =>
      (type, match split_chr (ch 58) rest with
             | None => t
             | Some (_, props) => fold_left banner_prop (tokens (ch 59) props) t
             end)
  end.

(** [parse_banner]. *)
Definition parse_banner (banner : bytes) (t : ptr) : M unit :=
  do u <- get_tr t;
  let '(type, u1) := banner_split banner u in
  upd_tr t (fun _ => u1) ;;
  let known state := upd_tr t (tr_connection_state state) ;; update_transports in
  if streq type (lit "bootloader") then known CS_BOOTLOADER
  else if streq type (lit "device") then known CS_DEVICE
  else if streq type (lit "recovery") then known CS_RECOVERY
  else if streq type (lit "sideload") then known CS_SIDELOAD
  else upd_tr t (tr_connection_state CS_HOST).

(** The payload read as a C string: without a terminator in it, [strchr] and
    [strcmp] run past what the packet holds. *)
Definition payload_string (d : bytes) : res bytes :=
  if bool_decide (x00 ∈ d) then Ok (cstr d) else UB "payload is not terminated".

(** ** Services a device may open on the host *)

(** [service_to_fd] of the host: each branch asks the kernel for a socket. *)
Definition service_to_fd (name : bytes) : M Z :=
  if has_prefix (lit "tcp:") name || has_prefix (lit "local:") name || has_prefix (lit "localreserved:") name ||
     has_prefix (lit "localabstract:") name || has_prefix (lit "localfilesystem:") name
  then next_fd else ret (-1).

(** [create_local_service_socket]. *)
Definition create_local_service_socket (name : bytes) : M (option ptr) :=
  do fd <- service_to_fd name;
  if fd <? 0 then ret None else do p <- create_local_socket fd; ret (Some p).

(** [name[data_length > 0 ? data_length - 1 : 0] = 0]. *)
Definition open_name (p : apacket) : bytes := cstr (take (Z.to_nat (data_length (msg p)) - 1) (data p)).

(** ** [handle_packet] *)

Definition link_remote (p : ptr) (id : Z) (t : ptr) : M ptr :=
  do r <- create_remote_socket id t;
  upd_sock p (sk_peer (Some r)) ;;
  upd_sock r (sk_peer (Some p)) ;;
  ret r.

Definition on_sync (p : apacket) (t : ptr) : M unit :=
  if negb (arg0 (msg p) =? 0) then send_packet p (Some t) ;; send_connect t
  else upd_tr t (tr_connection_state CS_OFFLINE) ;; handle_offline t ;; send_packet p (Some t).

Definition on_cnxn (p : apacket) (t : ptr) : M unit :=
  do u <- get_tr t;
  when (negb (t_connection_state u =? CS_OFFLINE))
    (upd_tr t (tr_connection_state CS_OFFLINE) ;; handle_offline t) ;;
  do banner <- lift (payload_string (data p));
  parse_banner banner t ;;
  handle_online t.

Definition on_auth (env : auth_env) (p : apacket) (t : ptr) : M unit :=
  if arg0 (msg p) =? ADB_AUTH_TOKEN then
    upd_tr t (tr_connection_state CS_UNAUTHORIZED) ;;
    do u <- get_tr t;
    let key := adb_auth_nextkey (e_keys env) (t_key u) in
    upd_tr t (tr_key key) ;;
    match key with
    | Some k =>
        do token <- lift (data_prefix (data_length (msg p)) (data p));
        send_auth_response env k token t
    | None => send_auth_publickey env t
    end
  else if arg0 (msg p) =? ADB_AUTH_SIGNATURE then
    (* on the host adb_auth_verify fails and adb_auth_generate_token makes no token *)
    upd_tr t (fun u => tr_failed_auth (t_failed_auth u + 1) u)
  else ret tt.

Definition on_open (p : apacket) (t : ptr) : M unit :=
  do u <- get_tr t;
  when (t_online u && negb (arg0 (msg p) =? 0) && (arg1 (msg p) =? 0))
    (do s <- create_local_service_socket (open_name p);
     match s with
     | None => send_close 0 (arg0 (msg p)) (Some t)
     | Some x =>
         do r <- link_remote x (arg0 (msg p)) t;
         do a <- get_sock x;
         do b <- get_sock r;
         send_ready (a_id a) (a_id b) (Some t) ;;
         sock_ready x
     end).

Definition on_okay (p : apacket) (t : ptr) : M unit :=
  do u <- get_tr t;
  when (t_online u && negb (arg0 (msg p) =? 0) && negb (arg1 (msg p) =? 0))
    (do s <- find_local_socket (arg1 (msg p)) 0;
     match s with
     | None => ret tt
     | Some x =>
         do a <- get_sock x;
         match a_peer a with
         | None => link_remote x (arg0 (msg p)) t ;; sock_ready x
         | Some q => do b <- get_sock q; when (a_id b =? arg0 (msg p)) (sock_ready x)
         end
     end).

Definition on_clse (p : apacket) (t : ptr) : M unit :=
  do u <- get_tr t;
  when (t_online u && negb (arg1 (msg p) =? 0))
    (do s <- find_local_socket (arg1 (msg p)) (arg0 (msg p));
     match s with
     | None => ret tt
     | Some x =>
         do a <- get_sock x;
         do foreign <- (match a_peer a with
                        | None => ret false
                        | Some q => do b <- get_sock q; ret (negb (bool_decide (a_transport b = Some t)))
                        end);
         if (arg0 (msg p) =? 0) && foreign then ret tt else sock_close x
     end).

(** [s->enqueue(s, p)] of a socket of [local_socket_list]; only local sockets
    are listed. *)
Definition listed_enqueue (x : ptr) (p : apacket) : M Z :=
  do a <- get_sock x;
  match a_enqueue a with
  | local_enqueue => local_socket_enqueue x p
  | _ => undefined "only local sockets are listed"
  end.

Definition on_wrte (p : apacket) (t : ptr) : M unit :=
  do u <- get_tr t;
  when (t_online u && negb (arg0 (msg p) =? 0) && negb (arg1 (msg p) =? 0))
    (do s <- find_local_socket (arg1 (msg p)) (arg0 (msg p));
     match s with
     | None => ret tt
     | Some x =>
         do r <- listed_enqueue x (with_len (data_length (msg p)) p);
         when (r =? 0) (do a <- get_sock x; send_ready (a_id a) (arg0 (msg p)) (Some t))
     end).

Definition on_hdsk (p : apacket) (t : ptr) : M unit :=
  if arg0 (msg p) =? PAX_HANDSHAKE_REQ
  then send_packet (mk_packet A_HDSK PAX_HANDSHAKE_RES 0 PAX_HANDSHAKE_MAGIC) (Some t)
  else ret tt.

Definition handle_packet (env : auth_env) (p : apacket) (t : ptr) : M unit :=
  let c := command (msg p) in
  if c =? A_SYNC then on_sync p t
  else if c =? A_CNXN then on_cnxn p t
  else if c =? A_AUTH then on_auth env p t
  else if c =? A_OPEN then on_open p t
  else if c =? A_OKAY then on_okay p t
  else if c =? A_CLSE then on_clse p t
  else if c =? A_WRTE then on_wrte p t
  else if c =? A_HDSK then on_hdsk p t
  else ret tt.
