(* ===== verification/SocketInv.v ===== *)
(** * The invariant of the socket graph and a program logic for [M]

    [wp m s Q] says that [m] run from [s] neither hits undefined behaviour nor
    runs forever, and that [Q] holds of its result when it returns ([exit] is
    allowed).  [wf D W s] is the invariant of the server's objects: peers point
    at each other, the lists hold exactly the sockets they should, every remote
    socket is registered with its live transport.  Sockets in [D] are being
    taken down, so their links are not constrained, and those in [W] are having
    their queue written. *)

From S2P Require Import Prelude CString Io Wire DList Fdevent Server Transports Sockets.

(** ** Weakest preconditions *)

Definition wp {A} (m : M A) (s : sv) (Q : A -> sv -> Prop) : Prop :=
  match m s with Ok (a, s1) => Q a s1 | Exit _ => True | UB _ | Timeout => False end.

Lemma wp_ret {A} (a : A) s (Q : A -> sv -> Prop) : Q a s -> wp (ret a) s Q.
Proof. done. Qed.
Lemma wp_bind {A B} (m : M A) (k : A -> M B) s Q :
  wp m s (fun a s1 => wp (k a) s1 Q) -> wp (bind m k) s Q.
Proof. unfold wp, bind. by destruct (m s) as [[a s1]| | |]. Qed.
Lemma wp_mono {A} (m : M A) s (P Q : A -> sv -> Prop) :
  wp m s P -> (forall a s1, P a s1 -> Q a s1) -> wp m s Q.
Proof. unfold wp. intros H HPQ. destruct (m s) as [[a s1]| | |]; [by apply HPQ|done..]. Qed.
Lemma wp_and {A} (m : M A) s (P Q : A -> sv -> Prop) : wp m s P -> wp m s Q -> wp m s (fun a s' => P a s' /\ Q a s').
Proof. unfold wp. by destruct (m s) as [[a s']| | |]. Qed.
Lemma wp_run {A} (m : M A) s (Q : A -> sv -> Prop) : wp m s Q -> wp m s (fun a s' => Q a s' /\ m s = Ok (a, s')).
Proof. unfold wp. by destruct (m s) as [[a s']| | |]. Qed.
Lemma wp_stop {A} w s (Q : A -> sv -> Prop) : wp (stop w) s Q.
Proof. done. Qed.
Lemma wp_gets {A} (f : sv -> A) s (Q : A -> sv -> Prop) : Q (f s) s -> wp (gets f) s Q.
Proof. done. Qed.
Lemma wp_modify f s (Q : unit -> sv -> Prop) : Q tt (f s) -> wp (modify f) s Q.
Proof. done. Qed.
Lemma wp_lift {A} (m : res A) a s (Q : A -> sv -> Prop) : m = Ok a -> Q a s -> wp (lift m) s Q.
Proof. intros -> H. done. Qed.
Lemma wp_when b m s (Q : unit -> sv -> Prop) :
  (b = true -> wp m s Q) -> (b = false -> Q tt s) -> wp (when b m) s Q.
Proof. intros H1 H2. destruct b; [by apply H1|by apply H2]. Qed.

Definition upd_heap (p : ptr) (a : asocket) (s : sv) : sv := set_heap (<[p := a]> (heap s)) s.
Definition upd_trs (t : ptr) (a : atransport) (s : sv) : sv := set_trs (<[t := a]> (trs s)) s.

Lemma wp_get_sock p a s Q : heap s !! p = Some a -> Q a s -> wp (get_sock p) s Q.
Proof. unfold wp, get_sock. intros ->. done. Qed.
Lemma wp_upd_sock p f a s (Q : unit -> sv -> Prop) :
  heap s !! p = Some a -> Q tt (upd_heap p (f a) s) -> wp (upd_sock p f) s Q.
Proof. unfold wp, upd_sock, bind, get_sock. intros ->. done. Qed.
Lemma wp_free_sock p a s (Q : unit -> sv -> Prop) :
  heap s !! p = Some a -> Q tt (set_heap (delete p (heap s)) s) -> wp (free_sock p) s Q.
Proof. unfold wp, free_sock, bind, get_sock. intros ->. done. Qed.
Lemma wp_get_tr t a s Q : trs s !! t = Some a -> Q a s -> wp (get_tr t) s Q.
Proof. unfold wp, get_tr. intros ->. done. Qed.
Lemma wp_upd_tr t f a s (Q : unit -> sv -> Prop) :
  trs s !! t = Some a -> Q tt (upd_trs t (f a) s) -> wp (upd_tr t f) s Q.
Proof. unfold wp, upd_tr, bind, get_tr. intros ->. done. Qed.
Lemma wp_lock s (Q : unit -> sv -> Prop) : slock s = false -> Q tt (set_slock true s) -> wp lock s Q.
Proof. unfold wp, lock. intros ->. done. Qed.

(** ** The invariant *)

Definition is_local (a : asocket) : Prop := a_enqueue a = local_enqueue.

(** The function pointers of a socket go together. *)
Definition sock_ok (a : asocket) : Prop :=
  match a_enqueue a with
  | local_enqueue =>
      a_shutdown a = false /\
      ((a_ready a = local_ready /\ a_close a = local_close) \/
       (a_ready a = local_ready_notify /\ a_close a = local_close_notify /\
        a_peer a = None /\ a_pkts a = [] /\ a_closing a = false))
  | remote_enqueue =>
      a_ready a = remote_ready /\ a_close a = remote_close /\ a_shutdown a = true /\ is_Some (a_transport a)
  | smart_enqueue => a_ready a = smart_ready /\ a_close a = smart_close /\ a_shutdown a = false
  | tracker_enqueue => a_ready a = tracker_ready /\ a_close a = tracker_close /\ a_shutdown a = false
  end /\ a_exit_on_close a = false /\ is_u32 (a_id a).

(** A queued packet has all the bytes it claims. *)
Definition pkt_ok (p : apacket) : Prop :=
  0 <= p_len p <= Z.of_nat (length (drop (p_ptr p) (data p))).

Definition wants (ev : Z) (a : asocket) : bool := has (f_state (a_fde a)) ev.

Record wf (D W : gset ptr) (s : sv) : Prop := {
  wf_sock : forall p a, heap s !! p = Some a -> sock_ok a;
  wf_fresh : forall p, is_Some (heap s !! p) -> (p < next_ptr s)%nat;
  wf_peer : forall p a q, heap s !! p = Some a -> p ∉ D -> a_peer a = Some q ->
    q ∉ D /\ q <> p /\ exists b, heap s !! q = Some b /\ a_peer b = Some p /\ (is_local a \/ is_local b);
  wf_half : forall p a, heap s !! p = Some a -> p ∉ D -> ~ is_local a -> is_Some (a_peer a);
  wf_local : forall p, p ∈ local_list s <->
    exists a, heap s !! p = Some a /\ is_local a /\ a_closing a = false;
  wf_closing : forall p, p ∈ closing_list s <->
    exists a, heap s !! p = Some a /\ is_local a /\ a_closing a = true;
  wf_lists : NoDup (local_list s) /\ NoDup (closing_list s) /\ NoDup (trackers s);
  wf_detached : forall p a, heap s !! p = Some a -> a_closing a = true -> a_peer a = None;
  wf_pkts : forall p a, heap s !! p = Some a -> is_local a ->
    Forall pkt_ok (a_pkts a) /\ (p ∉ D -> a_pkts a <> [] -> a_closing a = false -> is_Some (a_peer a));
  wf_wants : forall p a, heap s !! p = Some a -> is_local a -> p ∉ W ->
    wants FDE_WRITE a = true -> a_pkts a <> [];
  wf_remote : forall p a t, heap s !! p = Some a -> a_enqueue a = remote_enqueue -> a_transport a = Some t ->
    exists u, trs s !! t = Some u /\ DisRemote p ∈ t_disconnects u;
  wf_dis : forall t u, trs s !! t = Some u -> NoDup (t_disconnects u) /\
    (forall p, DisRemote p ∈ t_disconnects u ->
       exists a, heap s !! p = Some a /\ a_enqueue a = remote_enqueue /\ a_transport a = Some t) /\
    (forall l, DisListener l ∈ t_disconnects u <->
       exists a, listeners s !! l = Some a /\ l_transport a = Some t);
  wf_trackers : forall p, p ∈ trackers s <-> exists a, heap s !! p = Some a /\ a_enqueue a = tracker_enqueue;
  wf_update : forall p a, heap s !! p = Some a -> p ∉ D -> p ∉ W -> a_enqueue a = tracker_enqueue -> a_update a = 0;
  wf_listed : forall t, t ∈ transport_list s -> is_Some (trs s !! t);
  wf_lislist : NoDup (listener_list s) /\ forall l, l ∈ listener_list s <-> is_Some (listeners s !! l);
  wf_lisowner : forall l a t, listeners s !! l = Some a -> l_transport a = Some t -> is_Some (trs s !! t);
  wf_lisok : forall l a, listeners s !! l = Some a ->
    (l < next_ptr s)%nat /\ (starts_star (l_connect_to a) = false -> is_Some (l_transport a));
  wf_trfresh : forall t, is_Some (trs s !! t) -> (t < next_ptr s)%nat;
  wf_id : 0 < next_id s < u32_mod }.

(** The invariant does not depend on descriptors, on the lock or on the packet
    queues of the transports. *)
Lemma wf_ext D W s s' :
  heap s' = heap s -> local_list s' = local_list s -> closing_list s' = closing_list s ->
  trackers s' = trackers s -> next_ptr s' = next_ptr s -> next_id s' = next_id s ->
  transport_list s' = transport_list s -> listeners s' = listeners s -> listener_list s' = listener_list s ->
  (forall t, t_disconnects <$> trs s' !! t = t_disconnects <$> trs s !! t) ->
  wf D W s -> wf D W s'.
Proof.
  intros Eh El Ec Et Ep Ei Etl Els Ell Etr Wf.
  pose proof (pointwise_old _ _ _ _ Etr) as H1. pose proof (pointwise_new _ _ _ _ Etr) as H2. pose proof (pointwise_live _ _ _ _ Etr) as H3.
  constructor; rewrite ?Eh, ?El, ?Ec, ?Et, ?Ep, ?Ei, ?Etl, ?Els, ?Ell; try apply Wf.
  - intros p a t Hp Hr Ht. destruct (wf_remote _ _ _ Wf p a t Hp Hr Ht) as (u & Hu & Hin).
    destruct (H2 _ _ Hu) as (u' & Hu' & E). exists u'. by rewrite E.
  - intros t u' Hu'. destruct (H1 _ _ Hu') as (u & Hu & ->). apply (wf_dis _ _ _ Wf t u Hu).
  - intros t Ht. by apply H3, (wf_listed _ _ _ Wf).
  - intros l a t Hl Ht. by eapply H3, (wf_lisowner _ _ _ Wf).
  - intros t [u' Hu']. destruct (H1 _ _ Hu') as (u & Hu & _). apply (wf_trfresh _ _ _ Wf). eauto.
Qed.

(** A change of a transport that keeps its disconnect list. *)
Lemma wf_upd_tr D W s t u u' :
  trs s !! t = Some u -> t_disconnects u' = t_disconnects u -> wf D W s -> wf D W (upd_trs t u' s).
Proof.
  intros Hu E. apply wf_ext; try done. intros x. unfold upd_trs. simpl.
  destruct (decide (x = t)) as [->|Hne]; [|by rewrite lookup_insert_ne].
  rewrite lookup_insert_eq, Hu. simpl. by rewrite E.
Qed.

(** A change of a socket that keeps its kind, and its links unless it is being
    taken down. *)
Lemma wf_upd_heap_gen D W s p a a' :
  wf D W s -> heap s !! p = Some a -> sock_ok a' ->
  a_enqueue a' = a_enqueue a -> a_closing a' = a_closing a -> (a_closing a' = true -> a_peer a' = None) ->
  (a_enqueue a = remote_enqueue -> a_transport a' = a_transport a) ->
  (p ∉ D -> a_peer a' = a_peer a /\ (is_local a -> a_pkts a' <> [] -> a_closing a = false -> is_Some (a_peer a))) ->
  (is_local a -> Forall pkt_ok (a_pkts a')) ->
  (is_local a -> p ∉ W -> wants FDE_WRITE a' = true -> a_pkts a' <> []) ->
  (p ∉ D -> a_update a' = a_update a \/ a_update a' = 0) ->
  wf D W (upd_heap p a' s).
Proof.
  intros Wf Hp Hok Een Ecl Hdet Etr Hlink Hpkts Hwant Hupd.
  pose proof (cell_inv (heap s) _ p a' eq_refl) as Hinv. pose proof (cell_self (heap s) _ p a' eq_refl) as Hself.
  pose proof (cell_other (heap s) _ p a' eq_refl) as Hother.
  assert (is_local a' <-> is_local a) as Hloc by (unfold is_local; by rewrite Een).
  assert (forall P : asocket -> Prop, (P a' <-> P a) -> forall q,
    (exists b, <[p := a']> (heap s) !! q = Some b /\ P b) <-> (exists b, heap s !! q = Some b /\ P b)) as Hiff.
  { intros P HP. apply (cell_iff (heap s) _ p a' eq_refl). rewrite Hp. naive_solver. }
  constructor; simpl; try apply Wf.
  - intros q b H. destruct (Hinv q b H) as [[-> ->]|[_ H']]; [done|]. by eapply (wf_sock _ _ _ Wf).
  - intros q [b H]. apply (wf_fresh _ _ _ Wf). destruct (Hinv q b H) as [[-> ->]|[_ H']]; eauto.
  - intros q b x H HD Hx. destruct (Hinv q b H) as [[-> ->]|[Hne H']].
    + destruct (Hlink HD) as [Epeer _]. rewrite Epeer in Hx.
      destruct (wf_peer _ _ _ Wf p a x Hp HD Hx) as (HxD & Hxq & c & Hc & Hpc & Hl).
      split; [done|]. split; [done|]. exists c. rewrite Hother by done. naive_solver.
    + destruct (wf_peer _ _ _ Wf q b x H' HD Hx) as (HxD & Hxq & c & Hc & Hpc & Hl).
      split; [done|]. split; [done|]. destruct (decide (x = p)) as [->|Hxp].
      * exists a'. rewrite Hself. simplify_eq. destruct (Hlink HxD) as [Epeer _]. rewrite Epeer. naive_solver.
      * exists c. by rewrite Hother.
  - intros q b H HD Hn. destruct (Hinv q b H) as [[-> ->]|[_ H']].
    + destruct (Hlink HD) as [-> _]. apply (wf_half _ _ _ Wf p a Hp HD). tauto.
    + by apply (wf_half _ _ _ Wf q b).
  - intros q. rewrite (wf_local _ _ _ Wf q). symmetry. apply (Hiff (fun b => is_local b /\ a_closing b = false)).
    rewrite Hloc, Ecl. done.
  - intros q. rewrite (wf_closing _ _ _ Wf q). symmetry. apply (Hiff (fun b => is_local b /\ a_closing b = true)).
    rewrite Hloc, Ecl. done.
  - intros q b H Hc. destruct (Hinv q b H) as [[-> ->]|[_ H']]; [auto|]. by eapply (wf_detached _ _ _ Wf).
  - intros q b H Hl. destruct (Hinv q b H) as [[-> ->]|[_ H']]; [|by apply (wf_pkts _ _ _ Wf)].
    apply Hloc in Hl. split; [auto|]. intros HD Hne Hc. destruct (Hlink HD) as [-> Hs].
    apply Hs; [done..|congruence].
  - intros q b H Hl HW. destruct (Hinv q b H) as [[-> ->]|[_ H']]; [|by apply (wf_wants _ _ _ Wf q)].
    apply Hwant; tauto.
  - intros q b t H Hr Ht. destruct (Hinv q b H) as [[-> ->]|[_ H']]; [|by apply (wf_remote _ _ _ Wf q b)].
    rewrite Een in Hr. apply (wf_remote _ _ _ Wf p a t Hp Hr). rewrite <- Ht. symmetry. by apply Etr.
  - intros t u Hu. destruct (wf_dis _ _ _ Wf t u Hu) as (Hnd & Hr & Hl). split_and!; [done| |done].
    intros q Hq. apply (Hiff (fun b => a_enqueue b = remote_enqueue /\ a_transport b = Some t)); [|by apply Hr].
    rewrite Een. split; intros [E Et]; rewrite <- Et; split; [done|symmetry; by apply Etr|done|by apply Etr].
  - intros q. rewrite (wf_trackers _ _ _ Wf q). symmetry. apply (Hiff (fun b => a_enqueue b = tracker_enqueue)).
    by rewrite Een.
  - intros q b H HD HW Ht. destruct (Hinv q b H) as [[-> ->]|[_ H']]; [|by apply (wf_update _ _ _ Wf q b)].
    destruct (Hupd HD) as [->| ->]; [|done]. apply (wf_update _ _ _ Wf p a Hp HD HW). congruence.
Qed.

Lemma wf_upd_heap D W s p a a' :
  wf D W s -> heap s !! p = Some a -> sock_ok a' ->
  a_enqueue a' = a_enqueue a -> a_closing a' = a_closing a -> (a_closing a' = true -> a_peer a' = None) ->
  (a_enqueue a = remote_enqueue -> a_transport a' = a_transport a) ->
  (p ∉ D -> a_peer a' = a_peer a /\ (is_local a -> a_pkts a' <> [] -> a_closing a = false -> is_Some (a_peer a))) ->
  (is_local a -> Forall pkt_ok (a_pkts a')) ->
  (is_local a -> p ∉ W -> wants FDE_WRITE a' = true -> a_pkts a' <> []) ->
  (p ∉ D -> a_update a' = a_update a) ->
  wf D W (upd_heap p a' s).
Proof. intros Wf Hp ? ? ? ? ? ? ? ? Hupd. eapply wf_upd_heap_gen; [exact Wf|exact Hp|done..|]. auto. Qed.

Lemma wf_weaken D W W' s : W ⊆ W' -> wf D W s -> wf D W' s.
Proof.
  intros HW Wf. constructor; try apply Wf.
  - intros p a Hp Hl Hn. apply (wf_wants _ _ _ Wf p a Hp Hl). set_solver.
  - intros p a Hp HD Hn. apply (wf_update _ _ _ Wf p a Hp HD). set_solver.
Qed.

(** ** Taking sockets down *)

(** Marking sockets as going down is allowed for a set closed under [peer]. *)
Lemma wf_mark_gone D W s (K : gset ptr) :
  wf D W s ->
  (forall p a q, p ∈ K -> heap s !! p = Some a -> a_peer a = Some q -> q ∈ K) ->
  wf (K ∪ D) W s.
Proof.
  intros Wf HK. constructor; try apply Wf.
  - intros p a q Hp HD Hq. destruct (wf_peer _ _ _ Wf p a q Hp ltac:(set_solver) Hq) as (HqD & Hqp & b & Hb & Hpb & Hl).
    split; [|eauto]. intros [HqK|?]%elem_of_union; [|done].
    pose proof (HK q b p HqK Hb Hpb). set_solver.
  - intros p a Hp HD. apply (wf_half _ _ _ Wf p a Hp). set_solver.
  - intros p a Hp Hl. destruct (wf_pkts _ _ _ Wf p a Hp Hl) as [H1 H2]. split; [done|].
    intros HD. apply H2. set_solver.
  - intros p a Hp HD. apply (wf_update _ _ _ Wf p a Hp). set_solver.
Qed.

(** Deleting a socket from the heap and from every list. *)
Lemma wf_delete D W s s' p a :
  wf D W s -> p ∈ D -> heap s !! p = Some a ->
  heap s' = delete p (heap s) -> local_list s' = remove_elt p (local_list s) ->
  closing_list s' = remove_elt p (closing_list s) -> trackers s' = remove_elt p (trackers s) ->
  next_ptr s' = next_ptr s -> next_id s' = next_id s -> transport_list s' = transport_list s ->
  listeners s' = listeners s -> listener_list s' = listener_list s ->
  (forall t, t_disconnects <$> trs s' !! t =
             (fun u => remove_elt (DisRemote p) (t_disconnects u)) <$> trs s !! t) ->
  wf (D ∖ {[p]}) (W ∖ {[p]}) s'.
Proof.
  intros Wf HpD Hp Eh El Ec Et Ep Ei Etl Els Ell Etr.
  pose proof (gone_inv _ _ p Eh) as Hinv. pose proof (gone_other _ _ p Eh) as Hother. pose proof (gone_iff _ _ p Eh) as Hiff.
  assert (forall q, q ∉ D ∖ {[p]} -> q <> p -> q ∉ D) as HD by set_solver.
  pose proof (pointwise_old _ _ _ _ Etr) as H1. pose proof (pointwise_new _ _ _ _ Etr) as H2. pose proof (pointwise_live _ _ _ _ Etr) as H3.
  constructor.
  - intros q b H. apply Hinv in H as [_ H]. by eapply (wf_sock _ _ _ Wf).
  - intros q [b H]. apply Hinv in H as [_ H]. rewrite Ep. apply (wf_fresh _ _ _ Wf). eauto.
  - intros q b x H HqD Hx. apply Hinv in H as [Hne H].
    destruct (wf_peer _ _ _ Wf q b x H (HD _ HqD Hne) Hx) as (HxD & Hxq & c & Hc & Hcq & Hl).
    split; [set_solver|]. split; [done|]. exists c. rewrite Hother; [done|]. intros ->. done.
  - intros q b H HqD. apply Hinv in H as [Hne H]. by apply (wf_half _ _ _ Wf q b H), HD.
  - intros q. rewrite El, elem_of_remove_elt, (wf_local _ _ _ Wf q).
    by rewrite (Hiff (fun b => is_local b /\ a_closing b = false)).
  - intros q. rewrite Ec, elem_of_remove_elt, (wf_closing _ _ _ Wf q).
    by rewrite (Hiff (fun b => is_local b /\ a_closing b = true)).
  - rewrite El, Ec, Et. destruct (wf_lists _ _ _ Wf) as (? & ? & ?). by split_and!; apply NoDup_remove_elt.
  - intros q b H. apply Hinv in H as [_ H]. by apply (wf_detached _ _ _ Wf q).
  - intros q b H Hl. apply Hinv in H as [Hne H]. destruct (wf_pkts _ _ _ Wf q b H Hl) as [? Hs].
    split; [done|]. intros HqD. by apply Hs, HD.
  - intros q b H Hl HqW. apply Hinv in H as [Hne H]. apply (wf_wants _ _ _ Wf q b H Hl). set_solver.
  - intros q b t H Hr Ht. apply Hinv in H as [Hne H].
    destruct (wf_remote _ _ _ Wf q b t H Hr Ht) as (u & Hu & Hin).
    destruct (H2 _ _ Hu) as (u' & Hu' & E). exists u'. split; [done|]. rewrite E, elem_of_remove_elt.
    split; [done|]. congruence.
  - intros t u' Hu'. destruct (H1 _ _ Hu') as (u & Hu & E). rewrite E, Els.
    destruct (wf_dis _ _ _ Wf t u Hu) as (Hnd & Hr & Hl). split_and!.
    + by apply NoDup_remove_elt.
    + intros q. rewrite elem_of_remove_elt. intros [Hq Hne]. destruct (Hr q Hq) as (b & Hb & ?).
      exists b. rewrite Hother; [done|]. congruence.
    + intros l. rewrite elem_of_remove_elt, Hl. naive_solver.
  - intros q. rewrite Et, elem_of_remove_elt, (wf_trackers _ _ _ Wf q).
    by rewrite (Hiff (fun b => a_enqueue b = tracker_enqueue)).
  - intros q b H HqD HqW. apply Hinv in H as [Hne H]. apply (wf_update _ _ _ Wf q b H); [by apply HD|set_solver].
  - intros t Ht. rewrite Etl in Ht. by apply H3, (wf_listed _ _ _ Wf).
  - rewrite Ell, Els. apply Wf.
  - intros l b t Hl Ht. rewrite Els in Hl. by eapply H3, (wf_lisowner _ _ _ Wf).
  - rewrite Els, Ep. apply Wf.
  - intros t [u' Hu']. rewrite Ep. destruct (H1 _ _ Hu') as (u & Hu & _). apply (wf_trfresh _ _ _ Wf). eauto.
  - rewrite Ei. apply Wf.
Qed.

(** Moving a detached local socket with queued packets to the closing list. *)
Lemma wf_to_closing D W s s' p a a' :
  wf D W s -> p ∈ D -> heap s !! p = Some a -> is_local a -> a_closing a = false -> a_pkts a <> [] ->
  sock_ok a' -> is_local a' -> a_closing a' = true -> a_peer a' = None -> a_pkts a' = a_pkts a ->
  heap s' = <[p := a']> (heap s) -> local_list s' = remove_elt p (local_list s) ->
  closing_list s' = closing_list s ++ [p] -> trackers s' = trackers s ->
  next_ptr s' = next_ptr s -> next_id s' = next_id s -> transport_list s' = transport_list s ->
  listeners s' = listeners s -> listener_list s' = listener_list s -> trs s' = trs s ->
  wf (D ∖ {[p]}) (W ∖ {[p]}) s'.
Proof.
  intros Wf HpD Hp Hl Hc Hpk Hok Hl' Hc' Hpe' Hpk' Eh El Ec Et Ep Ei Etl Els Ell Etr.
  pose proof (cell_inv _ _ p a' Eh) as Hinv. pose proof (cell_self _ _ p a' Eh) as Hself. pose proof (cell_other _ _ p a' Eh) as Hother.
  assert (forall q, q ∉ D ∖ {[p]} -> q <> p -> q ∉ D) as HD by set_solver.
  assert (forall P : asocket -> Prop, ~ P a -> ~ P a' -> forall q,
    (exists b, heap s' !! q = Some b /\ P b) <-> (exists b, heap s !! q = Some b /\ P b)) as Hnot.
  { intros P H1 H2. apply (cell_iff _ _ p a' Eh). rewrite Hp. naive_solver. }
  unfold is_local in *.
  constructor; rewrite ?El, ?Ec, ?Et, ?Ep, ?Ei, ?Etl, ?Els, ?Ell, ?Etr; try apply Wf.
  - intros q b H. destruct (Hinv q b H) as [[-> ->]|[_ H']]; [done|]. by eapply (wf_sock _ _ _ Wf).
  - intros q [b H]. apply (wf_fresh _ _ _ Wf). destruct (Hinv q b H) as [[-> ->]|[_ H']]; eauto.
  - intros q b x H HqD Hx. destruct (Hinv q b H) as [[-> ->]|[Hne H']]; [congruence|].
    destruct (wf_peer _ _ _ Wf q b x H' (HD _ HqD Hne) Hx) as (HxD & Hxq & c & Hcx & Hcq & Hloc).
    split; [set_solver|]. split; [done|]. exists c. rewrite Hother; [done|]. intros ->. done.
  - intros q b H HqD Hn. destruct (Hinv q b H) as [[-> ->]|[Hne H']]; [done|].
    by apply (wf_half _ _ _ Wf q b H'); [apply HD|].
  - intros q. rewrite elem_of_remove_elt, (wf_local _ _ _ Wf q). destruct (decide (q = p)) as [->|Hne].
    + rewrite Hself. split; [tauto|]. intros (b & [= <-] & _ & ?). congruence.
    + rewrite Hother by done. tauto.
  - intros q. rewrite elem_of_app, list_elem_of_singleton, (wf_closing _ _ _ Wf q).
    destruct (decide (q = p)) as [->|Hne].
    + rewrite Hself, Hp. split; [eauto|]. intros _. by right.
    + rewrite Hother by done. tauto.
  - destruct (wf_lists _ _ _ Wf) as (H1 & H2 & H3). split_and!; [by apply NoDup_remove_elt| |done].
    apply NoDup_app. split_and!; [done| |apply NoDup_singleton].
    intros x Hx. rewrite list_elem_of_singleton. intros ->.
    apply (wf_closing _ _ _ Wf) in Hx as (b & Hb & _ & ?). congruence.
  - intros q b H Hcl. destruct (Hinv q b H) as [[-> ->]|[_ H']]; [done|]. by apply (wf_detached _ _ _ Wf q).
  - intros q b H Hlb. destruct (Hinv q b H) as [[-> ->]|[Hne H']].
    + rewrite Hpk'. split; [by apply (wf_pkts _ _ _ Wf p)|]. congruence.
    + destruct (wf_pkts _ _ _ Wf q b H' Hlb) as [? Hs]. split; [done|]. intros HqD. by apply Hs, HD.
  - intros q b H Hlb HW. destruct (Hinv q b H) as [[-> ->]|[Hne H']]; [by rewrite Hpk'|].
    apply (wf_wants _ _ _ Wf q b H' Hlb). set_solver.
  - intros q b t H Hr Ht. destruct (Hinv q b H) as [[-> ->]|[_ H']]; [congruence|].
    by apply (wf_remote _ _ _ Wf q b).
  - intros t u Hu. destruct (wf_dis _ _ _ Wf t u Hu) as (Hnd & Hr & Hli). split_and!; [done| |done].
    intros q Hq. apply (Hnot (fun b => a_enqueue b = remote_enqueue /\ a_transport b = Some t)); [| |by apply Hr];
      intros [? _]; congruence.
  - intros q. rewrite (wf_trackers _ _ _ Wf q). symmetry. apply Hnot; congruence.
  - intros q b H HqD HqW Ht. destruct (Hinv q b H) as [[-> ->]|[Hne H']]; [congruence|].
    apply (wf_update _ _ _ Wf q b H'); [by apply HD|set_solver|done].
Qed.

(** ** Descriptors only change [io] *)

Lemma set_io_id s : set_io (io s) s = s.
Proof. by destruct s. Qed.

Lemma wp_fd_write fd d s (Q : wrret -> sv -> Prop) :
  (forall r i, match r with Wrote n => (n <= length d)%nat /\ (d <> [] -> (0 < n)%nat) | _ => True end ->
     Q r (set_io i s)) ->
  wp (fd_write fd d) s Q.
Proof.
  intros H. unfold fd_write, get_fd. apply wp_bind, wp_gets.
  destruct (io s !! fd) as [f|].
  - pose proof (adb_write_cases (length d) (io_wr f)) as Hb.
    destruct (adb_write (length d) (io_wr f)) as [r w]. apply wp_bind, wp_modify, wp_ret. apply H.
    destruct r; [|done..]. split; [lia|]. intros Hd. apply Hb. destruct d; [done|simpl; lia].
  - apply wp_ret. specialize (H WErrR (io s) I). by rewrite set_io_id in H.
Qed.

Lemma wp_fd_writex fd d s (Q : bool -> sv -> Prop) :
  (forall b i, Q b (set_io i s)) -> wp (fd_writex fd d) s Q.
Proof.
  intros H. unfold fd_writex, get_fd. apply wp_bind, wp_gets. destruct (io s !! fd) as [f|].
  - destruct (writex_spec d (io_wr f)) as (ok & sent & w & E & _). apply wp_bind. eapply wp_lift; [exact E|].
    apply wp_bind, wp_modify, wp_ret, H.
  - apply wp_ret. rewrite <- (set_io_id s). apply H.
Qed.

Lemma wp_sendfailmsg fd m s (Q : bool -> sv -> Prop) :
  (forall b i, Q b (set_io i s)) -> wp (sendfailmsg fd m) s Q.
Proof.
  intros H. unfold sendfailmsg. apply wp_bind, wp_fd_writex. intros b i. destruct b; simpl.
  - apply wp_fd_writex. intros b j. apply H.
  - apply wp_ret, H.
Qed.

Lemma wp_fde_remove p a s (Q : unit -> sv -> Prop) :
  heap s !! p = Some a ->
  (forall i c, Q tt (upd_heap p (sk_fde (set_events 0 (set_state 0 (a_fde a))) a) (set_io i (set_closed_fds c s)))) ->
  wp (sock_fde_remove p) s Q.
Proof.
  intros Hp H. unfold sock_fde_remove. apply wp_bind. eapply wp_get_sock; [exact Hp|]. apply wp_bind, wp_when; intros _.
  - unfold fd_close. apply wp_modify. eapply wp_upd_sock; [exact Hp|]. apply H.
  - eapply wp_upd_sock; [exact Hp|]. specialize (H (io s) (closed_fds s)).
    replace (set_io (io s) (set_closed_fds (closed_fds s) s)) with s in H by (by destruct s). exact H.
Qed.

(** ** What a take-down leaves alone *)

(** A transport without its queue and its disconnects. *)
Definition tr_core (u : atransport) : atransport := tr_disconnects [] (tr_queue [] 0 u).

(** No socket appears, and none changes its kind or its transport. *)
Definition kinds_from (h h' : gmap ptr asocket) : Prop :=
  forall q a', h' !! q = Some a' ->
    exists a, h !! q = Some a /\ a_enqueue a' = a_enqueue a /\ a_transport a' = a_transport a.

Lemma kinds_refl h : kinds_from h h.
Proof. intros q a H. eauto. Qed.
Lemma kinds_trans h1 h2 h3 : kinds_from h1 h2 -> kinds_from h2 h3 -> kinds_from h1 h3.
Proof.
  intros H1 H2 q a3 H. destruct (H2 q a3 H) as (a2 & Ha2 & E1 & E2). destruct (H1 q a2 Ha2) as (a1 & Ha1 & E3 & E4).
  exists a1. split_and!; congruence.
Qed.
Lemma kinds_delete h h' p : kinds_from h h' -> kinds_from h (delete p h').
Proof. intros H q a Ha. apply lookup_delete_Some in Ha as [_ Ha]. eauto. Qed.
Lemma kinds_insert h h' p a a' :
  h !! p = Some a -> a_enqueue a' = a_enqueue a -> a_transport a' = a_transport a ->
  kinds_from h h' -> kinds_from h (<[p := a']> h').
Proof.
  intros Hp E1 E2 H q b Hb. destruct (decide (q = p)) as [->|Hne].
  - rewrite lookup_insert_eq in Hb. injection Hb as <-. eauto.
  - rewrite lookup_insert_ne in Hb by done. eauto.
Qed.
Ltac kinds :=
  simpl; repeat first [apply kinds_refl | apply kinds_delete | eapply kinds_insert; [eassumption|done|done|]].

Record frame (K : gset ptr) (s s' : sv) : Prop := {
  fr_kind : kinds_from (heap s) (heap s');
  fr_heap : forall q, q ∉ K -> heap s' !! q = heap s !! q;
  fr_lock : slock s' = slock s;
  fr_ptr : next_ptr s' = next_ptr s;
  fr_id : next_id s' = next_id s;
  fr_list : transport_list s' = transport_list s;
  fr_lis : listeners s' = listeners s;
  fr_lislist : listener_list s' = listener_list s;
  fr_rest : (pending_list s', actions s', locals s') = (pending_list s, actions s, locals s);
  fr_trs : forall t, tr_core <$> trs s' !! t = tr_core <$> trs s !! t }.

Lemma frame_refl K s : frame K s s.
Proof. constructor; try done. kinds. Qed.

Lemma frame_trans K1 K2 K s1 s2 s3 :
  frame K1 s1 s2 -> frame K2 s2 s3 -> K1 ⊆ K -> K2 ⊆ K -> frame K s1 s3.
Proof.
  intros [k1 h1 l1 p1 i1 t1 ls1 ll1 e1 r1] [k2 h2 l2 p2 i2 t2 ls2 ll2 e2 r2] H1 H2. constructor; try congruence.
  { by eapply kinds_trans. }
  intros q Hq. rewrite h2, h1 by set_solver. done.
Qed.

Lemma frame_io K s i : frame K s (set_io i s).
Proof. constructor; try done. kinds. Qed.
Lemma frame_upd_heap K p a0 a s : p ∈ K -> heap s !! p = Some a0 ->
  a_enqueue a = a_enqueue a0 -> a_transport a = a_transport a0 -> frame K s (upd_heap p a s).
Proof.
  intros H Hp E1 E2. constructor; try done; [kinds|]. intros q Hq. apply lookup_insert_ne. set_solver.
Qed.
Lemma frame_upd_tr K t u u' s : trs s !! t = Some u -> tr_core u' = tr_core u -> frame K s (upd_trs t u' s).
Proof.
  intros Hu E. constructor; try done; [kinds|]. intros x. unfold upd_trs. simpl.
  destruct (decide (x = t)) as [->|Hne]; [|by rewrite lookup_insert_ne].
  by rewrite lookup_insert_eq, Hu; simpl; rewrite E.
Qed.

Lemma frame_live K s s' t : frame K s s' -> is_Some (trs s !! t) -> is_Some (trs s' !! t).
Proof.
  intros F [u Hu]. pose proof (fr_trs _ _ _ F t) as E. rewrite Hu in E. destruct (trs s' !! t); [eauto|done].
Qed.

(** ** The steps of a take-down *)

Lemma wp_remove_socket D W p a s (Q : unit -> sv -> Prop) :
  wf D W s -> heap s !! p = Some a -> is_local a ->
  Q tt (upd_heap p (sk_id 0 a) (set_local_list (remove_elt p (local_list s))
          (set_closing_list (remove_elt p (closing_list s)) s))) ->
  wp (remove_socket p) s Q.
Proof.
  intros Wf Hp Hl HQ. unfold remove_socket. apply wp_bind. eapply wp_get_sock; [exact Hp|].
  apply wp_bind, wp_gets. apply wp_when.
  - intros _. apply wp_bind, wp_modify. eapply wp_upd_sock; [exact Hp|]. exact HQ.
  - intros E. exfalso. apply orb_false_iff in E as [E1%bool_decide_eq_false E2%bool_decide_eq_false].
    destruct (a_closing a) eqn:Ec.
    + apply E2, (wf_closing _ _ _ Wf). eauto.
    + apply E1, (wf_local _ _ _ Wf). eauto.
Qed.

Lemma sock_ok_same a a' :
  sock_ok a -> a_enqueue a' = a_enqueue a -> a_ready a' = a_ready a -> a_shutdown a' = a_shutdown a ->
  a_close a' = a_close a -> a_transport a' = a_transport a -> a_exit_on_close a' = a_exit_on_close a ->
  is_u32 (a_id a') ->
  (a_close a = local_close_notify -> a_peer a' = None /\ a_pkts a' = [] /\ a_closing a' = false) -> sock_ok a'.
Proof.
  unfold sock_ok. intros (H & Hx & Hi) E1 E2 E3 E4 E5 E6 Hi' Hn.
  rewrite E1, E2, E3, E4, E5, E6. split_and!; [|done..].
  destruct (a_enqueue a); [|naive_solver..]. destruct H as [H1 [H2|(H2 & H3 & _)]]; [by auto|].
  split; [done|]. right. destruct (Hn H3) as (? & ? & ?). done.
Qed.

Lemma u32_0 : is_u32 0. Proof. done. Qed.

Definition no_backlog (a : asocket) : bool :=
  a_closing a || no_pkts a || match a_enqueue a with local_enqueue => false | _ => true end.

(** What closing makes of a socket: freed, or kept with its queue until that is
    written. *)
Definition fate (a : asocket) (o : option asocket) : Prop :=
  if no_backlog a then o = None
  else exists a', o = Some a' /\ a_pkts a' = a_pkts a /\ a_fd a' = a_fd a /\ a_closing a' = true /\ is_local a' /\
    wants FDE_WRITE a' = wants FDE_WRITE a.

(** The socket is no longer going down: it is freed, or on the closing list. *)
Definition gone (D W : gset ptr) (p : ptr) (a : asocket) (s s' : sv) : Prop :=
  wf (D ∖ {[p]}) (W ∖ {[p]}) s' /\ frame {[p]} s s' /\ local_list s' = remove_elt p (local_list s) /\
  fate a (heap s' !! p).

Lemma fde_del_read_write f : has (f_state (fde_del FDE_READ f)) FDE_WRITE = has (f_state f) FDE_WRITE.
Proof.
  rewrite !has_WRITE. unfold fde_del. rewrite fde_set_testbit by lia. unfold interest.
  rewrite Z.land_spec, Z.lnot_spec, !Z.land_spec by lia. eval_bits. simpl. by rewrite !andb_true_r.
Qed.

(** The last step of closing a local socket. *)
Lemma local_socket_finish_spec D W s p a :
  wf D W s -> p ∈ D -> heap s !! p = Some a -> is_local a -> a_peer a = None ->
  wp (local_socket_finish p) s (fun _ s' => gone D W p a s s').
Proof.
  intros Wf HpD Hp Hl Hpe. pose proof (wf_sock _ _ _ Wf p a Hp) as Hok.
  unfold local_socket_finish. apply wp_bind. eapply wp_get_sock; [exact Hp|].
  destruct (a_closing a || no_pkts a) eqn:Ec.
  - unfold local_socket_destroy. apply wp_bind. eapply wp_get_sock; [exact Hp|].
    apply wp_bind. eapply wp_fde_remove; [exact Hp|]. intros i c.
    set (a1 := sk_fde _ a). set (s1 := set_io i (set_closed_fds c s)).
    assert (wf D W s1) as Wf1 by (by apply (wf_ext D W s)).
    assert (wf D W (upd_heap p a1 s1)) as Wf2.
    { eapply wf_upd_heap; [exact Wf1|exact Hp|..]; try done.
      intros _. by apply (wf_pkts _ _ _ Wf p a). }
    apply wp_bind. eapply (wp_remove_socket _ _ p a1); [exact Wf2|apply lookup_insert_eq|done|].
    apply wp_bind. eapply wp_free_sock; [apply lookup_insert_eq|].
    destruct Hok as (_ & -> & _). apply wp_ret. split; [|split; [|split; [done|]]].
    + eapply (wf_delete D W s); [exact Wf|done|exact Hp|..]; simpl; try done.
      * by rewrite !delete_insert_eq.
      * rewrite remove_elt_notin; [done|]. intros Hin. apply (wf_trackers _ _ _ Wf) in Hin as (b & Hb & Hen).
        unfold is_local in Hl. congruence.
      * intros t. destruct (trs s !! t) as [u|] eqn:Hu; [|done]. simpl. f_equal.
        rewrite remove_elt_notin; [done|]. intros Hin.
        destruct (proj1 (proj2 (wf_dis _ _ _ Wf t u Hu)) p Hin) as (b & Hb & Hen & _).
        unfold is_local in Hl. congruence.
    + constructor; try done; [kinds|]. intros q Hq. simpl. rewrite lookup_delete_ne by set_solver.
      rewrite !lookup_insert_ne by set_solver. done.
    + unfold fate, no_backlog. rewrite Ec. simpl. apply lookup_delete_eq.
  - pose proof Ec as Ecl. apply orb_false_iff in Ec as [Ec Enp]. assert (a_pkts a <> []) as Hpk by (unfold no_pkts in Enp; by destruct (a_pkts a)).
    assert (a_close a = local_close) as Hcl.
    { destruct Hok as (Hk & _). unfold is_local in Hl. rewrite Hl in Hk.
      destruct Hk as [_ [[_ ?]|(_ & _ & _ & ? & _)]]; done. }
    apply wp_bind. eapply wp_upd_sock; [exact Hp|]. apply wp_bind. unfold sock_fde_del.
    eapply wp_upd_sock; [apply lookup_insert_eq|]. set (a2 := sk_fde _ _). apply wp_bind.
    unfold remove_socket. apply wp_bind. eapply wp_get_sock; [apply lookup_insert_eq|]. apply wp_bind, wp_gets.
    apply wp_when.
    2: { intros E. exfalso. apply orb_false_iff in E as [E1%bool_decide_eq_false _]. apply E1, (wf_local _ _ _ Wf). eauto. }
    intros _. apply wp_bind, wp_modify. eapply wp_upd_sock; [apply lookup_insert_eq|]. apply wp_modify. split; [|split; [|split; [done|]]].
    + eapply (wf_to_closing D W s _ p a (sk_id 0 a2)); [exact Wf|done|exact Hp|..]; try done.
      * eapply sock_ok_same; [exact Hok|done..|]. intros E. congruence.
      * simpl. by rewrite !insert_insert_eq.
      * simpl. f_equal. apply remove_elt_notin. intros Hin.
        apply (wf_closing _ _ _ Wf) in Hin as (b & Hb & _ & ?). congruence.
    + constructor; try done; [kinds|]. intros q Hq. simpl. rewrite !lookup_insert_ne by set_solver. done.
    + unfold fate, no_backlog. rewrite Ecl, Hl. simpl. rewrite lookup_insert_eq. eexists. split_and!; try done.
      unfold wants. simpl. apply fde_del_read_write.
Qed.

(** ** Packets *)

Definition fillable (p : apacket) : Prop := (Z.to_nat (data_length (msg p)) <= length (data p))%nat.

Lemma fill_total p : fillable p -> exists sum, checksum (msg p) (data p) = Ok sum /\
  send_packet_fill p = Ok (with_msg (mkmsg (command (msg p)) (arg0 (msg p)) (arg1 (msg p)) (data_length (msg p)) sum
                             (Z.lxor (command (msg p)) 0xffffffff)) p).
Proof.
  intros H. unfold send_packet_fill, checksum. rewrite checksum_loop_spec by done. simpl. eauto.
Qed.

Lemma wp_send_packet p tp u s (Q : unit -> sv -> Prop) :
  fillable p -> trs s !! tp = Some u ->
  (forall p1 r, send_packet_fill p = Ok p1 -> t_room u = S r ->
     Q tt (upd_trs tp (tr_queue (t_out u ++ [p1]) r u) s)) ->
  wp (send_packet p (Some tp)) s Q.
Proof.
  intros Hf Hu H. unfold send_packet. destruct (fill_total p Hf) as (sum & _ & E).
  apply wp_bind. eapply wp_lift; [exact E|]. apply wp_bind. eapply wp_get_tr; [exact Hu|].
  destruct (t_room u) as [|r] eqn:Er; [done|]. eapply wp_upd_tr; [exact Hu|]. by eapply H.
Qed.

Lemma mk_packet_fillable c a0 a1 d : fillable (mk_packet c a0 a1 d).
Proof. unfold fillable, mk_packet. simpl. lia. Qed.

(** Sending keeps the invariant and everything but the queue. *)
Lemma send_packet_wf D W K p tp s :
  wf D W s -> fillable p -> is_Some (trs s !! tp) ->
  wp (send_packet p (Some tp)) s (fun _ s' => wf D W s' /\ frame K s s' /\ heap s' = heap s).
Proof.
  intros Wf Hf [u Hu]. eapply wp_send_packet; [done|exact Hu|]. intros p1 r _ _. split_and!; [|by eapply frame_upd_tr|done].
  by eapply wf_upd_tr.
Qed.

(** ** Closing *)

Lemma wf_delete_remote D W s s' p a t u :
  wf D W s -> p ∈ D -> heap s !! p = Some a -> a_enqueue a = remote_enqueue -> a_transport a = Some t ->
  trs s !! t = Some u ->
  s' = set_heap (delete p (heap s)) (upd_trs t (tr_disconnects (remove_elt (DisRemote p) (t_disconnects u)) u) s) ->
  wf (D ∖ {[p]}) (W ∖ {[p]}) s'.
Proof.
  intros Wf HpD Hp Hr Ht Hu ->. eapply (wf_delete D W s); [exact Wf|done|exact Hp|..]; simpl; try done.
  - rewrite remove_elt_notin; [done|]. intros Hin.
    apply (wf_local _ _ _ Wf) in Hin as (b & Hb & Hl & _). unfold is_local in Hl. congruence.
  - rewrite remove_elt_notin; [done|]. intros Hin.
    apply (wf_closing _ _ _ Wf) in Hin as (b & Hb & Hl & _). unfold is_local in Hl. congruence.
  - rewrite remove_elt_notin; [done|]. intros Hin.
    apply (wf_trackers _ _ _ Wf) in Hin as (b & Hb & Hl). congruence.
  - intros x. destruct (decide (x = t)) as [->|Hne]; [by rewrite lookup_insert_eq, Hu|].
    rewrite lookup_insert_ne by done. destruct (trs s !! x) as [v|] eqn:Hv; [|done]. simpl. f_equal.
    rewrite remove_elt_notin; [done|]. intros Hin.
    destruct (proj1 (proj2 (wf_dis _ _ _ Wf x v Hv)) p Hin) as (b & Hb & _ & Hbt). congruence.
Qed.

(** Freeing a smart socket or a tracker. *)
Lemma wf_delete_plain D W s s' p a :
  wf D W s -> p ∈ D -> heap s !! p = Some a ->
  a_enqueue a = smart_enqueue \/ a_enqueue a = tracker_enqueue ->
  heap s' = delete p (heap s) -> trackers s' = remove_elt p (trackers s) ->
  local_list s' = local_list s -> closing_list s' = closing_list s ->
  next_ptr s' = next_ptr s -> next_id s' = next_id s -> transport_list s' = transport_list s ->
  listeners s' = listeners s -> listener_list s' = listener_list s -> trs s' = trs s ->
  wf (D ∖ {[p]}) (W ∖ {[p]}) s'.
Proof.
  intros Wf HpD Hp Hk Eh Et El Ec Ep Ei Etl Els Ell Etr.
  assert (p ∉ local_list s) as H1.
  { intros Hin. apply (wf_local _ _ _ Wf) in Hin as (b & Hb & Hl & _). unfold is_local in Hl.
    destruct Hk; congruence. }
  assert (p ∉ closing_list s) as H2.
  { intros Hin. apply (wf_closing _ _ _ Wf) in Hin as (b & Hb & Hl & _). unfold is_local in Hl.
    destruct Hk; congruence. }
  eapply (wf_delete D W s); [exact Wf|done|exact Hp|..]; try done; [by rewrite remove_elt_notin..|].
  intros t. rewrite Etr. destruct (trs s !! t) as [u|] eqn:Hu; [|done]. simpl. f_equal.
  rewrite remove_elt_notin; [done|]. intros Hin.
  destruct (proj1 (proj2 (wf_dis _ _ _ Wf t u Hu)) p Hin) as (b & Hb & Hen & _). destruct Hk; congruence.
Qed.

(** [local_socket_close] on a socket without a peer. *)
Lemma close_locked_detached D W s p a f :
  wf D W s -> p ∈ D -> heap s !! p = Some a -> is_local a -> a_peer a = None ->
  a_close a = local_close -> slock s = false ->
  wp (do_close (S f) false p) s (fun _ s' => gone D W p a s s').
Proof.
  intros Wf HpD Hp Hl Hpe Hc Hs. close_step. apply wp_bind. eapply wp_get_sock; [exact Hp|]. rewrite Hc.
  apply wp_bind, wp_lock; [done|]. apply wp_bind, wp_bind. eapply wp_get_sock; [exact Hp|]. rewrite Hpe.
  apply wp_bind, wp_ret.
  eapply wp_mono; [eapply (local_socket_finish_spec D W _ p a); try done; by apply (wf_ext D W s)|].
  intros _ s2 (Wf2 & F2 & El & Hf). unfold unlock. apply wp_modify. split; [by apply (wf_ext _ _ s2)|].
  split; [destruct F2; by constructor|by split].
Qed.

Lemma not_local_list D W s p a : wf D W s -> heap s !! p = Some a -> ~ is_local a ->
  remove_elt p (local_list s) = local_list s.
Proof.
  intros Wf Hp Hn. apply remove_elt_notin. intros Hin.
  apply (wf_local _ _ _ Wf) in Hin as (b & Hb & Hl & _). congruence.
Qed.

Lemma fate_freed a (o : option asocket) : a_enqueue a <> local_enqueue -> o = None -> fate a o.
Proof. intros Hn ->. unfold fate, no_backlog. destruct (a_enqueue a); [done|..]; by rewrite orb_true_r. Qed.

(** Taking a remote socket off its transport and freeing it. *)
Lemma free_remote_detached D W s p a :
  wf D W s -> p ∈ D -> heap s !! p = Some a -> a_enqueue a = remote_enqueue ->
  wp (remove_transport_disconnect (a_transport a) (DisRemote p) ;; free_sock p) s
     (fun _ s' => gone D W p a s s' /\ heap s' = delete p (heap s)).
Proof.
  intros Wf HpD Hp Hr. pose proof (wf_sock _ _ _ Wf p a Hp) as [Hk _]. rewrite Hr in Hk.
  destruct Hk as (_ & _ & _ & [t Ht]). destruct (wf_remote _ _ _ Wf p a t Hp Hr Ht) as (u & Hu & _).
  rewrite Ht. unfold remove_transport_disconnect. apply wp_bind, wp_bind. eapply wp_get_tr; [exact Hu|].
  eapply wp_upd_tr; [exact Hu|]. eapply wp_free_sock; [exact Hp|]. split; [|done]. split; [|split; [|split]].
  - by eapply wf_delete_remote.
  - constructor; try done; [kinds|intros q Hq; apply lookup_delete_ne; set_solver|].
    exact (fr_trs {[p]} s _ (frame_upd_tr {[p]} t u
             (tr_disconnects (remove_elt (DisRemote p) (t_disconnects u)) u) s Hu eq_refl)).
  - symmetry. apply (not_local_list D W s p a); [done..|]. unfold is_local. congruence.
  - apply fate_freed; [by rewrite Hr|apply lookup_delete_eq].
Qed.

(** The same for a smart socket and for a tracker. *)
Lemma free_smart_detached D W s p a :
  wf D W s -> p ∈ D -> heap s !! p = Some a -> a_enqueue a = smart_enqueue ->
  wp (upd_sock p (sk_peer None) ;; free_sock p) s (fun _ s' => gone D W p a s s').
Proof.
  intros Wf HpD Hp Een. apply wp_bind. eapply wp_upd_sock; [exact Hp|]. eapply wp_free_sock; [apply lookup_insert_eq|]. split_and!.
  - eapply (wf_delete_plain D W s); [exact Wf|done|exact Hp|by left|..]; try done; simpl; [by rewrite delete_insert_eq|].
    rewrite remove_elt_notin; [done|]. intros Hin. apply (wf_trackers _ _ _ Wf) in Hin as (b & Hb & Hen). congruence.
  - constructor; try done; [kinds|]. intros q Hq. simpl. rewrite lookup_delete_ne, lookup_insert_ne by set_solver. done.
  - symmetry. apply (not_local_list D W s p a); [done..|]. unfold is_local. congruence.
  - apply fate_freed; [by rewrite Een|apply lookup_delete_eq].
Qed.
Lemma free_tracker_detached D W s p a :
  wf D W s -> p ∈ D -> heap s !! p = Some a -> a_enqueue a = tracker_enqueue ->
  wp (device_tracker_remove p ;; free_sock p) s (fun _ s' => gone D W p a s s').
Proof.
  intros Wf HpD Hp Een. apply wp_bind, wp_modify. eapply wp_free_sock; [exact Hp|]. split_and!.
  - eapply (wf_delete_plain D W s); [exact Wf|done|exact Hp|by right|..]; done.
  - constructor; try done; [kinds|]. intros q Hq. simpl. rewrite lookup_delete_ne by set_solver. done.
  - symmetry. apply (not_local_list D W s p a); [done..|]. unfold is_local. congruence.
  - apply fate_freed; [by rewrite Een|apply lookup_delete_eq].
Qed.

Lemma local_of_close a : sock_ok a -> a_close a = local_close -> is_local a.
Proof.
  intros (Hk & _) E. unfold is_local. destruct (a_enqueue a); [done|..]; destruct Hk as (_ & ? & _); congruence.
Qed.
Lemma remote_of_shutdown a : sock_ok a -> a_shutdown a = true -> a_enqueue a = remote_enqueue.
Proof.
  intros (Hk & _) E. destruct (a_enqueue a); [destruct Hk; congruence|done|..]; destruct Hk as (_ & _ & ?); congruence.
Qed.

(** The close functions on a socket whose peer is already gone. *)
Lemma close_detached D W s p a f (direct : bool) :
  wf D W s -> p ∈ D -> heap s !! p = Some a -> a_peer a = None ->
  (if direct then is_local a else is_local a -> slock s = false) ->
  wp (do_close (S (S f)) direct p) s (fun _ s' => gone D W p a s s').
Proof.
  intros Wf HpD Hp Hpe Hd. pose proof (wf_sock _ _ _ Wf p a Hp) as (Hk & Hx & Hi).
  destruct direct.
  { close_step. apply wp_bind. eapply wp_get_sock; [exact Hp|]. rewrite Hpe. apply wp_bind, wp_ret.
    by eapply local_socket_finish_spec. }
  destruct (a_enqueue a) eqn:Een.
  - assert (is_local a) as Hl by done. specialize (Hd Hl).
    destruct Hk as [Hsh [[Hr Hc]|(Hr & Hc & _ & Hpk & Hcl)]]; [by eapply close_locked_detached|].
    close_step. do 2 (apply wp_bind; eapply wp_get_sock; [exact Hp|]; rewrite ?Hc).
    apply wp_bind. eapply wp_upd_sock; [exact Hp|]. apply wp_bind, wp_sendfailmsg. intros b i.
    set (a1 := sk_plain local_ready local_close a). set (s1 := set_io i (upd_heap p a1 s)).
    assert (wf D W s1) as Wf1.
    { apply (wf_ext D W (upd_heap p a1 s)); try done. eapply wf_upd_heap; [exact Wf|exact Hp|..]; try done.
      - unfold sock_ok. simpl. rewrite Een. auto.
      - intros _. by apply (wf_pkts _ _ _ Wf p a).
      - intros _. by apply (wf_wants _ _ _ Wf p a). }
    eapply wp_mono; [eapply (close_locked_detached D W s1 p a1 f); try done; apply lookup_insert_eq|].
    intros _ s2 (Wf2 & F2 & El & Hf). split; [done|]. split; [|by split].
    eapply (frame_trans {[p]} {[p]}); [|exact F2|done|done].
    eapply (frame_trans {[p]} {[p]}); [apply (frame_upd_heap _ p a a1); [set_solver|done..]|apply frame_io|done|done].
  - destruct Hk as (_ & Hc & _). close_step. do 2 (apply wp_bind; eapply wp_get_sock; [exact Hp|]; rewrite ?Hc). rewrite Hpe.
    apply wp_bind, wp_ret. eapply wp_mono; [by apply (free_remote_detached D W s p a)|]. by intros u s' [? _].
  - destruct Hk as (_ & Hc & _). close_step. do 2 (apply wp_bind; eapply wp_get_sock; [exact Hp|]; rewrite ?Hc). rewrite Hpe.
    apply wp_bind, wp_ret. by apply free_smart_detached.
  - destruct Hk as (_ & Hc & _). close_step. do 2 (apply wp_bind; eapply wp_get_sock; [exact Hp|]; rewrite ?Hc). rewrite Hpe.
    apply wp_bind, wp_ret. by apply free_tracker_detached.
Qed.

(** Both ends of a live connection. *)
Lemma wf_pair W s p a q : wf ∅ W s -> heap s !! p = Some a -> a_peer a = Some q ->
  exists b, heap s !! q = Some b /\ a_peer b = Some p /\ q <> p /\ (is_local a \/ is_local b) /\
    wf {[p; q]} W s.
Proof.
  intros Wf Hp Hq. destruct (wf_peer _ _ _ Wf p a q Hp ltac:(set_solver) Hq) as (_ & Hne & b & Hb & Hpb & Hl).
  exists b. split_and!; [done..|]. rewrite <- (union_empty_r_L {[p; q]}). apply wf_mark_gone; [done|].
  intros x c y Hx Hc Hy. apply elem_of_union in Hx as [->%elem_of_singleton| ->%elem_of_singleton];
    simplify_eq; set_solver.
Qed.

(** Cutting the link of a socket that is going down. *)
Lemma wf_cut D W s q b : wf D W s -> q ∈ D -> heap s !! q = Some b ->
  wf D W (upd_heap q (sk_peer None b) s).
Proof.
  intros Wf HqD Hq. pose proof (wf_sock _ _ _ Wf q b Hq) as Hok.
  eapply wf_upd_heap; [exact Wf|exact Hq|..]; try done.
  - eapply sock_ok_same; [exact Hok|done..|apply Hok|]. intros Hn. destruct Hok as (Hk & _). simpl.
    destruct (a_enqueue b); [|destruct Hk as (_ & ? & _); congruence..].
    destruct Hk as [_ [[_ ?]|(_ & _ & _ & ? & ?)]]; [congruence|done].
  - intros Hl. by apply (wf_pkts _ _ _ Wf q b).
  - intros Hl. by apply (wf_wants _ _ _ Wf q b).
Qed.

(** A local socket with a peer is not waiting for its first [A_OKAY]. *)
Lemma linked_local a q : sock_ok a -> is_local a -> a_peer a = Some q -> a_close a = local_close /\ a_shutdown a = false.
Proof.
  intros (Hk & _) Hl Hq. unfold is_local in Hl. rewrite Hl in Hk.
  destruct Hk as [? [[? ?]|(_ & _ & ? & _)]]; [done|congruence].
Qed.

(** [remote_socket_shutdown] announces the close to the device. *)
Lemma shutdown_spec D W K s p a :
  wf D W s -> heap s !! p = Some a -> a_enqueue a = remote_enqueue ->
  (forall q, a_peer a = Some q -> is_Some (heap s !! q)) ->
  wp (remote_socket_shutdown p) s (fun _ s' => wf D W s' /\ frame K s s' /\ heap s' = heap s).
Proof.
  intros Wf Hp Hr Hq. pose proof (wf_sock _ _ _ Wf p a Hp) as [Hk _]. rewrite Hr in Hk.
  destruct Hk as (_ & _ & _ & [t Ht]). destruct (wf_remote _ _ _ Wf p a t Hp Hr Ht) as (u & Hu & _).
  unfold remote_socket_shutdown. apply wp_bind. eapply wp_get_sock; [exact Hp|]. apply wp_bind. rewrite Ht.
  assert (forall i, wp (send_packet (mk_packet A_CLSE i (a_id a) []) (Some t)) s
    (fun _ s' => wf D W s' /\ frame K s s' /\ heap s' = heap s)) as Hsend.
  { intros i. apply send_packet_wf; [done|apply mk_packet_fillable|eauto]. }
  unfold peer_id. destruct (a_peer a) as [q|]; [|apply wp_ret, Hsend].
  destruct (Hq q eq_refl) as [b Hb]. apply wp_bind. eapply wp_get_sock; [exact Hb|]. apply wp_ret, Hsend.
Qed.

(** A closed connection: both ends are gone, the rest is as before. *)
Definition peer_set (a : asocket) : gset ptr := match a_peer a with Some q => {[q]} | None => ∅ end.
Definition closed_conn (W : gset ptr) (p : ptr) (a : asocket) (s s' : sv) : Prop :=
  wf ∅ (W ∖ {[p]}) s' /\ frame ({[p]} ∪ peer_set a) s s' /\
  (forall q, q ∈ local_list s' <-> q ∈ local_list s /\ q <> p /\ q ∉ peer_set a) /\
  fate a (heap s' !! p) /\
  (forall q b, a_peer a = Some q -> heap s !! q = Some b -> fate b (heap s' !! q)).

(** [local_socket_close_locked] on a connected or unconnected socket. *)
Lemma close_locked_spec W s p a f :
  wf ∅ W s -> heap s !! p = Some a -> is_local a ->
  wp (do_close (S (S (S f))) true p) s (fun _ s' => closed_conn W p a s s').
Proof.
  intros Wf Hp Hl. unfold closed_conn, peer_set. destruct (a_peer a) as [q|] eqn:Hq.
  2: { eapply wp_mono; [eapply (close_detached {[p]} W s p a (S f) true)|]; try done; [|set_solver|].
       - rewrite <- (union_empty_r_L {[p]}). apply wf_mark_gone; [done|]. intros x b y ->%elem_of_singleton Hb Hy. congruence.
       - intros _ s' (H1 & H2 & -> & Hf). rewrite union_empty_r_L. rewrite difference_diag_L in H1.
         split_and!; [done..| |done|done]. intros x. rewrite elem_of_remove_elt. set_solver. }
  destruct (wf_pair W s p a q Wf Hp Hq) as (b & Hb & Hbp & Hne & _ & Wf1).
  pose proof (wf_sock _ _ _ Wf q b Hb) as Hokb.
  close_step. apply wp_bind. eapply wp_get_sock; [exact Hp|]. rewrite Hq.
  apply wp_bind, wp_bind. eapply wp_get_sock; [exact Hb|].
  apply wp_bind. eapply (wp_mono _ _ (fun _ s1 => wf {[p; q]} W s1 /\ frame {[p; q]} s s1 /\ heap s1 = heap s)).
  { apply wp_when; intros Esh; [|split_and!; [done|apply frame_refl|done]].
    apply (shutdown_spec _ _ _ s q b); [done..| |].
    - by apply remote_of_shutdown.
    - intros x Hx. simplify_eq. eauto. }
  intros _ s1 (Wfs & F1 & Eh1). rewrite <- Eh1 in Hb, Hp.
  apply wp_bind. eapply wp_upd_sock; [exact Hb|].
  pose proof (wf_cut _ _ _ q b Wfs ltac:(set_solver) Hb) as Wf2. set (s2 := upd_heap q (sk_peer None b) s1) in *.
  apply wp_bind. eapply wp_mono; [eapply (close_detached {[p; q]} W s2 q (sk_peer None b) f)|];
    [done|set_solver|apply lookup_insert_eq|done| |].
  { destruct Hokb as (Hk & Hrest). simpl. unfold is_local. simpl.
    destruct (a_enqueue b) eqn:Eb; [|destruct Hk as (_ & -> & _); done..].
    destruct (linked_local b p) as [-> _]; [split; [by rewrite Eb|done]|done|done|].
    unfold is_local. simpl. done. }
  intros _ s3 (Wf3 & F3 & El3 & Hf3).
  assert (heap s3 !! p = Some a) as Hp3.
  { rewrite (fr_heap _ _ _ F3 p) by set_solver. unfold s2. simpl. by rewrite lookup_insert_ne. }
  eapply wp_upd_sock; [exact Hp3|].
  replace ({[p; q]} ∖ {[q]}) with ({[p]} : gset ptr) in Wf3 by set_solver.
  apply (wf_weaken _ _ W) in Wf3; [|set_solver].
  pose proof (wf_cut _ _ _ p a Wf3 ltac:(set_solver) Hp3) as Wf4.
  eapply wp_mono; [eapply (local_socket_finish_spec {[p]} W _ p (sk_peer None a)); try done;
    [set_solver|apply lookup_insert_eq]|].
  intros _ s5 (Wf5 & F5 & El5 & Hf5). rewrite difference_diag_L in Wf5. split; [done|].
  split_and!.
  2: { intros x. rewrite El5, elem_of_remove_elt. change (local_list (upd_heap p _ s3)) with (local_list s3).
    rewrite El3, elem_of_remove_elt. unfold s2. change (local_list (upd_heap q _ s1)) with (local_list s1).
    rewrite (wf_local _ _ _ Wfs x), (wf_local _ _ _ Wf x), Eh1. set_solver. }
  2: exact Hf5.
  2: { intros q' b' [= <-] Hb'. rewrite Eh1 in Hb. simplify_eq. rewrite (fr_heap _ _ _ F5 q) by set_solver.
    simpl. rewrite lookup_insert_ne by done. exact Hf3. }
  { eapply (frame_trans {[p; q]} {[p]}); [|exact F5|set_solver|set_solver].
    eapply (frame_trans {[p; q]} {[p; q]}); [|eapply frame_upd_heap; [set_solver|exact Hp3|done|done]|done|done].
    eapply (frame_trans {[p; q]} {[q]}); [|exact F3|done|set_solver].
    eapply (frame_trans {[p; q]} {[p; q]}); [exact F1|eapply frame_upd_heap; [set_solver|exact Hb|done|done]|done|done]. }
Qed.

(** Closing any socket, from a state where no lock is held. *)
Lemma sock_close_spec W s p a :
  wf ∅ W s -> heap s !! p = Some a -> slock s = false ->
  wp (sock_close p) s (fun _ s' => closed_conn W p a s s').
Proof.
  intros Wf Hp Hs. pose proof (wf_sock _ _ _ Wf p a Hp) as Hok.
  destruct (a_peer a) as [q|] eqn:Hq.
  2: { unfold closed_conn, peer_set. rewrite Hq.
       eapply wp_mono; [eapply (close_detached {[p]} W s p a 2 false)|]; try done; [|set_solver|].
       - rewrite <- (union_empty_r_L {[p]}). apply wf_mark_gone; [done|]. intros x b y ->%elem_of_singleton Hb Hy. congruence.
       - intros _ s' (H1 & H2 & -> & Hf). rewrite union_empty_r_L. rewrite difference_diag_L in H1.
         split_and!; [done..| |done|done]. intros x. rewrite elem_of_remove_elt. set_solver. }
  destruct (decide (a_enqueue a = local_enqueue)) as [Hl|Hl].
  - destruct (linked_local a q Hok Hl Hq) as [Hc _]. unfold sock_close, close_fuel.
    pose proof (close_locked_spec W (set_slock true s) p a 1) as H.
    change (do_close 4 true p) with (local_socket_close_locked (do_close 3) p) in H.
    rewrite do_close_S.
    apply wp_bind. eapply wp_get_sock; [exact Hp|]. rewrite Hc. apply wp_bind, wp_lock; [done|]. apply wp_bind. eapply wp_mono; [apply H; try done; by apply (wf_ext ∅ W s)|].
    intros _ s1 (Wf1 & F1 & L1 & Hf1). unfold unlock. apply wp_modify. split; [by apply (wf_ext _ _ s1)|].
    split; [destruct F1; constructor; done|]. split; [exact L1|exact Hf1].
  - destruct (wf_pair W s p a q Wf Hp Hq) as (b & Hb & Hbp & Hne & [Hla|Hlb] & Wf1); [done|].
    pose proof (wf_cut _ _ _ q b Wf1 ltac:(set_solver) Hb) as Wf2.
    assert (wp (upd_sock q (sk_peer None) ;; do_close 3 false q) s (fun _ s3 =>
      wf {[p]} W s3 /\ frame {[q]} s s3 /\ heap s3 !! p = Some a /\
      local_list s3 = remove_elt q (local_list s) /\ fate b (heap s3 !! q))) as Hpeer.
    { apply wp_bind. eapply wp_upd_sock; [exact Hb|].
      eapply wp_mono; [eapply (close_detached {[p; q]} W _ q (sk_peer None b) 1 false)|];
        [done|set_solver|apply lookup_insert_eq|done|done|].
      intros _ s3 (Wf3 & F3 & El3 & Hf3). replace ({[p; q]} ∖ {[q]}) with ({[p]} : gset ptr) in Wf3 by set_solver.
      apply (wf_weaken _ _ W) in Wf3; [|set_solver]. split_and!; [done| | |done|exact Hf3].
      - eapply (frame_trans {[q]} {[q]}); [apply (frame_upd_heap {[q]} q b (sk_peer None b)); [set_solver|done..]|exact F3|done|done].
      - rewrite (fr_heap _ _ _ F3 p) by set_solver. simpl. by rewrite lookup_insert_ne. }
    assert (forall s3 s4, frame {[q]} s s3 -> local_list s3 = remove_elt q (local_list s) -> fate b (heap s3 !! q) ->
      gone {[p]} W p a s3 s4 -> closed_conn W p a s s4) as Hend.
    { intros s3 s4 F3 El3 Hf3 (Wf4 & F4 & El4 & Hf4). rewrite difference_diag_L in Wf4. unfold closed_conn, peer_set. rewrite Hq.
      split; [done|]. split; [eapply frame_trans; [exact F3|exact F4|set_solver..]|].
      split; [intros x; rewrite El4, El3, !elem_of_remove_elt; set_solver|]. split; [done|].
      intros q' b' [= <-] Hb'. simplify_eq. by rewrite (fr_heap _ _ _ F4 q) by set_solver. }
    destruct Hok as (Hk & _). unfold sock_close, close_fuel. rewrite do_close_S. apply wp_bind. eapply wp_get_sock; [exact Hp|].
    unfold remote_socket_close, smart_socket_close, device_tracker_close, close_peer.
    destruct (a_enqueue a) eqn:Een; [done|..]; destruct Hk as (_ & Hc & _); rewrite Hc; (apply wp_bind; eapply wp_get_sock; [exact Hp|]; rewrite Hq);
      (apply wp_bind; eapply wp_mono; [exact Hpeer|]; intros _ s3 (Wf3 & F3 & Hp3 & El3 & Hf3)).
    + eapply wp_mono; [apply (free_remote_detached {[p]} W s3 p a); [done|set_solver|done|done]|].
      intros u s4 [G _]. by apply (Hend s3).
    + eapply wp_mono; [apply (free_smart_detached {[p]} W s3 p a); [done|set_solver|done|done]|].
      intros u s4 G. by apply (Hend s3).
    + eapply wp_mono; [apply (free_tracker_detached {[p]} W s3 p a); [done|set_solver|done|done]|].
      intros u s4 G. by apply (Hend s3).
Qed.
