(* ===== verification/SocketOps.v ===== *)
(** * What the socket operations do

    Specifications over the invariant of SocketInv: writing keeps the byte
    stream of a socket intact, closing every socket of a transport leaves none,
    and no operation touches a freed object. *)

From S2P Require Import Prelude CString Io Wire DList Fdevent Server Transports Sockets SocketInv.

(** ** The bytes of a socket *)

(** What was written to a descriptor. *)
Definition out (fd : Z) (s : sv) : bytes := match io s !! fd with Some f => io_sent f | None => [] end.

(** The bytes of a packet, and of a queue, that are still to be written. *)
Definition unsent (k : apacket) : bytes := take (Z.to_nat (p_len k)) (drop (p_ptr k) (data k)).
Definition backlog (a : asocket) : bytes := concat (map unsent (a_pkts a)).

Lemma unsent_nil k : pkt_ok k -> (unsent k = [] <-> p_len k = 0).
Proof.
  intros [H1 H2]. unfold unsent. split; [|intros ->; done]. intros E. apply (f_equal length) in E.
  rewrite length_take in E. simpl in E. lia.
Qed.

(** One write: a prefix of the data is appended to the output. *)
Lemma wp_fd_write_out fd d s (Q : wrret -> sv -> Prop) :
  (forall r i, let s' := set_io i s in
     (forall x, x <> fd -> io s' !! x = io s !! x) ->
     out fd s' = out fd s ++ match r with Wrote n => take n d | _ => [] end ->
     match r with Wrote n => (n <= length d)%nat /\ (d <> [] -> (0 < n)%nat) | _ => True end -> Q r s') ->
  wp (fd_write fd d) s Q.
Proof.
  intros H. unfold fd_write, get_fd. apply wp_bind, wp_gets. destruct (io s !! fd) as [f|] eqn:Ef.
  - pose proof (adb_write_cases (length d) (io_wr f)) as Hb.
    destruct (adb_write (length d) (io_wr f)) as [r w]. apply wp_bind, wp_modify, wp_ret. apply H.
    + intros x Hx. simpl. by rewrite lookup_insert_ne.
    + unfold out. simpl. by rewrite lookup_insert_eq, Ef.
    + destruct r; [|done..]. split; [lia|]. intros Hd. apply Hb. destruct d; [done|simpl; lia].
  - apply wp_ret. specialize (H WErrR (io s)). cbv zeta in H. rewrite set_io_id in H. apply H; [done| |done].
    by rewrite app_nil_r.
Qed.

Lemma unsent_advance k n : pkt_ok k -> (n <= Z.to_nat (p_len k))%nat ->
  pkt_ok (advance n k) /\ take n (unsent k) ++ unsent (advance n k) = unsent k.
Proof.
  intros [H1 H2] Hn. unfold advance, unsent, pkt_ok. simpl. rewrite length_drop in *. split; [lia|].
  rewrite take_take, Nat.min_l by lia. rewrite <- drop_drop.
  replace (Z.to_nat (p_len k - Z.of_nat n)) with (Z.to_nat (p_len k) - n)%nat by lia.
  set (l := drop (p_ptr k) (data k)). rewrite <- (take_drop n (take (Z.to_nat (p_len k)) l)) at 1.
  rewrite take_take, Nat.min_l by lia. f_equal. by rewrite skipn_firstn_comm.
Qed.

(** Writing a packet: what is out and what is left make up what there was. *)
Lemma flush_spec fd : forall n k s, pkt_ok k -> (Z.to_nat (p_len k) <= n)%nat ->
  wp (flush_pkt n fd k) s (fun r s' => exists i, s' = set_io i s /\ pkt_ok (snd r) /\
    (forall x, x <> fd -> io s' !! x = io s !! x) /\
    out fd s' ++ unsent (snd r) = out fd s ++ unsent k /\
    (match fst r with WDone => p_len (snd r) = 0 | _ => 0 < p_len (snd r) end)).
Proof.
  induction n as [|n IH]; intros k s Hk Hn; simpl.
  all: destruct (Z.leb_spec (p_len k) 0) as [Hle|Hgt].
  1, 3: apply wp_ret; exists (io s); rewrite set_io_id; destruct Hk; split_and!; try done; simpl; lia.
  { destruct Hk. lia. }
  assert (pkt_bytes k = Ok (unsent k)) as Eb.
  { destruct Hk as [_ H]. unfold pkt_bytes. by rewrite (proj2 (Z.leb_le _ _) H). }
  assert (unsent k <> []) as Hne by (intros E; apply unsent_nil in E; [lia|done]).
  assert (length (unsent k) = Z.to_nat (p_len k)) as Elen.
  { unfold unsent. rewrite length_take. destruct Hk. lia. }
  apply wp_bind. eapply wp_lift; [exact Eb|]. apply wp_bind, wp_fd_write_out. intros r i s1 Hoth Hout Hr.
  destruct r as [m| | |].
  - destruct Hr as [Hm1 Hm2]. specialize (Hm2 Hne). rewrite Elen in Hm1.
    destruct (unsent_advance k m Hk Hm1) as [Hok Heq].
    eapply wp_mono; [apply IH; [exact Hok|simpl; lia]|].
    intros [st k'] s2 (j & -> & Hok' & Hoth' & Hout' & Hst). exists j.
    split_and!; [done|done| |..|done].
    + intros x Hx. rewrite Hoth' by done. by apply Hoth.
    + etransitivity; [exact Hout'|]. by rewrite Hout, <- app_assoc, Heq.
  - apply wp_ret. exists i. rewrite app_nil_r in Hout. split_and!; try done. simpl. by rewrite Hout.
  - apply wp_ret. exists i. rewrite app_nil_r in Hout. split_and!; try done. simpl. by rewrite Hout.
  - apply wp_ret. exists i. rewrite app_nil_r in Hout. split_and!; try done. simpl. by rewrite Hout.
Qed.

(** ** Enqueueing on a local socket *)

(** What enqueueing does to a socket that stays open: the stream of its
    descriptor, written and queued, grows by exactly the packet's bytes. *)
Definition accepted (p : ptr) (a : asocket) (k : apacket) (r : Z) (s s' : sv) : Prop :=
  trs s' = trs s /\ exists a', heap s' !! p = Some a' /\ a_peer a' = a_peer a /\ a_fd a' = a_fd a /\ a_id a' = a_id a /\
    out (a_fd a) s' ++ backlog a' = out (a_fd a) s ++ backlog a ++ unsent k /\
    (r = 0 /\ a_pkts a' = [] \/ r = 1 /\ a_pkts a' <> []).

Lemma wf_queue W s i p a k :
  wf ∅ W s -> heap s !! p = Some a -> is_local a -> is_Some (a_peer a) -> pkt_ok k ->
  wf ∅ W (upd_heap p (sk_fde (fde_add FDE_WRITE (a_fde a)) (sk_pkts (a_pkts a ++ [k]) a)) (set_io i s)).
Proof.
  intros Wf Hp Hl [q Hq] Hk. pose proof (wf_sock _ _ _ Wf p a Hp) as Hok.
  destruct (linked_local a q Hok Hl Hq) as [Hc _].
  assert (wf ∅ W (set_io i s)) as Wf' by (by apply (wf_ext ∅ W s)).
  eapply wf_upd_heap; [exact Wf'|exact Hp|..]; try done.
  - eapply sock_ok_same; [exact Hok|done..|apply Hok|]. congruence.
  - simpl. intros Hcl. by apply (wf_detached _ _ _ Wf p a).
  - intros _. simpl. apply Forall_app. split; [by apply (wf_pkts _ _ _ Wf p a)|by constructor].
  - intros _ _ _ E. simpl in E. by destruct (a_pkts a).
Qed.

Lemma local_socket_enqueue_spec W s p a k :
  wf ∅ W s -> heap s !! p = Some a -> is_local a -> is_Some (a_peer a) -> slock s = false ->
  pkt_ok (mkpkt (msg k) (p_len k) 0 (data k)) ->
  wp (local_socket_enqueue p k) s (fun r s' =>
    wf ∅ W s' /\ frame ({[p]} ∪ peer_set a) s s' /\
    ((p ∉ local_list s' /\ r = 1) \/
     (frame {[p]} s s' /\ accepted p a (mkpkt (msg k) (p_len k) 0 (data k)) r s s'))).
Proof.
  intros Wf Hp Hl Hpeer Hs Hk. unfold local_socket_enqueue. set (k0 := mkpkt (msg k) (p_len k) 0 (data k)) in *.
  assert (forall i k1, pkt_ok k1 -> unsent k1 <> [] \/ a_pkts a <> [] ->
    out (a_fd a) (set_io i s) ++ backlog a ++ unsent k1 = out (a_fd a) s ++ backlog a ++ unsent k0 ->
    wp (upd_sock p (fun a => sk_pkts (a_pkts a ++ [k1]) a) ;; sock_fde_add FDE_WRITE p ;; ret 1) (set_io i s)
      (fun r s' => wf ∅ W s' /\ frame ({[p]} ∪ peer_set a) s s' /\
         ((p ∉ local_list s' /\ r = 1) \/ (frame {[p]} s s' /\ accepted p a k0 r s s')))) as Hqueue.
  { intros i k1 Hk1 _ Hout. apply wp_bind. eapply wp_upd_sock; [exact Hp|]. apply wp_bind. unfold sock_fde_add.
    eapply wp_upd_sock; [apply lookup_insert_eq|]. apply wp_ret.
    set (a2 := sk_fde _ _).
    assert (upd_heap p a2 (upd_heap p (sk_pkts (a_pkts a ++ [k1]) a) (set_io i s)) = upd_heap p a2 (set_io i s)) as ->.
    { unfold upd_heap. simpl. by rewrite insert_insert_eq. }
    assert (frame {[p]} s (upd_heap p a2 (set_io i s))) as F.
    { eapply (frame_trans {[p]} {[p]}); [apply (frame_io _ s i)|eapply frame_upd_heap; [set_solver|exact Hp|done|done]|done|done]. }
    split; [by apply (wf_queue W s i p a k1)|]. split; [eapply (frame_trans _ ∅); [exact F|apply frame_refl|set_solver..]|].
    right. split; [done|]. split; [done|]. exists a2. split_and!; [apply lookup_insert_eq|done..| |].
    - unfold backlog. simpl. rewrite map_app, concat_app. simpl. rewrite app_nil_r.
      change (out (a_fd a) (upd_heap p a2 (set_io i s))) with (out (a_fd a) (set_io i s)).
      fold (backlog a). exact Hout.
    - right. split; [done|]. simpl. by destruct (a_pkts a). }
  apply wp_bind. eapply wp_get_sock; [exact Hp|]. unfold no_pkts. destruct (a_pkts a) as [|k1 r1] eqn:Epk; simpl.
  - apply wp_bind. unfold flush. eapply wp_mono; [apply flush_spec; [exact Hk|done]|].
    assert (backlog a = []) as Ebl by (unfold backlog; by rewrite Epk).
    intros [st k1] s1 (i & -> & Hk1 & Hoth & Hout & Hst). simpl in Hout, Hst. destruct st.
    + apply wp_ret. split; [by apply (wf_ext ∅ W s)|]. split; [apply frame_io|]. right. split; [apply frame_io|].
      split; [done|]. exists a. split_and!; [done..| |by left]. rewrite Ebl. simpl. rewrite app_nil_r, <- Hout.
      apply unsent_nil in Hst; [|done]. by rewrite Hst, app_nil_r.
    + apply Hqueue; [done| |by rewrite Ebl]. left. intros E. apply unsent_nil in E; [|done]. lia.
    + apply wp_bind. eapply wp_mono; [eapply (sock_close_spec W (set_io i s) p a); [by apply (wf_ext ∅ W s)|done|done]|].
      intros _ s2 (Wf2 & F2 & L2 & _). apply wp_ret. split; [eapply wf_weaken; [|exact Wf2]; set_solver|].
      split; [eapply frame_trans; [apply (frame_io _ s i)|exact F2|done|done]|].
      left. rewrite L2. split; [intros (_ & ? & _)|]; done.
  - rewrite <- (set_io_id s) at 1. apply Hqueue; [done|right; done|]. by rewrite set_io_id.
Qed.

(** ** Closing every socket of a transport *)

(** A socket that uses transport [t], itself or through its peer. *)
Definition bound_to (t : ptr) (s : sv) (p : ptr) : Prop :=
  exists a, heap s !! p = Some a /\
    (a_transport a = Some t \/ exists q b, a_peer a = Some q /\ heap s !! q = Some b /\ a_transport b = Some t).

Lemma first_of_transport_spec W s t : wf ∅ W s ->
  forall l, (forall p, p ∈ l -> p ∈ local_list s) ->
  wp (first_of_transport l t) s (fun r s' => s' = s /\
    match r with Some p => p ∈ l /\ bound_to t s p | None => forall p, p ∈ l -> ~ bound_to t s p end).
Proof.
  intros Wf. induction l as [|p l IH]; intros Hl; cbn [first_of_transport].
  { apply wp_ret. split; [done|]. intros p Hp. by apply elem_of_nil in Hp. }
  destruct (proj1 (wf_local _ _ _ Wf p)) as (a & Hp & _ & _); [apply Hl; set_solver|].
  apply wp_bind. eapply wp_get_sock; [exact Hp|]. apply wp_bind.
  eapply (wp_mono _ _ (fun (hit : bool) s1 => s1 = s /\ (hit = true <-> bound_to t s p))).
  { case_bool_decide as Ht.
    - apply wp_ret. split; [done|]. split; [|done]. intros _. exists a. auto.
    - destruct (a_peer a) as [q|] eqn:Hq.
      + destruct (wf_peer _ _ _ Wf p a q Hp ltac:(set_solver) Hq) as (_ & _ & b & Hb & _).
        apply wp_bind. eapply wp_get_sock; [exact Hb|]. apply wp_ret. split; [done|].
        rewrite bool_decide_eq_true. split.
        * intros E. exists a. eauto 10.
        * intros (a' & Ha' & [?|(q' & b' & ? & ? & ?)]); simplify_eq; done.
      + apply wp_ret. split; [done|]. split; [done|]. intros (a' & Ha' & [?|(q' & b' & ? & ? & ?)]); simplify_eq. }
  intros hit s1 [-> Hhit]. destruct hit.
  - apply wp_ret. split; [done|]. split; [set_solver|]. by apply Hhit.
  - eapply wp_mono; [apply IH; set_solver|]. intros r s1 [-> Hr]. split; [done|]. destruct r as [x|].
    + destruct Hr. split; [set_solver|done].
    + intros x [->|Hx]%elem_of_cons; [|by apply Hr]. rewrite <- Hhit. done.
Qed.

Lemma NoDup_shorter (l l' : list ptr) p :
  NoDup l -> NoDup l' -> p ∈ l -> p ∉ l' -> (forall q, q ∈ l' -> q ∈ l) -> (length l' < length l)%nat.
Proof.
  intros Hl Hl' Hp Hn Hsub. assert (NoDup (p :: l')) as Hnd by (by constructor).
  apply (submseteq_length (p :: l') l), NoDup_submseteq; [done|].
  intros x [->|?]%elem_of_cons; auto.
Qed.

Lemma close_all_loop_spec W t : forall n s, wf ∅ W s -> (length (local_list s) < n)%nat ->
  wp (close_all_loop n t) s (fun _ s' => wf ∅ W s' /\ slock s' = slock s /\
    (forall p, p ∈ local_list s' -> ~ bound_to t s' p) /\
    (forall p, p ∈ local_list s' -> p ∈ local_list s)).
Proof.
  induction n as [|n IH]; intros s Wf Hn; [lia|]. cbn [close_all_loop].
  apply wp_bind, wp_gets, wp_bind.
  eapply wp_mono; [by apply (first_of_transport_spec W s t)|].
  intros [p|] s1 [-> Hr].
  - destruct Hr as [Hp Hb]. destruct (proj1 (wf_local _ _ _ Wf p) Hp) as (a & Ha & Hl & _).
    apply wp_bind. eapply wp_mono; [by apply (close_locked_spec W s p a 1)|].
    intros _ s2 (Wf2' & F2 & L2 & _).
    assert (wf ∅ W s2) as Wf2 by (eapply wf_weaken; [|exact Wf2']; set_solver). eapply wp_mono.
    + apply IH; [done|]. pose proof (wf_lists _ _ _ Wf) as (N1 & _). pose proof (wf_lists _ _ _ Wf2) as (N2 & _).
      enough (length (local_list s2) < length (local_list s))%nat by lia.
      apply (NoDup_shorter _ _ p); [done..|rewrite L2; naive_solver|intros q; rewrite L2; naive_solver].
    + intros _ s3 (Wf3 & E3 & H3 & Hsub). split_and!; [done| |done|].
      * by rewrite E3, (fr_lock _ _ _ F2).
      * intros q Hq. apply Hsub, L2 in Hq. naive_solver.
  - apply wp_ret. split_and!; done.
Qed.

Lemma close_all_spec W s t : wf ∅ W s -> slock s = false ->
  wp (close_all_sockets t) s (fun _ s' => wf ∅ W s' /\ slock s' = false /\
    (forall p, p ∈ local_list s' -> ~ bound_to t s' p) /\
    (forall p, p ∈ local_list s' -> p ∈ local_list s)).
Proof.
  intros Wf Hs. unfold close_all_sockets. apply wp_bind, wp_lock; [done|]. apply wp_bind, wp_gets, wp_bind.
  eapply wp_mono; [apply (close_all_loop_spec W t); [by apply (wf_ext ∅ W s)|simpl; lia]|].
  intros _ s1 (Wf1 & _ & H1 & H2). unfold unlock. apply wp_modify.
  split_and!; [by apply (wf_ext ∅ W s1)|done|done|done].
Qed.

(** ** Ready *)

(** A change of interest in reading. *)
Lemma fde_add_read_write f : has (f_state (fde_add FDE_READ f)) FDE_WRITE = has (f_state f) FDE_WRITE.
Proof.
  rewrite !has_WRITE. unfold fde_add. rewrite fde_set_testbit by lia. unfold interest.
  rewrite Z.lor_spec, !Z.land_spec. eval_bits. by rewrite andb_true_r, orb_false_r.
Qed.
Lemma fde_del_write f : has (f_state (fde_del FDE_WRITE f)) FDE_WRITE = false.
Proof.
  rewrite !has_WRITE. unfold fde_del. rewrite fde_set_testbit by lia.
  rewrite Z.land_spec, Z.lnot_spec by lia. rewrite (Z.land_spec FDE_WRITE). eval_bits. apply andb_false_r.
Qed.

Lemma wf_fde W D s p a f :
  wf D W s -> heap s !! p = Some a -> has (f_state f) FDE_WRITE = wants FDE_WRITE a ->
  wf D W (upd_heap p (sk_fde f a) s).
Proof.
  intros Wf Hp Hf. pose proof (wf_sock _ _ _ Wf p a Hp) as Hok.
  eapply wf_upd_heap; [exact Wf|exact Hp|..]; try done.
  - intros Hc. by apply (wf_detached _ _ _ Wf p a).
  - intros HD. split; [done|]. intros Hl Hpk. by apply (wf_pkts _ _ _ Wf p a).
  - intros Hl. by apply (wf_pkts _ _ _ Wf p a).
  - intros Hl HW. unfold wants at 1. simpl. rewrite Hf. by apply (wf_wants _ _ _ Wf p a).
Qed.

Lemma local_socket_ready_spec W s p a : wf ∅ W s -> heap s !! p = Some a ->
  wp (local_socket_ready p) s (fun _ s' =>
    s' = upd_heap p (sk_fde (fde_add FDE_READ (a_fde a)) a) s /\ wf ∅ W s' /\ frame {[p]} s s').
Proof.
  intros Wf Hp. unfold local_socket_ready, sock_fde_add. eapply wp_upd_sock; [exact Hp|].
  split_and!; [done| |eapply frame_upd_heap; [set_solver|exact Hp|done|done]].
  apply wf_fde; [done|done|]. apply fde_add_read_write.
Qed.

(** The invariant holds and only the socket itself changes: the tracker sent
    its first list when it was connected. *)
Lemma sock_ready_spec W s p a :
  wf ∅ W s -> heap s !! p = Some a -> p ∉ W ->
  wp (sock_ready p) s (fun _ s' => wf ∅ W s' /\ frame {[p]} s s' /\
    (a_ready a <> local_ready_notify -> io s' = io s)).
Proof.
  intros Wf Hp HpW. pose proof (wf_sock _ _ _ Wf p a Hp) as (Hk & Hx & Hi). unfold sock_ready.
  apply wp_bind. eapply wp_get_sock; [exact Hp|]. destruct (a_enqueue a) eqn:Een.
  - destruct Hk as [Hsh [[-> Hc]|(-> & Hc & Hpe & Hpk & Hcl)]].
    + eapply wp_mono; [by apply (local_socket_ready_spec W s p a)|]. by intros _ s' (-> & ? & ?).
    + apply wp_bind. eapply wp_get_sock; [exact Hp|]. apply wp_bind. eapply wp_upd_sock; [exact Hp|]. apply wp_bind, wp_fd_write. intros r i _.
      set (a1 := sk_plain local_ready local_close a). set (s1 := set_io i (upd_heap p a1 s)).
      assert (wf ∅ W s1) as Wf1.
      { apply (wf_ext ∅ W (upd_heap p a1 s)); try done. eapply wf_upd_heap; [exact Wf|exact Hp|..]; try done.
        - unfold sock_ok. simpl. rewrite Een. auto.
        - intros _. simpl. rewrite Hpk. constructor.
        - intros _. by apply (wf_wants _ _ _ Wf p a). }
      eapply wp_mono; [apply (local_socket_ready_spec W s1 p a1); [done|apply lookup_insert_eq]|].
      intros _ s' (_ & Wf' & F'). split; [done|]. split; [|done].
      eapply (frame_trans {[p]} {[p]}); [|exact F'|done|done].
      eapply (frame_trans {[p]} {[p]}); [apply (frame_upd_heap _ p a a1); [set_solver|done..]|apply frame_io|done|done].
  - destruct Hk as (-> & _ & _ & [t Ht]). destruct (wf_half _ _ _ Wf p a Hp ltac:(set_solver)) as [q Hq].
    { unfold is_local. congruence. }
    destruct (wf_peer _ _ _ Wf p a q Hp ltac:(set_solver) Hq) as (_ & _ & b & Hb & _).
    destruct (wf_remote _ _ _ Wf p a t Hp Een Ht) as (u & Hu & _).
    apply wp_bind. eapply wp_get_sock; [exact Hp|]. unfold peer_id. rewrite Hq, Ht. apply wp_bind, wp_bind. eapply wp_get_sock; [exact Hb|]. apply wp_ret.
    eapply wp_send_packet; [apply mk_packet_fillable|exact Hu|]. intros p1 r _ _.
    split_and!; [by eapply wf_upd_tr|by eapply frame_upd_tr|done].
  - destruct Hk as (-> & _). by apply wp_ret; split_and!; [|apply frame_refl|].
  - destruct Hk as (-> & _). apply wp_bind. eapply wp_get_sock; [exact Hp|]. rewrite (wf_update _ _ _ Wf p a Hp); [|set_solver|done|done].
    by apply wp_ret; split_and!; [|apply frame_refl|].
Qed.

(** ** Device trackers *)

Lemma wp_live_transports D W s (Q : list atransport -> sv -> Prop) :
  wf D W s -> (forall l, Q l s) -> wp live_transports s Q.
Proof.
  intros Wf H. unfold wp, live_transports.
  destruct (mapM (fun t => trs s !! t) (transport_list s)) as [l|] eqn:E; [apply H|].
  apply mapM_None_1, Exists_exists in E as (t & Ht & Hn).
  destruct (wf_listed _ _ _ Wf t Ht) as [u Hu]. congruence.
Qed.

Lemma list_transports_msg_ok l : exists b, list_transports_msg l 1024 = Ok b.
Proof.
  unfold list_transports_msg. destruct (list_lines_short l 1020 []) as (k & E & _); [simpl; lia|].
  unfold list_transports. change (1024 - 4)%nat with 1020%nat. rewrite E. simpl. eauto.
Qed.

Lemma whole_pkt_ok m d : pkt_ok (mkpkt m (Z.of_nat (length d)) 0 d).
Proof. unfold pkt_ok. simpl. rewrite drop_0. lia. Qed.

Lemma tracker_peer W s p a : wf ∅ W s -> heap s !! p = Some a -> a_enqueue a = tracker_enqueue ->
  exists q b, a_peer a = Some q /\ heap s !! q = Some b /\ is_local b /\ a_peer b = Some p /\ q <> p.
Proof.
  intros Wf Hp Ht. destruct (wf_half _ _ _ Wf p a Hp ltac:(set_solver)) as [q Hq].
  { unfold is_local. congruence. }
  destruct (wf_peer _ _ _ Wf p a q Hp ltac:(set_solver) Hq) as (_ & Hne & b & Hb & Hbp & [Hl|Hl]).
  - unfold is_local in Hl. congruence.
  - eauto 10.
Qed.

Lemma device_tracker_send_spec W s p a buffer :
  wf ∅ W s -> heap s !! p = Some a -> a_enqueue a = tracker_enqueue -> slock s = false ->
  wp (device_tracker_send p buffer) s (fun _ s' => wf ∅ W s' /\ frame ({[p]} ∪ peer_set a) s s').
Proof.
  intros Wf Hp Ht Hs. destruct (tracker_peer W s p a Wf Hp Ht) as (q & b & Hq & Hb & Hl & Hbp & _).
  unfold device_tracker_send. apply wp_bind. eapply wp_get_sock; [exact Hp|]. rewrite Hq.
  apply wp_bind. eapply wp_get_sock; [exact Hb|]. rewrite Hl.
  eapply wp_mono; [apply (local_socket_enqueue_spec W s q b); try done; first [by eexists|apply whole_pkt_ok]|].
  intros r s' (Wf' & F & _). split; [done|]. unfold peer_set in *. rewrite Hq. rewrite Hbp in F.
  eapply (frame_trans _ ∅); [exact F|apply frame_refl|set_solver..].
Qed.

Lemma send_to_trackers_spec W buffer : forall l s,
  wf ∅ W s -> slock s = false -> NoDup l ->
  (forall p, p ∈ l -> exists a, heap s !! p = Some a /\ a_enqueue a = tracker_enqueue) ->
  wp (send_to_trackers l buffer) s (fun _ s' => wf ∅ W s' /\ exists K, frame K s s').
Proof.
  induction l as [|p l IH]; intros s Wf Hs Hnd Hl; cbn [send_to_trackers].
  { apply wp_ret. split; [done|]. exists ∅. apply frame_refl. }
  apply NoDup_cons in Hnd as [Hni Hnd]. destruct (Hl p) as (a & Hp & Ht); [set_solver|].
  destruct (tracker_peer W s p a Wf Hp Ht) as (q & b & Hq & Hb & Hloc & _).
  apply wp_bind. eapply wp_mono; [by apply (device_tracker_send_spec W s p a)|].
  intros _ s1 [Wf1 F1]. eapply wp_mono.
  - apply IH; [done|by rewrite (fr_lock _ _ _ F1)|done|]. intros x Hx.
    destruct (Hl x) as (c & Hc & Htc); [set_solver|]. exists c. split; [|done].
    rewrite (fr_heap _ _ _ F1 x); [done|]. unfold peer_set. rewrite Hq.
    intros [->%elem_of_singleton| ->%elem_of_singleton]%elem_of_union; [done|].
    unfold is_local in Hloc. congruence.
  - intros _ s2 [Wf2 [K F2]]. split; [done|]. exists (({[p]} ∪ peer_set a) ∪ K).
    eapply frame_trans; [exact F1|exact F2|set_solver..].
Qed.

Lemma update_transports_spec W s : wf ∅ W s -> slock s = false ->
  wp update_transports s (fun _ s' => wf ∅ W s' /\ exists K, frame K s s').
Proof.
  intros Wf Hs. unfold update_transports. apply wp_bind. apply (wp_live_transports ∅ W); [done|]. intros ts.
  destruct (list_transports_msg_ok ts) as [buf E]. apply wp_bind. eapply wp_lift; [exact E|].
  apply wp_bind, wp_gets. apply send_to_trackers_spec; [done|done|apply (wf_lists _ _ _ Wf)|].
  intros p Hp. by apply (wf_trackers _ _ _ Wf).
Qed.

(** ** Disconnecting a transport *)

Lemma wf_delete_listener D W s l a s' :
  wf D W s -> listeners s !! l = Some a ->
  heap s' = heap s -> local_list s' = local_list s -> closing_list s' = closing_list s ->
  trackers s' = trackers s -> next_ptr s' = next_ptr s -> next_id s' = next_id s ->
  transport_list s' = transport_list s -> listeners s' = delete l (listeners s) ->
  listener_list s' = remove_elt l (listener_list s) ->
  (forall t, t_disconnects <$> trs s' !! t =
     (fun u => remove_elt (DisListener l) (t_disconnects u)) <$> trs s !! t) ->
  wf D W s'.
Proof.
  intros Wf Hl Eh El Ec Et Ep Ei Etl Els Ell Etr.
  pose proof (pointwise_old _ _ _ _ Etr) as H1. pose proof (pointwise_new _ _ _ _ Etr) as H2. pose proof (pointwise_live _ _ _ _ Etr) as H3.
  constructor; rewrite ?Eh, ?El, ?Ec, ?Et, ?Ep, ?Ei, ?Etl; try apply Wf.
  - intros p b t Hp Hr Ht. destruct (wf_remote _ _ _ Wf p b t Hp Hr Ht) as (u & Hu & Hin).
    destruct (H2 _ _ Hu) as (u' & Hu' & E). exists u'. split; [done|]. rewrite E, elem_of_remove_elt. done.
  - intros t u' Hu'. destruct (H1 _ _ Hu') as (u & Hu & E). rewrite E, Els.
    destruct (wf_dis _ _ _ Wf t u Hu) as (Hnd & Hr & Hli). split_and!.
    + by apply NoDup_remove_elt.
    + intros p. rewrite elem_of_remove_elt. intros [Hp _]. by apply Hr.
    + intros x. rewrite elem_of_remove_elt, Hli. split.
      * intros [(b & Hb & Hbt) Hne]. exists b. rewrite lookup_delete_ne; [done|]. congruence.
      * intros (b & Hb & Hbt). apply lookup_delete_Some in Hb as [Hne Hb]. split; [eauto|]. congruence.
  - intros t Ht. by apply H3, (wf_listed _ _ _ Wf).
  - rewrite Ell, Els. destruct (wf_lislist _ _ _ Wf) as [Hnd Hli]. split; [by apply NoDup_remove_elt|].
    intros x. rewrite elem_of_remove_elt, Hli. destruct (decide (x = l)) as [->|Hne].
    + rewrite lookup_delete_eq. split; [tauto|]. by intros [? ?].
    + rewrite lookup_delete_ne by congruence. tauto.
  - intros x b t Hx Ht. rewrite Els in Hx. apply lookup_delete_Some in Hx as [_ Hx].
    by eapply H3, (wf_lisowner _ _ _ Wf).
  - intros x b Hx. rewrite Els in Hx. apply lookup_delete_Some in Hx as [_ Hx]. by apply (wf_lisok _ _ _ Wf).
  - intros t [u' Hu']. destruct (H1 _ _ Hu') as (u & Hu & _). apply (wf_trfresh _ _ _ Wf). eauto.
Qed.

(** The object of a disconnect entry is live, or gone. *)
Definition dis_live (d : adisconnect) (t : ptr) (s : sv) : Prop :=
  match d with
  | DisRemote p => exists a, heap s !! p = Some a /\ a_enqueue a = remote_enqueue /\ a_transport a = Some t
  | DisListener l => exists a, listeners s !! l = Some a /\ l_transport a = Some t
  end.

(** What one disconnect function leaves: the invariant, the lock, the
    transports, no new object, and the other objects of the transport. *)
Record dropped (W : gset ptr) (t : ptr) (d : adisconnect) (s s' : sv) : Prop := {
  dr_wf : wf ∅ W s';
  dr_lock : slock s' = slock s;
  dr_list : transport_list s' = transport_list s;
  dr_core : forall x, tr_core <$> trs s' !! x = tr_core <$> trs s !! x;
  dr_kinds : forall e, dis_live e t s' -> dis_live e t s;
  dr_dead : ~ dis_live d t s';
  dr_others : forall e, e <> d -> dis_live e t s -> dis_live e t s' }.

Lemma run_disconnect_remote W s p a t :
  wf ∅ W s -> slock s = false -> heap s !! p = Some a -> a_enqueue a = remote_enqueue -> a_transport a = Some t ->
  wp (run_disconnect (DisRemote p)) s (fun _ s' => dropped W t (DisRemote p) s s').
Proof.
  intros Wf Hs Hp Hr Ht. destruct (wf_half _ _ _ Wf p a Hp ltac:(set_solver)) as [q Hq].
  { unfold is_local. congruence. }
  destruct (wf_pair W s p a q Wf Hp Hq) as (b & Hb & Hbp & Hne & [Hl|Hl] & Wf1); [unfold is_local in Hl; congruence|].
  unfold run_disconnect. apply wp_bind. eapply wp_get_sock; [exact Hp|]. rewrite Hq.
  apply wp_bind, wp_bind. eapply wp_upd_sock; [exact Hb|].
  pose proof (wf_cut _ _ _ q b Wf1 ltac:(set_solver) Hb) as Wf2.
  eapply wp_mono; [eapply (close_detached {[p; q]} W _ q (sk_peer None b) 2 false)|];
    [done|set_solver|apply lookup_insert_eq|done|done|].
  intros _ s3 (Wf3 & F3 & _). replace ({[p; q]} ∖ {[q]}) with ({[p]} : gset ptr) in Wf3 by set_solver.
  apply (wf_weaken _ _ W) in Wf3; [|set_solver].
  assert (frame {[q]} s s3) as F3'.
  { eapply (frame_trans {[q]} {[q]}); [apply (frame_upd_heap {[q]} q b (sk_peer None b)); [set_solver|done..]|exact F3|done|done]. }
  assert (heap s3 !! p = Some a) as Hp3 by (rewrite (fr_heap _ _ _ F3' p) by set_solver; done).
  eapply wp_mono; [apply (free_remote_detached {[p]} W s3 p a); [done|set_solver|done|done]|].
  intros _ s4 [(Wf4 & F4 & _) Eh4]. rewrite difference_diag_L in Wf4.
  apply (wf_weaken _ _ W) in Wf4; [|set_solver].
  assert (frame {[p; q]} s s4) as F by (eapply frame_trans; [exact F3'|exact F4|set_solver..]).
  constructor; [done|apply F|apply F|apply F|..].
  - intros [x|l]; simpl.
    + intros (c & Hc & Hcr & Hct). destruct (fr_kind _ _ _ F x c Hc) as (c0 & Hc0 & E1 & E2).
      exists c0. split_and!; congruence.
    + by rewrite (fr_lis _ _ _ F).
  - simpl. rewrite Eh4, lookup_delete_eq. by intros (c & ? & _).
  - intros [x|l] Hne'; simpl.
    + intros (c & Hc & Hcr & Hct). exists c. split; [|done]. rewrite (fr_heap _ _ _ F x); [done|].
      unfold is_local in Hl. assert (x <> p) by congruence. assert (x <> q) by congruence. set_solver.
    + by rewrite (fr_lis _ _ _ F).
Qed.

(** The state after [free_listener]. *)
Definition without_listener (l : ptr) (a : alistener) (s : sv) : sv :=
  set_listeners (delete l (listeners s))
    (set_trs (match l_transport a with
              | Some t => alter (fun u => tr_disconnects (remove_elt (DisListener l) (t_disconnects u)) u) t (trs s)
              | None => trs s end)
    (set_closed_fds (closed_fds s ++ [l_fd a]) (set_io (delete (l_fd a) (io s))
    (set_listener_list (remove_elt l (listener_list s)) s)))).

Lemma free_listener_run W s l a : wf ∅ W s -> listeners s !! l = Some a ->
  wp (free_listener l) s (fun _ s' => s' = without_listener l a s /\ wf ∅ W s').
Proof.
  intros Wf Hl.
  assert (forall x u, trs s !! x = Some u -> l_transport a <> Some x ->
    remove_elt (DisListener l) (t_disconnects u) = t_disconnects u) as Hnot.
  { intros x u Hu Hne. apply remove_elt_notin. intros Hin.
    apply (wf_dis _ _ _ Wf x u Hu) in Hin as (b & Hb & Hbt). congruence. }
  assert (wf ∅ W (without_listener l a s)) as Wf'.
  { eapply (wf_delete_listener ∅ W s l a); [done..|]. intros x. unfold without_listener. simpl.
    destruct (l_transport a) as [t|] eqn:Ht.
    - destruct (decide (x = t)) as [->|Hne].
      + rewrite lookup_alter_eq. by destruct (trs s !! t).
      + rewrite lookup_alter_ne by congruence. destruct (trs s !! x) as [u|] eqn:Hu; [|done]. simpl. f_equal.
        symmetry. eapply Hnot; [done|congruence].
    - destruct (trs s !! x) as [u|] eqn:Hu; [|done]. simpl. f_equal. symmetry. by eapply Hnot. }
  unfold free_listener. apply wp_bind. unfold get_lis, wp at 1. rewrite Hl.
  apply wp_bind, wp_modify, wp_bind. unfold fd_close. apply wp_modify, wp_bind.
  destruct (l_transport a) as [t|] eqn:Ht.
  - destruct (wf_lisowner _ _ _ Wf l a t Hl Ht) as [u Hu]. unfold remove_transport_disconnect.
    apply wp_bind. eapply wp_get_tr; [exact Hu|]. eapply wp_upd_tr; [exact Hu|]. apply wp_modify.
    match goal with |- ?x = _ /\ _ => enough (x = without_listener l a s) as -> by done end.
    unfold without_listener. rewrite Ht. unfold upd_trs, set_trs, set_listeners. simpl. f_equal.
    apply map_eq. intros x. destruct (decide (x = t)) as [->|Hne].
    + by rewrite lookup_insert_eq, lookup_alter_eq, Hu.
    + by rewrite lookup_insert_ne, lookup_alter_ne.
  - apply wp_ret, wp_modify.
    match goal with |- ?x = _ /\ _ => enough (x = without_listener l a s) as -> by done end.
    unfold without_listener. by rewrite Ht.
Qed.

Lemma free_listener_spec W s l a t :
  wf ∅ W s -> listeners s !! l = Some a -> l_transport a = Some t ->
  wp (free_listener l) s (fun _ s' => dropped W t (DisListener l) s s').
Proof.
  intros Wf Hl Ht. eapply wp_mono; [by apply free_listener_run|]. intros _ s' [-> Wf'].
  constructor; try done.
  - intros x. unfold without_listener. simpl. rewrite Ht. destruct (decide (x = t)) as [->|Hne].
    + rewrite lookup_alter_eq. by destruct (trs s !! t).
    + by rewrite lookup_alter_ne.
  - intros [x|y]; simpl; [done|]. intros (b & Hb & Hbt). apply lookup_delete_Some in Hb as [_ Hb]. eauto.
  - simpl. rewrite lookup_delete_eq. by intros (b & ? & _).
  - intros [x|y] Hne; simpl; [done|]. intros (b & Hb & Hbt). exists b. rewrite lookup_delete_ne; [done|congruence].
Qed.

Lemma run_disconnects_spec W t : forall l s,
  wf ∅ W s -> slock s = false -> NoDup l -> (forall d, d ∈ l -> dis_live d t s) ->
  wp (run_disconnects l) s (fun _ s' => wf ∅ W s' /\ slock s' = false /\
    transport_list s' = transport_list s /\
    (forall x, tr_core <$> trs s' !! x = tr_core <$> trs s !! x) /\
    (forall d, dis_live d t s' -> dis_live d t s /\ d ∉ l)).
Proof.
  induction l as [|d l IH]; intros s Wf Hs Hnd Hl; cbn [run_disconnects].
  { apply wp_ret. split_and!; try done. intros d Hd. split; [done|]. apply not_elem_of_nil. }
  apply NoDup_cons in Hnd as [Hni Hnd]. pose proof (Hl d (list_elem_of_here d l)) as Hd.
  apply wp_bind. eapply (wp_mono _ _ (fun _ s1 => dropped W t d s s1)).
  { destruct d as [p|x]; simpl in Hd.
    - destruct Hd as (a & Hp & Hr & Ht). by eapply run_disconnect_remote.
    - destruct Hd as (a & Hx & Ht). by eapply free_listener_spec. }
  intros _ s1 Dr. eapply wp_mono.
  - apply IH; [apply Dr|by rewrite (dr_lock _ _ _ _ _ Dr)|done|]. intros e He.
    apply (dr_others _ _ _ _ _ Dr); [intros ->; done|]. apply Hl. by right.
  - intros _ s2 (Wf2 & Hs2 & El2 & Ec2 & Hd2). split_and!; [done|done| | |].
    + by rewrite El2, (dr_list _ _ _ _ _ Dr).
    + intros x. by rewrite Ec2, (dr_core _ _ _ _ _ Dr).
    + intros e He. destruct (Hd2 e He) as [He1 Hel]. split; [by apply (dr_kinds _ _ _ _ _ Dr)|].
      intros [->|?]%elem_of_cons; [|done]. by apply (dr_dead _ _ _ _ _ Dr).
Qed.

(** [run_transport_disconnects] takes down every remote socket and every
    listener of the transport, and nothing else of it. *)
Lemma run_transport_disconnects_spec W s t u :
  wf ∅ W s -> slock s = false -> trs s !! t = Some u ->
  wp (run_transport_disconnects t) s (fun _ s' => wf ∅ W s' /\ slock s' = false /\
    transport_list s' = transport_list s /\
    (forall x, tr_core <$> trs s' !! x = tr_core <$> trs s !! x) /\
    (forall d, ~ dis_live d t s')).
Proof.
  intros Wf Hs Hu. unfold run_transport_disconnects. apply wp_bind. eapply wp_get_tr; [exact Hu|].
  destruct (wf_dis _ _ _ Wf t u Hu) as (Hnd & Hr & Hl).
  eapply wp_mono; [apply (run_disconnects_spec W t); [done|done|done|]|].
  - intros [p|l] Hd; simpl; [by apply Hr|by apply Hl].
  - intros _ s' (H1 & H2 & H3 & H4 & H5). split_and!; try done. intros d Hd.
    destruct (H5 d Hd) as [Hd0 Hn]. apply Hn. destruct d as [p|l]; simpl in Hd0.
    + destruct Hd0 as (a & Hp & Har & Hat). destruct (wf_remote _ _ _ Wf p a t Hp Har Hat) as (u' & Hu' & Hin).
      congruence.
    + by apply Hl.
Qed.

(** ** Draining the queue of a local socket *)

Lemma wf_set_pkts W s i p a r :
  wf ∅ W s -> p ∈ W -> heap s !! p = Some a -> is_local a -> a_pkts a <> [] -> Forall pkt_ok r ->
  wf ∅ W (upd_heap p (sk_pkts r a) (set_io i s)).
Proof.
  intros Wf HpW Hp Hl Hne Hr. pose proof (wf_sock _ _ _ Wf p a Hp) as Hok.
  assert (wf ∅ W (set_io i s)) as Wf' by (by apply (wf_ext ∅ W s)).
  eapply wf_upd_heap; [exact Wf'|exact Hp|..]; try done.
  - eapply sock_ok_same; [exact Hok|done..|apply Hok|]. intros Hn. exfalso. destruct Hok as (Hk & _).
    unfold is_local in Hl. rewrite Hl in Hk. destruct Hk as [_ [[_ ?]|(_ & _ & _ & ? & _)]]; congruence.
  - simpl. intros Hc. by apply (wf_detached _ _ _ Wf p a).
  - intros HD. split; [done|]. intros _ _. by apply (wf_pkts _ _ _ Wf p a).
Qed.

Definition stream_kept (p : ptr) (a a' : asocket) (s s' : sv) : Prop :=
  out (a_fd a) s' ++ backlog a' = out (a_fd a) s ++ backlog a.

Lemma upd_heap_id p a s : heap s !! p = Some a -> upd_heap p a s = s.
Proof. intros H. unfold upd_heap. rewrite insert_id by done. by destruct s. Qed.

Lemma drain_pkts_spec W p : p ∈ W -> forall n s a,
  wf ∅ W s -> heap s !! p = Some a -> is_local a -> (length (a_pkts a) < n)%nat ->
  wp (drain_pkts n (a_fd a) p) s (fun st s' => exists i r,
    s' = upd_heap p (sk_pkts r a) (set_io i s) /\ wf ∅ W s' /\
    stream_kept p a (sk_pkts r a) s s' /\ (st = WDone <-> r = [])).
Proof.
  intros HpW. induction n as [|n IH]; intros s a Wf Hp Hl Hn; [lia|]. cbn [drain_pkts].
  apply wp_bind. eapply wp_get_sock; [exact Hp|]. destruct (a_pkts a) as [|k r] eqn:Epk.
  - apply wp_ret. exists (io s), []. rewrite set_io_id.
    replace (sk_pkts [] a) with a by (destruct a; simpl in *; by subst). rewrite upd_heap_id by done. by split_and!.
  - assert (Forall pkt_ok (k :: r)) as Hpk by (rewrite <- Epk; by apply (wf_pkts _ _ _ Wf p a)).
    apply Forall_cons in Hpk as [Hk Hr].
    apply wp_bind. unfold flush. eapply wp_mono; [apply flush_spec; [exact Hk|done]|].
    intros [st k1] s1 (i & -> & Hk1 & _ & Hout & Hst). simpl in Hout, Hst.
    assert (forall r', Forall pkt_ok r' -> wf ∅ W (upd_heap p (sk_pkts r' a) (set_io i s))) as Hwf.
    { intros r' Hr'. apply wf_set_pkts; try done. by rewrite Epk. }
    assert (stream_kept p a (sk_pkts (k1 :: r) a) s (set_io i s)) as Hkept.
    { unfold stream_kept, backlog. simpl. rewrite Epk. simpl. by rewrite !app_assoc, Hout. }
    destruct st.
    + apply wp_bind. eapply wp_upd_sock; [exact Hp|].
      eapply wp_mono; [apply (IH _ (sk_pkts r a)); [by apply Hwf|apply lookup_insert_eq|done|simpl in *; lia]|].
      intros st s2 (j & r2 & -> & Wf2 & Hkept2 & Hst2). exists j, r2.
      assert (upd_heap p (sk_pkts r2 (sk_pkts r a)) (set_io j (upd_heap p (sk_pkts r a) (set_io i s))) =
              upd_heap p (sk_pkts r2 a) (set_io j s)) as E.
      { unfold upd_heap, set_heap, set_io. simpl. by rewrite insert_insert_eq. }
      rewrite E in *. split_and!; [done|done| |done].
      unfold stream_kept in *. etransitivity; [exact Hkept2|]. rewrite <- Hkept. unfold backlog. simpl.
      apply unsent_nil in Hst; [|done]. by rewrite Hst.
    + apply wp_bind. eapply wp_upd_sock; [exact Hp|]. apply wp_ret. exists i, (k1 :: r).
      split_and!; [done|apply Hwf; by constructor|exact Hkept|by split].
    + apply wp_bind. eapply wp_upd_sock; [exact Hp|]. apply wp_ret. exists i, (k1 :: r).
      split_and!; [done|apply Hwf; by constructor|exact Hkept|by split].
Qed.

Lemma wf_settle D W s p a : wf D ({[p]} ∪ W) s -> heap s !! p = Some a ->
  (wants FDE_WRITE a = true -> a_pkts a <> []) -> (a_enqueue a = tracker_enqueue -> a_update a = 0) -> wf D W s.
Proof.
  intros Wf Hp H Hu. constructor; try apply Wf.
  - intros q b Hq Hl Hn. destruct (decide (q = p)) as [->|Hne]; [simplify_eq; done|]. apply (wf_wants _ _ _ Wf q b Hq Hl). set_solver.
  - intros q b Hq HD Hn Ht. destruct (decide (q = p)) as [->|Hne]; [simplify_eq; auto|]. apply (wf_update _ _ _ Wf q b Hq HD); [set_solver|done].
Qed.

Lemma wf_strengthen D W s p a : wf D ({[p]} ∪ W) s -> heap s !! p = Some a -> is_local a ->
  (wants FDE_WRITE a = true -> a_pkts a <> []) -> wf D W s.
Proof. intros Wf Hp Hl Hw. eapply wf_settle; [done..|]. unfold is_local in Hl. congruence. Qed.

Lemma linked_not_notify b q : sock_ok b -> a_peer b = Some q -> a_ready b <> local_ready_notify.
Proof.
  intros (Hk & _) Hq En. destruct (a_enqueue b); [|destruct Hk as [? _]; congruence..].
  destruct Hk as [_ [[? _]|(_ & _ & ? & _)]]; congruence.
Qed.

(** A socket with a backlog has a peer, unless it is closing. *)
Lemma backlog_peer W s p a : wf ∅ W s -> heap s !! p = Some a -> is_local a -> a_pkts a <> [] ->
  a_closing a = false -> is_Some (a_peer a).
Proof. intros Wf Hp Hl Hne Hc. apply (wf_pkts _ _ _ Wf p a Hp Hl); [set_solver|done|done]. Qed.

(** The writable part of the event function: the stream is kept, a socket that
    is done closing is destroyed, a socket whose backlog went out stays open and
    tells its peer to go on. *)
Lemma event_write_spec s p a :
  wf ∅ ∅ s -> slock s = false -> heap s !! p = Some a -> is_local a -> wants FDE_WRITE a = true ->
  wp (event_write (a_fd a) p) s (fun r s' => wf ∅ ∅ s' /\ slock s' = false /\
    if r then exists a', heap s' !! p = Some a' /\ is_local a' /\ a_peer a' = a_peer a /\
                a_closing a' = false /\ is_Some (a_peer a') /\ a_fd a' = a_fd a /\
                a_pkts a' = [] /\ wants FDE_WRITE a' = false /\
                out (a_fd a) s' = out (a_fd a) s ++ backlog a /\ kinds_from (heap s) (heap s')
    else p ∉ local_list s' \/
         exists r i, s' = upd_heap p (sk_pkts r a) (set_io i s) /\ r <> [] /\
           stream_kept p a (sk_pkts r a) s s').
Proof.
  intros Wf Hs Hp Hl Hw. assert (a_pkts a <> []) as Hne by (apply (wf_wants _ _ _ Wf p a Hp Hl); [set_solver|done]).
  unfold event_write. apply wp_bind. eapply wp_get_sock; [exact Hp|].
  apply (wf_weaken _ _ ({[p]} ∪ ∅)) in Wf; [|set_solver].
  apply wp_bind. eapply wp_mono; [apply (drain_pkts_spec ({[p]} ∪ ∅) p ltac:(set_solver) _ s a); [done..|lia]|].
  intros st s1 (i & r & -> & Wf1 & Hk & Hst). set (s1 := upd_heap p (sk_pkts r a) (set_io i s)) in *.
  assert (heap s1 !! p = Some (sk_pkts r a)) as Hp1 by apply lookup_insert_eq.
  destruct st.
  - assert (r = []) as -> by (by apply Hst). apply wp_bind. eapply wp_get_sock; [exact Hp1|]. simpl.
    destruct (a_closing a) eqn:Ec.
    + apply wp_bind. eapply wp_mono; [by apply (sock_close_spec ({[p]} ∪ ∅) s1 p (sk_pkts [] a))|].
      intros _ s2 (Wf2 & F2 & L2 & _). replace (({[p]} ∪ ∅) ∖ {[p]}) with (∅ : gset ptr) in Wf2 by set_solver.
      apply wp_ret. split_and!; [done|by rewrite (fr_lock _ _ _ F2)|]. left. rewrite L2. naive_solver.
    + destruct (backlog_peer _ s p a Wf Hp Hl Hne Ec) as [q Hq].
      apply wp_bind. unfold sock_fde_del. eapply wp_upd_sock; [exact Hp1|].
      set (a2 := sk_fde _ _). set (s2 := upd_heap p a2 s1).
      assert (wf ∅ ({[p]} ∪ ∅) s2) as Wf2'.
      { eapply wf_upd_heap; [exact Wf1|exact Hp1|..]; try done.
        - eapply sock_ok_same; [exact (wf_sock _ _ _ Wf1 p _ Hp1)|done..|apply (wf_sock _ _ _ Wf p a Hp)|].
          simpl. intros Hn. destruct (linked_local a q) as [? _]; [by apply (wf_sock _ _ _ Wf p)|done|done|congruence].
        - simpl. congruence.
        - simpl. set_solver. }
      assert (wf ∅ ∅ s2) as Wf2.
      { eapply wf_strengthen; [exact Wf2'|apply lookup_insert_eq|done|]. unfold wants. simpl. by rewrite fde_del_write. }
      rewrite Hq. destruct (wf_peer _ _ _ Wf p a q Hp ltac:(set_solver) Hq) as (_ & Hqp & b & Hb & Hbp & _).
      assert (heap s2 !! q = Some b) as Hb2.
      { unfold s2, s1. simpl. by rewrite !lookup_insert_ne. }
      apply wp_bind. eapply wp_mono; [by apply (sock_ready_spec ∅ s2 q b)|]. intros _ s3 (Wf3 & F3 & Eio). apply wp_ret.
      split_and!; [done|by rewrite (fr_lock _ _ _ F3)|]. exists a2.
      assert (a_ready b <> local_ready_notify) as Hnn.
      { eapply linked_not_notify; [by apply (wf_sock _ _ _ Wf q)|exact Hbp]. }
      assert (heap s3 !! p = Some a2) as Hp3.
      { rewrite (fr_heap _ _ _ F3 p) by set_solver. apply lookup_insert_eq. }
      split_and!; [done|done|done|done|simpl; by rewrite Hq|done|done|unfold wants; simpl; apply fde_del_write|..].
      * unfold out. rewrite (Eio Hnn). unfold s2, s1. simpl. unfold stream_kept, out, backlog in Hk. simpl in Hk.
        by rewrite app_nil_r in Hk.
      * eapply kinds_trans; [|apply F3]. unfold s2, s1. kinds.
  - assert (r <> []) as Hr by (intros E; by apply Hst in E). apply wp_ret.
    split_and!; [|done|right; eauto]. eapply wf_strengthen; [exact Wf1|exact Hp1|done|done].
  - assert (r <> []) as Hr by (intros E; by apply Hst in E).
    assert (wf ∅ ∅ s1) as Wf1' by (eapply wf_strengthen; [exact Wf1|exact Hp1|done|done]).
    apply wp_bind. eapply wp_mono; [by apply (sock_close_spec ∅ s1 p (sk_pkts r a))|].
    intros _ s2 (Wf2 & F2 & L2 & _). apply wp_ret. split_and!; [eapply wf_weaken; [|exact Wf2]; set_solver|by rewrite (fr_lock _ _ _ F2)|].
    left. rewrite L2. naive_solver.
Qed.
