(* ===== verification/SocketLink.v ===== *)
(** * Connecting sockets

    A new socket becomes the peer of a local socket: the remote socket of a
    stream, the smart socket of a client, or the socket of a host service.  The
    intermediate states of the code break the invariant, so the link is one step
    of the proofs. *)

From S2P Require Import Prelude CString Io Wire DList Fdevent Server Transports Sockets Packets SocketInv SocketOps.

Definition is_remote_on (x : ptr) (b : asocket) : bool :=
  bool_decide (a_enqueue b = remote_enqueue) && bool_decide (a_transport b = Some x).

(** ** One link *)

Section link.
Context (D W : gset ptr) (s s' : sv) (p r : ptr) (a a' b : asocket).
Hypotheses (Wf : wf D W s) (HpD : p ∈ D) (HrD : r ∉ D) (Hp : heap s !! p = Some a) (Hl : is_local a) (Hc : a_closing a = false) (Er : r = next_ptr s).
Hypotheses (Hl' : is_local a') (Hok' : sock_ok a') (Hc' : a_closing a' = false) (Hpe' : a_peer a' = Some r) (Hpk' : Forall pkt_ok (a_pkts a')).
Hypothesis Hw' : p ∉ W -> wants FDE_WRITE a' = true -> a_pkts a' <> [].
Hypotheses (Hokb : sock_ok b) (Hpeb : a_peer b = Some p) (Hcb : a_closing b = false) (Hpkb : a_pkts b = []) (Hwb : wants FDE_WRITE b = false) (Hub : r ∉ W -> a_update b = 0).
Hypotheses (Eh : heap s' = <[r := b]> (<[p := a']> (heap s))) (Ep : next_ptr s' = S r).
Hypothesis El : local_list s' = (if decide (a_enqueue b = local_enqueue) then local_list s ++ [r] else local_list s).
Hypothesis Ec : closing_list s' = closing_list s.
Hypothesis Et : trackers s' = (if decide (a_enqueue b = tracker_enqueue) then r :: trackers s else trackers s).
Hypotheses (Hid : 0 < next_id s' < u32_mod) (Etl : transport_list s' = transport_list s) (Els : listeners s' = listeners s) (Ell : listener_list s' = listener_list s).
Hypothesis Hlive : forall x, a_enqueue b = remote_enqueue -> a_transport b = Some x -> is_Some (trs s !! x).
Hypothesis Etr : forall x, t_disconnects <$> trs s' !! x =
  (fun u => if is_remote_on x b then t_disconnects u ++ [DisRemote r] else t_disconnects u) <$> trs s !! x.

Lemma link_fresh : heap s !! r = None.
Proof. apply eq_None_not_Some. intros H. apply (wf_fresh _ _ _ Wf) in H. rewrite Er in H. by apply Nat.lt_irrefl in H. Qed.
Lemma link_ne : r <> p.
Proof. intros E. pose proof link_fresh. congruence. Qed.
(** The heap after the link. *)
Lemma link_inv q c : heap s' !! q = Some c -> (q = r /\ c = b) \/ (q = p /\ c = a') \/ (q <> r /\ q <> p /\ heap s !! q = Some c).
Proof.
  intros H. rewrite Eh in H. destruct (decide (q = r)) as [->|Hqr]; [rewrite lookup_insert_eq in H; injection H as <-; auto|].
  rewrite lookup_insert_ne in H by done. destruct (decide (q = p)) as [->|Hqp]; [rewrite lookup_insert_eq in H; injection H as <-; auto|].
  rewrite lookup_insert_ne in H by done. auto.
Qed.
Lemma link_new : heap s' !! r = Some b /\ heap s' !! p = Some a'.
Proof. pose proof link_ne. rewrite Eh. split; [apply lookup_insert_eq|]. rewrite lookup_insert_ne by done. apply lookup_insert_eq. Qed.
Lemma link_other q : q <> r -> q <> p -> heap s' !! q = heap s !! q.
Proof. intros H1 H2. by rewrite Eh, !lookup_insert_ne by done. Qed.
(** The transports before and after it. *)
Lemma link_trs_old t u' : trs s' !! t = Some u' -> exists u, trs s !! t = Some u /\
  t_disconnects u' = if is_remote_on t b then t_disconnects u ++ [DisRemote r] else t_disconnects u.
Proof. apply (pointwise_old _ _ _ _ Etr). Qed.
Lemma link_trs_new t u : trs s !! t = Some u -> exists u', trs s' !! t = Some u' /\
  t_disconnects u' = if is_remote_on t b then t_disconnects u ++ [DisRemote r] else t_disconnects u.
Proof. apply (pointwise_new _ _ _ _ Etr). Qed.

Lemma link_peer q c x : heap s' !! q = Some c -> q ∉ D ∖ {[p]} -> a_peer c = Some x ->
  x ∉ D ∖ {[p]} /\ x <> q /\ exists d, heap s' !! x = Some d /\ a_peer d = Some q /\ (is_local c \/ is_local d).
Proof.
  intros H HqD Hx. pose proof link_ne as Hrp. destruct link_new as [Hr' Hp']. destruct (link_inv q c H) as [[-> ->]|[[-> ->]|(Hqr & Hqp & H')]].
  - rewrite Hpeb in Hx. injection Hx as <-. split; [set_solver|]. split; [done|]. exists a'. auto.
  - rewrite Hpe' in Hx. injection Hx as <-. split; [set_solver|]. split; [done|]. exists b. auto.
  - destruct (wf_peer _ _ _ Wf q c x H' ltac:(set_solver) Hx) as (HxD & Hxq & d & Hd & Hdq & Hloc). pose proof link_fresh.
    split; [set_solver|]. split; [done|]. exists d. rewrite link_other; [done|congruence|]. intros ->. done.
Qed.
Lemma link_local q : q ∈ local_list s' <-> exists c, heap s' !! q = Some c /\ is_local c /\ a_closing c = false.
Proof.
  pose proof link_fresh as Hr. destruct link_new as [Hr' Hp'].
  assert (r ∉ local_list s) as Hrl by (intros (c & ? & _)%(wf_local _ _ _ Wf); congruence). unfold is_local in *.
  assert (q ∈ local_list s' <-> (q = r /\ a_enqueue b = local_enqueue) \/ q ∈ local_list s) as ->.
  { rewrite El. destruct (decide (a_enqueue b = local_enqueue)); [rewrite elem_of_app, list_elem_of_singleton|]; tauto. }
  destruct (decide (q = r)) as [->|Hqr].
  - rewrite Hr'. split; [intros [[_ ?]|?]; [eauto|done]|]. intros (c & [= <-] & ? & _). auto.
  - rewrite (wf_local _ _ _ Wf q). destruct (decide (q = p)) as [->|Hqp].
    + rewrite Hp'. split; [eauto|]. intros _. right. eauto.
    + rewrite link_other by done. naive_solver.
Qed.
Lemma link_closing q : q ∈ closing_list s' <-> exists c, heap s' !! q = Some c /\ is_local c /\ a_closing c = true.
Proof.
  pose proof link_fresh as Hr. destruct link_new as [Hr' Hp']. rewrite Ec, (wf_closing _ _ _ Wf q). destruct (decide (q = r)) as [->|Hqr].
  - rewrite Hr', Hr. split; [by intros (c & ? & _)|]. intros (c & [= <-] & _ & ?). congruence.
  - destruct (decide (q = p)) as [->|Hqp]; [|by rewrite link_other]. rewrite Hp', Hp. split; intros (c & [= <-] & _ & ?); congruence.
Qed.
Lemma link_trackers q : q ∈ trackers s' <-> exists c, heap s' !! q = Some c /\ a_enqueue c = tracker_enqueue.
Proof.
  pose proof link_fresh as Hr. destruct link_new as [Hr' Hp'].
  assert (r ∉ trackers s) as Hrt by (intros (c & ? & _)%(wf_trackers _ _ _ Wf); congruence). unfold is_local in *.
  assert (q ∈ trackers s' <-> (q = r /\ a_enqueue b = tracker_enqueue) \/ q ∈ trackers s) as ->.
  { rewrite Et. destruct (decide (a_enqueue b = tracker_enqueue)); [rewrite elem_of_cons|]; tauto. }
  destruct (decide (q = r)) as [->|Hqr].
  - rewrite Hr'. split; [intros [[_ ?]|?]; [eauto|done]|]. intros (c & [= <-] & ?). auto.
  - rewrite (wf_trackers _ _ _ Wf q). destruct (decide (q = p)) as [->|Hqp]; [|rewrite link_other by done; naive_solver].
    rewrite Hp', Hp. split; [intros [[? _]|(c & [= <-] & ?)]; congruence|]. intros (c & [= <-] & ?). congruence.
Qed.
Lemma link_lists : NoDup (local_list s') /\ NoDup (closing_list s') /\ NoDup (trackers s').
Proof.
  pose proof link_fresh. assert (r ∉ local_list s) as Hrl by (intros (c & ? & _)%(wf_local _ _ _ Wf); congruence).
  assert (r ∉ trackers s) as Hrt by (intros (c & ? & _)%(wf_trackers _ _ _ Wf); congruence).
  rewrite El, Ec, Et. destruct (wf_lists _ _ _ Wf) as (N1 & N2 & N3). split_and!; [|done|].
  - destruct (decide (a_enqueue b = local_enqueue)); [|done]. apply NoDup_app. split_and!; [done| |apply NoDup_singleton].
    intros x Hx. rewrite list_elem_of_singleton. by intros ->.
  - destruct (decide (a_enqueue b = tracker_enqueue)); [|done]. by constructor.
Qed.
Lemma link_pkts q c : heap s' !! q = Some c -> is_local c ->
  Forall pkt_ok (a_pkts c) /\ (q ∉ D ∖ {[p]} -> a_pkts c <> [] -> a_closing c = false -> is_Some (a_peer c)).
Proof.
  intros H Hlc. destruct (link_inv q c H) as [[-> ->]|[[-> ->]|(Hqr & Hqp & H')]].
  - rewrite Hpkb. split; [constructor|done].
  - split; [done|]. intros _ _ _. by rewrite Hpe'.
  - destruct (wf_pkts _ _ _ Wf q c H' Hlc) as [? Hs]. split; [done|]. intros HqD. apply Hs. set_solver.
Qed.
Lemma linked_remote q c t : heap s' !! q = Some c -> a_enqueue c = remote_enqueue -> a_transport c = Some t ->
  exists u, trs s' !! t = Some u /\ DisRemote q ∈ t_disconnects u.
Proof.
  intros H Hrc Htc. unfold is_local in *. destruct (link_inv q c H) as [[-> ->]|[[-> ->]|(Hqr & Hqp & H')]]; [|congruence|].
  - destruct (Hlive t Hrc Htc) as [u Hu]. destruct (link_trs_new t u Hu) as (u' & Hu' & E). exists u'. split; [done|].
    rewrite E. unfold is_remote_on. rewrite !bool_decide_eq_true_2 by done. simpl. set_solver.
  - destruct (wf_remote _ _ _ Wf q c t H' Hrc Htc) as (u & Hu & Hin). destruct (link_trs_new t u Hu) as (u' & Hu' & E).
    exists u'. split; [done|]. rewrite E. destruct (is_remote_on t b); [|done]. apply elem_of_app. by left.
Qed.
Lemma link_dis t u' : trs s' !! t = Some u' -> NoDup (t_disconnects u') /\
  (forall q, DisRemote q ∈ t_disconnects u' -> exists c, heap s' !! q = Some c /\ a_enqueue c = remote_enqueue /\ a_transport c = Some t) /\
  (forall l, DisListener l ∈ t_disconnects u' <-> exists c, listeners s' !! l = Some c /\ l_transport c = Some t).
Proof.
  intros Hu'. destruct (link_trs_old t u' Hu') as (u & Hu & E). rewrite E, Els. pose proof link_fresh. destruct link_new as [Hr' Hp'].
  destruct (wf_dis _ _ _ Wf t u Hu) as (Hnd & Hre & Hli). unfold is_local in *.
  assert (DisRemote r ∉ t_disconnects u) as Hfresh by (intros Hin; destruct (Hre r Hin) as (c & ? & _); congruence). split_and!.
  - destruct (is_remote_on t b); [|done]. apply NoDup_app. split_and!; [done| |apply NoDup_singleton].
    intros x Hx. rewrite list_elem_of_singleton. by intros ->.
  - intros q Hq. assert ((q = r /\ is_remote_on t b = true) \/ DisRemote q ∈ t_disconnects u) as [[-> Hon]|Hin].
    { destruct (is_remote_on t b); [|by right]. apply elem_of_app in Hq as [?|Hq]; [by right|].
      apply list_elem_of_singleton in Hq. left. split; [congruence|done]. }
    + exists b. unfold is_remote_on in Hon. apply andb_true_iff in Hon as [?%bool_decide_eq_true ?%bool_decide_eq_true]. done.
    + destruct (Hre q Hin) as (c & Hcq & Hcr & Hct). exists c. rewrite link_other; [done|congruence|congruence].
  - intros l. rewrite <- Hli. destruct (is_remote_on t b); [|done]. rewrite elem_of_app, list_elem_of_singleton. naive_solver.
Qed.

Lemma link_wf : wf (D ∖ {[p]}) W s'.
Proof.
  constructor; [| |exact link_peer| |exact link_local|exact link_closing|exact link_lists| |exact link_pkts| |exact linked_remote|exact link_dis|exact link_trackers| | | | | | |done].
  - intros q c H. destruct (link_inv q c H) as [[-> ->]|[[-> ->]|(_ & _ & H')]]; [done..|]. by eapply (wf_sock _ _ _ Wf).
  - intros q [c H]. rewrite Ep. destruct (link_inv q c H) as [[-> ->]|[[-> ->]|(_ & _ & H')]]; [lia|..].
    + pose proof (wf_fresh _ _ _ Wf p ltac:(eauto)). lia.
    + pose proof (wf_fresh _ _ _ Wf q ltac:(eauto)). lia.
  - intros q c H HqD Hn. destruct (link_inv q c H) as [[-> ->]|[[-> ->]|(Hqr & Hqp & H')]]; [by rewrite Hpeb|by rewrite Hpe'|].
    apply (wf_half _ _ _ Wf q c H'); [set_solver|done].
  - intros q c H Hcl. destruct (link_inv q c H) as [[-> ->]|[[-> ->]|(_ & _ & H')]]; [congruence..|]. by apply (wf_detached _ _ _ Wf q).
  - intros q c H Hlc HW Hwq. destruct (link_inv q c H) as [[-> ->]|[[-> ->]|(Hqr & Hqp & H')]]; [congruence|by apply Hw'|].
    by apply (wf_wants _ _ _ Wf q c H' Hlc).
  - intros q c H HqD HqW Htc. unfold is_local in *. destruct (link_inv q c H) as [[-> ->]|[[-> ->]|(Hqr & Hqp & H')]]; [by apply Hub|congruence|].
    apply (wf_update _ _ _ Wf q c H'); [set_solver|done|done].
  - intros t Ht. rewrite Etl in Ht. destruct (wf_listed _ _ _ Wf t Ht) as [u Hu]. destruct (link_trs_new t u Hu) as (u' & Hu' & _). eauto.
  - rewrite Ell, Els. apply Wf.
  - intros l c t Hlc Ht. rewrite Els in Hlc. destruct (wf_lisowner _ _ _ Wf l c t Hlc Ht) as [u Hu].
    destruct (link_trs_new t u Hu) as (u' & Hu' & _). eauto.
  - intros l c Hlc. rewrite Els in Hlc. destruct (wf_lisok _ _ _ Wf l c Hlc). split; [lia|done].
  - intros t [u' Hu']. destruct (link_trs_old t u' Hu') as (u & Hu & _). pose proof (wf_trfresh _ _ _ Wf t ltac:(eauto)). lia.
Qed.
End link.

(** [p], a local socket that is being re-linked, gets the fresh socket [r] as
    its peer. *)
Lemma wf_link D W s s' p a a' r b :
  wf D W s -> p ∈ D -> r ∉ D -> heap s !! p = Some a -> is_local a -> a_closing a = false -> r = next_ptr s ->
  is_local a' -> sock_ok a' -> a_closing a' = false -> a_peer a' = Some r -> Forall pkt_ok (a_pkts a') ->
  (p ∉ W -> wants FDE_WRITE a' = true -> a_pkts a' <> []) ->
  sock_ok b -> a_peer b = Some p -> a_closing b = false -> a_pkts b = [] -> wants FDE_WRITE b = false ->
  (r ∉ W -> a_update b = 0) ->
  heap s' = <[r := b]> (<[p := a']> (heap s)) -> next_ptr s' = S r ->
  local_list s' = (if decide (a_enqueue b = local_enqueue) then local_list s ++ [r] else local_list s) ->
  closing_list s' = closing_list s ->
  trackers s' = (if decide (a_enqueue b = tracker_enqueue) then r :: trackers s else trackers s) ->
  0 < next_id s' < u32_mod -> transport_list s' = transport_list s ->
  listeners s' = listeners s -> listener_list s' = listener_list s ->
  (forall x, a_enqueue b = remote_enqueue -> a_transport b = Some x -> is_Some (trs s !! x)) ->
  (forall x, t_disconnects <$> trs s' !! x =
     (fun u => if is_remote_on x b then t_disconnects u ++ [DisRemote r] else t_disconnects u) <$> trs s !! x) ->
  wf (D ∖ {[p]}) W s'.
Proof. intros. by eapply (link_wf D W s s' p r a a' b). Qed.

(** A new unconnected local socket. *)
Lemma wf_add_local D W s s' r b :
  wf D W s -> r = next_ptr s -> sock_ok b -> is_local b -> a_closing b = false -> a_peer b = None ->
  a_pkts b = [] -> wants FDE_WRITE b = false ->
  heap s' = <[r := b]> (heap s) -> next_ptr s' = S r -> local_list s' = local_list s ++ [r] ->
  closing_list s' = closing_list s -> trackers s' = trackers s -> 0 < next_id s' < u32_mod ->
  transport_list s' = transport_list s -> listeners s' = listeners s -> listener_list s' = listener_list s ->
  trs s' = trs s -> wf D W s'.
Proof.
  intros Wf Er Hok Hl Hc Hpe Hpk Hw Eh Ep El Ec Et Hid Etl Els Ell Etr.
  assert (heap s !! r = None) as Hr.
  { destruct (heap s !! r) eqn:E; [|done]. pose proof (wf_fresh _ _ _ Wf r ltac:(eauto)). lia. }
  pose proof (cell_inv _ _ r b Eh) as Hinv. pose proof (cell_self _ _ r b Eh) as Hr'. pose proof (cell_other _ _ r b Eh) as Hother.
  assert (forall P : asocket -> Prop, ~ P b -> forall q,
    (exists c, heap s' !! q = Some c /\ P c) <-> (exists c, heap s !! q = Some c /\ P c)) as Hnot.
  { intros P HP. apply (cell_iff _ _ r b Eh). rewrite Hr. naive_solver. }
  unfold is_local in *.
  constructor; rewrite ?Ec, ?Et, ?Etl, ?Els, ?Ell, ?Etr; try apply Wf.
  - intros q c H. destruct (Hinv q c H) as [[-> ->]|[_ H']]; [done|]. by eapply (wf_sock _ _ _ Wf).
  - intros q [c H]. rewrite Ep. destruct (Hinv q c H) as [[-> ->]|[_ H']]; [lia|].
    pose proof (wf_fresh _ _ _ Wf q ltac:(eauto)). lia.
  - intros q c x H HqD Hx. destruct (Hinv q c H) as [[-> ->]|[_ H']]; [congruence|].
    destruct (wf_peer _ _ _ Wf q c x H' HqD Hx) as (HxD & Hxq & d & Hd & Hdq & Hloc).
    split; [done|]. split; [done|]. exists d. rewrite Hother; [done|congruence].
  - intros q c H HqD Hn. destruct (Hinv q c H) as [[-> ->]|[_ H']]; [done|]. by apply (wf_half _ _ _ Wf q c).
  - intros q. rewrite El, elem_of_app, list_elem_of_singleton, (wf_local _ _ _ Wf q).
    destruct (decide (q = r)) as [->|Hne].
    + rewrite Hr'. split; [eauto|auto].
    + rewrite Hother by done. tauto.
  - intros q. rewrite (wf_closing _ _ _ Wf q). symmetry. apply (Hnot (fun c => a_enqueue c = local_enqueue /\ a_closing c = true)).
    intros [_ ?]. congruence.
  - rewrite El. destruct (wf_lists _ _ _ Wf) as (N1 & N2 & N3). split_and!; [|done|done].
    apply NoDup_app. split_and!; [done| |apply NoDup_singleton].
    intros x Hx. rewrite list_elem_of_singleton. intros ->. apply (wf_local _ _ _ Wf) in Hx as (c & ? & _). congruence.
  - intros q c H Hcl. destruct (Hinv q c H) as [[-> ->]|[_ H']]; [done|]. by apply (wf_detached _ _ _ Wf q).
  - intros q c H Hlc. destruct (Hinv q c H) as [[-> ->]|[_ H']]; [|by apply (wf_pkts _ _ _ Wf)].
    rewrite Hpk. split; [constructor|done].
  - intros q c H Hlc HW Hwq. destruct (Hinv q c H) as [[-> ->]|[_ H']]; [congruence|].
    by apply (wf_wants _ _ _ Wf q c H' Hlc).
  - intros q c t H Hrc Htc. destruct (Hinv q c H) as [[-> ->]|[_ H']]; [congruence|].
    by apply (wf_remote _ _ _ Wf q c).
  - intros t u Hu. destruct (wf_dis _ _ _ Wf t u Hu) as (Hnd & Hre & Hli). split_and!; [done| |done].
    intros q Hq. apply (Hnot (fun c => a_enqueue c = remote_enqueue /\ a_transport c = Some t)); [|by apply Hre].
    intros [? _]. congruence.
  - intros q. rewrite (wf_trackers _ _ _ Wf q). symmetry. apply Hnot. congruence.
  - intros q c H HqD HqW Htc. destruct (Hinv q c H) as [[-> ->]|[_ H']]; [congruence|]. by apply (wf_update _ _ _ Wf q c).
  - intros l c Hlc. destruct (wf_lisok _ _ _ Wf l c Hlc). split; [lia|done].
  - intros t Ht. pose proof (wf_trfresh _ _ _ Wf t Ht). lia.
  - done.
Qed.

Lemma next_id_range i : let n := wrap32 (i + 1) in 0 < (if n =? 0 then 1 else n) < u32_mod.
Proof.
  pose proof (wrap32_range (i + 1)) as H. unfold is_u32 in H. cbv zeta.
  destruct (Z.eqb_spec (wrap32 (i + 1)) 0); [done|lia].
Qed.

(** [create_local_socket] gives an unconnected socket with a fresh address and
    the next id. *)
Lemma create_local_socket_spec D W s fd :
  wf D W s -> slock s = false ->
  wp (create_local_socket fd) s (fun r s' => wf D W s' /\ slock s' = false /\ r = next_ptr s /\
    heap s' !! r = Some (mksock (next_id s) false false None (mkfde fd false FDE_ACTIVE 0) fd [] local_enqueue
                           local_ready false local_close None 0) /\
    (forall q, q <> r -> heap s' !! q = heap s !! q) /\ trs s' = trs s /\ io s' = io s).
Proof.
  intros Wf Hs. unfold create_local_socket. apply wp_bind. unfold new_sock, wp at 1.
  apply wp_bind. unfold install_local_socket. apply wp_bind, wp_lock; [done|]. apply wp_bind, wp_gets, wp_bind.
  eapply wp_upd_sock; [apply lookup_insert_eq|]. apply wp_bind, wp_modify, wp_bind, wp_modify.
  unfold unlock. apply wp_modify. apply wp_bind. destruct (fd <? 0); [apply wp_stop|].
  destruct (32000 <? fd); [apply wp_stop|]. eapply wp_upd_sock; [apply lookup_insert_eq|]. apply wp_ret.
  split_and!; try done.
  - eapply (wf_add_local D W s _ (next_ptr s) (mksock (next_id s) false false None (mkfde fd false FDE_ACTIVE 0) fd []
      local_enqueue local_ready false local_close None 0)); [done|done| |..]; try done.
    + split; [split; [done|by left]|]. split; [done|]. pose proof (wf_id _ _ _ Wf). unfold is_u32. simpl. lia.
    + simpl. by rewrite !insert_insert_eq.
    + apply (next_id_range (next_id s)).
  - apply lookup_insert_eq.
  - intros q Hq. simpl. by rewrite !lookup_insert_ne.
Qed.

(** ** Linking a remote socket *)

Definition remote_sock (id : Z) (t : ptr) (peer : option ptr) : asocket :=
  mksock id false false peer blank_fde 0 [] remote_enqueue remote_ready true remote_close (Some t) 0.

Lemma remote_sock_ok id t peer : is_u32 id -> sock_ok (remote_sock id t peer).
Proof. intros H. split; [|done]. simpl. eauto. Qed.

(** The transports after a remote socket registered on [t]. *)
Lemma trs_registered (m : gmap ptr atransport) t u r id peer x :
  m !! t = Some u ->
  t_disconnects <$> <[t := tr_disconnects (t_disconnects u ++ [DisRemote r]) u]> m !! x =
  (fun v => if is_remote_on x (remote_sock id t peer) then t_disconnects v ++ [DisRemote r] else t_disconnects v)
    <$> m !! x.
Proof.
  intros Hu. unfold is_remote_on. simpl. destruct (decide (x = t)) as [->|Hne].
  - rewrite lookup_insert_eq, Hu. simpl. by rewrite bool_decide_eq_true_2.
  - rewrite lookup_insert_ne by done. rewrite (bool_decide_eq_false_2 (Some t = Some x)) by congruence. done.
Qed.

Ltac map_crush :=
  apply map_eq; intros ?; repeat (rewrite lookup_insert; case_decide; simplify_eq; try done).

(** [s->peer = create_remote_socket(id, t); s->peer->peer = s] on a socket that
    had no peer; what is done next decides the final state of [s]. *)
Lemma wp_link_remote W s p a id t u (Q : ptr -> sv -> Prop) :
  wf ∅ W s -> heap s !! p = Some a -> id <> 0 -> trs s !! t = Some u ->
  (let r := next_ptr s in
   Q r (set_heap (<[r := remote_sock id t (Some p)]> (<[p := sk_peer (Some r) a]> (heap s)))
         (upd_trs t (tr_disconnects (t_disconnects u ++ [DisRemote r]) u) (set_next_ptr (S r) s)))) ->
  wp (link_remote p id t) s Q.
Proof.
  intros Wf Hp Hid Hu HQ. cbv zeta in HQ. set (r := next_ptr s) in *.
  assert (heap s !! r = None) as Hr.
  { destruct (heap s !! r) eqn:E; [|done]. pose proof (wf_fresh _ _ _ Wf r ltac:(eauto)). unfold r in *. lia. }
  assert (r <> p) as Hrp by (intros E; congruence).
  unfold link_remote, create_remote_socket. rewrite (proj2 (Z.eqb_neq _ _)) by done.
  apply wp_bind, wp_bind. unfold new_sock, wp at 1. fold r. apply wp_bind.
  unfold add_transport_disconnect. apply wp_bind. eapply wp_get_tr; [exact Hu|]. eapply wp_upd_tr; [exact Hu|].
  apply wp_ret. apply wp_bind. eapply wp_upd_sock; [simpl; rewrite lookup_insert_ne by done; exact Hp|].
  apply wp_bind. eapply wp_upd_sock; [simpl; rewrite lookup_insert_ne by done; apply lookup_insert_eq|].
  apply wp_ret.
  match goal with |- Q r ?x => match type of HQ with Q r ?y => enough (x = y) as -> by exact HQ end end.
  unfold upd_heap, upd_trs, set_heap, set_trs, set_next_ptr. simpl. f_equal. map_crush.
Qed.

Lemma wf_linked W s p a a' r id t u i :
  wf ∅ W s -> heap s !! p = Some a -> is_local a -> a_closing a = false -> a_peer a = None ->
  is_u32 id -> trs s !! t = Some u -> r = next_ptr s ->
  a_enqueue a' = local_enqueue -> sock_ok a' -> a_closing a' = false -> a_peer a' = Some r -> a_pkts a' = a_pkts a ->
  wants FDE_WRITE a' = wants FDE_WRITE a ->
  wf ∅ W (set_io i (set_heap (<[r := remote_sock id t (Some p)]> (<[p := a']> (heap s)))
         (upd_trs t (tr_disconnects (t_disconnects u ++ [DisRemote r]) u) (set_next_ptr (S r) s)))).
Proof.
  intros Wf Hp Hl Hc Hpe Hid Hu Er Hl' Hok' Hc' Hpe' Hpk' Hw'.
  assert (wf {[p]} W s) as Wf1.
  { rewrite <- (union_empty_r_L {[p]}). apply wf_mark_gone; [done|].
    intros x b y ->%elem_of_singleton Hb Hy. congruence. }
  assert (heap s !! r = None) as Hr.
  { destruct (heap s !! r) eqn:E; [|done]. pose proof (wf_fresh _ _ _ Wf r ltac:(eauto)). lia. }
  rewrite <- (difference_diag_L {[p]}).
  eapply (wf_link {[p]} W s _ p a a' r (remote_sock id t (Some p))); try done.
  - set_solver.
  - intros ->%elem_of_singleton. congruence.
  - rewrite Hpk'. by apply (wf_pkts _ _ _ Wf p a).
  - rewrite Hw', Hpk'. by apply (wf_wants _ _ _ Wf p a).
  - apply (wf_id _ _ _ Wf).
  - intros x _ [= <-]. eauto.
  - intros x. by apply trs_registered.
Qed.
