(* ===== verification/PacketsSafe.v ===== *)
(** * Safety of the protocol engine

    Whatever packet a device sends, [handle_packet] touches only live objects,
    returns (or exits when the packet socket is full), and re-establishes the
    invariant; the exception is a banner without a terminator. *)

From S2P Require Import Prelude CString Io Wire DList Fdevent Server Transports Sockets Packets SocketInv SocketOps SocketLink.

(** The state between two events of the main loop. *)
Definition quiet (s : sv) : Prop := wf ∅ ∅ s /\ slock s = false.

(** Sends keep the server quiet. *)
Lemma send_quiet p t s : quiet s -> fillable p -> is_Some (trs s !! t) ->
  wp (send_packet p (Some t)) s (fun _ s' => quiet s' /\ is_Some (trs s' !! t)).
Proof.
  intros [Wf Hs] Hf Ht. eapply wp_mono; [by apply (send_packet_wf ∅ ∅ ∅)|].
  intros _ s' (Wf' & F & _). split; [split; [done|by rewrite (fr_lock _ _ _ F)]|by eapply frame_live].
Qed.

Lemma upd_tr_quiet t f s : quiet s -> is_Some (trs s !! t) ->
  (forall u, t_disconnects (f u) = t_disconnects u) ->
  wp (upd_tr t f) s (fun _ s' => quiet s' /\ is_Some (trs s' !! t)).
Proof.
  intros [Wf Hs] [u Hu] Hf. eapply wp_upd_tr; [exact Hu|]. split; [split; [by eapply wf_upd_tr|done]|].
  eexists. apply lookup_insert_eq.
Qed.

Lemma handle_offline_quiet t s : quiet s -> is_Some (trs s !! t) ->
  wp (handle_offline t) s (fun _ s' => quiet s' /\ is_Some (trs s' !! t) /\ forall d, ~ dis_live d t s').
Proof.
  intros Hq Ht. unfold handle_offline. apply wp_bind.
  eapply wp_mono; [by apply upd_tr_quiet|]. intros _ s1 [[Wf1 Hs1] [u1 Hu1]].
  eapply wp_mono; [by apply (run_transport_disconnects_spec ∅ s1 t u1)|].
  intros _ s2 (Wf2 & Hs2 & _ & Hc & Hd). split; [done|]. split; [|done].
  specialize (Hc t). rewrite Hu1 in Hc. destruct (trs s2 !! t); [eauto|done].
Qed.

Lemma update_quiet s : quiet s ->
  wp update_transports s (fun _ s' => quiet s' /\ forall t, is_Some (trs s !! t) -> is_Some (trs s' !! t)).
Proof.
  intros [Wf Hs]. eapply wp_mono; [by apply (update_transports_spec ∅)|]. intros _ s' [Wf' [K F]].
  split; [split; [done|by rewrite (fr_lock _ _ _ F)]|]. intros t Ht. by eapply frame_live.
Qed.

(** ** The cases of [handle_packet] *)

Lemma on_sync_safe p t s : quiet s -> fillable p -> is_Some (trs s !! t) -> wp (on_sync p t) s (fun _ s' => quiet s').
Proof.
  intros Hq Hf Ht. unfold on_sync. case_if_goal.
  - apply wp_bind. eapply wp_mono; [by apply send_quiet|]. intros _ s1 [Hq1 Ht1].
    eapply wp_mono; [apply send_quiet; [done|apply mk_packet_fillable|done]|]. by intros _ s2 [? _].
  - apply wp_bind. eapply wp_mono; [by apply upd_tr_quiet|]. intros _ s1 [Hq1 Ht1].
    apply wp_bind. eapply wp_mono; [by apply handle_offline_quiet|]. intros _ s2 (Hq2 & Ht2 & _).
    eapply wp_mono; [by apply send_quiet|]. by intros _ s3 [? _].
Qed.

Lemma banner_prop_disconnects t tok : t_disconnects (banner_prop t tok) = t_disconnects t.
Proof. unfold banner_prop. destruct (split_chr _ _) as [[k v]|]; [|done]. by repeat case_if_goal. Qed.

Lemma banner_split_disconnects b t : t_disconnects (snd (banner_split b t)) = t_disconnects t.
Proof.
  unfold banner_split. destruct (split_chr (ch 58) b) as [[ty r]|]; [|done].
  destruct (split_chr (ch 58) r) as [[x props]|]; [|done]. simpl. generalize (tokens (ch 59) props). intros l.
  revert t. induction l as [|k l IH]; intros t; simpl; [done|]. by rewrite IH, banner_prop_disconnects.
Qed.

Lemma parse_banner_quiet b t s : quiet s -> is_Some (trs s !! t) ->
  wp (parse_banner b t) s (fun _ s' => quiet s' /\ is_Some (trs s' !! t)).
Proof.
  intros Hq [u Hu]. unfold parse_banner. apply wp_bind. eapply wp_get_tr; [exact Hu|].
  pose proof (banner_split_disconnects b u) as Hd. destruct (banner_split b u) as [type u1]. simpl in Hd.
  apply wp_bind. eapply wp_upd_tr; [exact Hu|]. set (s1 := upd_trs t u1 s).
  assert (quiet s1) as Hq1 by (destruct Hq; split; [by eapply wf_upd_tr|done]).
  assert (is_Some (trs s1 !! t)) as Ht1 by (eexists; apply lookup_insert_eq).
  assert (forall st, wp (upd_tr t (tr_connection_state st) ;; update_transports) s1
    (fun _ s' => quiet s' /\ is_Some (trs s' !! t))) as Hknown.
  { intros st. apply wp_bind. eapply wp_mono; [by apply upd_tr_quiet|]. intros _ s2 [Hq2 Ht2].
    eapply wp_mono; [by apply update_quiet|]. intros _ s3 [Hq3 H3]. auto. }
  repeat case_if_goal; try apply Hknown. by apply upd_tr_quiet.
Qed.

Lemma on_cnxn_safe p t s : quiet s -> is_Some (trs s !! t) -> x00 ∈ data p -> wp (on_cnxn p t) s (fun _ s' => quiet s').
Proof.
  intros Hq [u Hu] Hz. unfold on_cnxn. apply wp_bind. eapply wp_get_tr; [exact Hu|]. apply wp_bind.
  eapply (wp_mono _ _ (fun _ s1 => quiet s1 /\ is_Some (trs s1 !! t))).
  { apply wp_when; intros _; [|split; [done|eauto]]. apply wp_bind.
    eapply wp_mono; [apply upd_tr_quiet; [done|eauto|done]|]. intros _ s1 [Hq1 Ht1].
    eapply wp_mono; [by apply handle_offline_quiet|]. by intros _ s2 (? & ? & _). }
  intros _ s1 [Hq1 Ht1]. apply wp_bind. eapply wp_lift; [unfold payload_string; by rewrite bool_decide_eq_true_2|].
  apply wp_bind. eapply wp_mono; [by apply parse_banner_quiet|]. intros _ s2 [Hq2 Ht2].
  eapply wp_mono; [by apply upd_tr_quiet|]. by intros _ s3 [? _].
Qed.

Lemma on_auth_safe env p t s : quiet s -> is_Some (trs s !! t) -> fillable p -> 0 <= data_length (msg p) ->
  wp (on_auth env p t) s (fun _ s' => quiet s').
Proof.
  intros Hq Ht Hf Hpos. unfold on_auth. case_if_goal; [|case_if_goal].
  - apply wp_bind. eapply wp_mono; [by apply upd_tr_quiet|]. intros _ s1 [Hq1 [u1 Hu1]].
    apply wp_bind. eapply wp_get_tr; [exact Hu1|]. apply wp_bind.
    eapply wp_mono; [apply upd_tr_quiet; [done|eauto|done]|]. intros _ s2 [Hq2 Ht2].
    destruct (adb_auth_nextkey _ _) as [k|].
    + apply wp_bind. eapply wp_lift.
      { unfold data_prefix. unfold fillable in Hf. rewrite (proj2 (Z.leb_le _ _)); [done|]. lia. }
      unfold send_auth_response. destruct (e_sign env k _) as [|c sig]; [by apply wp_ret|].
      eapply wp_mono; [apply send_quiet; [done|apply mk_packet_fillable|done]|]. by intros _ s3 [? _].
    + unfold send_auth_publickey. destruct (adb_auth_get_userkey _ _) as [|c key]; [by apply wp_ret|].
      eapply wp_mono; [apply send_quiet; [done|apply mk_packet_fillable|done]|]. by intros _ s3 [? _].
  - eapply wp_mono; [by apply upd_tr_quiet|]. by intros _ s1 [? _].
  - by apply wp_ret.
Qed.

(** [find_local_socket] finds a listed socket with the id and, when one is
    asked for, with that peer; the state does not change. *)
Definition found (s : sv) (id pid : Z) (r : option ptr) : Prop :=
  match r with
  | None => True
  | Some p => exists a, p ∈ local_list s /\ heap s !! p = Some a /\ is_local a /\ a_closing a = false /\ a_id a = id /\
      (pid <> 0 -> exists q b, a_peer a = Some q /\ heap s !! q = Some b /\ a_id b = pid)
  end.

Lemma find_in_spec D W s id pid : wf D W s -> (forall p, p ∈ D -> p ∉ local_list s) ->
  forall l, (forall p, p ∈ l -> p ∈ local_list s) ->
  wp (find_in l id pid) s (fun r s' => s' = s /\ found s id pid r).
Proof.
  intros Wf HD. induction l as [|p l IH]; intros Hl; cbn [find_in]; [by apply wp_ret|].
  pose proof (Hl p (list_elem_of_here _ _)) as Hin. destruct (proj1 (wf_local _ _ _ Wf p) Hin) as (a & Hp & Hloc & Hc).
  apply wp_bind. eapply wp_get_sock; [exact Hp|]. destruct (Z.eqb_spec (a_id a) id) as [Hid|Hid]; simpl.
  2: { apply IH. intros q Hq. apply Hl. by right. }
  destruct (Z.eqb_spec pid 0) as [->|Hpid].
  - apply wp_ret. split; [done|]. exists a. split_and!; done.
  - destruct (a_peer a) as [q|] eqn:Hq; [|by apply wp_ret].
    destruct (wf_peer _ _ _ Wf p a q Hp) as (_ & _ & b & Hb & _); [intros HpD; by apply (HD p)|done|].
    apply wp_bind. eapply wp_get_sock; [exact Hb|]. apply wp_ret. split; [done|].
    destruct (Z.eqb_spec (a_id b) pid) as [Eb|]; [|done]. exists a. split_and!; try done. eauto.
Qed.

Lemma find_local_socket_spec s id pid : quiet s ->
  wp (find_local_socket id pid) s (fun r s' => s' = s /\ found s id pid r).
Proof.
  intros [Wf Hs]. unfold find_local_socket. apply wp_bind, wp_lock; [done|]. apply wp_bind, wp_gets, wp_bind.
  eapply wp_mono; [apply (find_in_spec ∅ ∅ (set_slock true s)); [by apply (wf_ext ∅ ∅ s)|set_solver|done]|].
  intros r s1 [-> Hr]. apply wp_bind. unfold unlock. apply wp_modify, wp_ret.
  split; [|exact Hr]. destruct s. simpl in *. by subst.
Qed.

Lemma ready_quiet s p a : quiet s -> heap s !! p = Some a -> wp (sock_ready p) s (fun _ s' => quiet s').
Proof.
  intros [Wf Hs] Hp. eapply wp_mono; [by apply (sock_ready_spec ∅ s p a)|]. intros _ s' (Wf' & F & _).
  split; [done|by rewrite (fr_lock _ _ _ F)].
Qed.

Lemma close_quiet s p a : quiet s -> heap s !! p = Some a -> wp (sock_close p) s (fun _ s' => quiet s').
Proof.
  intros [Wf Hs] Hp. eapply wp_mono; [by apply (sock_close_spec ∅ s p a)|]. intros _ s' (Wf' & F & _).
  split; [eapply wf_weaken; [|exact Wf']; set_solver|by rewrite (fr_lock _ _ _ F)].
Qed.

Lemma upd_heap_twice p a b i h s :
  upd_heap p a (set_io i (upd_heap p b (set_heap h s))) = set_io i (set_heap (<[p := a]> (<[p := b]> h)) s).
Proof. by destruct s. Qed.

(** The first [A_OKAY] on a socket that waits for it. *)
Lemma first_okay_safe s p a id t :
  quiet s -> heap s !! p = Some a -> is_local a -> a_closing a = false -> a_peer a = None ->
  is_u32 id -> id <> 0 -> is_Some (trs s !! t) ->
  wp (link_remote p id t ;; sock_ready p) s (fun _ s' => quiet s').
Proof.
  intros [Wf Hs] Hp Hl Hc Hpe Hid Hid0 [u Hu]. pose proof (wf_sock _ _ _ Wf p a Hp) as Hok.
  assert (next_ptr s <> p) as Hne by (pose proof (wf_fresh _ _ _ Wf p ltac:(eauto)); lia).
  apply wp_bind. eapply wp_link_remote; [exact Wf|exact Hp|done|exact Hu|]. cbv zeta.
  set (r := next_ptr s) in *. set (s1 := set_heap _ _).
  assert (heap s1 !! p = Some (sk_peer (Some r) a)) as Hp1 by (unfold s1; simpl; rewrite lookup_insert_ne by done; apply lookup_insert_eq).
  destruct Hok as (Hk & Hx & Hi). unfold is_local in Hl. rewrite Hl in Hk.
  destruct Hk as [Hsh [[Hr Hcl]|(Hr & Hcl & _ & Hpk & _)]].
  - apply (ready_quiet s1 p (sk_peer (Some r) a)); [|done]. split; [|done].
    rewrite <- (set_io_id s1). apply (wf_linked ∅ s p a (sk_peer (Some r) a) r id t u); try done.
    split; [|done]. simpl. rewrite Hl. auto.
  - unfold sock_ready. apply wp_bind. eapply wp_get_sock; [exact Hp1|]. simpl. rewrite Hr.
    apply wp_bind. eapply wp_get_sock; [exact Hp1|]. apply wp_bind. eapply wp_upd_sock; [exact Hp1|]. apply wp_bind, wp_fd_write. intros w i _.
    unfold local_socket_ready, sock_fde_add. eapply wp_upd_sock; [apply lookup_insert_eq|].
    set (a' := sk_fde _ _). split; [|done].
    unfold s1. rewrite upd_heap_twice, insert_insert_eq, (insert_insert_ne _ p r), insert_insert_eq by done.
    apply (wf_linked ∅ s p a a' r id t u); try done.
    + split; [|done]. simpl. rewrite Hl. auto.
    + unfold wants. simpl. apply fde_add_read_write.
Qed.

(** The header fields of a packet are 32-bit words and its data are there. *)
Definition pkt_wire (p : apacket) : Prop :=
  fillable p /\ 0 <= data_length (msg p) /\ is_u32 (arg0 (msg p)) /\ is_u32 (arg1 (msg p)).

Lemma on_okay_safe p t s : quiet s -> is_Some (trs s !! t) -> pkt_wire p -> wp (on_okay p t) s (fun _ s' => quiet s').
Proof.
  intros Hq [u Hu] (_ & _ & H0 & _). unfold on_okay. apply wp_bind. eapply wp_get_tr; [exact Hu|].
  apply wp_when; [|done]. intros E. apply andb_true_iff in E as [E _]. apply andb_true_iff in E as [_ Hn].
  apply negb_true_iff, Z.eqb_neq in Hn.
  apply wp_bind. eapply wp_mono; [by apply find_local_socket_spec|]. intros [x|] s1 [-> Hf]; [|by apply wp_ret].
  destruct Hf as (a & _ & Ha & Hl & Hc & _). apply wp_bind. eapply wp_get_sock; [exact Ha|].
  destruct (a_peer a) as [q|] eqn:Hpe; [|by eapply first_okay_safe].
  destruct Hq as [Wf Hs]. destruct (wf_peer _ _ _ Wf x a q Ha ltac:(apply not_elem_of_empty) Hpe) as (_ & _ & b & Hb & _).
  apply wp_bind. eapply wp_get_sock; [exact Hb|]. apply wp_when; [|done]. intros _. by apply (ready_quiet s x a).
Qed.

Lemma on_clse_safe p t s : quiet s -> is_Some (trs s !! t) -> wp (on_clse p t) s (fun _ s' => quiet s').
Proof.
  intros Hq [u Hu]. unfold on_clse. apply wp_bind. eapply wp_get_tr; [exact Hu|]. apply wp_when; [|done]. intros _.
  apply wp_bind. eapply wp_mono; [by apply find_local_socket_spec|]. intros [x|] s1 [-> Hf]; [|by apply wp_ret].
  destruct Hf as (a & _ & Ha & Hl & Hc & _). apply wp_bind. eapply wp_get_sock; [exact Ha|].
  apply wp_bind. eapply (wp_mono _ _ (fun _ s1 => s1 = s)).
  { destruct (a_peer a) as [q|] eqn:Hpe; [|by apply wp_ret]. destruct Hq as [Wf _].
    destruct (wf_peer _ _ _ Wf x a q Ha ltac:(apply not_elem_of_empty) Hpe) as (_ & _ & b & Hb & _).
    apply wp_bind. eapply wp_get_sock; [exact Hb|]. by apply wp_ret. }
  intros f s1 ->. case_if_goal; [by apply wp_ret|]. by apply (close_quiet s x a).
Qed.

Lemma on_wrte_safe p t s : quiet s -> is_Some (trs s !! t) -> pkt_wire p -> wp (on_wrte p t) s (fun _ s' => quiet s').
Proof.
  intros Hq [u Hu] (Hf & H0 & _). unfold on_wrte. apply wp_bind. eapply wp_get_tr; [exact Hu|].
  apply wp_when; [|done]. intros E. apply andb_true_iff in E as [E _]. apply andb_true_iff in E as [_ Hn].
  apply negb_true_iff, Z.eqb_neq in Hn.
  apply wp_bind. eapply wp_mono; [by apply find_local_socket_spec|]. intros [x|] s1 [-> Hfd]; [|by apply wp_ret].
  destruct Hfd as (a & _ & Ha & Hl & Hc & Hid & Hpeer). destruct (Hpeer Hn) as (q & b & Hpe & Hb & _).
  destruct Hq as [Wf Hs]. apply wp_bind. unfold listed_enqueue. apply wp_bind. eapply wp_get_sock; [exact Ha|].
  rewrite Hl. eapply wp_mono; [apply (local_socket_enqueue_spec ∅ s x a); try done|].
  { unfold pkt_ok. simpl. rewrite drop_0. unfold fillable in Hf. lia. }
  intros r s2 (Wf2 & F2 & Hr).
  assert (quiet s2) as Hq2 by (split; [done|by rewrite (fr_lock _ _ _ F2)]).
  apply wp_when; [|done]. intros Er%Z.eqb_eq. destruct Hr as [[_ ?]|(_ & _ & a' & Ha' & _)]; [lia|].
  apply wp_bind. eapply wp_get_sock; [exact Ha'|].
  eapply wp_mono; [apply send_quiet; [done|apply mk_packet_fillable|eapply frame_live; [exact F2|eauto]]|].
  by intros _ s3 [? _].
Qed.

Lemma on_open_safe p t s : quiet s -> is_Some (trs s !! t) -> pkt_wire p -> wp (on_open p t) s (fun _ s' => quiet s').
Proof.
  intros Hq [u Hu] (_ & _ & H0 & _). unfold on_open. apply wp_bind. eapply wp_get_tr; [exact Hu|].
  apply wp_when; [|done]. intros E. apply andb_true_iff in E as [E _]. apply andb_true_iff in E as [_ Hn].
  apply negb_true_iff, Z.eqb_neq in Hn. apply wp_bind. unfold create_local_service_socket. apply wp_bind.
  eapply (wp_mono _ _ (fun _ s1 => exists i c, s1 = set_io i (set_conns c s))).
  { unfold service_to_fd. case_if_goal; [|apply wp_ret; exists (io s), (conns s); by destruct s].
    unfold next_fd, wp. destruct (conns s) as [|[fd f] r] eqn:Ec; [exists (io s), (conns s); by destruct s|].
    destruct (0 <=? fd); [by eexists _, _|]. exists (io s), r. by destruct s. }
  intros fd s1 (i & c & ->). set (s1 := set_io i (set_conns c s)).
  assert (quiet s1) as Hq1 by (destruct Hq; split; [by apply (wf_ext ∅ ∅ s)|done]).
  destruct (fd <? 0).
  { apply wp_ret. eapply wp_mono; [apply send_quiet; [done|apply mk_packet_fillable|by exists u]|]. by intros _ s2 [? _]. }
  destruct Hq1 as [Wf1 Hs1]. apply wp_bind.
  eapply wp_mono; [by apply (create_local_socket_spec ∅ ∅ s1 fd)|].
  intros x s2 (Wf2 & Hs2 & -> & Hx & Hoth & Etr & _). apply wp_ret.
  set (a := mksock _ _ _ _ _ _ _ _ _ _ _ _ _) in Hx. set (x := next_ptr s1) in *.
  assert (trs s2 !! t = Some u) as Hu2 by (by rewrite Etr).
  assert (next_ptr s2 <> x) as Hne by (pose proof (wf_fresh _ _ _ Wf2 x ltac:(eauto)); lia).
  apply wp_bind. eapply wp_link_remote; [exact Wf2|exact Hx|done|exact Hu2|]. cbv zeta.
  set (r := next_ptr s2) in *. set (s3 := set_heap _ _).
  assert (heap s3 !! x = Some (sk_peer (Some r) a)) as Hx3 by (unfold s3; simpl; rewrite lookup_insert_ne by done; apply lookup_insert_eq).
  assert (quiet s3) as Hq3.
  { split; [|done]. rewrite <- (set_io_id s3). apply (wf_linked ∅ s2 x a (sk_peer (Some r) a) r (arg0 (msg p)) t u); try done.
    pose proof (wf_sock _ _ _ Wf2 x a Hx) as Hok. eapply sock_ok_same; [exact Hok|done..|apply Hok|done]. }
  apply wp_bind. eapply wp_get_sock; [exact Hx3|]. apply wp_bind. eapply wp_get_sock; [apply lookup_insert_eq|].
  apply wp_bind. eapply wp_mono; [eapply (send_packet_wf ∅ ∅ ∅); [apply Hq3|apply mk_packet_fillable|]|].
  { unfold s3. simpl. eexists. apply lookup_insert_eq. }
  intros _ s4 (Wf4 & F4 & Eh4). apply (ready_quiet s4 x (sk_peer (Some r) a)); [|by rewrite Eh4].
  split; [done|]. by rewrite (fr_lock _ _ _ F4).
Qed.

Lemma handle_packet_quiet env p t s :
  quiet s -> is_Some (trs s !! t) -> pkt_wire p ->
  (command (msg p) = A_CNXN -> x00 ∈ data p) ->
  wp (handle_packet env p t) s (fun _ s' => quiet s').
Proof.
  intros Hq Ht Hp Hz. pose proof Hp as (Hf & Hpos & _). unfold handle_packet.
  case_if_goal; [by apply on_sync_safe|]. case_if_goal; [apply on_cnxn_safe; try done; apply Hz; lia|].
  case_if_goal; [by apply on_auth_safe|]. case_if_goal; [by apply on_open_safe|].
  case_if_goal; [by apply on_okay_safe|]. case_if_goal; [by apply on_clse_safe|].
  case_if_goal; [by apply on_wrte_safe|]. case_if_goal; [|by apply wp_ret].
  unfold on_hdsk. case_if_goal; [|by apply wp_ret].
  eapply wp_mono; [apply send_quiet; [done|apply mk_packet_fillable|done]|]. by intros _ s1 [? _].
Qed.
