(* ===== verification/Keeps.v ===== *)
(** * Operations that keep every transport

    Only the removal message of a transport's reference count frees an
    [atransport]; the operations on sockets and packets never do.  [keeps] says
    so of one computation, and composes. *)

From S2P Require Import Prelude CString Io Wire DList Fdevent Server Transports Sockets Packets.

(** What such an operation may do to a transport: packets are appended to its
    queue; its references, its descriptors and its place are left alone. *)
Record grown (u u' : atransport) : Prop := {
  gr_out : t_out u `prefix_of` t_out u';
  gr_ref : t_ref_count u' = t_ref_count u;
  gr_kicked : t_kicked u' = t_kicked u;
  gr_type : t_type u' = t_type u;
  gr_serial : t_serial u' = t_serial u;
  gr_fds : t_sfd u' = t_sfd u /\ t_socket u' = t_socket u /\ t_fd u' = t_fd u;
  gr_stale : t_stale u' = t_stale u }.

#[export] Instance grown_preorder : PreOrder grown.
Proof.
  split; [by constructor|]. intros u v w [H1 H2 H3 H4 H5 H6 H7] [K1 K2 K3 K4 K5 K6 K7].
  constructor; [by etrans|congruence..| |congruence]. destruct H6 as (-> & -> & ->) in K6. done.
Qed.

Definition keeps {A} (m : M A) : Prop := forall s a s', m s = Ok (a, s') ->
  actions s' = actions s /\
  forall t u, trs s !! t = Some u -> exists u', trs s' !! t = Some u' /\ grown u u'.

Create HintDb keeps.

Lemma keeps_same {A} (m : M A) :
  (forall s a s', m s = Ok (a, s') -> trs s' = trs s /\ actions s' = actions s) -> keeps m.
Proof. intros H s a s' E. destruct (H s a s' E) as [-> ->]. split; [done|]. intros t u Hu. by exists u. Qed.
Lemma keeps_ret {A} (a : A) : keeps (ret a).
Proof. apply keeps_same. by intros s x s' [= <- <-]. Qed.
Lemma keeps_bind {A B} (m : M A) (k : A -> M B) : keeps m -> (forall a, keeps (k a)) -> keeps (bind m k).
Proof.
  intros Hm Hk s b s'. unfold bind. destruct (m s) as [[a s1]| | |] eqn:E; [|done..]. intros E2.
  destruct (Hm _ _ _ E) as [A1 H1]. destruct (Hk _ _ _ _ E2) as [A2 H2]. split; [congruence|]. intros t u Hu.
  destruct (H1 t u Hu) as (u1 & Hu1 & G1). destruct (H2 t u1 Hu1) as (u2 & Hu2 & G2). exists u2. split; [done|by etrans].
Qed.
Lemma keeps_stop {A} w : keeps (A := A) (stop w).
Proof. by intros s a s'. Qed.
Lemma keeps_undefined {A} w : keeps (A := A) (undefined w).
Proof. by intros s a s'. Qed.
Lemma keeps_diverge {A} : keeps (A := A) diverge.
Proof. by intros s a s'. Qed.
Lemma keeps_gets {A} (f : sv -> A) : keeps (gets f).
Proof. apply keeps_same. by intros s a s' [= <- <-]. Qed.
Lemma keeps_lift {A} (r : res A) : keeps (lift r).
Proof. apply keeps_same. intros s a s'. unfold lift. destruct r; simpl; [|done..]. by intros [= <- <-]. Qed.
Lemma keeps_modify f : (forall s, trs (f s) = trs s /\ actions (f s) = actions s) -> keeps (modify f).
Proof. intros H. apply keeps_same. by intros s a s' [= <- <-]. Qed.
Lemma keeps_when b m : keeps m -> keeps (when b m).
Proof. destruct b; [done|]. intros _. apply keeps_ret. Qed.
Lemma keeps_get_sock p : keeps (get_sock p).
Proof. apply keeps_same. intros s a s'. unfold get_sock. destruct (heap s !! p); [|done]. by intros [= <- <-]. Qed.
Lemma keeps_get_tr p : keeps (get_tr p).
Proof. apply keeps_same. intros s a s'. unfold get_tr. destruct (trs s !! p); [|done]. by intros [= <- <-]. Qed.
Lemma keeps_get_lis p : keeps (get_lis p).
Proof. apply keeps_same. intros s a s'. unfold get_lis. destruct (listeners s !! p); [|done]. by intros [= <- <-]. Qed.
Lemma keeps_new_sock a : keeps (new_sock a).
Proof. apply keeps_same. by intros s x s' [= <- <-]. Qed.
Lemma keeps_lock : keeps lock.
Proof. apply keeps_same. intros s a s'. unfold lock. destruct (slock s); [done|]. by intros [= <- <-]. Qed.
Lemma keeps_live : keeps live_transports.
Proof. apply keeps_same. intros s a s'. unfold live_transports. destruct (mapM _ _); [|done]. by intros [= <- <-]. Qed.
Lemma keeps_next_fd : keeps next_fd.
Proof.
  apply keeps_same. intros s a s'. unfold next_fd. destruct (conns s) as [|[fd f] r]; intros [= <- <-]; [done|].
  by destruct (0 <=? fd).
Qed.
Lemma keeps_insert s t u : forall x, is_Some (trs s !! x) -> is_Some (<[t := u]> (trs s) !! x).
Proof. intros x Hx. apply lookup_insert_is_Some. destruct (decide (t = x)); auto. Qed.

(** A transport that is read and then replaced by one that has grown. *)
Lemma keeps_put_tr {A} (t : ptr) (m : atransport -> M A) :
  (forall u s a s', trs s !! t = Some u -> m u s = Ok (a, s') ->
     actions s' = actions s /\ exists u', trs s' = <[t := u']> (trs s) /\ grown u u') ->
  keeps (do u <- get_tr t; m u).
Proof.
  intros H s a s'. unfold bind, get_tr. destruct (trs s !! t) as [u|] eqn:Hu; [|done]. intros E.
  destruct (H u s a s' Hu E) as (Ha & u' & Ht & G). split; [done|]. intros x v Hx. rewrite Ht.
  destruct (decide (t = x)) as [<-|Hne].
  - rewrite lookup_insert_eq. rewrite Hu in Hx. simplify_eq. eauto.
  - rewrite lookup_insert_ne by done. by exists v.
Qed.
Lemma keeps_upd_tr t f : (forall u, grown u (f u)) -> keeps (upd_tr t f).
Proof. intros Hf. apply keeps_put_tr. intros u s a s' _ [= <- <-]. split; [done|]. by exists (f u). Qed.

Lemma keeps_get_put {A} t (g : atransport -> atransport) (m k : atransport -> M A) :
  (forall u, grown u (g u)) -> (forall u, m u = (upd_tr t (fun _ => g u) ;; k u)) -> (forall u, keeps (k u)) ->
  keeps (do u <- get_tr t; m u).
Proof.
  intros Hg Hm Hk s a s' E. unfold bind, get_tr in E. destruct (trs s !! t) as [u|] eqn:Hu; [|done]. rewrite Hm in E.
  unfold upd_tr, bind, get_tr, modify in E. rewrite Hu in E. destruct (Hk _ _ _ _ E) as [Ha H]. split; [done|].
  intros x v Hx. destruct (decide (t = x)) as [<-|Hne].
  - destruct (H t (g u)) as (u' & Hu' & G); [apply lookup_insert_eq|]. simplify_eq. exists u'. split; [done|]. etrans; [apply Hg|exact G].
  - apply H. cbn. by rewrite lookup_insert_ne.
Qed.

#[export] Hint Resolve keeps_ret keeps_stop keeps_undefined keeps_diverge keeps_gets keeps_lift keeps_get_sock
  keeps_get_tr keeps_get_lis keeps_new_sock keeps_lock keeps_live keeps_next_fd : keeps.

(** Follow the structure of the computation. *)
Ltac keeps_step :=
  lazymatch goal with
  | |- forall _, _ => intro
  | |- keeps (bind _ _) => apply keeps_bind
  | |- keeps (when _ _) => apply keeps_when
  | |- keeps (modify _) => apply keeps_modify; intros []; split; reflexivity
  | |- keeps (upd_tr _ _) => apply keeps_upd_tr; by constructor
  | |- keeps (match ?x with _ => _ end) => destruct x
  | |- keeps (let '_ := ?x in _) => destruct x
  | |- _ => solve [auto with keeps]
  end.
Ltac keeps := repeat keeps_step.

Lemma keeps_upd_sock p f : keeps (upd_sock p f).
Proof. unfold upd_sock, put_sock. keeps. Qed.
Lemma keeps_free_sock p : keeps (free_sock p).
Proof. unfold free_sock. keeps. Qed.
Lemma keeps_fd_write fd d : keeps (fd_write fd d).
Proof. unfold fd_write, get_fd, put_fd. keeps. Qed.
Lemma keeps_fd_writex fd d : keeps (fd_writex fd d).
Proof. unfold fd_writex, get_fd, put_fd. keeps. Qed.
Lemma keeps_fd_read fd n : keeps (fd_read fd n).
Proof. unfold fd_read, get_fd, put_fd. keeps. Qed.
Lemma keeps_fd_close fd : keeps (fd_close fd).
Proof. unfold fd_close. keeps. Qed.
Lemma keeps_unlock : keeps unlock.
Proof. unfold unlock. keeps. Qed.
#[export] Hint Resolve keeps_upd_sock keeps_free_sock keeps_fd_write keeps_fd_writex keeps_fd_read keeps_fd_close
  keeps_unlock : keeps.

Lemma keeps_send_packet p t : keeps (send_packet p t).
Proof.
  unfold send_packet. apply keeps_bind; [keeps|]. intros p1. destruct t as [t|]; [|keeps]. apply keeps_put_tr.
  intros u s a s' Hu. destruct (t_room u); [done|]. unfold upd_tr, bind, get_tr. rewrite Hu. intros [= <- <-].
  split; [done|]. eexists. split; [done|]. constructor; try done. by apply prefix_app_r.
Qed.
Lemma keeps_sendfailmsg fd r : keeps (sendfailmsg fd r).
Proof. unfold sendfailmsg. keeps. Qed.
#[export] Hint Resolve keeps_send_packet keeps_sendfailmsg : keeps.

Lemma keeps_find_in l i j : keeps (find_in l i j).
Proof. induction l as [|p l IH]; cbn [find_in]; keeps. Qed.
#[export] Hint Resolve keeps_find_in : keeps.
Lemma keeps_find i j : keeps (find_local_socket i j).
Proof. unfold find_local_socket. keeps. Qed.
Lemma keeps_install p : keeps (install_local_socket p).
Proof. unfold install_local_socket. keeps. Qed.
Lemma keeps_remove_socket p : keeps (remove_socket p).
Proof. unfold remove_socket. keeps. Qed.
Lemma keeps_fde_add e p : keeps (sock_fde_add e p).
Proof. apply keeps_upd_sock. Qed.
Lemma keeps_fde_del e p : keeps (sock_fde_del e p).
Proof. apply keeps_upd_sock. Qed.
Lemma keeps_fde_remove p : keeps (sock_fde_remove p).
Proof. unfold sock_fde_remove. keeps. Qed.
Lemma keeps_peer_id a : keeps (peer_id a).
Proof. unfold peer_id. keeps. Qed.
Lemma keeps_add_dis t d : keeps (add_transport_disconnect t d).
Proof. unfold add_transport_disconnect. keeps. Qed.
Lemma keeps_remove_dis t d : keeps (remove_transport_disconnect t d).
Proof. unfold remove_transport_disconnect. keeps. Qed.
#[export] Hint Resolve keeps_find keeps_install keeps_remove_socket keeps_fde_add keeps_fde_del keeps_fde_remove
  keeps_peer_id keeps_add_dis keeps_remove_dis : keeps.

Lemma keeps_shutdown p : keeps (remote_socket_shutdown p).
Proof. unfold remote_socket_shutdown. keeps. Qed.
Lemma keeps_destroy p : keeps (local_socket_destroy p).
Proof. unfold local_socket_destroy. keeps. Qed.
#[export] Hint Resolve keeps_shutdown keeps_destroy : keeps.
Lemma keeps_finish p : keeps (local_socket_finish p).
Proof. unfold local_socket_finish. keeps. Qed.
Lemma keeps_tracker_remove p : keeps (device_tracker_remove p).
Proof. unfold device_tracker_remove. keeps. Qed.
#[export] Hint Resolve keeps_finish keeps_tracker_remove : keeps.
Lemma keeps_do_close n d p : keeps (do_close n d p).
Proof. revert d p. induction n as [|n IH]; intros d p; close_step; keeps. Qed.
#[export] Hint Resolve keeps_do_close : keeps.
Lemma keeps_sock_close p : keeps (sock_close p).
Proof. apply keeps_do_close. Qed.
Lemma keeps_flush n fd p : keeps (flush_pkt n fd p).
Proof. revert p. induction n as [|n IH]; intros p; cbn [flush_pkt]; keeps. Qed.
#[export] Hint Resolve keeps_sock_close keeps_flush : keeps.
Lemma keeps_local_enqueue p k : keeps (local_socket_enqueue p k).
Proof. unfold local_socket_enqueue, flush. keeps. Qed.
#[export] Hint Resolve keeps_local_enqueue : keeps.
Lemma keeps_tracker_send p b : keeps (device_tracker_send p b).
Proof. unfold device_tracker_send. keeps. Qed.
#[export] Hint Resolve keeps_tracker_send : keeps.
Lemma keeps_send_all l b : keeps (send_to_trackers l b).
Proof. induction l as [|p l IH]; cbn [send_to_trackers]; keeps. Qed.
#[export] Hint Resolve keeps_send_all : keeps.
Lemma keeps_update : keeps update_transports.
Proof. unfold update_transports. keeps. Qed.
Lemma keeps_ready p : keeps (sock_ready p).
Proof. unfold sock_ready, local_socket_ready_notify, remote_socket_ready, smart_socket_ready, device_tracker_ready, local_socket_ready. keeps. Qed.
#[export] Hint Resolve keeps_update keeps_ready : keeps.
Lemma keeps_create_local fd : keeps (create_local_socket fd).
Proof. unfold create_local_socket. keeps. Qed.
Lemma keeps_create_remote i t : keeps (create_remote_socket i t).
Proof. unfold create_remote_socket. keeps. Qed.
Lemma keeps_free_listener l : keeps (free_listener l).
Proof. unfold free_listener. keeps. Qed.
#[export] Hint Resolve keeps_create_local keeps_create_remote keeps_free_listener : keeps.
Lemma keeps_run_disconnect d : keeps (run_disconnect d).
Proof. unfold run_disconnect. keeps. Qed.
#[export] Hint Resolve keeps_run_disconnect : keeps.
Lemma keeps_run_disconnects l : keeps (run_disconnects l).
Proof. induction l as [|d l IH]; cbn [run_disconnects]; keeps. Qed.
#[export] Hint Resolve keeps_run_disconnects : keeps.
Lemma keeps_offline t : keeps (handle_offline t).
Proof. unfold handle_offline, run_transport_disconnects. keeps. Qed.
Lemma keeps_online t : keeps (handle_online t).
Proof. unfold handle_online. keeps. Qed.
Lemma banner_props_grown l u : grown u (fold_left banner_prop l u).
Proof.
  revert u. induction l as [|x l IH]; intros u; cbn [fold_left]; [done|].
  etrans; [|apply IH]. unfold banner_prop. repeat case_match; by constructor.
Qed.
Lemma banner_split_grown b u : grown u (banner_split b u).2.
Proof. unfold banner_split. repeat case_match; cbn [snd]; [apply banner_props_grown|done..]. Qed.
Lemma keeps_parse_banner b t : keeps (parse_banner b t).
Proof.
  pose (known state := upd_tr t (tr_connection_state state) ;; update_transports).
  apply (keeps_get_put t (fun u => (banner_split b u).2) _ (fun u =>
    let ty := (banner_split b u).1 in
    if streq ty (lit "bootloader") then known CS_BOOTLOADER
    else if streq ty (lit "device") then known CS_DEVICE
    else if streq ty (lit "recovery") then known CS_RECOVERY
    else if streq ty (lit "sideload") then known CS_SIDELOAD
    else upd_tr t (tr_connection_state CS_HOST))).
  - apply banner_split_grown.
  - intros u. by destruct (banner_split b u).
  - intros u. cbv zeta. unfold known. keeps.
Qed.
Lemma keeps_link p i t : keeps (link_remote p i t).
Proof. unfold link_remote. keeps. Qed.
Lemma keeps_service_to_fd n : keeps (service_to_fd n).
Proof. unfold service_to_fd. keeps. Qed.
#[export] Hint Resolve keeps_offline keeps_online keeps_parse_banner keeps_link keeps_service_to_fd : keeps.

Lemma keeps_drain n fd p : keeps (drain_pkts n fd p).
Proof. revert p. induction n as [|n IH]; intros p; cbn [drain_pkts]; unfold flush; keeps. Qed.
#[export] Hint Resolve keeps_drain : keeps.
Lemma keeps_event_write fd p : keeps (event_write fd p).
Proof. unfold event_write. keeps. Qed.
#[export] Hint Resolve keeps_event_write : keeps.

Lemma keeps_handle_packet env p t : keeps (handle_packet env p t).
Proof.
  unfold handle_packet, on_sync, on_cnxn, on_auth, on_open, on_okay, on_clse, on_wrte, on_hdsk, send_connect,
    send_auth_response, send_auth_publickey, create_local_service_socket, send_close, send_ready, listed_enqueue.
  keeps.
Qed.
#[export] Hint Resolve keeps_handle_packet : keeps.

Lemma keeps_first l t : keeps (first_of_transport l t).
Proof. induction l as [|p l IH]; cbn [first_of_transport]; keeps. Qed.
#[export] Hint Resolve keeps_first : keeps.
Lemma keeps_close_all_loop n t : keeps (close_all_loop n t).
Proof. induction n as [|n IH]; cbn [close_all_loop]; keeps. Qed.
#[export] Hint Resolve keeps_close_all_loop : keeps.
Lemma keeps_close_all t : keeps (close_all_sockets t).
Proof. unfold close_all_sockets. keeps. Qed.
