(* ===== verification/EngineProps.v ===== *)
(** * What the protocol engine and the sockets guarantee

    The theorems of this file are about [handle_packet] and about the socket
    operations it calls, run from any state between two events of the main
    loop.  The states of the witnesses are reached from a server with one PAX
    terminal attached. *)

From S2P Require Import Prelude CString Io Wire DList Fdevent Server Transports Sockets Packets SocketInv SocketOps SocketLink PacketsSafe Keeps.

(** ** A server with one terminal *)

Definition demo_tr : atransport :=
  mktr (Some (lit "PAX1")) None None None None kTransportUsb 0 CS_DEVICE true false 2 None 0 [] [] 8 (Some 7%nat) (-1) 20 21 None.
Definition demo : sv :=
  mksv ∅ [] [] 1 100%nat [] {[1%nat := demo_tr]} [1%nat] [] ∅ [] ∅ [(5, mkfio [RBytes (lit "ping"); RAgain] [WUpto 1; WAgain] [])] [] false [] [].

Lemma demo_quiet : quiet demo.
Proof.
  split; [|done]. constructor; simpl.
  all: try (intros *; rewrite ?lookup_empty; by intros).
  - intros p. rewrite elem_of_nil, lookup_empty. naive_solver.
  - intros p. rewrite elem_of_nil, lookup_empty. naive_solver.
  - split_and!; constructor.
  - intros t u Hu. apply lookup_singleton_Some in Hu as [<- <-]. split; [constructor|]. simpl.
    split; intros x; rewrite elem_of_nil; [done|]. rewrite lookup_empty. naive_solver.
  - intros p. rewrite elem_of_nil, lookup_empty. naive_solver.
  - intros t ->%list_elem_of_singleton. eauto.
  - split; [constructor|]. intros l. rewrite elem_of_nil, lookup_empty. split; [done|]. by intros [? ?].
  - intros t [u Hu]. apply lookup_singleton_Some in Hu as [<- _]. lia.
Qed.

(** A packet with its checksum and magic, as it is sent. *)
Definition wire_packet (c a0 a1 : Z) (d : bytes) : apacket :=
  match send_packet_fill (mk_packet c a0 a1 d) with Ok p => p | _ => get_apacket end.

Lemma wp_send t u c a0 a1 d s (Q : unit -> sv -> Prop) : trs s !! t = Some u ->
  (forall r, t_room u = S r -> Q tt (upd_trs t (tr_queue (t_out u ++ [wire_packet c a0 a1 d]) r u) s)) ->
  wp (send_packet (mk_packet c a0 a1 d) (Some t)) s Q.
Proof.
  intros Hu H. eapply wp_send_packet; [apply mk_packet_fillable|exact Hu|]. intros p1 r E Er.
  unfold wire_packet in H. rewrite E in H. by apply H.
Qed.

(** ** Packets never corrupt the server *)

Lemma wp_grows {A} (m : M A) s (Q : A -> sv -> Prop) : keeps m -> wp m s Q ->
  wp m s (fun a s' => Q a s' /\ actions s' = actions s /\
    forall t u, trs s !! t = Some u -> exists u', trs s' !! t = Some u' /\ grown u u').
Proof.
  unfold wp. intros Hk H. destruct (m s) as [[a s1]| | |] eqn:E; [|done..]. split; [done|]. by apply (Hk s a s1).
Qed.
Lemma wp_keeps {A} (m : M A) s (Q : A -> sv -> Prop) : keeps m -> wp m s Q ->
  wp m s (fun a s' => Q a s' /\ forall t, is_Some (trs s !! t) -> is_Some (trs s' !! t)).
Proof.
  intros Hk H. eapply wp_mono; [by apply wp_grows|]. intros a s' (HQ & _ & Hg). split; [done|]. intros t [u Hu].
  destruct (Hg t u Hu) as (u' & ? & _). eauto.
Qed.

Lemma packet_ok_wire p : packet_ok p -> pkt_wire p.
Proof.
  intros ((_ & H0 & H1 & _) & _ & Hl & _). unfold pkt_wire, fillable. split_and!; [lia|lia|done|done].
Qed.

(** The packets a transport delivers, in the order [transport_socket_events]
    hands them to [handle_packet]. *)
Fixpoint handle_packets (env : auth_env) (l : list (ptr * apacket)) : M unit :=
  match l with [] => ret tt | (t, p) :: r => handle_packet env p t ;; handle_packets env r end.

(** What a transport can deliver: a packet its reader accepted.  A banner is
    asked to be terminated, which the reader does not check. *)
Definition deliverable (p : apacket) : Prop := packet_ok p /\ (command (msg p) = A_CNXN -> x00 ∈ data p).

Lemma handle_packets_quiet env l : forall s,
  quiet s -> Forall (fun '(t, p) => is_Some (trs s !! t) /\ deliverable p) l ->
  wp (handle_packets env l) s (fun _ s' => quiet s' /\ forall t, is_Some (trs s !! t) -> is_Some (trs s' !! t)).
Proof.
  induction l as [|[t p] l IH]; intros s Hq Hl; cbn [handle_packets]; [by apply wp_ret|].
  apply Forall_cons in Hl as [[Ht [Hp Hz]] Hl]. apply wp_bind.
  eapply wp_mono; [apply wp_keeps; [apply keeps_handle_packet|]; apply handle_packet_quiet; [done|done|by apply packet_ok_wire|done]|].
  intros _ s1 [Hq1 Hlive]. eapply wp_mono; [apply IH; [done|]|].
  - eapply Forall_impl; [exact Hl|]. intros [t' p'] [? ?]. auto.
  - intros _ s2 [Hq2 Hlive2]. auto.
Qed.

(** Any sequence of packets, from any transports, is handled without a use
    of a freed or NULL object and without a deadlock, leaves every invariant of
    the socket graph in place, and frees no transport. *)
Theorem packets_safe env l s
  (Hq : quiet s) (Hl : Forall (fun '(t, p) => is_Some (trs s !! t) /\ deliverable p) l) :
  wp (handle_packets env l) s (fun _ s' => wf ∅ ∅ s' /\ slock s' = false /\ dom (trs s) ⊆ dom (trs s')).
Proof.
  eapply wp_mono; [by apply handle_packets_quiet|]. intros _ s' [[Wf Hs] Hk]. split_and!; [done|done|].
  intros t. rewrite !elem_of_dom. apply Hk.
Qed.

(** A stream opened, written to (the client takes two bytes and then blocks) and
    closed by the device. *)
Definition demo_session : list (ptr * apacket) :=
  [(1%nat, wire_packet A_OPEN 9 0 (lit "tcp:80" ++ [x00])); (1%nat, wire_packet A_WRTE 9 1 (lit "hello"));
   (1%nat, wire_packet A_CLSE 9 1 [])].
Definition no_auth : auth_env := mkauth [] (fun _ _ => []) None.

(** The first [n] packets of the session. *)
Definition demo_at (n : nat) : sv :=
  match handle_packets no_auth (take n demo_session) demo with Ok (_, s) => s | _ => demo end.

Lemma session_deliverable : Forall (fun '(t, p) => is_Some (trs demo !! t) /\ deliverable p) demo_session.
Proof.
  unfold demo_session. repeat (apply Forall_cons; split); [..|by apply Forall_nil].
  all: split; [by eexists|]; split; [|by vm_compute].
  all: vm_compute; repeat split; try done; discriminate.
Qed.

Lemma packets_safe_witness : wp (handle_packets no_auth demo_session) demo
  (fun _ s' => wf ∅ ∅ s' /\ slock s' = false /\ dom (trs demo) ⊆ dom (trs s')).
Proof. apply (packets_safe no_auth demo_session demo); [exact demo_quiet|exact session_deliverable]. Defined.

Definition demo_tr1 (n : nat) : atransport := default demo_tr (trs (demo_at n) !! 1%nat).
Definition demo_sock (n : nat) (p : ptr) : asocket := default blank_sock (heap (demo_at n) !! p).

Lemma demo_at_quiet n : quiet (demo_at n).
Proof.
  unfold demo_at. pose proof (handle_packets_quiet no_auth (take n demo_session) demo demo_quiet) as H.
  specialize (H ltac:(apply Forall_take, session_deliverable)). unfold wp in H.
  destruct (handle_packets _ _ demo) as [[u s]| | |]; [apply H|apply demo_quiet..].
Qed.

(** ** Data from the device *)

(** A data packet for an open stream: its bytes are appended to what the
    client has been sent and is still owed, in order and without loss or
    duplication, unless the client is gone and the stream is closed; and the
    device is told to go on exactly when nothing is left queued. *)
Theorem wrte_delivered env p t u s x a
  (Hq : quiet s) (Hu : trs s !! t = Some u) (Hon : t_online u = true) (Hp : packet_ok p)
  (Hc : command (msg p) = A_WRTE) (H0 : arg0 (msg p) <> 0) (H1 : arg1 (msg p) <> 0)
  (Hx : find_local_socket (arg1 (msg p)) (arg0 (msg p)) s = Ok (Some x, s)) (Ha : heap s !! x = Some a) :
  wp (handle_packet env p t) s (fun _ s' =>
    x ∉ local_list s' \/
    exists a' u', heap s' !! x = Some a' /\ trs s' !! t = Some u' /\
      out (a_fd a) s' ++ backlog a' = out (a_fd a) s ++ backlog a ++ data p /\
      t_out u' = t_out u ++ match a_pkts a' with [] => [wire_packet A_OKAY (a_id a) (arg0 (msg p)) []] | _ => [] end).
Proof.
  unfold handle_packet, on_wrte. rewrite Hc. cbn. apply wp_bind. eapply wp_get_tr; [exact Hu|].
  apply Z.eqb_neq in H1. pose proof H0 as H0'. apply Z.eqb_neq in H0. rewrite Hon, H0, H1. cbn.
  pose proof (find_local_socket_spec s (arg1 (msg p)) (arg0 (msg p)) Hq) as Hf. unfold wp in Hf. rewrite Hx in Hf.
  destruct Hf as (_ & a0 & _ & Ea & Hl & _ & _ & Hpe). simplify_eq. destruct (Hpe H0') as (q & b & Hq' & _).
  destruct Hq as [Wf Hs]. destruct Hp as (_ & _ & Hlen & _).
  apply wp_bind. unfold wp at 1. rewrite Hx. apply wp_bind. unfold listed_enqueue. apply wp_bind.
  eapply wp_get_sock; [exact Ha|]. rewrite Hl.
  eapply wp_mono; [apply (local_socket_enqueue_spec ∅ s x a); try done; unfold pkt_ok; simpl; rewrite drop_0; lia|].
  intros r s1 (Wf1 & F1 & [[Hg ->]|(_ & Etr & a' & Ha' & _ & _ & Hid & Hout & Hr)]); [by left|].
  assert (unsent (mkpkt (msg p) (data_length (msg p)) 0 (data p)) = data p) as Eu.
  { unfold unsent. simpl. rewrite drop_0. apply take_ge. lia. }
  simpl in Hout. rewrite Eu in Hout.
  destruct Hr as [[-> Hpk]|[-> Hpk]]; simpl.
  - apply wp_bind. eapply wp_get_sock; [exact Ha'|]. unfold send_ready. rewrite Hid.
    eapply wp_send; [rewrite Etr; exact Hu|]. intros r Er. right. eexists a', _.
    split_and!; [done|apply lookup_insert_eq|exact Hout|]. by rewrite Hpk.
  - right. exists a', u. rewrite Etr. split_and!; [done..|]. destruct (a_pkts a'); [done|]. by rewrite app_nil_r.
Qed.

Lemma wrte_delivered_witness :
  let p := wire_packet A_WRTE 9 1 (lit "hello") in
  wp (handle_packet no_auth p 1%nat) (demo_at 1) (fun _ s' =>
    100%nat ∉ local_list s' \/
    exists a' u', heap s' !! 100%nat = Some a' /\ trs s' !! 1%nat = Some u' /\
      out 5 s' ++ backlog a' = [] ++ [] ++ data p /\
      t_out u' = [wire_packet A_OKAY 1 9 []] ++
        match a_pkts a' with [] => [wire_packet A_OKAY 1 9 []] | _ => [] end).
Proof.
  apply (wrte_delivered no_auth (wire_packet A_WRTE 9 1 (lit "hello")) 1%nat (demo_tr1 1) (demo_at 1) 100%nat
    (demo_sock 1 100%nat)); try (by vm_compute). exact (demo_at_quiet 1).
Defined.

(** ** Closing *)

(** C5. Closing a socket returns (the recursion through its peer and through
    the notify stage ends), whatever kind it is: both ends leave the list of
    local sockets, each end is freed, except that a local socket with queued data
    is kept with exactly that queue until it is written, no other socket changes
    and the invariant holds, with no reference left to a freed socket. *)
Theorem close_safe s p a (Hq : quiet s) (Hp : heap s !! p = Some a) :
  wp (sock_close p) s (fun _ s' => quiet s' /\
    (forall q, q ∈ local_list s' <-> q ∈ local_list s /\ q <> p /\ a_peer a <> Some q) /\
    fate a (heap s' !! p) /\
    (forall q b, a_peer a = Some q -> heap s !! q = Some b -> fate b (heap s' !! q)) /\
    (forall q, q <> p -> a_peer a <> Some q -> heap s' !! q = heap s !! q)).
Proof.
  destruct Hq as [Wf Hs]. eapply wp_mono; [by apply (sock_close_spec ∅ s p a)|].
  intros _ s' (Wf' & F & L & Hf & Hfp). unfold peer_set in *.
  split; [split; [eapply wf_weaken; [|exact Wf']; set_solver|by rewrite (fr_lock _ _ _ F)]|]. split_and!; [|done|done|].
  - intros q. rewrite L. destruct (a_peer a); set_solver.
  - intros q Hqp Hqq. apply (fr_heap _ _ _ F). destruct (a_peer a); set_solver.
Qed.

Lemma close_safe_witness : wp (sock_close 101%nat) (demo_at 2) (fun _ s' => quiet s' /\
    (forall q, q ∈ local_list s' <-> q ∈ [100%nat] /\ q <> 101%nat /\ Some 100%nat <> Some q) /\
    fate (demo_sock 2 101%nat) (heap s' !! 101%nat) /\
    (forall q b, Some 100%nat = Some q -> heap (demo_at 2) !! q = Some b -> fate b (heap s' !! q)) /\
    (forall q, q <> 101%nat -> Some 100%nat <> Some q -> heap s' !! q = heap (demo_at 2) !! q)).
Proof. apply (close_safe (demo_at 2) 101%nat (demo_sock 2 101%nat)); [exact (demo_at_quiet 2)|by vm_compute]. Defined.

(** [close_all_sockets] ends, and when it does no open socket is bound to
    the transport, directly or through its peer. *)
Theorem close_all_complete s t (Hq : quiet s) :
  wp (close_all_sockets t) s (fun _ s' => quiet s' /\ (forall p, p ∈ local_list s' -> ~ bound_to t s' p)).
Proof.
  destruct Hq as [Wf Hs]. eapply wp_mono; [by apply (close_all_spec ∅ s t)|].
  intros _ s' (Wf' & Hs' & H & _). by split.
Qed.

Lemma close_all_complete_witness : wp (close_all_sockets 1%nat) (demo_at 2) (fun _ s' => quiet s' /\
  (forall p, p ∈ local_list s' -> ~ bound_to 1%nat s' p)).
Proof. apply (close_all_complete (demo_at 2) 1%nat). exact (demo_at_quiet 2). Defined.

(** ** A transport that goes offline *)

(** C13. When a transport goes offline, every stream over it and every
    forwarding bound to it is taken down: afterwards no remote socket and no
    listener of the transport is left, so nothing refers to it. *)
Theorem offline_drops_all s t (Hq : quiet s) (Ht : is_Some (trs s !! t)) :
  wp (handle_offline t) s (fun _ s' => quiet s' /\
    (forall p a, heap s' !! p = Some a -> a_enqueue a = remote_enqueue -> a_transport a <> Some t) /\
    (forall l a, listeners s' !! l = Some a -> l_transport a <> Some t) /\
    (forall u, trs s' !! t = Some u -> t_disconnects u = [])).
Proof.
  eapply wp_mono; [by apply handle_offline_quiet|]. intros _ s' (Hq' & _ & Hd). split; [done|]. split_and!.
  - intros p a Hp Hr Htr. apply (Hd (DisRemote p)). by exists a.
  - intros l a Hl Htr. apply (Hd (DisListener l)). by exists a.
  - intros u Hu. destruct Hq' as [Wf _]. destruct (wf_dis _ _ _ Wf t u Hu) as (_ & Hr & Hl).
    destruct (t_disconnects u) as [|[p|l] r] eqn:E; [done| |]; exfalso.
    + apply (Hd (DisRemote p)), Hr, list_elem_of_here.
    + apply (Hd (DisListener l)), Hl, list_elem_of_here.
Qed.

Lemma offline_drops_all_witness : wp (handle_offline 1%nat) (demo_at 2) (fun _ s' => quiet s' /\
    (forall p a, heap s' !! p = Some a -> a_enqueue a = remote_enqueue -> a_transport a <> Some 1%nat) /\
    (forall l a, listeners s' !! l = Some a -> l_transport a <> Some 1%nat) /\
    (forall u, trs s' !! 1%nat = Some u -> t_disconnects u = [])).
Proof. apply (offline_drops_all (demo_at 2) 1%nat); [exact (demo_at_quiet 2)|eexists; by vm_compute]. Defined.

(** ** Authentication *)

Lemma key_after_at l j k : NoDup l -> l !! j = Some k -> key_after l k = l !! S j.
Proof.
  revert j. induction l as [|x l IH]; intros j Hnd Hj; [done|]. apply NoDup_cons in Hnd as [Hx Hnd]. cbn [key_after].
  destruct j as [|j].
  - injection Hj as ->. rewrite Nat.eqb_refl. by destruct l.
  - simpl in Hj. rewrite (proj2 (Nat.eqb_neq _ _)); [by apply IH|]. intros ->. apply Hx. by eapply list_elem_of_lookup_2.
Qed.

(** The keys are tried in turn; after the last one there is no key, and the
    turn starts again. *)
Lemma nextkey_turn l i : NoDup l ->
  adb_auth_nextkey l (l !! (i mod S (length l))%nat) = l !! (S i mod S (length l))%nat.
Proof.
  intros Hnd. set (n := length l). pose proof (Nat.mod_upper_bound i (S n) ltac:(lia)) as Hb.
  destruct (decide ((i mod S n)%nat = n)) as [E|E].
  - assert ((S i mod S n)%nat = 0%nat) as ->.
    { rewrite <- Nat.add_1_r, Nat.Div0.add_mod, E. destruct n; [done|].
      rewrite (Nat.mod_small 1) by lia. replace (S n + 1)%nat with (S (S n)) by lia. apply Nat.Div0.mod_same. }
    rewrite E. rewrite lookup_ge_None_2 by done. by destruct l.
  - assert ((S i mod S n)%nat = S (i mod S n)) as ->.
    { rewrite <- Nat.add_1_r, Nat.Div0.add_mod. destruct n; [lia|].
      rewrite (Nat.mod_small 1), Nat.mod_small by lia. lia. }
    destruct (lookup_lt_is_Some_2 l (i mod S n)%nat) as [k Hk]; [lia|]. rewrite Hk.
    unfold adb_auth_nextkey. destruct l as [|x l]; [done|]. by apply key_after_at.
Qed.

(** The answer to the [i]th challenge. *)
Definition auth_reply (env : auth_env) (i : nat) (token : bytes) : list apacket :=
  match e_keys env !! (i mod S (length (e_keys env)))%nat with
  | Some k => match e_sign env k token with [] => [] | sig => [wire_packet A_AUTH ADB_AUTH_SIGNATURE 0 sig] end
  | None => match adb_auth_get_userkey env MAX_PAYLOAD with
            | [] => []
            | key => [wire_packet A_AUTH ADB_AUTH_RSAPUBLICKEY 0 key]
            end
  end.

Fixpoint auth_replies (env : auth_env) (i : nat) (tokens : list bytes) : list apacket :=
  match tokens with [] => [] | d :: r => auth_reply env i d ++ auth_replies env (S i) r end.

Lemma run_send t u c a0 a1 d s : trs s !! t = Some u -> (0 < t_room u)%nat ->
  send_packet (mk_packet c a0 a1 d) (Some t) s =
    Ok (tt, upd_trs t (tr_queue (t_out u ++ [wire_packet c a0 a1 d]) (t_room u - 1) u) s).
Proof.
  intros Hu Hr. destruct (fill_total (mk_packet c a0 a1 d) (mk_packet_fillable c a0 a1 d)) as (sum & _ & E).
  unfold send_packet, wire_packet, bind, lift, get_tr. rewrite E. cbn. rewrite Hu.
  destruct (t_room u) as [|r]; [lia|]. unfold upd_tr, bind, get_tr. rewrite Hu. cbn. by rewrite Nat.sub_0_r.
Qed.

(** One challenge. *)
Lemma auth_step env t u i d s :
  trs s !! t = Some u -> (0 < t_room u)%nat ->
  adb_auth_nextkey (e_keys env) (t_key u) = e_keys env !! (i mod S (length (e_keys env)))%nat ->
  exists u', handle_packet env (wire_packet A_AUTH ADB_AUTH_TOKEN 0 d) t s = Ok (tt, upd_trs t u' s) /\
    t_key u' = e_keys env !! (i mod S (length (e_keys env)))%nat /\ t_out u' = t_out u ++ auth_reply env i d /\
    t_connection_state u' = CS_UNAUTHORIZED /\ (t_room u <= t_room u' + 1)%nat.
Proof.
  intros Hu Hr Hk. destruct (fill_total (mk_packet A_AUTH ADB_AUTH_TOKEN 0 d) (mk_packet_fillable _ _ _ _)) as (sum & _ & E).
  unfold wire_packet at 1. rewrite E. unfold handle_packet, on_auth. cbn.
  unfold upd_tr at 1, bind, get_tr. rewrite Hu. cbn. rewrite lookup_insert_eq. cbn. unfold upd_tr, bind, get_tr.
  cbn. rewrite lookup_insert_eq. cbn. rewrite Hk. unfold auth_reply.
  destruct (e_keys env !! _) as [k|] eqn:Ek.
  - unfold data_prefix, lift. rewrite Z.leb_refl. cbn. rewrite Nat2Z.id, take_ge by done.
    unfold send_auth_response. destruct (e_sign env k d) as [|c sig].
    + eexists. unfold ret, upd_trs, set_trs. cbn. rewrite !insert_insert_eq. split_and!; [reflexivity|done|by rewrite app_nil_r|done|cbn; lia].
    + rewrite (run_send t (tr_key (Some k) (tr_connection_state CS_UNAUTHORIZED u))); [|apply lookup_insert_eq|done].
      eexists. unfold upd_trs, set_trs. cbn. rewrite !insert_insert_eq. split_and!; [reflexivity|done|done|done|cbn; lia].
  - unfold send_auth_publickey. destruct (adb_auth_get_userkey env MAX_PAYLOAD) as [|c key].
    + eexists. unfold ret, upd_trs, set_trs. cbn. rewrite !insert_insert_eq. split_and!; [reflexivity|done|by rewrite app_nil_r|done|cbn; lia].
    + rewrite (run_send t (tr_key None (tr_connection_state CS_UNAUTHORIZED u))); [|apply lookup_insert_eq|done].
      eexists. unfold upd_trs, set_trs. cbn. rewrite !insert_insert_eq. split_and!; [reflexivity|done|done|done|cbn; lia].
Qed.

Definition challenge (t : ptr) (d : bytes) : ptr * apacket := (t, wire_packet A_AUTH ADB_AUTH_TOKEN 0 d).

Lemma auth_run env t : NoDup (e_keys env) -> forall tokens i u s,
  trs s !! t = Some u -> (length tokens <= t_room u)%nat ->
  adb_auth_nextkey (e_keys env) (t_key u) = e_keys env !! (i mod S (length (e_keys env)))%nat ->
  exists u', handle_packets env (map (challenge t) tokens) s = Ok (tt, upd_trs t u' s) /\
    t_out u' = t_out u ++ auth_replies env i tokens.
Proof.
  intros Hnd tokens. induction tokens as [|d tokens IH]; intros i u s Hu Hr Hk; cbn [map handle_packets auth_replies].
  - exists u. unfold ret, upd_trs. rewrite insert_id by done. rewrite app_nil_r. by destruct s.
  - simpl in Hr. destruct (auth_step env t u i d s Hu ltac:(lia) Hk) as (u1 & E1 & Hk1 & Ho1 & _ & Hr1).
    unfold bind, challenge at 1. rewrite E1.
    destruct (IH (S i) u1 (upd_trs t u1 s)) as (u2 & E2 & Ho2).
    + apply lookup_insert_eq.
    + lia.
    + rewrite Hk1. by apply nextkey_turn.
    + exists u2. rewrite E2. split; [unfold upd_trs, set_trs; cbn; by rewrite insert_insert_eq|].
      by rewrite Ho2, Ho1, <- app_assoc.
Qed.

(** C14. Challenged again and again, the host answers with a signature of each of
    its keys in turn, each key once and in the order it was loaded, then with its
    public key, and then starts again; it changes nothing but that transport. *)
Theorem auth_rotation env t u tokens s
  (Hnd : NoDup (e_keys env)) (Hu : trs s !! t = Some u) (Hk : t_key u = None) (Hr : (length tokens <= t_room u)%nat) :
  exists u', handle_packets env (map (challenge t) tokens) s = Ok (tt, upd_trs t u' s) /\
    t_out u' = t_out u ++ auth_replies env 0 tokens.
Proof.
  apply auth_run; try done. rewrite Hk. rewrite Nat.mod_small by lia. by destruct (e_keys env).
Qed.

Lemma auth_rotation_witness :
  let env := mkauth [4; 6]%nat (fun k d => z2b (Z.of_nat k) :: d) (Some (lit "PUB")) in
  exists u', handle_packets env (map (challenge 1%nat) [lit "a"; lit "b"; lit "c"; lit "d"]) demo = Ok (tt, upd_trs 1%nat u' demo) /\
    t_out u' = [] ++ [wire_packet A_AUTH ADB_AUTH_SIGNATURE 0 (x04 :: lit "a"); wire_packet A_AUTH ADB_AUTH_SIGNATURE 0 (x06 :: lit "b");
                      wire_packet A_AUTH ADB_AUTH_RSAPUBLICKEY 0 (lit "PUB" ++ [x00]); wire_packet A_AUTH ADB_AUTH_SIGNATURE 0 (x04 :: lit "d")].
Proof.
  apply (auth_rotation (mkauth [4; 6]%nat (fun k d => z2b (Z.of_nat k) :: d) (Some (lit "PUB"))) 1%nat demo_tr
    [lit "a"; lit "b"; lit "c"; lit "d"] demo); [|done|done|simpl; lia].
  repeat constructor; set_solver.
Defined.

(** ** The banner *)

(** The banner a device builds ([fill_connect_data] of the device). *)
Definition device_banner (kind name model device : bytes) : bytes :=
  kind ++ lit "::" ++ lit "ro.product.name=" ++ name ++ lit ";" ++ lit "ro.product.model=" ++ model ++ lit ";" ++
  lit "ro.product.device=" ++ device ++ lit ";".

Definition state_of_kind (kind : bytes) : Z :=
  if streq kind (lit "bootloader") then CS_BOOTLOADER else if streq kind (lit "device") then CS_DEVICE
  else if streq kind (lit "recovery") then CS_RECOVERY else if streq kind (lit "sideload") then CS_SIDELOAD
  else CS_HOST.

Lemma banner_split_device kind name model device u :
  ch 58 ∉ kind -> ch 59 ∉ name -> ch 59 ∉ model -> ch 59 ∉ device ->
  banner_split (device_banner kind name model device) u =
    (kind, tr_quals (qual_overwrite name) (qual_overwrite model) (qual_overwrite device) u).
Proof.
  intros Hk Hn Hm Hd. unfold banner_split, device_banner.
  change (lit "::" ++ ?x) with (ch 58 :: [] ++ ch 58 :: x). rewrite split_chr_app by done.
  rewrite (split_chr_app (ch 58) []) by (apply not_elem_of_nil).
  set (props := [lit "ro.product.name" ++ lit "=" ++ name; lit "ro.product.model" ++ lit "=" ++ model;
                 lit "ro.product.device" ++ lit "=" ++ device]).
  assert (tokens (ch 59) (concat (map (fun x => x ++ [ch 59]) props)) = props) as Et.
  { apply tokens_join. assert (forall l v, ch 59 ∉ v -> bool_decide (ch 59 ∈ l) = false -> l ++ v <> [] \/ True ->
      ch 59 ∉ l ++ v) as Hin.
    { intros l v Hv Hl%bool_decide_eq_false _. by apply not_elem_of_app. }
    unfold props. repeat (apply Forall_cons; split); [..|by apply Forall_nil].
    all: split; [done|]; rewrite app_assoc; apply Hin; [done|by vm_compute|by right]. }
  assert (concat (map (fun x => x ++ [ch 59]) props) = lit "ro.product.name=" ++ name ++ lit ";" ++ lit "ro.product.model=" ++ model ++ lit ";" ++
  lit "ro.product.device=" ++ device ++ lit ";") as Ec.
  { unfold props. cbn [map concat]. by rewrite app_nil_r, <- !app_assoc. }
  rewrite Ec in Et. by rewrite Et.
Qed.

(** What a banner makes of a transport. *)
Definition identified (kind name model device : bytes) (u : atransport) : Prop :=
  t_product u = qual_overwrite name /\ t_model u = qual_overwrite model /\ t_device u = qual_overwrite device /\
  t_connection_state u = state_of_kind kind.

Lemma identified_core kind name model device u u' :
  tr_core u' = tr_core u -> identified kind name model device u -> identified kind name model device u'.
Proof.
  intros E (H1 & H2 & H3 & H4). apply (f_equal (fun x => (t_product x, t_model x, t_device x, t_connection_state x))) in E.
  injection E as E1 E2 E3 E4. unfold identified. split_and!; congruence.
Qed.

Lemma parse_banner_identifies kind name model device t s :
  quiet s -> is_Some (trs s !! t) ->
  ch 58 ∉ kind -> ch 59 ∉ name -> ch 59 ∉ model -> ch 59 ∉ device ->
  wp (parse_banner (device_banner kind name model device) t) s (fun _ s' => quiet s' /\
    exists u, trs s' !! t = Some u /\ identified kind name model device u).
Proof.
  intros Hq [u Hu] Hk Hn Hm Hd. unfold parse_banner. apply wp_bind. eapply wp_get_tr; [exact Hu|].
  rewrite banner_split_device by done. set (u1 := tr_quals _ _ _ u).
  apply wp_bind. eapply wp_upd_tr; [exact Hu|]. set (s1 := upd_trs t u1 s).
  assert (quiet s1) as Hq1 by (destruct Hq; split; [by eapply wf_upd_tr|done]).
  assert (trs s1 !! t = Some u1) as Hu1 by apply lookup_insert_eq.
  assert (forall st, st = state_of_kind kind -> wp (upd_tr t (tr_connection_state st)) s1 (fun _ s' => quiet s' /\
    exists u, trs s' !! t = Some u /\ identified kind name model device u)) as Hset.
  { intros st ->. eapply wp_upd_tr; [exact Hu1|]. split.
    - destruct Hq1; split; [by eapply wf_upd_tr|done].
    - eexists. split; [apply lookup_insert_eq|done]. }
  assert (forall st, st = state_of_kind kind -> wp (upd_tr t (tr_connection_state st) ;; update_transports) s1
    (fun _ s' => quiet s' /\ exists u, trs s' !! t = Some u /\ identified kind name model device u)) as Hknown.
  { intros st E. apply wp_bind. eapply wp_mono; [by apply Hset|]. intros _ s2 [[Wf2 Hs2] (u2 & Hu2 & Hi)].
    eapply wp_mono; [by apply (update_transports_spec ∅)|]. intros _ s3 [Wf3 [K F]].
    split; [split; [done|by rewrite (fr_lock _ _ _ F)]|]. pose proof (fr_trs _ _ _ F t) as Ec. rewrite Hu2 in Ec.
    destruct (trs s3 !! t) as [u3|]; [|done]. exists u3. split; [done|].
    eapply identified_core; [|exact Hi]. by apply (inj Some). }
  unfold state_of_kind in *. destruct (streq kind (lit "bootloader")); [by apply Hknown|].
  destruct (streq kind (lit "device")); [by apply Hknown|]. destruct (streq kind (lit "recovery")); [by apply Hknown|].
  destruct (streq kind (lit "sideload")); [by apply Hknown|]. by apply Hset.
Qed.

(** C15. The banner of a connecting device, as the device side builds it, puts
    the transport online with the device's product, model and device name and in
    the state its kind calls for, whatever the transport was before. *)
Theorem banner_identifies env t s kind name model device
  (Hq : quiet s) (Ht : is_Some (trs s !! t)) (Hk : ch 58 ∉ kind)
  (Hn : ch 59 ∉ name) (Hm : ch 59 ∉ model) (Hd : ch 59 ∉ device)
  (Hz : no_nul (device_banner kind name model device)) :
  wp (handle_packet env (wire_packet A_CNXN A_VERSION MAX_PAYLOAD (device_banner kind name model device ++ [x00])) t) s
    (fun _ s' => quiet s' /\ exists u, trs s' !! t = Some u /\ t_online u = true /\ identified kind name model device u).
Proof.
  set (b := device_banner kind name model device) in *.
  destruct (fill_total (mk_packet A_CNXN A_VERSION MAX_PAYLOAD (b ++ [x00])) (mk_packet_fillable _ _ _ _)) as (sum & _ & E).
  unfold wire_packet. rewrite E. unfold handle_packet, on_cnxn. cbn.
  destruct Ht as [u Hu]. apply wp_bind. eapply wp_get_tr; [exact Hu|]. apply wp_bind.
  eapply (wp_mono _ _ (fun _ s1 => quiet s1 /\ is_Some (trs s1 !! t))).
  { apply wp_when; intros _; [|split; [done|eauto]]. apply wp_bind.
    eapply wp_mono; [apply upd_tr_quiet; [done|eauto|done]|]. intros _ s1 [Hq1 Ht1].
    eapply wp_mono; [by apply handle_offline_quiet|]. by intros _ s2 (? & ? & _). }
  intros _ s1 [Hq1 Ht1]. apply wp_bind. eapply wp_lift.
  { unfold payload_string. rewrite bool_decide_eq_true_2; [reflexivity|]. apply elem_of_app. right. apply list_elem_of_here. }
  rewrite (cstr_no_nul b []) by done. apply wp_bind.
  eapply wp_mono; [by apply parse_banner_identifies|]. intros _ s2 [Hq2 (u2 & Hu2 & Hi)].
  unfold handle_online. eapply wp_upd_tr; [exact Hu2|]. split.
  - destruct Hq2. split; [by eapply wf_upd_tr|done].
  - eexists. split; [apply lookup_insert_eq|]. done.
Qed.

Lemma banner_identifies_witness :
  wp (handle_packet no_auth (wire_packet A_CNXN A_VERSION MAX_PAYLOAD (device_banner (lit "device") (lit "A920") (lit "PAX A920") (lit "a:x") ++ [x00])) 1%nat) (demo_at 2)
    (fun _ s' => quiet s' /\ exists u, trs s' !! 1%nat = Some u /\ t_online u = true /\
      identified (lit "device") (lit "A920") (lit "PAX A920") (lit "a:x") u).
Proof.
  apply (banner_identifies no_auth 1%nat (demo_at 2) (lit "device") (lit "A920") (lit "PAX A920") (lit "a:x"));
    [exact (demo_at_quiet 2)|eexists; by vm_compute|..]; apply (bool_decide_eq_false_1 (_ ∈ _)); by vm_compute.
Defined.

(** A [A_CNXN] packet whose payload has no terminator makes the server read
    past the packet: the transport readers check the length and the checksum of a
    payload, and nothing adds or checks the NUL that [parse_banner] relies on. *)
Theorem unterminated_banner_overreads env t u s d
  (Hu : trs s !! t = Some u) (Hoff : t_connection_state u = CS_OFFLINE) (Hd : no_nul d) :
  handle_packet env (wire_packet A_CNXN A_VERSION MAX_PAYLOAD d) t s = UB "payload is not terminated".
Proof.
  destruct (fill_total (mk_packet A_CNXN A_VERSION MAX_PAYLOAD d) (mk_packet_fillable _ _ _ _)) as (sum & _ & E).
  unfold wire_packet. rewrite E. unfold handle_packet, on_cnxn, bind, get_tr. cbn. rewrite Hu, Hoff. cbn.
  unfold payload_string. by rewrite bool_decide_eq_false_2.
Qed.

Lemma unterminated_banner_overreads_witness :
  handle_packet no_auth (wire_packet A_CNXN A_VERSION MAX_PAYLOAD (lit "device::")) 1%nat
    (upd_trs 1%nat (tr_connection_state CS_OFFLINE demo_tr) demo) = UB "payload is not terminated".
Proof.
  apply (unterminated_banner_overreads no_auth 1%nat (tr_connection_state CS_OFFLINE demo_tr)); [by vm_compute|done|].
  apply (bool_decide_eq_false_1 (_ ∈ _)). by vm_compute.
Defined.

(** ** The PAX handshake *)

(** A handshake request is answered at once, also before the device is
    online, by exactly one [A_HDSK] packet with the response code and the magic
    string, on the transport it came from; a response or an unknown handshake
    message changes nothing. *)
Theorem handshake_answered env t u s a0 a1 d
  (Hu : trs s !! t = Some u) (Hr : (0 < t_room u)%nat) :
  handle_packet env (wire_packet A_HDSK a0 a1 d) t s =
    if a0 =? PAX_HANDSHAKE_REQ
    then Ok (tt, upd_trs t (tr_queue (t_out u ++ [wire_packet A_HDSK PAX_HANDSHAKE_RES 0 (lit "paxadb")]) (t_room u - 1) u) s)
    else Ok (tt, s).
Proof.
  destruct (fill_total (mk_packet A_HDSK a0 a1 d) (mk_packet_fillable _ _ _ _)) as (sum & _ & E).
  unfold wire_packet at 1. rewrite E. unfold handle_packet, on_hdsk. cbn -[PAX_HANDSHAKE_REQ PAX_HANDSHAKE_RES].
  destruct (a0 =? PAX_HANDSHAKE_REQ); [|done]. by rewrite (run_send t u).
Qed.

Lemma handshake_answered_witness :
  handle_packet no_auth (wire_packet A_HDSK 1 0 []) 1%nat demo =
    Ok (tt, upd_trs 1%nat (tr_queue ([] ++ [wire_packet A_HDSK 2 0 (lit "paxadb")]) 7 demo_tr) demo).
Proof. apply (handshake_answered no_auth 1%nat demo_tr demo 1 0 []); [by vm_compute|simpl; lia]. Defined.

(** ** Closing across transports *)

(** The close case for [CLOSE(0, id)]. *)
Definition close_packet (id : Z) (t : ptr) : M unit :=
  do u <- get_tr t;
  when (t_online u && negb (id =? 0))
    (do s <- find_local_socket id 0;
     match s with
     | None => ret tt
     | Some x =>
         do a <- get_sock x;
         do foreign <- (match a_peer a with
                        | None => ret false
                        | Some q => do b <- get_sock q; ret (negb (bool_decide (a_transport b = Some t)))
                        end);
         if foreign : bool then ret tt else sock_close x
     end).
Lemma handle_close env id t s : handle_packet env (wire_packet A_CLSE 0 id []) t s = close_packet id t s.
Proof. reflexivity. Qed.
Lemma wp_handle_close env id t s Q : wp (close_packet id t) s Q -> wp (handle_packet env (wire_packet A_CLSE 0 id []) t) s Q.
Proof. unfold wp. by rewrite handle_close. Qed.

(** A close with local id 0 from one device does not touch a stream that is
    connected to another device: the server's state does not change at all. *)
Theorem foreign_close_ignored env t u s x a q b id
  (Hu : trs s !! t = Some u) (Hx : find_local_socket id 0 s = Ok (Some x, s))
  (Ha : heap s !! x = Some a) (Hq : a_peer a = Some q) (Hb : heap s !! q = Some b) (Hne : a_transport b <> Some t) :
  handle_packet env (wire_packet A_CLSE 0 id []) t s = Ok (tt, s).
Proof.
  rewrite handle_close. unfold close_packet, bind, get_tr. rewrite Hu. unfold when.
  destruct (t_online u && negb (id =? 0)); [|done]. rewrite Hx. unfold get_sock. rewrite Ha, Hq, Hb.
  unfold ret. by rewrite bool_decide_eq_false_2.
Qed.

Lemma foreign_close_ignored_witness :
  let s := set_trs (<[2%nat := demo_tr]> (trs (demo_at 1))) (demo_at 1) in
  handle_packet no_auth (wire_packet A_CLSE 0 1 []) 2%nat s = Ok (tt, s).
Proof.
  apply (foreign_close_ignored no_auth 2%nat demo_tr _ 100%nat (demo_sock 1 100%nat) 101%nat (demo_sock 1 101%nat) 1);
    try (by vm_compute).
Defined.

