(* ===== verification/Registry.v ===== *)
(** * The life of a transport (transport.c, transport_local.c, transport_usb.c)

    A transport is created by [register_socket_transport] or
    [register_usb_transport], which put it on [pending_list] and post a message
    to the main thread; [transport_registration_func] starts its threads and
    moves it to [transport_list].  It is shut down by [kick_transport], counted
    down by [transport_unref], whose last step posts the removal message, and
    freed by [transport_registration_func].  [unregister_transport] unlinks a
    transport at once, without clearing its links. *)

From S2P Require Import Prelude CString Io Wire DList Fdevent Server Transports Sockets.

Definition ADB_LOCAL_TRANSPORT_MAX : nat := 64.

(** ** List links *)

(** The links of [t] in a circular list; None is the head. *)
Fixpoint around (t : ptr) (prev : option ptr) (l : list ptr) : option (option ptr * option ptr) :=
  match l with
  | [] => None
  | x :: r => if bool_decide (x = t) then Some (prev, head r) else around t (Some x) r
  end.

(** Are [prev] and [next] neighbours in the list? *)
Fixpoint neighbours (prev next : option ptr) (cur : option ptr) (l : list ptr) : bool :=
  match l with
  | [] => bool_decide (cur = prev) && bool_decide (next = None)
  | x :: r => (bool_decide (cur = prev) && bool_decide (next = Some x)) || neighbours prev next (Some x) r
  end.

(** [t->next->prev = t->prev; t->prev->next = t->next].  The links of [t] itself
    stay, so a second time they are stale: when they still name two neighbours
    nothing changes, otherwise they relink a transport that has left the list, or
    write to one that was freed. *)
Definition unlink_transport (t : ptr) : M unit :=
  do u <- get_tr t;
  match t_stale u with
  | Some (prev, next) =>
      do l <- gets transport_list;
      if neighbours prev next None l then ret tt else undefined "stale links of an unlinked transport"
  | None =>
      do l <- gets transport_list;
      do pl <- gets pending_list;
      match around t None l, around t None pl with
      | Some ln, _ => modify (set_transport_list (remove_elt t l)) ;; upd_tr t (tr_stale (Some ln))
      | None, Some ln => modify (set_pending_list (remove_elt t pl)) ;; upd_tr t (tr_stale (Some ln))
      | None, None => undefined "transport has no links"
      end
  end.

(** Insertion before the head. *)
Definition link_master (t : ptr) : M unit :=
  modify (fun s => set_transport_list (transport_list s ++ [t]) s) ;; upd_tr t (tr_stale None).
Definition link_pending (t : ptr) : M unit :=
  modify (fun s => set_pending_list (pending_list s ++ [t]) s) ;; upd_tr t (tr_stale None).

(** ** Emulator slots *)

(** [find_emulator_transport_by_adb_port_locked]: the slots are pointers, and
    each one that is set is followed. *)
Fixpoint find_slot (l : list (option ptr)) (adb_port : Z) : M (option ptr) :=
  match l with
  | [] => ret None
  | None :: r => find_slot r adb_port
  | Some t :: r => do u <- get_tr t; if t_adb_port u =? adb_port then ret (Some t) else find_slot r adb_port
  end.
Definition find_emulator_transport_by_adb_port (adb_port : Z) : M (option ptr) :=
  do l <- gets locals; find_slot l adb_port.

(** [get_available_local_transport_index_locked]; None is -1. *)
Fixpoint free_slot_from (i : nat) (l : list (option ptr)) : option nat :=
  match l with [] => None | None :: _ => Some i | Some _ :: r => free_slot_from (S i) r end.
Definition get_available_local_transport_index : M (option nat) := gets (fun s => free_slot_from 0 (locals s)).

(** The loop of [remote_kick]: the first slot that holds [t] is cleared. *)
Fixpoint clear_slot (t : ptr) (l : list (option ptr)) : list (option ptr) :=
  match l with
  | [] => []
  | o :: r => if bool_decide (o = Some t) then None :: r else o :: clear_slot t r
  end.

(** ** Kicking and references *)

Definition tr_usb (x : option nat) (s : atransport) : atransport :=
  mktr (t_serial s) (t_product s) (t_model s) (t_device s) (t_devpath s) (t_type s) (t_adb_port s) (t_connection_state s) (t_online s) (t_kicked s) (t_ref_count s) (t_key s) (t_failed_auth s) (t_disconnects s) (t_out s) (t_room s) x (t_sfd s) (t_socket s) (t_fd s) (t_stale s).

(** [t->kick(t)]: [remote_kick] of transport_local.c; a USB kick changes the USB
    handle only. *)
Definition remote_kick (t : ptr) : M unit :=
  do u <- get_tr t;
  match t_type u with
  | kTransportLocal =>
      upd_tr t (tr_sfd (-1)) ;;
      fd_close (t_sfd u) ;;
      modify (fun s => set_locals (clear_slot t (locals s)) s)
  | _ => ret tt
  end.

(** [t->close(t)]: [remote_close] of transport_local.c closes [t->fd], that of
    transport_usb.c the USB handle. *)
Definition remote_close_tr (t : ptr) : M unit :=
  do u <- get_tr t;
  match t_type u with kTransportLocal => fd_close (t_fd u) | _ => upd_tr t (tr_usb None) end.

(** [kick_transport]. *)
Definition kick_transport (t : ptr) : M unit :=
  do u <- get_tr t;
  if t_kicked u then ret tt else upd_tr t (tr_kicked true) ;; remote_kick t.

(** [remove_transport] and [register_transport] post a message. *)
Definition post_action (t : ptr) (action : Z) : M unit :=
  modify (fun s => set_actions (actions s ++ [(t, action)]) s).

(** [transport_unref_locked]. *)
Definition transport_unref (t : ptr) : M unit :=
  do u0 <- get_tr t;
  upd_tr t (tr_ref_count (t_ref_count u0 - 1)) ;;
  if t_ref_count u0 - 1 =? 0 then kick_transport t ;; remote_close_tr t ;; post_action t 0
  else ret tt.

(** [unregister_transport]. *)
Definition unregister_transport (t : ptr) : M unit :=
  unlink_transport t ;; kick_transport t ;; transport_unref t.

(** [unregister_all_tcp_transports]: the successor is read before the body. *)
Fixpoint unregister_tcp (l : list ptr) : M unit :=
  match l with
  | [] => ret tt
  | t :: r =>
      do u <- get_tr t;
      (match t_type u with
       | kTransportLocal => when (t_adb_port u =? 0) (unlink_transport t ;; kick_transport t ;; transport_unref t)
       | _ => ret tt
       end) ;;
      unregister_tcp r
  end.
Definition unregister_all_tcp_transports : M unit := do l <- gets transport_list; unregister_tcp l.

(** ** Registration *)

Definition new_tr (u : atransport) : M ptr := fun s =>
  Ok (next_ptr s, set_next_ptr (S (next_ptr s)) (set_trs (<[next_ptr s := u]> (trs s)) s)).
Definition free_tr (t : ptr) : M unit := get_tr t ;; modify (fun s => set_trs (delete t (trs s)) s).

(** [calloc] and [init_socket_transport]: false when it fails. *)
Definition blank_socket_transport (sfd : Z) : atransport :=
  mktr None None None None None kTransportLocal 0 CS_OFFLINE false false 0 None 0 [] [] 0 None sfd 0 0 None.
Definition tr_adb_port (x : Z) (s : atransport) : atransport :=
  mktr (t_serial s) (t_product s) (t_model s) (t_device s) (t_devpath s) (t_type s) x (t_connection_state s) (t_online s) (t_kicked s) (t_ref_count s) (t_key s) (t_failed_auth s) (t_disconnects s) (t_out s) (t_room s) (t_usb s) (t_sfd s) (t_socket s) (t_fd s) (t_stale s).
Definition tr_serial (x : option bytes) (s : atransport) : atransport :=
  mktr x (t_product s) (t_model s) (t_device s) (t_devpath s) (t_type s) (t_adb_port s) (t_connection_state s) (t_online s) (t_kicked s) (t_ref_count s) (t_key s) (t_failed_auth s) (t_disconnects s) (t_out s) (t_room s) (t_usb s) (t_sfd s) (t_socket s) (t_fd s) (t_stale s).
Definition init_socket_transport (t : ptr) (adb_port : Z) (local : bool) : M bool :=
  if negb local then ret true
  else
    upd_tr t (tr_adb_port adb_port) ;;
    do existing <- find_emulator_transport_by_adb_port adb_port;
    do index <- get_available_local_transport_index;
    match existing, index with
    | Some _, _ | None, None => ret false
    | None, Some i => modify (fun s => set_locals (<[i := Some t]> (locals s)) s) ;; ret true
    end.

(** Does a transport of the list have this serial? *)
Fixpoint serial_taken (l : list ptr) (serial : bytes) : M bool :=
  match l with
  | [] => ret false
  | n :: r =>
      do u <- get_tr n;
      if match t_serial u with Some s => streq serial s | None => false end then ret true
      else serial_taken r serial
  end.

(** [register_socket_transport] with a serial: false is -1. *)
Definition register_socket_transport (fd : Z) (serial : bytes) (port : Z) (local : bool) : M bool :=
  do t <- new_tr (blank_socket_transport fd);
  do ok <- init_socket_transport t port local;
  if negb ok then free_tr t ;; ret false
  else
    do pl <- gets pending_list;
    do dup1 <- serial_taken pl serial;
    if dup1 : bool then free_tr t ;; ret false
    else
      do l <- gets transport_list;
      do dup2 <- serial_taken l serial;
      if dup2 : bool then free_tr t ;; ret false
      else
        link_pending t ;;
        upd_tr t (tr_serial (Some serial)) ;;
        post_action t 1 ;;
        ret true.

(** [register_usb_transport] and [unregister_usb_transport]. *)
Definition register_usb_transport (usb : nat) (serial devpath : option bytes) (writeable : bool) : M unit :=
  do t <- new_tr (mktr serial None None None devpath kTransportUsb 0 (if writeable then CS_OFFLINE else CS_NOPERM)
                    false false 0 None 0 [] [] 0 (Some usb) 0 0 0 None);
  link_pending t ;;
  post_action t 1.

Fixpoint unregister_usb (l : list ptr) (usb : nat) : M unit :=
  match l with
  | [] => ret tt
  | t :: r =>
      do u <- get_tr t;
      if bool_decide (t_usb u = Some usb) && (t_connection_state u =? CS_NOPERM) then unlink_transport t
      else unregister_usb r usb
  end.
Definition unregister_usb_transport (usb : nat) : M unit := do l <- gets transport_list; unregister_usb l usb.

(** [find_transport]. *)
Fixpoint find_serial (l : list ptr) (serial : bytes) : M (option ptr) :=
  match l with
  | [] => ret None
  | t :: r =>
      do u <- get_tr t;
      if match t_serial u with Some s => streq serial s | None => false end then ret (Some t)
      else find_serial r serial
  end.
Definition find_transport (serial : bytes) : M (option ptr) := do l <- gets transport_list; find_serial l serial.

(** [local_connect_arbitrary_ports] ([ADBHOST] is the environment variable) and
    [local_connect]: 0 or -1. *)
Definition local_connect_arbitrary_ports (adbhost : bool) (console_port adb_port : Z) : M Z :=
  do fd1 <- (if adbhost then next_fd else ret (-1));
  do fd <- (if fd1 <? 0 then next_fd else ret fd1);
  if 0 <=? fd then
    register_socket_transport fd (snprintf 64 (lit "emulator-" ++ fmt_dec console_port)) adb_port true ;;
    ret 0
  else ret (-1).
Definition local_connect (adbhost : bool) (port : Z) : M Z := local_connect_arbitrary_ports adbhost (port - 1) port.

(** ** [transport_registration_func] *)

(** [m.action == 0]: [fdevent_remove] closes [transport_socket]. *)
Definition remove_action (t : ptr) : M unit :=
  do u <- get_tr t;
  fd_close (t_socket u) ;;
  fd_close (t_fd u) ;;
  unlink_transport t ;;
  run_transport_disconnects t ;;
  free_tr t ;;
  update_transports.

(** The other action; [capacity] is how many packet pointers the new socket
    pair holds. *)
Definition add_action (capacity : nat) (t : ptr) : M unit :=
  do u <- get_tr t;
  (if t_connection_state u =? CS_NOPERM then ret tt
   else
     upd_tr t (tr_ref_count 2) ;;
     do s0 <- next_fd;
     do s1 <- next_fd;
     if (s0 <? 0) || (s1 <? 0) then stop "cannot open transport socketpair"
     else upd_tr t (tr_pair s0 s1 capacity)) ;;
  unlink_transport t ;;
  link_master t ;;
  upd_tr t (tr_disconnects []) ;;
  update_transports.

(** One message of the registration socket. *)
Definition transport_registration_func (capacity : nat) : M unit :=
  do l <- gets actions;
  match l with
  | [] => stop "cannot read transport registration socket"
  | (t, action) :: r =>
      modify (set_actions r) ;;
      if action =? 0 then remove_action t else add_action capacity t
  end.
