(* ===== verification/RegistryProps.v ===== *)
(** * What the transport registry guarantees

    Registration moves a new transport to the device list with two thread
    references; removal frees it after everything that referred to it is down;
    serial numbers stay unique.  Three theorems show where the code breaks its
    own rules: a slot that keeps a freed emulator, a reference dropped twice and a
    descriptor closed twice. *)

From S2P Require Import Prelude CString Io Wire DList Fdevent Server Transports Sockets Packets SocketInv SocketOps SocketLink PacketsSafe Keeps EngineProps Registry.

(** The socket graph does not depend on the device lists. *)
Lemma wf_lists_ext D W s l pl : (forall t, t ∈ l -> is_Some (trs s !! t)) -> wf D W s ->
  wf D W (set_transport_list l (set_pending_list pl s)).
Proof. intros Hl Wf. constructor; try apply Wf. exact Hl. Qed.

Lemma quiet_upd t u u' s : quiet s -> trs s !! t = Some u -> t_disconnects u' = t_disconnects u -> quiet (upd_trs t u' s).
Proof. intros [Wf Hs] Hu E. split; [by eapply wf_upd_tr|done]. Qed.

Lemma quiet_actions l s : quiet s -> quiet (set_actions l s).
Proof. intros [Wf Hs]. split; [by apply (wf_ext ∅ ∅ s)|done]. Qed.

Lemma around_in t l : forall prev, t ∈ l -> exists ln, around t prev l = Some ln.
Proof.
  induction l as [|x l IH]; intros prev Hin; [by apply elem_of_nil in Hin|]. cbn [around].
  case_bool_decide; [eauto|]. apply IH. apply elem_of_cons in Hin as [->|?]; done.
Qed.
Lemma around_notin t l : forall prev, t ∉ l -> around t prev l = None.
Proof.
  induction l as [|x l IH]; intros prev Hn; [done|]. cbn [around]. apply not_elem_of_cons in Hn as [Hx Hl].
  rewrite bool_decide_eq_false_2 by done. by apply IH.
Qed.

(** Unlinking a listed transport, the first time. *)
Lemma unlink_first s t u : quiet s -> trs s !! t = Some u -> t_stale u = None ->
  t ∈ transport_list s \/ (t ∉ transport_list s /\ t ∈ pending_list s) ->
  wp (unlink_transport t) s (fun _ s' => quiet s' /\ exists ln,
    s' = upd_trs t (tr_stale (Some ln) u)
      (if bool_decide (t ∈ transport_list s) then set_transport_list (remove_elt t (transport_list s)) s
       else set_pending_list (remove_elt t (pending_list s)) s)).
Proof.
  intros [Wf Hs] Hu Hst Hin. unfold unlink_transport. apply wp_bind. eapply wp_get_tr; [exact Hu|]. rewrite Hst.
  apply wp_bind, wp_gets, wp_bind, wp_gets.
  assert (wf ∅ ∅ (set_transport_list (remove_elt t (transport_list s)) s)) as Wf1.
  { constructor; try apply Wf. intros x. simpl. rewrite elem_of_remove_elt. intros [? _]. by apply (wf_listed _ _ _ Wf). }
  assert (wf ∅ ∅ (set_pending_list (remove_elt t (pending_list s)) s)) as Wf2 by (constructor; apply Wf).
  destruct Hin as [Hin|[Hn Hin]].
  - destruct (around_in t _ None Hin) as [ln E]. rewrite E, bool_decide_eq_true_2 by done.
    apply wp_bind, wp_modify. eapply wp_upd_tr; [exact Hu|]. split; [|by exists ln]. by apply (quiet_upd t u).
  - destruct (around_in t _ None Hin) as [ln E]. rewrite (around_notin t _ None Hn), E, bool_decide_eq_false_2 by done.
    apply wp_bind, wp_modify. eapply wp_upd_tr; [exact Hu|]. split; [|by exists ln]. by apply (quiet_upd t u).
Qed.

Lemma link_master_run s t u : quiet s -> trs s !! t = Some u ->
  wp (link_master t) s (fun _ s' => quiet s' /\
    s' = upd_trs t (tr_stale None u) (set_transport_list (transport_list s ++ [t]) s)).
Proof.
  intros [Wf Hs] Hu. unfold link_master. apply wp_bind, wp_modify. eapply wp_upd_tr; [exact Hu|]. split; [|done].
  apply (quiet_upd t u); [|done|done]. split; [|done]. constructor; try apply Wf. intros x. simpl.
  rewrite elem_of_app, list_elem_of_singleton. intros [?| ->]; [by apply (wf_listed _ _ _ Wf)|eauto].
Qed.

(** Freeing a transport nothing refers to. *)
Lemma wf_free_tr s t : wf ∅ ∅ s -> (forall d, ~ dis_live d t s) -> t ∉ transport_list s ->
  wf ∅ ∅ (set_trs (delete t (trs s)) s).
Proof.
  intros Wf Hd Hn. assert (forall x u, x <> t -> trs s !! x = Some u -> delete t (trs s) !! x = Some u) as Hk
    by (intros x u Hx Hu; by rewrite lookup_delete_ne).
  constructor; try apply Wf; simpl.
  - intros p a x Hp Hr Hx. destruct (wf_remote _ _ _ Wf p a x Hp Hr Hx) as (u & Hu & Hin). exists u.
    split; [|done]. apply Hk; [|done]. intros ->. apply (Hd (DisRemote p)). by exists a.
  - intros x u Hu. apply lookup_delete_Some in Hu as [_ Hu]. by apply (wf_dis _ _ _ Wf x u).
  - intros x Hx. destruct (wf_listed _ _ _ Wf x Hx) as [u Hu]. exists u. apply Hk; [|done]. congruence.
  - intros l a x Hl Hx. destruct (wf_lisowner _ _ _ Wf l a x Hl Hx) as [u Hu]. exists u. apply Hk; [|done].
    intros ->. apply (Hd (DisListener l)). by exists a.
  - intros x [u Hu]. apply lookup_delete_Some in Hu as [_ Hu]. apply (wf_trfresh _ _ _ Wf). eauto.
Qed.

Lemma next_fd_quiet s : quiet s -> wp next_fd s (fun _ s' => exists i c, s' = set_io i (set_conns c s) /\ quiet s').
Proof.
  intros [Wf Hs]. unfold wp, next_fd. destruct (conns s) as [|[fd f] r].
  - exists (io s), (conns s). split; [by destruct s|done].
  - assert (quiet (set_conns r s)) by (split; [by apply (wf_ext ∅ ∅ s)|done]).
    destruct (0 <=? fd); [|exists (io s), r; split; [by destruct s|done]].
    eexists _, _. split; [reflexivity|]. split; [by apply (wf_ext ∅ ∅ s)|done].
Qed.

(** What registration makes of a transport. *)
Definition started (capacity : nat) (u u' : atransport) : Prop :=
  t_serial u' = t_serial u /\ t_connection_state u' = t_connection_state u /\ t_type u' = t_type u /\
  t_ref_count u' = (if t_connection_state u =? CS_NOPERM then t_ref_count u else 2).

Lemma started_core capacity u u1 u2 : tr_core u2 = tr_core u1 -> started capacity u u1 -> started capacity u u2.
Proof.
  intros E (H1 & H2 & H3 & H4).
  apply (f_equal (fun x => (t_serial x, t_connection_state x, t_type x, t_ref_count x))) in E.
  injection E as E1 E2 E3 E4. unfold started. split_and!; congruence.
Qed.

Lemma registration_spec capacity s t u r
  (Hq : quiet s) (Hact : actions s = (t, 1) :: r) (Hu : trs s !! t = Some u) (Hst : t_stale u = None)
  (Hd : t_disconnects u = []) (Hn : t ∉ transport_list s) (Hp : t ∈ pending_list s) :
  wp (transport_registration_func capacity) s (fun _ s' => quiet s' /\
    transport_list s' = transport_list s ++ [t] /\ pending_list s' = remove_elt t (pending_list s) /\
    actions s' = r /\ exists u', trs s' !! t = Some u' /\ started capacity u u').
Proof.
  unfold transport_registration_func. apply wp_bind, wp_gets. rewrite Hact. apply wp_bind, wp_modify. cbn.
  set (s0 := set_actions r s). assert (quiet s0) as Hq0 by (by apply quiet_actions).
  unfold add_action. apply wp_bind. eapply (wp_get_tr t u); [exact Hu|]. apply wp_bind.
  eapply (wp_mono _ _ (fun _ s1 => quiet s1 /\ transport_list s1 = transport_list s /\ pending_list s1 = pending_list s /\
    actions s1 = r /\ exists u1, trs s1 !! t = Some u1 /\ t_stale u1 = None /\ t_disconnects u1 = [] /\ started capacity u u1)).
  { unfold started. destruct (t_connection_state u =? CS_NOPERM) eqn:Es.
    { apply wp_ret. split_and!; try done. by exists u. }
    apply wp_bind. eapply wp_upd_tr; [exact Hu|]. apply wp_bind.
    eapply wp_mono; [apply next_fd_quiet; by apply (quiet_upd t u)|]. intros s0' s1 (i & c & -> & Hq1).
    apply wp_bind. eapply wp_mono; [by apply next_fd_quiet|]. intros s1' s2 (i2 & c2 & -> & Hq2).
    destruct (_ || _); [apply wp_stop|]. eapply wp_upd_tr; [apply lookup_insert_eq|].
    split; [eapply quiet_upd; [exact Hq2|apply lookup_insert_eq|done]|]. split_and!; try done.
    eexists. split_and!; [apply lookup_insert_eq|done..]. }
  intros _ s1 (Hq1 & El & Ep & Ea & u1 & Hu1 & Hst1 & Hd1 & Hs1). apply wp_bind.
  eapply wp_mono; [apply (unlink_first s1 t u1); [done..|]|]; [right; by rewrite El, Ep|].
  intros _ s2 [Hq2 (ln & ->)]. rewrite bool_decide_eq_false_2 in * by (by rewrite El). apply wp_bind.
  eapply wp_mono; [apply link_master_run; [done|apply lookup_insert_eq]|]. intros _ s3 [Hq3 ->].
  apply wp_bind. eapply wp_upd_tr; [apply lookup_insert_eq|]. set (u3 := tr_disconnects [] _). set (s3 := upd_trs t u3 _).
  assert (quiet s3) as [Wf3 Hs3].
  { eapply quiet_upd; [exact Hq3|apply lookup_insert_eq|]. simpl. by rewrite Hd1. }
  eapply wp_mono; [by apply (update_transports_spec ∅)|]. intros _ s4 [Wf4 [K F]].
  split; [split; [done|by rewrite (fr_lock _ _ _ F)]|]. pose proof (fr_rest _ _ _ F) as Er. injection Er as E1 E2 E3.
  split; [rewrite (fr_list _ _ _ F); simpl; by rewrite El|]. split; [rewrite E1; simpl; by rewrite Ep|].
  split; [by rewrite E2|]. pose proof (fr_trs _ _ _ F t) as Ec. unfold s3 in Ec. simpl in Ec.
  rewrite lookup_insert_eq in Ec. destruct (trs s4 !! t) as [u4|]; [|done]. exists u4. split; [done|].
  eapply started_core; [apply (inj Some), Ec|]. exact Hs1.
Qed.

(** C10. The registration message of a new transport: it leaves the pending list
    and joins the end of the device list, its serial and state kept, holding one
    reference for each of its two threads unless the device is not accessible;
    the device trackers are told, and the invariant holds. *)
Theorem registration_starts capacity s t u r
  (Hq : quiet s) (Hact : actions s = (t, 1) :: r) (Hu : trs s !! t = Some u) (Hst : t_stale u = None)
  (Hd : t_disconnects u = []) (Hn : t ∉ transport_list s) (Hp : t ∈ pending_list s) :
  wp (transport_registration_func capacity) s (fun _ s' => quiet s' /\
    transport_list s' = transport_list s ++ [t] /\ pending_list s' = remove_elt t (pending_list s) /\
    actions s' = r /\ exists u', trs s' !! t = Some u' /\ started capacity u u').
Proof. by apply (registration_spec capacity s t u r). Qed.

(** A transport waiting to be started. *)
Definition usb_new : atransport :=
  mktr (Some (lit "PAX2")) None None None (Some (lit "usb:1-2")) kTransportUsb 0 CS_OFFLINE
    false false 0 None 0 [] [] 0 (Some 3%nat) 0 0 0 None.
Definition demo_pending : sv :=
  set_conns [(30, mkfio [] [] []); (31, mkfio [] [] [])]
  (set_actions [(2%nat, 1)] (set_pending_list [2%nat] (set_trs (<[2%nat := usb_new]> (trs demo)) demo))).

Lemma quiet_new_tr s (t : ptr) u : quiet s -> trs s !! t = None -> (t < next_ptr s)%nat -> t_disconnects u = [] ->
  quiet (set_trs (<[t := u]> (trs s)) s).
Proof.
  intros [Wf Hs] Hn Hlt Hd. split; [|done].
  assert (forall x u', trs s !! x = Some u' -> <[t := u]> (trs s) !! x = Some u') as Hk
    by (intros x u' Hx; rewrite lookup_insert_ne; [done|congruence]).
  constructor; try apply Wf; simpl.
  - intros p a x Hp Hr Hx. destruct (wf_remote _ _ _ Wf p a x Hp Hr Hx) as (u' & Hu & Hin). eauto.
  - intros x u' Hu. apply lookup_insert_Some in Hu as [[<- <-]|[_ Hu]]; [|by apply (wf_dis _ _ _ Wf x u')].
    rewrite Hd. split; [constructor|]. split; intros y; rewrite elem_of_nil; [done|]. split; [done|].
    intros (a & Ha & Ht). destruct (wf_lisowner _ _ _ Wf y a t Ha Ht). congruence.
  - intros x Hx. destruct (wf_listed _ _ _ Wf x Hx) as [u' Hu]. eauto.
  - intros l a x Hla Hx. destruct (wf_lisowner _ _ _ Wf l a x Hla Hx) as [u' Hu]. eauto.
  - intros x [<-|[_ Hx]]%lookup_insert_is_Some; [done|by apply (wf_trfresh _ _ _ Wf)].
Qed.

Lemma demo_pending_quiet : quiet demo_pending.
Proof.
  assert (quiet (set_trs (<[2%nat := usb_new]> (trs demo)) demo)) as [Wf Hs]
    by (apply quiet_new_tr; [apply demo_quiet|done|by apply Nat.ltb_lt|done]).
  split; [|done]. apply (wf_ext ∅ ∅ (set_trs (<[2%nat := usb_new]> (trs demo)) demo)); done.
Qed.

Lemma registration_starts_witness :
  wp (transport_registration_func 12) demo_pending (fun _ s' => quiet s' /\
    transport_list s' = [1%nat] ++ [2%nat] /\ pending_list s' = [] /\
    actions s' = [] /\ exists u', trs s' !! 2%nat = Some u' /\ started 12 usb_new u').
Proof.
  apply (registration_starts 12 demo_pending 2%nat usb_new []);
    [exact demo_pending_quiet|done|done|done|done|apply (bool_decide_eq_false_1 (_ ∈ _)); by vm_compute|apply list_elem_of_here].
Defined.

(** ** Removal *)

(** The links of a transport can be undone: it is listed, or its old links still
    name two neighbours. *)
Definition unlinkable (s : sv) (t : ptr) (u : atransport) : Prop :=
  match t_stale u with
  | None => t ∈ transport_list s
  | Some (prev, next) => t ∉ transport_list s /\ neighbours prev next None (transport_list s) = true
  end.

Lemma unlink_quiet s t u : quiet s -> trs s !! t = Some u -> unlinkable s t u ->
  wp (unlink_transport t) s (fun _ s' => quiet s' /\ t ∉ transport_list s' /\ is_Some (trs s' !! t)).
Proof.
  intros Hq Hu Hl. unfold unlinkable in Hl. destruct (t_stale u) as [[prev next]|] eqn:Est.
  - destruct Hl as [Hn Hnb]. unfold unlink_transport. apply wp_bind. eapply wp_get_tr; [exact Hu|]. rewrite Est.
    apply wp_bind, wp_gets. rewrite Hnb. apply wp_ret. eauto.
  - eapply wp_mono; [apply (unlink_first s t u); try done; by left|]. intros _ s' [Hq' (ln & ->)].
    rewrite bool_decide_eq_true_2 in * by done. split; [done|]. simpl. rewrite elem_of_remove_elt.
    split; [naive_solver|]. rewrite lookup_insert_eq. eauto.
Qed.

Lemma fd_close_quiet fd s : quiet s -> quiet (set_closed_fds (closed_fds s ++ [fd]) (set_io (delete fd (io s)) s)).
Proof. intros [Wf Hs]. split; [by apply (wf_ext ∅ ∅ s)|done]. Qed.

Lemma removal_spec capacity s t u r
  (Hq : quiet s) (Hact : actions s = (t, 0) :: r) (Hu : trs s !! t = Some u) (Hl : unlinkable s t u) :
  wp (transport_registration_func capacity) s (fun _ s' => quiet s' /\
    trs s' !! t = None /\ t ∉ transport_list s' /\
    (forall p a, heap s' !! p = Some a -> a_enqueue a = remote_enqueue -> a_transport a <> Some t) /\
    (forall l a, listeners s' !! l = Some a -> l_transport a <> Some t)).
Proof.
  unfold transport_registration_func. apply wp_bind, wp_gets. rewrite Hact. apply wp_bind, wp_modify. cbn.
  set (s0 := set_actions r s). assert (quiet s0) as Hq0 by (by apply quiet_actions).
  unfold remove_action. apply wp_bind. eapply (wp_get_tr t u); [exact Hu|].
  apply wp_bind, wp_modify, wp_bind, wp_modify. apply wp_bind.
  eapply wp_mono; [apply (unlink_quiet _ t u); [by apply fd_close_quiet, fd_close_quiet|exact Hu|exact Hl]|].
  intros _ s1 ([Wf1 Hs1] & Hn1 & [u1 Hu1]). apply wp_bind.
  eapply wp_mono; [by apply (run_transport_disconnects_spec ∅ s1 t u1)|].
  intros _ s2 (Wf2 & Hs2 & El2 & Hc2 & Hd2). specialize (Hc2 t). rewrite Hu1 in Hc2.
  destruct (trs s2 !! t) as [u2|] eqn:Hu2; [|done].
  unfold free_tr. apply wp_bind, wp_bind. eapply wp_get_tr; [exact Hu2|]. apply wp_modify.
  set (s3 := set_trs _ s2). assert (wf ∅ ∅ s3) as Wf3 by (apply wf_free_tr; [done..|by rewrite El2]).
  eapply wp_mono; [by apply (update_transports_spec ∅)|]. intros _ s4 [Wf4 [K F]].
  assert (trs s4 !! t = None) as Ht4.
  { pose proof (fr_trs _ _ _ F t) as Ec. unfold s3 in Ec. simpl in Ec. rewrite lookup_delete_eq in Ec. by destruct (trs s4 !! t). }
  split; [split; [done|by rewrite (fr_lock _ _ _ F)]|]. split; [done|].
  split; [rewrite (fr_list _ _ _ F); simpl; by rewrite El2|]. split.
  - intros p a Hp Hr Ht. destruct (wf_remote _ _ _ Wf4 p a t Hp Hr Ht) as (x & Hx & _). congruence.
  - intros l a Hla Ht. destruct (wf_lisowner _ _ _ Wf4 l a t Hla Ht) as [x Hx]. congruence.
Qed.

(** C11. The removal message of a transport: everything that refers to it is
    taken down before it is freed (its streams, its forwardings, its place on
    the device list), so that no use of the freed transport is left in the
    socket graph, and the trackers are told. *)
Theorem removal_frees capacity s t u r
  (Hq : quiet s) (Hact : actions s = (t, 0) :: r) (Hu : trs s !! t = Some u) (Hl : unlinkable s t u) :
  wp (transport_registration_func capacity) s (fun _ s' => quiet s' /\
    trs s' !! t = None /\ t ∉ transport_list s' /\
    (forall p a, heap s' !! p = Some a -> a_enqueue a = remote_enqueue -> a_transport a <> Some t) /\
    (forall l a, listeners s' !! l = Some a -> l_transport a <> Some t)).
Proof. by apply (removal_spec capacity s t u r). Qed.

Lemma removal_frees_witness :
  let s := set_actions [(1%nat, 0)] (demo_at 2) in
  wp (transport_registration_func 12) s (fun _ s' => quiet s' /\
    trs s' !! 1%nat = None /\ 1%nat ∉ transport_list s' /\
    (forall p a, heap s' !! p = Some a -> a_enqueue a = remote_enqueue -> a_transport a <> Some 1%nat) /\
    (forall l a, listeners s' !! l = Some a -> l_transport a <> Some 1%nat)).
Proof.
  apply (removal_frees 12 _ 1%nat (demo_tr1 2) []); [|done|by vm_compute|].
  - apply quiet_actions, demo_at_quiet.
  - vm_compute. apply list_elem_of_here.
Defined.

(** ** Serial numbers *)

Definition serial_of (m : gmap ptr atransport) (t : ptr) : option bytes := m !! t ≫= t_serial.
Definition serials (s : sv) : list bytes := omap (serial_of (trs s)) (pending_list s ++ transport_list s).

(** The pointers the registry follows are live, and addresses are fresh. *)
Record reg_ok (s : sv) : Prop := {
  ro_listed : forall t, t ∈ pending_list s ++ transport_list s -> is_Some (trs s !! t);
  ro_slots : forall t, Some t ∈ locals s -> is_Some (trs s !! t);
  ro_fresh : forall t, is_Some (trs s !! t) -> (t < next_ptr s)%nat }.

Lemma reg_ok_io s i c : reg_ok s -> reg_ok (set_io i (set_conns c s)).
Proof. intros [H1 H2 H3]. by constructor. Qed.
Lemma reg_ok_alloc s u : reg_ok s -> reg_ok (set_next_ptr (S (next_ptr s)) (set_trs (<[next_ptr s := u]> (trs s)) s)).
Proof.
  intros [H1 H2 H3]. constructor; simpl; intros x Hx; [apply keeps_insert; auto..|].
  apply lookup_insert_is_Some in Hx as [<-|[_ Hx]]; [lia|]. apply H3 in Hx. lia.
Qed.

Lemma serial_taken_run s serial : forall l, (forall t, t ∈ l -> is_Some (trs s !! t)) ->
  exists b, serial_taken l serial s = Ok (b, s) /\ (b = true <-> serial ∈ omap (serial_of (trs s)) l).
Proof.
  induction l as [|t l IH]; intros Hl; [exists false; split; [done|]; split; [done|intros H; by apply elem_of_nil in H]|].
  destruct IH as (b & E & Hb); [intros x Hx; apply Hl; by right|]. cbn [serial_taken]. unfold bind, get_tr.
  destruct (Hl t (list_elem_of_here _ _)) as [u Hu]. rewrite Hu.
  assert (serial_of (trs s) t = t_serial u) as Es by (unfold serial_of; by rewrite Hu).
  cbn [omap list_omap]. rewrite Es. destruct (t_serial u) as [x|]; [|eauto]. destruct (streq serial x) eqn:Ex.
  - apply streq_true in Ex as ->. exists true. split; [done|]. split; [|done]. intros _. apply list_elem_of_here.
  - apply streq_false in Ex. exists b. split; [done|]. rewrite Hb, elem_of_cons. naive_solver.
Qed.

Lemma find_slot_run s port : forall l, (forall t, Some t ∈ l -> is_Some (trs s !! t)) ->
  exists o, find_slot l port s = Ok (o, s).
Proof.
  induction l as [|[t|] l IH]; intros Hl; cbn [find_slot]; [by eexists| |apply IH; intros x Hx; apply Hl; by right].
  destruct (Hl t (list_elem_of_here _ _)) as [u Hu]. unfold bind, get_tr. rewrite Hu.
  destruct (t_adb_port u =? port); [by eexists|]. apply IH. intros x Hx. apply Hl. by right.
Qed.

(** The initialisation of a fresh transport changes that transport and the
    slots only. *)
Lemma init_run s t u port local : reg_ok s -> trs s !! t = Some u -> t_serial u = None ->
  exists ok u' L, init_socket_transport t port local s = Ok (ok, set_locals L (upd_trs t u' s)) /\ t_serial u' = None /\
    t_disconnects u' = t_disconnects u /\ (local = false -> ok = true).
Proof.
  intros Hok Hu Hse. unfold init_socket_transport. destruct local; cbn [negb].
  2: { exists true, u, (locals s). unfold upd_trs. rewrite insert_id by done. by destruct s. }
  unfold bind, upd_tr, get_tr, modify. cbn. unfold bind. rewrite Hu. cbn. unfold find_emulator_transport_by_adb_port, bind, gets. cbn.
  fold (upd_trs t (tr_adb_port port u) s). set (s1 := upd_trs _ _ _).
  destruct (find_slot_run s1 port (locals s)) as [o E].
  { intros x Hx. unfold s1. simpl. apply keeps_insert. by apply (ro_slots _ Hok). }
  rewrite E. unfold get_available_local_transport_index, gets. cbn.
  assert (forall L, set_locals L s1 = set_locals L (upd_trs t (tr_adb_port port u) s)) as E1 by done.
  assert (s1 = set_locals (locals s) s1) as E2 by (by unfold s1; destruct s).
  destruct o as [x|], (free_slot_from 0 (locals s)) as [i|]; unfold ret, modify.
  all: try (exists false, (tr_adb_port port u), (locals s); rewrite <- E1, <- E2; done).
  by eexists true, (tr_adb_port port u), _.
Qed.

Lemma omap_serial_new (m : gmap ptr atransport) t u (l : list ptr) : m !! t = None -> (forall x, x ∈ l -> is_Some (m !! x)) ->
  omap (serial_of (<[t := u]> m)) l = omap (serial_of m) l.
Proof.
  intros Hn. induction l as [|x l IH]; intros Hl; [done|]. cbn [omap list_omap].
  rewrite IH by (intros y Hy; apply Hl; by right). unfold serial_of. rewrite lookup_insert_ne; [done|].
  intros <-. destruct (Hl t (list_elem_of_here _ _)). congruence.
Qed.

Lemma register_socket_spec fd serial port local s (Hok : reg_ok s) (Hnd : NoDup (serials s)) :
  wp (register_socket_transport fd serial port local) s (fun r s' =>
    NoDup (serials s') /\
    (if r : bool
     then serial ∉ serials s /\ serials s' ≡ₚ serial :: serials s /\
          pending_list s' = pending_list s ++ [next_ptr s] /\ actions s' = actions s ++ [(next_ptr s, 1)]
     else serials s' = serials s /\ (local = false -> serial ∈ serials s))).
Proof.
  unfold register_socket_transport. apply wp_bind. unfold new_tr, wp at 1. set (t := next_ptr s).
  assert (trs s !! t = None) as Hn.
  { destruct (trs s !! t) eqn:E; [|done]. pose proof (ro_fresh _ Hok t ltac:(eauto)). unfold t in *. lia. }
  set (s1 := set_next_ptr (S t) (set_trs (<[t := blank_socket_transport fd]> (trs s)) s)).
  assert (reg_ok s1) as Hok1 by (by apply reg_ok_alloc).
  destruct (init_run s1 t (blank_socket_transport fd) port local) as (ok & u' & L & E & Hse & _ & Hloc);
    [done|apply lookup_insert_eq|done|].
  apply wp_bind. unfold wp at 1. rewrite E. set (s2 := set_locals L (upd_trs t u' s1)).
  assert (trs s2 = <[t := u']> (trs s)) as Etr by (unfold s2; simpl; by rewrite insert_insert_eq).
  assert (forall l : list ptr, (forall x, x ∈ l -> x ∈ pending_list s ++ transport_list s) -> (forall x, x ∈ l -> is_Some (trs s2 !! x)) /\
    omap (serial_of (trs s2)) l = omap (serial_of (trs s)) l) as Hsub.
  { intros l Hl. rewrite Etr. split; [intros x Hx; apply keeps_insert; apply (ro_listed _ Hok); auto|].
    apply omap_serial_new; [done|]. intros x Hx. apply (ro_listed _ Hok). auto. }
  assert (forall P : Prop, (P -> local = false -> serial ∈ serials s) -> P -> wp (free_tr t ;; ret false) s2 (fun r s' =>
    NoDup (serials s') /\ (if r : bool then serial ∉ serials s /\ serials s' ≡ₚ serial :: serials s /\
          pending_list s' = pending_list s ++ [t] /\ actions s' = actions s ++ [(t, 1)]
     else serials s' = serials s /\ (local = false -> serial ∈ serials s)))) as Hfail.
  { intros P HP Hp. apply wp_bind. unfold free_tr. apply wp_bind. eapply wp_get_tr; [rewrite Etr; apply lookup_insert_eq|].
    apply wp_modify, wp_ret. assert (serials (set_trs (delete t (trs s2)) s2) = serials s) as Es.
    { unfold serials. cbn. rewrite insert_insert_eq, delete_insert_id by done. done. }
    rewrite Es. auto. }
  destruct ok; cbn [negb].
  2: { apply (Hfail (local = true)); [congruence|]. destruct local; [done|]. by specialize (Hloc eq_refl). }
  destruct (Hsub (pending_list s)) as [Hlive1 Eo1]; [intros x Hx; apply elem_of_app; by left|].
  destruct (Hsub (transport_list s)) as [Hlive2 Eo2]; [intros x Hx; apply elem_of_app; by right|].
  destruct (serial_taken_run s2 serial _ Hlive1) as (b1 & E1 & Hb1).
  destruct (serial_taken_run s2 serial _ Hlive2) as (b2 & E2 & Hb2). rewrite Eo1 in Hb1. rewrite Eo2 in Hb2.
  assert (serial ∈ serials s <-> b1 = true \/ b2 = true) as Hiff.
  { unfold serials. rewrite omap_app, elem_of_app, Hb1, Hb2. done. }
  apply wp_bind, wp_gets, wp_bind. unfold wp at 1. change (pending_list s2) with (pending_list s). rewrite E1.
  destruct b1; [apply (Hfail True); tauto|].
  apply wp_bind, wp_gets, wp_bind. unfold wp at 1. change (transport_list s2) with (transport_list s). rewrite E2.
  destruct b2; [apply (Hfail True); tauto|].
  assert (serial ∉ serials s) as Hnew by (rewrite Hiff; intros [?|?]; done).
  apply wp_bind. unfold link_pending. apply wp_bind, wp_modify.
  assert (trs s2 !! t = Some u') as Ht2 by (rewrite Etr; apply lookup_insert_eq).
  apply (wp_upd_tr t _ u'); [exact Ht2|].
  apply wp_bind. eapply wp_upd_tr; [apply lookup_insert_eq|]. apply wp_bind, wp_modify, wp_ret.
  set (u3 := tr_serial (Some serial) _). set (s3 := set_actions _ _).
  assert (serials s3 ≡ₚ serial :: serials s) as Hperm.
  { unfold serials, s3. cbn. rewrite !insert_insert_eq. rewrite <- app_assoc, !omap_app. cbn [omap list_omap].
    rewrite !(omap_serial_new (trs s) t u3); [|done|intros x Hx; apply (ro_listed _ Hok), elem_of_app; by right|done|
      intros x Hx; apply (ro_listed _ Hok), elem_of_app; by left].
    unfold serial_of at 2. rewrite lookup_insert_eq. cbn. by rewrite Permutation_middle. }
  split; [rewrite Hperm; by constructor|]. split_and!; done.
Qed.



(** ** Where the registry breaks its rules *)

(** An emulator of the same console port on another adb port. *)
Definition emulator (fd : Z) (console_port adb_port : Z) : M bool :=
  register_socket_transport fd (lit "emulator-" ++ fmt_dec console_port) adb_port true.
Definition demo_slots : sv := set_locals (replicate ADB_LOCAL_TRANSPORT_MAX None) demo.

(** A second emulator connection with a serial that is taken is refused
    after it was entered in the slot table: the slot keeps the freed transport,
    and the next look at the table follows it. *)
Theorem refused_emulator_dangles :
  match (emulator 40 5554 5555 ;; emulator 41 5554 6001) demo_slots with
  | Ok (r, s') => r = false /\ bool_decide (Some 101%nat ∈ locals s') = true /\ trs s' !! 101%nat = None /\
      find_emulator_transport_by_adb_port 7001 s' = UB "atransport is not live"
  | _ => False
  end.
Proof. vm_compute. by repeat split. Qed.

(** A TCP device that is connected, with its two thread references. *)
Definition tcp_tr : atransport :=
  mktr (Some (lit "10.0.0.7:5555")) None None None None kTransportLocal 0 CS_DEVICE true false 2 None 0 [] [] 8 None 40 41 42 None.
Definition demo_tcp : sv := set_transport_list [1%nat; 2%nat] (set_trs (<[2%nat := tcp_tr]> (trs demo)) demo).

(** "adb disconnect" drops a reference that no one holds for it: after it
    and the end of one of the two threads the removal is posted, although the
    other thread still uses the transport; and [t->fd] is closed by the last
    reference and again by the removal. *)
Theorem disconnect_frees_early :
  match (unregister_transport 2%nat ;; transport_unref 2%nat) demo_tcp with
  | Ok (_, s') => actions s' = [(2%nat, 0)] /\
      match transport_registration_func 8 s' with
      | Ok (_, s'') => trs s'' !! 2%nat = None /\ closed_fds s'' = [40; 42; 41; 42]
      | _ => False
      end
  | _ => False
  end.
Proof. vm_compute. by repeat split. Qed.
