(* ===== verification/Listeners.v ===== *)
(** * Listeners: port forwarding and the server's own port (adb.c)

    A listener accepts local connections and binds each to a stream on a
    transport, or, for the smart listener, to a smart socket that parses the
    client's request. *)

From S2P Require Import Prelude CString Io Wire DList Fdevent Server Transports Sockets.

(** [local_name_to_fd]: a server socket, or -1. *)
Definition local_name_to_fd (name : bytes) : M Z :=
  if has_prefix (lit "tcp:") name || has_prefix (lit "local:") name ||
     has_prefix (lit "localabstract:") name || has_prefix (lit "localfilesystem:") name
  then next_fd else ret (-1).

(** The line of [format_listener]; the transport and its serial are followed. *)
Definition listener_line (a : alistener) : M bytes :=
  match l_transport a with
  | None => undefined "NULL transport"
  | Some t =>
      do u <- get_tr t;
      match t_serial u with
      | None => undefined "NULL serial"
      | Some serial => ret (serial ++ lit " " ++ l_local_name a ++ lit " " ++ l_connect_to a ++ [ch 10])
      end
  end.

(** [format_listeners]: with a buffer, what it holds; [buflen] is unsigned, so
    once a line is longer than what is left the next one is written outside. *)
Fixpoint format_lines (l : list ptr) (buflen : option Z) (acc : bytes) (result : Z) : M (bytes * Z) :=
  match l with
  | [] => ret (acc, result)
  | p :: r =>
      do a <- get_lis p;
      if starts_star (l_connect_to a) then format_lines r buflen acc result
      else
        do line <- listener_line a;
        let len := Z.of_nat (length line) in
        match buflen with
        | None => format_lines r None acc (result + len)
        | Some n =>
            if n <? 0 then undefined "write past the listener buffer"
            else
              let acc' := acc ++ snprintf (Z.to_nat n) line in
              if n - len =? 0 then ret (acc', result + len)
              else format_lines r (Some (n - len)) acc' (result + len)
        end
  end.
Definition format_listeners (buflen : option Z) : M (bytes * Z) :=
  do l <- gets listener_list; format_lines l buflen [] 0.

(** [remove_listener]: the first listener of that name. *)
Fixpoint remove_named (l : list ptr) (local_name : bytes) : M Z :=
  match l with
  | [] => ret (-1)
  | p :: r =>
      do a <- get_lis p;
      if streq local_name (l_local_name a) then free_listener p ;; ret 0 else remove_named r local_name
  end.
Definition remove_listener (local_name : bytes) : M Z := do l <- gets listener_list; remove_named l local_name.

(** [remove_all_listeners]: the successor is read before the body. *)
Fixpoint remove_unstarred (l : list ptr) : M unit :=
  match l with
  | [] => ret tt
  | p :: r =>
      do a <- get_lis p;
      (if starts_star (l_connect_to a) then ret tt else free_listener p) ;;
      remove_unstarred r
  end.
Definition remove_all_listeners : M unit := do l <- gets listener_list; remove_unstarred l.

Definition INSTALL_STATUS_OK : Z := 0.
Definition INSTALL_STATUS_INTERNAL_ERROR : Z := -1.
Definition INSTALL_STATUS_CANNOT_BIND : Z := -2.
Definition INSTALL_STATUS_CANNOT_REBIND : Z := -3.

Definition put_lis (p : ptr) (a : alistener) : M unit := modify (fun s => set_listeners (<[p := a]> (listeners s)) s).

(** The listener of that local name, if there is one. *)
Fixpoint find_listener (l : list ptr) (local_name : bytes) : M (option ptr) :=
  match l with
  | [] => ret None
  | p :: r =>
      do a <- get_lis p;
      if streq local_name (l_local_name a) then ret (Some p) else find_listener r local_name
  end.

(** The body of the loop of [install_listener] for the listener found. *)
Definition rebind_listener (p : ptr) (connect_to : bytes) (transport : option ptr) (no_rebind : bool) : M Z :=
  do a <- get_lis p;
  if starts_star (l_connect_to a) then ret INSTALL_STATUS_INTERNAL_ERROR
  else if no_rebind then ret INSTALL_STATUS_CANNOT_REBIND
  else
    put_lis p (li_rebind connect_to transport a) ;;
    (if bool_decide (l_transport a = transport) then ret tt
     else remove_transport_disconnect (l_transport a) (DisListener p) ;;
          add_transport_disconnect transport (DisListener p)) ;;
    ret INSTALL_STATUS_OK.

(** [install_listener]. *)
Definition install_listener (local_name connect_to : bytes) (transport : option ptr) (no_rebind : bool) : M Z :=
  do l <- gets listener_list;
  do found <- find_listener l local_name;
  match found with
  | Some p => rebind_listener p connect_to transport no_rebind
  | None =>
      do fd <- local_name_to_fd local_name;
      if fd <? 0 then ret INSTALL_STATUS_CANNOT_BIND
      else if 32000 <? fd then stop "bogus huuuuge fd"
      else
        do p <- (fun s => Ok (next_ptr s, set_next_ptr (S (next_ptr s)) s));
        put_lis p (mklis local_name connect_to transport fd (streq connect_to (lit "*smartsocket*"))) ;;
        modify (fun s => set_listener_list (listener_list s ++ [p]) s) ;;
        (match transport with None => ret tt | Some t => add_transport_disconnect (Some t) (DisListener p) end) ;;
        ret INSTALL_STATUS_OK
  end.

(** ** Accepting *)

(** [ss_listener_event_func] and [listener_event_func] on [FDE_READ];
    [create_local_socket] never returns NULL. *)
Definition ss_listener_event_func : M unit :=
  do fd <- next_fd;
  if fd <? 0 then ret tt else do p <- create_local_socket fd; connect_to_smartsocket p.
Definition listener_event_func (l : ptr) : M unit :=
  do fd <- next_fd;
  if fd <? 0 then ret tt
  else
    do p <- create_local_socket fd;
    do a <- get_lis l;
    upd_sock p (sk_transport (l_transport a)) ;;
    connect_to_remote p (l_connect_to a).
