(* ===== verification/HostRequest.v ===== *)
(** * Requests a client makes to the server (adb.c, services.c)

    [handle_host_request] answers what the server can answer at once;
    [handle_forward_request] installs, lists and removes port forwardings;
    [host_service_to_socket] starts the services that take time. *)

From S2P Require Import Prelude CString Io Wire DList Fdevent Server Transports Sockets Registry Listeners.

Definition ADB_SERVER_VERSION : Z := 32.

(** [send_msg_with_okay]: both writes are tried, errors are ignored. *)
Definition send_msg_with_okay (fd : Z) (msg : bytes) : M unit :=
  let len := Z.min (Z.of_nat (length msg)) 0xffff in
  fd_writex fd (snprintf 9 (lit "OKAY" ++ fmt_hex 4 len)) ;;
  fd_writex fd (take (Z.to_nat len) msg) ;;
  ret tt.

(** [acquire_one_transport] with [CS_ANY]: one pass over the device list. *)
Definition live_pairs : M (list (ptr * atransport)) := fun s =>
  match mapM (fun t => pair t <$> trs s !! t) (transport_list s) with
  | Some l => Ok (l, s)
  | None => UB "atransport is not live"
  end.
Definition acquire_any (ttype : transport_type) (serial : option bytes) : M (ptr + string) :=
  do l <- live_pairs;
  match acquire_pass CS_ANY ttype serial l with
  | Acquired p => ret (inl p)
  | Refused why => ret (inr why)
  | Retry => diverge
  end.
Definition acquire_tr (ttype : transport_type) (serial : option bytes) : M (option atransport) :=
  do r <- acquire_any ttype serial;
  match r with inl t => do u <- get_tr t; ret (Some u) | inr _ => ret None end.

Definition fail_with (fd : Z) (why : string) : M unit := sendfailmsg fd (lit why) ;; ret tt.

(** ** Forwarding *)

(** The answer to an [install_listener] status. *)
Definition install_message (r : Z) : string :=
  if r =? INSTALL_STATUS_CANNOT_BIND then "cannot bind to socket"
  else if r =? INSTALL_STATUS_CANNOT_REBIND then "cannot rebind existing socket"
  else "internal error".

Definition okay_twice (fd : Z) : M unit := fd_writex fd (lit "OKAY") ;; fd_writex fd (lit "OKAY") ;; ret tt.

(** [forward:[norebind:]<local>;<remote>], [rest] being what follows
    [forward:]. *)
Definition create_forward (rest : bytes) (ttype : transport_type) (serial : option bytes) (reply_fd : Z) : M unit :=
  let no_rebind := has_prefix (lit "norebind:") rest in
  let spec := if no_rebind then drop 9 rest else rest in
  match split_chr (ch 59) spec with
  | None => fail_with reply_fd "malformed forward spec"
  | Some (local, remote) =>
      if match local, remote with [], _ | _, [] => true | _, _ => starts_star remote end
      then fail_with reply_fd "malformed forward spec"
      else
        do t <- acquire_any ttype serial;
        match t with
        | inr why => fail_with reply_fd why
        | inl t =>
            do r <- install_listener local remote (Some t) no_rebind;
            if r =? 0 then okay_twice reply_fd else fail_with reply_fd (install_message r)
        end
  end.

(** [killforward:<local>]. *)
Definition kill_forward (local : bytes) (ttype : transport_type) (serial : option bytes) (reply_fd : Z) : M unit :=
  match local with
  | [] => fail_with reply_fd "malformed forward spec"
  | _ =>
      do t <- acquire_any ttype serial;
      match t with
      | inr why => fail_with reply_fd why
      | inl _ =>
          do r <- remove_listener local;
          if r =? 0 then okay_twice reply_fd else fail_with reply_fd "cannot remove listener"
      end
  end.

(** [handle_forward_request]: 1 when it answered, 0 when it is no forward
    request. *)
Definition handle_forward_request (service : bytes) (ttype : transport_type) (serial : option bytes) (reply_fd : Z) : M Z :=
  if streq service (lit "list-forward") then
    do '(_, size) <- format_listeners None;
    do '(text, _) <- format_listeners (Some (size + 1));
    send_msg_with_okay reply_fd text ;;
    ret 1
  else if streq service (lit "killforward-all") then
    remove_all_listeners ;;
    fd_write reply_fd (lit "OKAY") ;;
    fd_write reply_fd (lit "OKAY") ;;
    ret 1
  else if has_prefix (lit "forward:") service then
    create_forward (drop 8 service) ttype serial reply_fd ;; ret 1
  else if has_prefix (lit "killforward:") service then
    kill_forward (drop 12 service) ttype serial reply_fd ;; ret 1
  else ret 0.

(** ** [handle_host_request] *)

(** [host:transport...]: bind the smart socket [s] to a transport; the answer
    is 1 either way. *)
Definition select_transport (service : bytes) (serial : option bytes) (reply_fd : Z) (s : ptr) : M Z :=
  let '(type, serial) :=
    if has_prefix (lit "transport-usb") service then (kTransportUsb, serial)
    else if has_prefix (lit "transport-local") service then (kTransportLocal, serial)
    else if has_prefix (lit "transport-any") service then (kTransportAny, serial)
    else if has_prefix (lit "transport:") service then (kTransportAny, Some (drop 10 service))
    else (kTransportAny, serial) in
  do r <- acquire_any type serial;
  match r with
  | inl t => upd_sock s (sk_transport (Some t)) ;; fd_write reply_fd (lit "OKAY") ;; ret 1
  | inr why => fail_with reply_fd why ;; ret 1
  end.

(** [disconnect:<serial>]: the text of the answer. *)
Definition disconnect_request (serial : bytes) : M bytes :=
  match serial with
  | [] => unregister_all_tcp_transports ;; ret []
  | _ =>
      let serial := if bool_decide (ch 58 ∈ serial) then serial else snprintf 99 (serial ++ lit ":5555") in
      do t <- find_transport serial;
      match t with
      | Some t => unregister_transport t ;; ret []
      | None => ret (snprintf 4096 (lit "No such device " ++ serial))
      end
  end.

(** 0: answered, close the connection; 1: a transport was asked for; -1: not a
    request of this function. *)
Definition handle_host_request (adbhost : bool) (service : bytes) (ttype : transport_type) (serial : option bytes)
  (reply_fd : Z) (s : ptr) : M Z :=
  if streq service (lit "kill") then fd_write reply_fd (lit "OKAY") ;; stop "killed by remote request"
  else if has_prefix (lit "transport") service then select_transport service serial reply_fd s
  else if streq service (lit "devices") || streq service (lit "devices-l") then
    do ts <- live_transports;
    do text <- lift (list_transports ts 4096 (streq service (lit "devices-l")));
    send_msg_with_okay reply_fd text ;; ret 0
  else if has_prefix (lit "disconnect:") service then
    do text <- disconnect_request (drop 11 service);
    send_msg_with_okay reply_fd text ;; ret 0
  else if streq service (lit "version") then
    send_msg_with_okay reply_fd (snprintf 12 (fmt_hex 4 ADB_SERVER_VERSION)) ;; ret 0
  else if has_prefix (lit "get-serialno") service then
    do u <- acquire_tr ttype serial;
    send_msg_with_okay reply_fd (match u ≫= t_serial with Some x => x | None => lit "unknown" end) ;; ret 0
  else if has_prefix (lit "get-devpath") service then
    do u <- acquire_tr ttype serial;
    send_msg_with_okay reply_fd (match u ≫= t_devpath with Some x => x | None => lit "unknown" end) ;; ret 0
  else if has_prefix (lit "emulator:") service then
    local_connect adbhost (atoi (drop 9 service)) ;; ret 0
  else if has_prefix (lit "get-state") service then
    do u <- acquire_tr ttype serial;
    send_msg_with_okay reply_fd (connection_state_name u) ;; ret 0
  else
    do r <- handle_forward_request service ttype serial reply_fd;
    ret (if 0 <=? r then r - 1 else -1).

(** ** [host_service_to_socket] *)

(** What a service thread is started with. *)
Inductive service_thread :=
  | WaitForState (transport : transport_type) (serial : option bytes) (state : Z)
  | ConnectService (host : bytes).

Definition thread_of (name : bytes) (serial : option bytes) : option service_thread :=
  if has_prefix (lit "wait-for-") name then
    let kind := drop 9 name in
    if has_prefix (lit "local") kind then Some (WaitForState kTransportLocal serial CS_DEVICE)
    else if has_prefix (lit "usb") kind then Some (WaitForState kTransportUsb serial CS_DEVICE)
    else if has_prefix (lit "any") kind then Some (WaitForState kTransportAny serial CS_DEVICE)
    else None
  else if has_prefix (lit "connect:") name then Some (ConnectService (drop 8 name))
  else None.

(** [create_service_thread] returns the server's end of a new socket pair. *)
Definition host_service_to_socket (name : bytes) (serial : option bytes) : M (option ptr) :=
  if streq name (lit "track-devices") then do p <- create_device_tracker; ret (Some p)
  else
    match thread_of name serial with
    | None => ret None
    | Some _ => do fd <- next_fd; do p <- create_local_socket fd; ret (Some p)
    end.
