(* ===== verification/ListenersProps.v ===== *)
(** * What port forwarding guarantees

    [install_listener] keeps local names unique, binds each forwarding to its
    transport and reports each status in exactly the situation it names; the list
    of forwardings that a client is sent is complete. *)

From S2P Require Import Prelude CString Io Wire DList Fdevent Server Transports Sockets Packets SocketInv SocketOps SocketLink PacketsSafe Keeps EngineProps Registry RegistryProps Listeners HostRequest.

(** One listener is added or changed. *)
Lemma wf_listener_change s s' (p : ptr) a' :
  wf ∅ ∅ s -> heap s' = heap s -> local_list s' = local_list s -> closing_list s' = closing_list s ->
  trackers s' = trackers s -> (next_ptr s <= next_ptr s')%nat -> next_id s' = next_id s ->
  transport_list s' = transport_list s -> listeners s' = <[p := a']> (listeners s) ->
  NoDup (listener_list s') -> (forall l, l ∈ listener_list s' <-> is_Some (listeners s' !! l)) ->
  (forall x, is_Some (trs s' !! x) <-> is_Some (trs s !! x)) ->
  (forall x u u', trs s !! x = Some u -> trs s' !! x = Some u' -> NoDup (t_disconnects u') /\
     (forall q, DisRemote q ∈ t_disconnects u' <-> DisRemote q ∈ t_disconnects u) /\
     (forall l, l <> p -> DisListener l ∈ t_disconnects u' <-> DisListener l ∈ t_disconnects u) /\
     (DisListener p ∈ t_disconnects u' <-> l_transport a' = Some x)) ->
  is_Some (l_transport a') -> (forall t, l_transport a' = Some t -> is_Some (trs s !! t)) -> (p < next_ptr s')%nat ->
  wf ∅ ∅ s'.
Proof.
  intros Wf Eh El Ec Et Ep Ei Etl Els Hnd Hll Hlive Hdis Hsome Hown Hp.
  constructor; rewrite ?Eh, ?El, ?Ec, ?Et, ?Ei, ?Etl; try apply Wf.
  - intros x Hx. pose proof (wf_fresh _ _ _ Wf x Hx). lia.
  - intros x b t Hx Hr Ht. destruct (wf_remote _ _ _ Wf x b t Hx Hr Ht) as (u & Hu & Hin).
    destruct (proj2 (Hlive t) ltac:(eauto)) as [u' Hu']. exists u'. split; [done|].
    by apply (proj1 (proj2 (Hdis t u u' Hu Hu')) x).
  - intros t u' Hu'. destruct (proj1 (Hlive t) ltac:(eauto)) as [u Hu].
    destruct (Hdis t u u' Hu Hu') as (H1 & H2 & H3 & H4). destruct (wf_dis _ _ _ Wf t u Hu) as (_ & Hr & Hl).
    split; [done|]. split; [intros q; rewrite H2; apply Hr|]. intros l. rewrite Els. destruct (decide (l = p)) as [->|Hne].
    + rewrite H4, lookup_insert_eq. naive_solver.
    + rewrite (H3 l Hne), Hl, lookup_insert_ne by done. done.
  - intros t Ht. apply Hlive. by apply (wf_listed _ _ _ Wf).
  - by split.
  - intros l b t Hl Ht. apply Hlive. rewrite Els in Hl. apply lookup_insert_Some in Hl as [[<- <-]|[_ Hl]]; [auto|].
    by apply (wf_lisowner _ _ _ Wf l b).
  - intros l b Hl. rewrite Els in Hl. apply lookup_insert_Some in Hl as [[<- <-]|[_ Hl]]; [done|].
    destruct (wf_lisok _ _ _ Wf l b Hl). split; [lia|done].
  - intros t Ht%Hlive. pose proof (wf_trfresh _ _ _ Wf t Ht). lia.
Qed.

Lemma wp_get_lis l a s Q : listeners s !! l = Some a -> Q a s -> wp (get_lis l) s Q.
Proof. unfold wp, get_lis. intros ->. done. Qed.

(** [find_listener]: the first of the list with the name. *)
Definition named (s : sv) (name : bytes) (l : ptr) : Prop := exists a, listeners s !! l = Some a /\ l_local_name a = name.

Lemma find_listener_spec s name : forall l, (forall p, p ∈ l -> is_Some (listeners s !! p)) ->
  wp (find_listener l name) s (fun r s' => s' = s /\
    match r with Some p => p ∈ l /\ named s name p | None => forall p, p ∈ l -> ~ named s name p end).
Proof.
  induction l as [|p l IH]; intros Hl; cbn [find_listener].
  { apply wp_ret. split; [done|]. intros p Hp. by apply elem_of_nil in Hp. }
  destruct (Hl p (list_elem_of_here _ _)) as [a Ha]. apply wp_bind. eapply wp_get_lis; [exact Ha|].
  destruct (streq name (l_local_name a)) eqn:E.
  - apply streq_true in E as ->. apply wp_ret. split; [done|]. split; [apply list_elem_of_here|by exists a].
  - apply streq_false in E. eapply wp_mono; [apply IH; intros q Hq; apply Hl; by right|].
    intros [q|] s' [-> H]; (split; [done|]).
    + destruct H. split; [by right|done].
    + intros q [->|Hq]%elem_of_cons; [intros (b & Hb & Hn); simplify_eq; congruence|auto].
Qed.

(** Re-binding a listener to another transport, or adding one. *)
Lemma add_disconnect_spec s t u d : quiet s -> trs s !! t = Some u ->
  wp (add_transport_disconnect (Some t) d) s (fun _ s' => s' = upd_trs t (tr_disconnects (t_disconnects u ++ [d]) u) s).
Proof.
  intros Hq Hu. unfold add_transport_disconnect. apply wp_bind. eapply wp_get_tr; [exact Hu|]. by eapply wp_upd_tr.
Qed.

(** The installed forwarding. *)
Definition forwards (s : sv) (name to : bytes) (t : ptr) (p : ptr) : Prop :=
  p ∈ listener_list s /\ exists a, listeners s !! p = Some a /\ l_local_name a = name /\ l_connect_to a = to /\ l_transport a = Some t.

Definition names (s : sv) : list bytes := omap (fun l => l_local_name <$> listeners s !! l) (listener_list s).

Lemma live_insert {A} (m : gmap ptr A) t u x : is_Some (m !! t) -> is_Some (<[t := u]> m !! x) <-> is_Some (m !! x).
Proof. intros Ht. rewrite lookup_insert_is_Some. destruct (decide (t = x)) as [->|]; tauto. Qed.

Lemma NoDup_snoc {A} (l : list A) x : NoDup l -> x ∉ l -> NoDup (l ++ [x]).
Proof.
  intros Hl Hx. apply NoDup_app. split; [done|]. split; [|apply NoDup_singleton].
  intros y Hy ->%list_elem_of_singleton. done.
Qed.

(** The disconnects of a transport [x] when the listener [p] has moved to [t]. *)
Definition moved_to (p t x : ptr) (l l' : list adisconnect) : Prop :=
  NoDup l' /\ (forall q, DisRemote q ∈ l' <-> DisRemote q ∈ l) /\
  (forall q, q <> p -> DisListener q ∈ l' <-> DisListener q ∈ l) /\ (DisListener p ∈ l' <-> t = x).

Lemma moved_in p t l : NoDup l -> DisListener p ∉ l -> moved_to p t t l (l ++ [DisListener p]).
Proof.
  intros Hnd Hni. split; [by apply NoDup_snoc|]. split; [intros q|split; [intros q Hq|]];
    rewrite elem_of_app, list_elem_of_singleton; intuition congruence.
Qed.
Lemma moved_out p t x l : NoDup l -> t <> x -> moved_to p t x l (remove_elt (DisListener p) l).
Proof.
  intros Hnd Hne. split; [by apply NoDup_remove_elt|]. split; [intros q|split; [intros q Hq|]];
    rewrite elem_of_remove_elt; intuition congruence.
Qed.

(** A listener that leads somewhere else. *)
Lemma rebound_quiet s s' p a to t : quiet s -> listeners s !! p = Some a -> is_Some (trs s !! t) ->
  heap s' = heap s -> local_list s' = local_list s -> closing_list s' = closing_list s -> trackers s' = trackers s ->
  next_ptr s' = next_ptr s -> next_id s' = next_id s -> transport_list s' = transport_list s ->
  listeners s' = <[p := li_rebind to (Some t) a]> (listeners s) -> listener_list s' = listener_list s -> slock s' = false ->
  (forall x, is_Some (trs s' !! x) <-> is_Some (trs s !! x)) ->
  (forall x v v', trs s !! x = Some v -> trs s' !! x = Some v' -> moved_to p t x (t_disconnects v) (t_disconnects v')) -> quiet s'.
Proof.
  intros [Wf Hs] Ha Ht E1 E2 E3 E4 E5 E6 E7 E8 E9 E10 Hlive Hdis. split; [|done].
  destruct (wf_lisok _ _ _ Wf p a Ha) as [Hlt _]. assert (p ∈ listener_list s) as Hin by (apply (wf_lislist _ _ _ Wf); eauto).
  eapply (wf_listener_change s s' p (li_rebind to (Some t) a)); try done.
  - by rewrite E5.
  - rewrite E9. apply Wf.
  - intros l. rewrite E8, E9, (proj2 (wf_lislist _ _ _ Wf) l). rewrite lookup_insert_is_Some.
    destruct (decide (p = l)) as [->|Hne]; [|tauto]. split; [by left|]. intros _. eauto.
  - intros x v v' Hv Hv'. destruct (Hdis x v v' Hv Hv') as (H1 & H2 & H3 & H4). split_and!; try done.
    rewrite H4. simpl. split; [by intros ->|by intros [= ->]].
  - intros x [= <-]. eauto.
  - by rewrite E5.
Qed.

Lemma rebind_spec s p a to t u :
  quiet s -> listeners s !! p = Some a -> starts_star (l_connect_to a) = false -> trs s !! t = Some u ->
  wp (rebind_listener p to (Some t) false) s (fun r s' => r = 0 /\ quiet s' /\ heap s' = heap s /\
    listeners s' = <[p := li_rebind to (Some t) a]> (listeners s) /\ listener_list s' = listener_list s).
Proof.
  intros Hq Ha Hst Hu. pose proof Hq as [Wf Hs]. destruct (wf_lisok _ _ _ Wf p a Ha) as [_ Hsome]. destruct (Hsome Hst) as [t0 Ht0].
  unfold rebind_listener. apply wp_bind. eapply wp_get_lis; [exact Ha|]. rewrite Hst. apply wp_bind, wp_modify. set (s1 := set_listeners _ s).
  assert (forall x v, trs s !! x = Some v -> DisListener p ∈ t_disconnects v <-> x = t0) as Hold.
  { intros x v Hv. destruct (wf_dis _ _ _ Wf x v Hv) as (_ & _ & Hl). rewrite Hl. split; [|intros ->; eauto].
    intros (b & Hb & Hbt). congruence. }
  assert (forall x v, trs s !! x = Some v -> (t = x <-> t0 = x) -> moved_to p t x (t_disconnects v) (t_disconnects v)) as Hstay.
  { intros x v Hv Hx. split; [by apply (wf_dis _ _ _ Wf x v)|]. split_and!; try done. rewrite (Hold x v Hv), Hx. split; congruence. }
  destruct (bool_decide (l_transport a = Some t)) eqn:Ebd.
  - apply bool_decide_eq_true in Ebd. apply wp_bind, wp_ret, wp_ret. split; [done|]. split; [|done]. apply (rebound_quiet s s1 p a to t Hq Ha (mk_is_Some _ _ Hu)); try done.
    intros x v v' Hv Hv'. change (trs s !! x = Some v') in Hv'. assert (v' = v) as -> by congruence. apply Hstay; [done|]. split; congruence.
  - apply bool_decide_eq_false in Ebd. rewrite Ht0. destruct (wf_lisowner _ _ _ Wf p a t0 Ha Ht0) as [u0 Hu0].
    assert (t0 <> t) as Hne by congruence.
    apply wp_bind, wp_bind. unfold remove_transport_disconnect. apply wp_bind. eapply (wp_get_tr t0 u0); [exact Hu0|].
    eapply (wp_upd_tr t0 _ u0); [exact Hu0|]. set (s2 := upd_trs t0 _ s1).
    assert (trs s2 !! t = Some u) as Hu2 by (unfold s2; simpl; by rewrite lookup_insert_ne).
    unfold add_transport_disconnect. apply wp_bind. eapply wp_get_tr; [exact Hu2|]. eapply wp_upd_tr; [exact Hu2|]. apply wp_ret.
    split; [done|]. split; [|done]. eapply (rebound_quiet s _ p a to t Hq Ha (mk_is_Some _ _ Hu)); try done.
    + intros x. unfold upd_trs at 1. cbn [trs set_trs]. rewrite (live_insert (trs s2)) by eauto. apply (live_insert (trs s)). eauto.
    + intros x v v' Hv Hv'. destruct (wf_dis _ _ _ Wf x v Hv) as (Hnd & _ & _). simpl in Hv'. pose proof (Hold x v Hv) as Ho.
      apply lookup_insert_Some in Hv' as [[<- <-]|[Hxt Hv']]; [assert (v = u) as -> by congruence; apply moved_in; [done|rewrite Ho; congruence]|].
      apply lookup_insert_Some in Hv' as [[<- <-]|[Hx0 Hv']]; [assert (v = u0) as -> by congruence; by apply moved_out|].
      assert (v' = v) as -> by congruence. by apply Hstay.
Qed.

(** A new listener at the end of the list. *)
Lemma add_listener_spec s name to fd t u b :
  quiet s -> trs s !! t = Some u ->
  wp (do p <- (fun s => Ok (next_ptr s, set_next_ptr (S (next_ptr s)) s));
      put_lis p (mklis name to (Some t) fd b) ;;
      modify (fun s => set_listener_list (listener_list s ++ [p]) s) ;;
      add_transport_disconnect (Some t) (DisListener p) ;; ret INSTALL_STATUS_OK) s (fun r s' => r = 0 /\ quiet s' /\
    listeners s' = <[next_ptr s := mklis name to (Some t) fd b]> (listeners s) /\ listener_list s' = listener_list s ++ [next_ptr s] /\
    heap s' = heap s).
Proof.
  intros [Wf Hs] Hu. apply wp_bind. unfold wp at 1. set (p := next_ptr s).
  assert (listeners s !! p = None) as Hn.
  { destruct (listeners s !! p) eqn:E; [|done]. destruct (wf_lisok _ _ _ Wf p _ E). unfold p in *. lia. }
  apply wp_bind, wp_modify, wp_bind, wp_modify, wp_bind. set (s1 := set_listener_list _ _).
  unfold add_transport_disconnect. apply wp_bind. eapply (wp_get_tr t u); [exact Hu|]. eapply (wp_upd_tr t _ u); [exact Hu|]. apply wp_ret.
  set (s2 := upd_trs t _ s1).
  assert (forall x v, trs s !! x = Some v -> DisListener p ∉ t_disconnects v) as Hno.
  { intros x v Hv Hin. apply (wf_dis _ _ _ Wf x v Hv) in Hin as (a & Ha & _). congruence. }
  assert (p ∉ listener_list s) as Hnl by (rewrite (proj2 (wf_lislist _ _ _ Wf) p), Hn; by intros [? ?]).
  split; [done|]. split; [|done]. split; [|done].
  eapply (wf_listener_change s s2 p (mklis name to (Some t) fd b)); try done.
  - simpl. lia.
  - simpl. apply NoDup_snoc; [apply Wf|done].
  - intros l. simpl. rewrite elem_of_app, list_elem_of_singleton, (proj2 (wf_lislist _ _ _ Wf) l), lookup_insert_is_Some.
    destruct (decide (p = l)) as [->|]; [intuition congruence|]. intuition congruence.
  - intros x. apply (live_insert (trs s)). eauto.
  - intros x v v' Hv Hv'. pose proof (Hno x v Hv) as Hni. pose proof (proj1 (wf_dis _ _ _ Wf x v Hv)) as Hnd.
    unfold s2, upd_trs in Hv'. cbn [trs set_trs] in Hv'. change (trs s1) with (trs s) in Hv'. destruct (decide (x = t)) as [->|Hne].
    + assert (v = u) as -> by congruence. rewrite lookup_insert_eq in Hv'. injection Hv' as <-. simpl.
      split; [by apply NoDup_snoc|].
      split; [intros q; rewrite elem_of_app, list_elem_of_singleton; intuition congruence|].
      split; [intros l Hl; rewrite elem_of_app, list_elem_of_singleton; intuition congruence|].
      rewrite elem_of_app, list_elem_of_singleton. intuition congruence.
    + rewrite lookup_insert_ne in Hv' by done. assert (v' = v) as -> by congruence. split_and!; try done.
      split; [done|]. simpl. congruence.
  - intros x [= <-]. eauto.
  - simpl. unfold p. lia.
Qed.

Lemma install_listener_spec s name to t no_rebind :
  quiet s -> is_Some (trs s !! t) ->
  wp (install_listener name to (Some t) no_rebind) s (fun r s' => quiet s' /\ heap s' = heap s /\
    (r = INSTALL_STATUS_OK -> exists p, forwards s' name to t p /\ (forall l, l <> p -> listeners s' !! l = listeners s !! l)) /\
    (r <> INSTALL_STATUS_OK -> listeners s' = listeners s /\ listener_list s' = listener_list s) /\
    (r = INSTALL_STATUS_CANNOT_REBIND -> no_rebind = true /\ exists p, p ∈ listener_list s /\ named s name p)).
Proof.
  intros [Wf Hs] [u Hu]. unfold install_listener. apply wp_bind, wp_gets, wp_bind.
  eapply wp_mono; [apply (find_listener_spec s name); intros p; apply (proj2 (wf_lislist _ _ _ Wf) p)|].
  intros [p|] s1 [-> H].
  - destruct H as [Hin (a & Ha & Hn)].
    destruct (starts_star (l_connect_to a)) eqn:Est; [|destruct no_rebind].
    { unfold rebind_listener. apply wp_bind. eapply wp_get_lis; [exact Ha|]. rewrite Est. apply wp_ret. by split_and!. }
    { unfold rebind_listener. apply wp_bind. eapply wp_get_lis; [exact Ha|]. rewrite Est. apply wp_ret.
      split_and!; try done. intros _. split; [done|]. exists p. split; [done|by exists a]. }
    eapply wp_mono; [by apply (rebind_spec s p a to t u); auto|]. intros r s' (-> & Hq' & Eh & El & Ell).
    split; [done|]. split; [done|].
    split; [|split; [done|done]]. intros _. exists p. split.
    + split; [by rewrite Ell|]. rewrite El, lookup_insert_eq. by eexists.
    + intros l Hl. by rewrite El, lookup_insert_ne.
  - apply wp_bind. eapply (wp_mono _ _ (fun _ s1 => exists i c, s1 = set_io i (set_conns c s) /\ quiet s1)).
    { unfold local_name_to_fd. case_if_goal; [by apply next_fd_quiet|]. apply wp_ret. exists (io s), (conns s). split; [by destruct s|done]. }
    intros fd s1 (i & c & -> & Hq1). set (s1 := set_io i (set_conns c s)) in *.
    destruct (fd <? 0). { apply wp_ret. split_and!; try done. }
    destruct (32000 <? fd); [apply wp_stop|].
    eapply wp_mono; [by apply (add_listener_spec s1 name to fd t u (streq to (lit "*smartsocket*")))|].
    intros r s' (-> & Hq' & El & Ell & Eh). split; [done|]. split; [done|].
    split; [|split; [done|done]]. intros _. exists (next_ptr s). split.
    + split; [rewrite Ell; apply elem_of_app; right; apply list_elem_of_here|]. rewrite El, lookup_insert_eq. by eexists.
    + intros l Hl. rewrite El. by rewrite lookup_insert_ne.
Qed.



(** ** The list of forwardings *)

(** The line of a listener, none for the server's own port. *)
Definition line_of (s : sv) (l : ptr) : option bytes :=
  match listeners s !! l with
  | None => None
  | Some a =>
      if starts_star (l_connect_to a) then None
      else
        match (match l_transport a with Some t => trs s !! t ≫= t_serial | None => None end) with
        | None => None
        | Some serial => Some (serial ++ lit " " ++ l_local_name a ++ lit " " ++ l_connect_to a ++ [ch 10])
        end
  end.

(** Each listener has a line or is the server's own. *)
Definition listable (s : sv) (l : ptr) : Prop := exists a, listeners s !! l = Some a /\
  (starts_star (l_connect_to a) = true \/ is_Some (line_of s l)).

Lemma listener_line_run s l a d : listeners s !! l = Some a -> starts_star (l_connect_to a) = false ->
  line_of s l = Some d -> listener_line a s = Ok (d, s).
Proof.
  unfold line_of. intros -> ->. unfold listener_line. destruct (l_transport a) as [t|]; [|done]. cbn.
  unfold bind, get_tr. destruct (trs s !! t) as [u|]; [|done]. cbn. destruct (t_serial u); [|done]. by intros [= <-].
Qed.

Definition lines_of (s : sv) (l : list ptr) : bytes := concat (omap (line_of s) l).

Lemma format_size s : forall l acc r, (forall p, p ∈ l -> listable s p) ->
  format_lines l None acc r s = Ok ((acc, r + Z.of_nat (length (lines_of s l))), s).
Proof.
  induction l as [|p l IH]; intros acc r Hl; cbn [format_lines]; [unfold ret; by rewrite Z.add_0_r|].
  destruct (Hl p (list_elem_of_here _ _)) as (a & Ha & Hs). unfold bind at 1, get_lis. rewrite Ha.
  assert (forall q, q ∈ l -> listable s q) as Hl' by (intros q Hq; apply Hl; by right).
  unfold lines_of. cbn [omap list_omap]. destruct Hs as [Hs|[d Hd]].
  - rewrite Hs, IH by done. unfold lines_of. assert (line_of s p = None) as -> by (unfold line_of; by rewrite Ha, Hs). done.
  - assert (starts_star (l_connect_to a) = false) as Hst.
    { unfold line_of in Hd. rewrite Ha in Hd. by destruct (starts_star (l_connect_to a)). }
    rewrite Hst, Hd. unfold bind. rewrite (listener_line_run s p a d) by done. rewrite IH by done. cbn [concat].
    rewrite length_app. unfold lines_of. f_equal. f_equal. f_equal. lia.
Qed.

Lemma format_text s : forall l acc r n, (forall p, p ∈ l -> listable s p) ->
  Z.of_nat (length (lines_of s l)) < n ->
  format_lines l (Some n) acc r s = Ok ((acc ++ lines_of s l, r + Z.of_nat (length (lines_of s l))), s).
Proof.
  induction l as [|p l IH]; intros acc r n Hl Hn; cbn [format_lines].
  { unfold ret, lines_of. cbn. by rewrite Z.add_0_r, app_nil_r. }
  destruct (Hl p (list_elem_of_here _ _)) as (a & Ha & Hs). unfold bind at 1, get_lis. rewrite Ha.
  assert (forall q, q ∈ l -> listable s q) as Hl' by (intros q Hq; apply Hl; by right).
  destruct Hs as [Hs|[d Hd]].
  - assert (lines_of s (p :: l) = lines_of s l) as E.
    { unfold lines_of. cbn [omap list_omap]. assert (line_of s p = None) as -> by (unfold line_of; by rewrite Ha, Hs). done. }
    rewrite E in *. by rewrite Hs, IH.
  - assert (starts_star (l_connect_to a) = false) as Hst.
    { unfold line_of in Hd. rewrite Ha in Hd. by destruct (starts_star (l_connect_to a)). }
    assert (lines_of s (p :: l) = d ++ lines_of s l) as E by (unfold lines_of; cbn [omap list_omap]; by rewrite Hd).
    rewrite E, length_app in *. rewrite Hst. unfold bind. rewrite (listener_line_run s p a d) by done.
    rewrite (proj2 (Z.ltb_ge _ _)) by lia. rewrite (proj2 (Z.eqb_neq _ _)) by lia.
    rewrite snprintf_fits by lia. rewrite IH by (done || lia). rewrite <- app_assoc. do 2 f_equal. f_equal. lia.
Qed.

(** [list-forward] answers with one line for every forwarding, in the order
    they were made, and nothing else: the buffer is sized by a first pass and the
    second pass neither truncates nor overruns it. *)
Theorem forward_list_complete s (Hl : forall p, p ∈ listener_list s -> listable s p) ttype serial fd :
  handle_forward_request (lit "list-forward") ttype serial fd s =
    (send_msg_with_okay fd (concat (omap (line_of s) (listener_list s))) ;; ret 1) s.
Proof.
  unfold handle_forward_request. rewrite streq_refl. unfold format_listeners, bind, gets. rewrite format_size by done.
  cbn -[format_lines]. rewrite format_text by (done || lia). done.
Qed.

(** The server with one forwarding. *)
Definition demo_forward : sv :=
  match install_listener (lit "tcp:6100") (lit "tcp:7") (Some 1%nat) false demo with Ok (_, s) => s | _ => demo end.

Lemma forward_list_complete_witness :
  handle_forward_request (lit "list-forward") kTransportAny None 9 demo_forward =
    (send_msg_with_okay 9 (lit "PAX1 tcp:6100 tcp:7" ++ [ch 10]) ;; ret 1) demo_forward.
Proof.
  assert (concat (omap (line_of demo_forward) (listener_list demo_forward)) = lit "PAX1 tcp:6100 tcp:7" ++ [ch 10]) as <- by (by vm_compute).
  apply (forward_list_complete demo_forward). intros p Hp. assert (listener_list demo_forward = [100%nat]) as E by (by vm_compute).
  rewrite E in Hp. apply list_elem_of_singleton in Hp as ->.
  exists (mklis (lit "tcp:6100") (lit "tcp:7") (Some 1%nat) 5 false). split; [by vm_compute|]. right. eexists. by vm_compute.
Defined.

Lemma demo_forward_quiet : quiet demo_forward.
Proof.
  pose proof (install_listener_spec demo (lit "tcp:6100") (lit "tcp:7") 1%nat false demo_quiet ltac:(by eexists)) as H.
  unfold demo_forward, wp in *. destruct (install_listener _ _ _ _ demo) as [[r s]| | |]; [apply H|apply demo_quiet..].
Qed.
