(* ===== verification/SmartSocket.v ===== *)
(** * Smart sockets and the events of local sockets (sockets.c)

    A smart socket collects a client's request, a length in four hexadecimal
    digits and a service name, and either answers it, binds the client to a host
    service, or opens a stream on the transport the client selected.
    [local_socket_event_func] is what the main loop calls when a client's
    descriptor is ready. *)

From S2P Require Import Prelude CString Io Wire DList Fdevent Server Transports Sockets Registry Listeners HostRequest.

(** ** Decoding *)

(** [unhex]: [0xffffffff] for a character that is not a digit. *)
Definition hex_value (b : byte) : option Z :=
  let c := b2z b in
  if (48 <=? c) && (c <=? 57) then Some (c - 48)
  else if (97 <=? c) && (c <=? 102) then Some (c - 97 + 10)
  else if (65 <=? c) && (c <=? 70) then Some (c - 65 + 10)
  else None.
Fixpoint unhex_loop (s : bytes) (n : Z) : Z :=
  match s with
  | [] => n
  | b :: r =>
      match hex_value b with
      | None => 0xffffffff
      | Some c => unhex_loop r (Z.lor (wrap32 (Z.shiftl n 4)) c)
      end
  end.
Definition unhex (s : bytes) (len : nat) : Z := unhex_loop (take len s) 0.

Lemma hex_digit_add n c : 0 <= n < 268435456 -> 0 <= c < 16 -> Z.lor (wrap32 (Z.shiftl n 4)) c = n * 16 + c.
Proof.
  intros Hn Hc. rewrite Z.shiftl_mul_pow2 by lia. change (2 ^ 4) with 16.
  rewrite wrap32_id by (unfold is_u32, u32_mod in *; lia).
  rewrite <- (Z.add_lor_land (n * 16) c). enough (Z.land (n * 16) c = 0) by lia.
  apply Z.bits_inj'. intros k Hk. rewrite Z.land_spec, Z.bits_0. destruct (Z.ltb_spec k 4) as [H4|H4].
  - change 16 with (2 ^ 4). by rewrite Z.mul_pow2_bits_low by lia.
  - rewrite (Z.bits_above_log2 c k), andb_false_r; [done|lia|].
    destruct (decide (c = 0)) as [->|]; [simpl; lia|]. apply Z.log2_lt_pow2; [lia|].
    apply Z.lt_le_trans with (2 ^ 4); [lia|]. by apply Z.pow_le_mono_r.
Qed.

(** A length header is read back. *)
Lemma unhex_fmt_hex n : 0 <= n < 65536 -> length (fmt_hex 4 n) = 4%nat /\ unhex (fmt_hex 4 n) 4 = n.
Proof.
  intros Hn. split; [by apply length_hex4|]. destruct (hex4_digits n Hn) as [Hd Hv]. rewrite hex4 by done.
  revert Hd Hv. generalize (n / 4096) ((n / 256) mod 16) ((n / 16) mod 16) (n mod 16). intros a b c d Hd Hv.
  rewrite !Forall_cons in Hd. destruct Hd as (Ha & Hb & Hc & Hd & _). unfold unhex. cbn [map take unhex_loop].
  rewrite !(digit_value_char : forall d, 0 <= d < 16 -> hex_value (digit_char d) = Some d) by done.
  rewrite (hex_digit_add 0 a), (hex_digit_add _ b), (hex_digit_add _ c), (hex_digit_add _ d) by lia. rewrite <- Hv. unfold of_digits. cbn [foldl]. lia.
Qed.

(** The digits after the first colon, when there are some and a colon follows. *)
Fixpoint digits_then_colon (s : bytes) : option nat :=
  match s with
  | [] => None
  | b :: r => if isdigit b then S <$> digits_then_colon r else if byte_eqb b (ch 58) then Some 0%nat else None
  end.

(** [skip_host_serial]: the position of the colon that ends the serial. *)
Fixpoint find_chr (c : byte) (s : bytes) : option nat :=
  match s with [] => None | b :: r => if byte_eqb b c then Some 0%nat else S <$> find_chr c r end.
Definition serial_prefixes : list bytes := [lit "usb:"; lit "product:"; lit "model:"; lit "device:"].
Fixpoint prefix_of_serial (l : list bytes) (service : bytes) : option nat :=
  match l with
  | [] => None
  | p :: r => if has_prefix p service then Some (length p) else prefix_of_serial r service
  end.
Definition skip_host_serial (service : bytes) : option nat :=
  match prefix_of_serial serial_prefixes service with
  | Some n => Nat.add n <$> find_chr (ch 58) (drop n service)
  | None =>
      match find_chr (ch 58) service with
      | None => None
      | Some first_colon =>
          let rest := drop (S first_colon) service in
          match rest with
          | d :: _ =>
              if isdigit d then
                match digits_then_colon rest with Some n => Some (S first_colon + n)%nat | None => Some first_colon end
              else Some first_colon
          | [] => Some first_colon
          end
      end
  end.

(** The prefix of a host request: the service, the transport type and the
    serial. *)
Definition host_service (service : bytes) : option (bytes * transport_type * option bytes) :=
  if has_prefix (lit "host-serial:") service then
    let s := drop 12 service in
    match skip_host_serial s with
    | Some n => Some (drop (S n) s, kTransportAny, Some (take n s))
    | None => Some (s, kTransportAny, None)
    end
  else if has_prefix (lit "host-usb:") service then Some (drop 9 service, kTransportUsb, None)
  else if has_prefix (lit "host-local:") service then Some (drop 11 service, kTransportLocal, None)
  else if has_prefix (lit "host:") service then Some (drop 5 service, kTransportAny, None)
  else None.

(** ** [smart_socket_enqueue] *)

Definition peer_fd (s : ptr) : M (ptr * Z) :=
  do a <- get_sock s;
  match a_peer a with None => undefined "NULL peer" | Some q => do b <- get_sock q; ret (q, a_fd b) end.

(** What the queue of a smart socket holds after a packet came in. *)
Definition joined (a : asocket) (p : apacket) : option apacket :=
  match a_pkts a with
  | [] => Some p
  | k :: _ =>
      if MAX_PAYLOAD <? p_len k + p_len p then None
      else Some (mkpkt (msg k) (p_len k + p_len p) (p_ptr k)
                   (take (Z.to_nat (p_len k)) (data k) ++ take (Z.to_nat (p_len p)) (data p)))
  end.

(** The client is bound to the service socket [s2], and this smart socket goes
    away. *)
Definition bind_service (s q : ptr) (fd : Z) (s2 : ptr) : M Z :=
  fd_write fd (lit "OKAY") ;;
  upd_sock q (sk_plain local_ready local_close) ;;
  upd_sock q (sk_peer (Some s2)) ;;
  upd_sock s2 (sk_peer (Some q)) ;;
  upd_sock s (sk_peer None) ;;
  sock_close s ;;
  sock_ready s2 ;;
  ret 0.

(** The client asks its transport for a service; it will be answered when the
    device does. *)
Definition open_remote (s q : ptr) (service : bytes) : M Z :=
  do a <- get_sock s;
  upd_sock q (sk_plain local_ready_notify local_close_notify) ;;
  upd_sock q (sk_peer None) ;;
  upd_sock q (sk_transport (a_transport a)) ;;
  connect_to_remote q service ;;
  upd_sock s (sk_peer None) ;;
  sock_close s ;;
  ret 1.

(** [fail:]. *)
Definition smart_fail (s : ptr) : M Z := sock_close s ;; ret (-1).

(** [create_host_service_socket]. *)
Definition create_host_service_socket (name : bytes) (serial : option bytes) : M (option ptr) := host_service_to_socket name serial.

(** A host request, its prefix removed. *)
Definition host_request (adbhost : bool) (s : ptr) (service : bytes) (ttype : transport_type) (serial : option bytes) : M Z :=
  do '(q, fd) <- peer_fd s;
  do r <- handle_host_request adbhost service ttype serial fd s;
  if r =? 0 then smart_fail s
  else if has_prefix (lit "transport") service then upd_sock s (fun a => sk_pkts (map (with_len 0) (a_pkts a)) a) ;; ret 0
  else
    do s2 <- create_host_service_socket service serial;
    match s2 with
    | None => fail_with fd "unknown host service" ;; smart_fail s
    | Some s2 => bind_service s q fd s2
    end.

(** A request for the selected transport. *)
Definition device_request (s : ptr) (service : bytes) : M Z :=
  do a <- get_sock s;
  do offline <- (match a_transport a with
                 | None => ret true
                 | Some t => do u <- get_tr t; ret (t_connection_state u =? CS_OFFLINE)
                 end);
  do '(q, fd) <- peer_fd s;
  if offline : bool then fail_with fd "device offline (x)" ;; smart_fail s
  else open_remote s q service.

Definition smart_socket_enqueue (adbhost : bool) (s : ptr) (p : apacket) : M Z :=
  do a <- get_sock s;
  match joined a p with
  | None => smart_fail s
  | Some k =>
      upd_sock s (sk_pkts [k]) ;;
      if p_len k <? 4 then ret 0
      else
        let len := unhex (data k) 4 in
        if (len <? 1) || (1024 <? len) then smart_fail s
        else if p_len k <? len + 4 then ret 0
        else
          let service := cstr (take (Z.to_nat len) (drop 4 (data k))) in
          match host_service service with
          | Some (service, ttype, serial) => host_request adbhost s service ttype serial
          | None => device_request s service
          end
  end.

(** ** [local_socket_event_func] *)

(** [s->enqueue(s, p)]. *)
Definition sock_enqueue (adbhost : bool) (s : ptr) (p : apacket) : M Z :=
  do a <- get_sock s;
  match a_enqueue a with
  | local_enqueue => local_socket_enqueue s p
  | remote_enqueue => remote_socket_enqueue s p
  | smart_enqueue => smart_socket_enqueue adbhost s p
  | tracker_enqueue => device_tracker_enqueue s p
  end.

(** The loop over [avail]: the bytes read, whether it is the end, and whether
    the last [r] was 0. *)
Fixpoint read_avail (fuel : nat) (fd : Z) (avail : nat) (acc : bytes) : M (bytes * bool * bool) :=
  match avail with
  | O => ret (acc, false, false)
  | _ =>
      match fuel with
      | O => diverge
      | S f =>
          do r <- fd_read fd avail;
          match r with
          | Got b => read_avail f fd (avail - length b) (acc ++ b)
          | Again => ret (acc, false, false)
          | Eof => ret (acc, true, true)
          | Err => ret (acc, true, false)
          end
      end
  end.

(** The [FDE_READ] part.  [r_zero] is [!r]: after an [enqueue] it is its result
    that is tested. *)
Definition event_read (adbhost : bool) (fd : Z) (s : ptr) : M unit :=
  do '(b, is_eof, last_zero) <- read_avail 4096 fd 4096 [];
  do a <- get_sock s;
  do go <- (match b, a_peer a with
            | [], _ | _, None => ret (Some last_zero)
            | _, Some q =>
                do r <- sock_enqueue adbhost q (mkpkt (msg get_apacket) (Z.of_nat (length b)) 0 b);
                if r <? 0 then ret None
                else when (0 <? r) (sock_fde_del FDE_READ s) ;; ret (Some (r =? 0))
            end);
  match go with
  | None => ret tt
  | Some r_zero =>
      do a1 <- get_sock s;
      when ((f_force_eof (a_fde a1) && r_zero) || is_eof) (sock_close s)
  end.

Definition local_socket_event_func (adbhost : bool) (fd : Z) (ev : Z) (s : ptr) : M unit :=
  do go <- (if has ev FDE_WRITE then event_write fd s else ret true);
  when (go && has ev FDE_READ) (event_read adbhost fd s).
