(* ===== verification/EventProps.v ===== *)
(** * What client events guarantee

    The event function of a client's socket, the smart socket and the listeners,
    run from any state between two events. *)

From S2P Require Import Prelude CString Io Wire DList Fdevent Server Transports Sockets Packets SocketInv SocketOps SocketLink PacketsSafe Keeps EngineProps Registry RegistryProps Listeners HostRequest ListenersProps SmartSocket.

(** ** Reading from a client *)

(** The bytes a descriptor has ready. *)
Definition inp (fd : Z) (s : sv) : bytes := match io s !! fd with Some f => stream (io_in f) | None => [] end.

Lemma wp_fd_read fd n s (Q : ioret -> sv -> Prop) : (0 < n)%nat ->
  (forall r i, let s' := set_io i s in out fd s' = out fd s ->
     match r with Got b => inp fd s = b ++ inp fd s' /\ (0 < length b <= n)%nat | _ => inp fd s = [] end -> Q r s') ->
  wp (fd_read fd n) s Q.
Proof.
  intros Hn H. unfold fd_read, get_fd. apply wp_bind, wp_gets. destruct (io s !! fd) as [f|] eqn:Ef.
  - pose proof (adb_read_stream n (io_in f) Hn) as Hr. destruct (adb_read n (io_in f)) as [r i].
    apply wp_bind, wp_modify, wp_ret. apply H.
    + unfold out. simpl. by rewrite lookup_insert_eq, Ef.
    + unfold inp. simpl. rewrite lookup_insert_eq, Ef. simpl. by destruct r.
  - apply wp_ret. rewrite <- (set_io_id s) at 1. apply H; [by rewrite set_io_id|]. unfold inp. by rewrite Ef.
Qed.

(** The read loop takes what is ready, at most a packet's worth. *)
Lemma read_avail_spec fd : forall n fuel acc s, (n <= fuel)%nat ->
  wp (read_avail fuel fd n acc) s (fun r s' => exists i, s' = set_io i s /\
    fst (fst r) = acc ++ take n (inp fd s) /\ out fd s' = out fd s).
Proof.
  intros n fuel. revert n. induction fuel as [|fuel IH]; intros n acc s Hn.
  { assert (n = 0)%nat as -> by lia. cbn [read_avail]. apply wp_ret. exists (io s). rewrite set_io_id. by rewrite app_nil_r. }
  destruct n as [|n].
  { cbn [read_avail]. apply wp_ret. exists (io s). rewrite set_io_id. by rewrite app_nil_r. }
  cbn [read_avail]. apply wp_bind. apply wp_fd_read; [lia|]. intros [b| | |] i s1 Ho Hr.
  2-4: apply wp_ret; exists i; simpl; rewrite Hr, take_nil, app_nil_r; done.
  destruct Hr as [Hi Hb]. eapply wp_mono; [apply IH; lia|]. intros r s' (j & -> & E & Eo). exists j.
  split; [done|]. split; [|by rewrite Eo]. rewrite E, Hi, take_app, (take_ge b) by lia. by rewrite app_assoc.
Qed.

Lemma quiet_io i s : quiet s -> quiet (set_io i s).
Proof. intros [Wf Hs]. split; [by apply (wf_ext ∅ ∅ s)|done]. Qed.

Lemma quiet_conns c s : quiet s -> quiet (set_conns c s).
Proof. intros [Wf Hs]. split; [by apply (wf_ext ∅ ∅ s)|done]. Qed.

Lemma quiet_fde s p a f : quiet s -> heap s !! p = Some a -> has (f_state f) FDE_WRITE = wants FDE_WRITE a ->
  quiet (upd_heap p (sk_fde f a) s).
Proof. intros [Wf Hs] Hp Hf. split; [by apply wf_fde|done]. Qed.

(** What is left of a client after its socket was read. *)
Definition after_read (p : ptr) (a : asocket) (s' : sv) : Prop :=
  p ∉ local_list s' \/ exists a', heap s' !! p = Some a' /\ a_peer a' = a_peer a /\ a_pkts a' = a_pkts a.

Lemma close_after s p a : quiet s -> heap s !! p = Some a -> wp (sock_close p) s (fun _ s' => quiet s' /\ p ∉ local_list s').
Proof.
  intros [Wf Hs] Hp. eapply wp_mono; [by apply (sock_close_spec ∅ s p a)|]. intros _ s' (Wf' & F & L & _).
  split; [split; [eapply wf_weaken; [|exact Wf']; set_solver|by rewrite (fr_lock _ _ _ F)]|]. rewrite L. naive_solver.
Qed.

(** The bytes a client wrote go to the device as one data packet, and the
    client is not read again until the device answers. *)
Lemma remote_enqueue_spec s q b t u p a d :
  quiet s -> heap s !! q = Some b -> a_enqueue b = remote_enqueue -> a_peer b = Some p -> heap s !! p = Some a ->
  a_transport b = Some t -> trs s !! t = Some u ->
  wp (remote_socket_enqueue q (mkpkt (msg get_apacket) (Z.of_nat (length d)) 0 d)) s (fun r s' => r = 1 /\
    exists n k, s' = upd_trs t (tr_queue (t_out u ++ [k]) n u) s /\
      send_packet_fill (mkpkt (mkmsg A_WRTE (a_id a) (a_id b) (Z.of_nat (length d)) 0 0) (Z.of_nat (length d)) 0 d) = Ok k).
Proof.
  intros Hq Hb Hr Hbp Hp Ht Hu. unfold remote_socket_enqueue. apply wp_bind. eapply wp_get_sock; [exact Hb|].
  unfold peer_id. rewrite Hbp. apply wp_bind, wp_bind. eapply wp_get_sock; [exact Hp|]. apply wp_ret.
  rewrite Ht. apply wp_bind. eapply wp_send_packet; [|exact Hu|].
  { unfold fillable. cbn. lia. }
  intros k n E _. apply wp_ret. split; [done|]. exists n, k. by split.
Qed.

(** The data packet of [remote_socket_enqueue]. *)
Definition wrte_packet (local_id remote_id : Z) (d : bytes) : apacket :=
  match send_packet_fill (mkpkt (mkmsg A_WRTE local_id remote_id (Z.of_nat (length d)) 0 0) (Z.of_nat (length d)) 0 d)
  with Ok k => k | _ => get_apacket end.

(** The packets a transport was given. *)
Definition sent_to (t : ptr) (s : sv) : list apacket := match trs s !! t with Some u => t_out u | None => [] end.

Lemma fde_del_read f : has (f_state (fde_del FDE_READ f)) FDE_READ = false.
Proof.
  rewrite !has_READ. unfold fde_del. rewrite fde_set_testbit by lia.
  rewrite Z.land_spec, Z.lnot_spec by lia. rewrite (Z.land_spec FDE_READ). eval_bits. apply andb_false_r.
Qed.

(** Reading from a client that is connected to a device. *)
Definition forwarded (p : ptr) (a : asocket) (q : ptr) (b : asocket) (t : ptr) (s s' : sv) : Prop :=
  exists s1 a1, heap s1 !! p = Some a1 /\ a_peer a1 = Some q /\ a_pkts a1 = a_pkts a /\
    let d := take 4096 (inp (a_fd a) s) in
    sent_to t s1 = sent_to t s ++ match d with [] => [] | _ => [wrte_packet (a_id a) (a_id b) d] end /\
    (d <> [] -> wants FDE_READ a1 = false) /\ out (a_fd a) s1 = out (a_fd a) s /\
    (s' = s1 \/ sock_close p s1 = Ok (tt, s')).

Lemma wp_close_eq s p a : quiet s -> heap s !! p = Some a ->
  wp (sock_close p) s (fun _ s' => quiet s' /\ sock_close p s = Ok (tt, s')).
Proof.
  intros Hq Hp. pose proof (close_after s p a Hq Hp) as H. unfold wp in *.
  destruct (sock_close p s) as [[[] s']| | |]; [|done..]. by destruct H.
Qed.

Lemma event_read_remote s p a q b t u adbhost :
  quiet s -> heap s !! p = Some a -> is_local a -> a_peer a = Some q ->
  heap s !! q = Some b -> a_enqueue b = remote_enqueue -> a_peer b = Some p -> a_transport b = Some t -> trs s !! t = Some u ->
  wp (event_read adbhost (a_fd a) p) s (fun _ s' => quiet s' /\ forwarded p a q b t s s').
Proof.
  intros Hq Hp Hl Hpe Hb Hr Hbp Ht Hu. unfold event_read, forwarded. apply wp_bind.
  eapply wp_mono; [apply (read_avail_spec (a_fd a) 4096 4096 [] s); lia|].
  intros [[d eof] z] s1 (i & -> & Ed & Eo). simpl in Ed. subst d. set (d := take 4096 (inp (a_fd a) s)) in *.
  set (s1 := set_io i s) in *. assert (quiet s1) as Hq1 by (by apply quiet_io).
  apply wp_bind. eapply wp_get_sock; [exact Hp|]. rewrite Hpe.
  assert (forall s2 a2 r_zero, quiet s2 -> heap s2 !! p = Some a2 -> a_peer a2 = Some q -> a_pkts a2 = a_pkts a ->
    sent_to t s2 = sent_to t s ++ match d with [] => [] | _ => [wrte_packet (a_id a) (a_id b) d] end ->
    (d <> [] -> wants FDE_READ a2 = false) -> out (a_fd a) s2 = out (a_fd a) s ->
    wp (do a1 <- get_sock p; when ((f_force_eof (a_fde a1) && r_zero) || eof) (sock_close p)) s2 (fun _ s' => quiet s' /\
      exists s1 a1, heap s1 !! p = Some a1 /\ a_peer a1 = Some q /\ a_pkts a1 = a_pkts a /\
        sent_to t s1 = sent_to t s ++ match d with [] => [] | _ => [wrte_packet (a_id a) (a_id b) d] end /\
        (d <> [] -> wants FDE_READ a1 = false) /\ out (a_fd a) s1 = out (a_fd a) s /\
        (s' = s1 \/ sock_close p s1 = Ok (tt, s')))) as Hend.
  { intros s2 a2 rz Hq2 Hp2 Hpe2 Hpk2 Hs2 Hw2 Ho2. apply wp_bind. eapply wp_get_sock; [exact Hp2|].
    apply wp_when; intros _.
    - eapply wp_mono; [by apply (wp_close_eq s2 p a2)|]. intros _ s3 [Hq3 E3]. split; [done|]. exists s2, a2. auto 10.
    - split; [done|]. exists s2, a2. auto 10. }
  destruct d as [|c d'] eqn:Ed.
  - apply wp_bind, wp_ret. apply (Hend s1 a z); try done. by rewrite app_nil_r.
  - apply wp_bind, wp_bind. unfold sock_enqueue. apply wp_bind. eapply wp_get_sock; [exact Hb|]. rewrite Hr.
    eapply wp_mono; [by apply (remote_enqueue_spec s1 q b t u p a (c :: d'))|].
    intros r s2 (-> & n & k & -> & Ek). change (1 <? 0) with false. cbv iota. set (s2 := upd_trs t _ s1).
    assert (quiet s2) as Hq2 by (apply (quiet_upd t u); done).
    apply wp_bind, wp_when; [intros _|done]. unfold sock_fde_del. eapply wp_upd_sock; [exact Hp|]. apply wp_ret.
    eapply (Hend _ (sk_fde (fde_del FDE_READ (a_fde a)) a)); try done.
    + apply quiet_fde; [done|done|]. apply fde_del_read_write.
    + apply lookup_insert_eq.
    + unfold sent_to. simpl. rewrite lookup_insert_eq, Hu. simpl. unfold wrte_packet. by rewrite Ek.
    + intros _. unfold wants. simpl. apply fde_del_read.
Qed.



(** ** Requests *)

(** A packet that holds [d]. *)
Definition raw (d : bytes) : apacket := mkpkt (msg get_apacket) (Z.of_nat (length d)) 0 d.

(** What a smart socket does with a complete request. *)
Definition dispatch (adbhost : bool) (s : ptr) (service : bytes) : M Z :=
  match host_service service with
  | Some (service, ttype, serial) => host_request adbhost s service ttype serial
  | None => device_request s service
  end.

(** The request as a client sends it. *)
Definition framed (service : bytes) : bytes := fmt_hex 4 (Z.of_nat (length service)) ++ service.

Lemma unhex_app a b : length a = 4%nat -> unhex (a ++ b) 4 = unhex a 4.
Proof. intros H. unfold unhex. by rewrite take_app_exact, (take_ge a) by lia. Qed.

(** What the socket holds when only [d] has arrived. *)
Definition holding (s : ptr) (a : asocket) (d : bytes) (st : sv) : sv := upd_heap s (sk_pkts [raw d] a) st.

Lemma holding_twice s a d1 d2 st : holding s (sk_pkts [raw d1] a) d2 (holding s a d1 st) = holding s a d2 st.
Proof. unfold holding, upd_heap, set_heap. simpl. by rewrite insert_insert_eq. Qed.

(** One packet is added to what the socket holds. *)
Lemma smart_step adbhost s a d c st : a_pkts a = [] -> heap st !! s = Some a -> (length (d ++ c) <= 4096)%nat -> d <> [] ->
  smart_socket_enqueue adbhost s (raw c) (holding s a d st) = smart_socket_enqueue adbhost s (raw (d ++ c)) st.
Proof.
  intros Hpk Hs Hlen Hd. unfold smart_socket_enqueue, bind. unfold get_sock at 1. unfold holding at 1. simpl heap.
  rewrite lookup_insert_eq. unfold get_sock at 1. rewrite Hs.
  assert (joined (sk_pkts [raw d] a) (raw c) = Some (raw (d ++ c))) as ->.
  { unfold joined. simpl. rewrite (proj2 (Z.ltb_ge _ _)) by (unfold MAX_PAYLOAD; rewrite length_app in Hlen; lia).
    unfold raw. f_equal. rewrite !Nat2Z.id, !take_ge by lia. rewrite length_app, Nat2Z.inj_add. done. }
  assert (joined a (raw (d ++ c)) = Some (raw (d ++ c))) as -> by (unfold joined; by rewrite Hpk).
  unfold upd_sock, bind, get_sock. unfold holding. simpl heap. rewrite lookup_insert_eq, Hs. unfold put_sock, modify.
  assert (set_heap (<[s := sk_pkts [raw (d ++ c)] (sk_pkts [raw d] a)]> (heap (upd_heap s (sk_pkts [raw d] a) st))) (upd_heap s (sk_pkts [raw d] a) st)
        = set_heap (<[s := sk_pkts [raw (d ++ c)] a]> (heap st)) st) as ->; [|done].
  unfold upd_heap, set_heap. simpl. by rewrite insert_insert_eq.
Qed.

(** A request that is not complete is kept. *)
Lemma smart_partial adbhost s a service d st :
  a_pkts a = [] -> heap st !! s = Some a -> (1 <= length service <= 1024)%nat ->
  (exists rest, framed service = d ++ rest /\ rest <> []) ->
  smart_socket_enqueue adbhost s (raw d) st = Ok (0, holding s a d st).
Proof.
  intros Hpk Hs Hlen (rest & Hd & Hr). unfold smart_socket_enqueue, bind, get_sock. rewrite Hs. unfold joined. rewrite Hpk.
  unfold upd_sock, bind, get_sock. rewrite Hs. unfold put_sock, modify. cbv beta iota. fold (upd_heap s (sk_pkts [raw d] a) st).
  change (p_len (raw d)) with (Z.of_nat (length d)). change (data (raw d)) with d.
  destruct (unhex_fmt_hex (Z.of_nat (length service)) ltac:(lia)) as [H4 Hx].
  destruct (Z.ltb_spec (Z.of_nat (length d)) 4) as [Hs4|Hs4]; [done|].
  assert (unhex d 4 = Z.of_nat (length service)) as Eu.
  { unfold framed in Hd. assert (d = fmt_hex 4 (Z.of_nat (length service)) ++ drop 4 d) as Ed.
    { rewrite <- (take_drop 4 d) at 1. f_equal. apply (f_equal (take 4)) in Hd.
      rewrite take_app_exact in Hd by lia. by rewrite take_app_le in Hd by lia. }
    rewrite Ed, unhex_app by done. exact Hx. }
  rewrite Eu. rewrite (proj2 (Z.ltb_ge _ _)) by lia. rewrite (proj2 (Z.ltb_ge 1024 _)) by lia. cbn [orb].
  apply (f_equal length) in Hd. unfold framed in Hd. rewrite !length_app, H4 in Hd. destruct rest; [done|]. simpl in Hd.
  rewrite (proj2 (Z.ltb_lt _ _)) by lia. done.
Qed.

(** A complete one is dispatched. *)
Lemma smart_complete adbhost s a service st :
  a_pkts a = [] -> heap st !! s = Some a -> (1 <= length service <= 1024)%nat -> no_nul service ->
  smart_socket_enqueue adbhost s (raw (framed service)) st = dispatch adbhost s service (holding s a (framed service) st).
Proof.
  intros Hpk Hs Hlen Hz. unfold smart_socket_enqueue, bind, get_sock. rewrite Hs. unfold joined. rewrite Hpk.
  unfold upd_sock, bind, get_sock. rewrite Hs. unfold put_sock, modify. cbv beta iota. fold (upd_heap s (sk_pkts [raw (framed service)] a) st).
  change (p_len (raw ?d)) with (Z.of_nat (length d)). change (data (raw ?d)) with d.
  destruct (unhex_fmt_hex (Z.of_nat (length service)) ltac:(lia)) as [H4 Hx].
  assert (length (framed service) = 4 + length service)%nat as El by (unfold framed; rewrite length_app; lia).
  rewrite El. rewrite (proj2 (Z.ltb_ge _ _)) by lia.
  assert (unhex (framed service) 4 = Z.of_nat (length service)) as Eu by (unfold framed; by rewrite unhex_app).
  rewrite Eu. rewrite (proj2 (Z.ltb_ge _ 1)) by lia. rewrite (proj2 (Z.ltb_ge 1024 _)) by lia. cbn [orb].
  rewrite (proj2 (Z.ltb_ge _ _)) by lia.
  assert (cstr (take (Z.to_nat (Z.of_nat (length service))) (drop 4 (framed service))) = service) as ->; [|done].
  unfold framed. rewrite drop_app_exact by lia. rewrite Nat2Z.id, take_ge by lia. by apply cstr_id.
Qed.

(** The packets of a client, one event at a time. *)
Fixpoint feed (adbhost : bool) (s : ptr) (chunks : list bytes) (last : bytes) : M Z :=
  match chunks with
  | [] => smart_socket_enqueue adbhost s (raw last)
  | c :: r => smart_socket_enqueue adbhost s (raw c) ;; feed adbhost s r last
  end.

Lemma feed_holding adbhost s a service st : a_pkts a = [] -> heap st !! s = Some a ->
  (1 <= length service <= 1024)%nat -> no_nul service ->
  forall chunks last d, Forall (fun c => c <> []) chunks -> last <> [] -> d <> [] ->
    framed service = d ++ concat chunks ++ last ->
    feed adbhost s chunks last (holding s a d st) = dispatch adbhost s service (holding s a (framed service) st).
Proof.
  intros Hpk Hs Hlen Hz. destruct (unhex_fmt_hex (Z.of_nat (length service)) ltac:(lia)) as [H4 _].
  assert (length (framed service) <= 4096)%nat as Hmax by (unfold framed; rewrite length_app; lia).
  induction chunks as [|c r IH]; intros last d Hc Hl Hd E; cbn [feed concat] in *.
  - cbn [app] in E. rewrite smart_step; [|done|done|rewrite <- E; done|done]. rewrite <- E. by apply smart_complete.
  - apply Forall_cons in Hc as [Hc Hr]. rewrite <- !app_assoc in E. unfold bind.
    rewrite smart_step; [|done|done|rewrite E, app_assoc, length_app in Hmax; lia|done].
    rewrite (smart_partial adbhost s a service (d ++ c) st); [|done|done|done|].
    2: { exists (concat r ++ last). rewrite <- app_assoc. split; [done|]. by destruct (concat r), last. }
    apply IH; [done|done|by destruct d|]. by rewrite E, <- !app_assoc.
Qed.

(** C7. However a client's request is cut into packets, the server acts exactly
    once, when its last byte arrives, on exactly the service name the client
    framed. *)
Theorem request_reassembled adbhost s a service chunks last st
  (Hpk : a_pkts a = []) (Hs : heap st !! s = Some a) (Hlen : (1 <= length service <= 1024)%nat) (Hz : no_nul service)
  (Hc : Forall (fun c => c <> []) chunks) (Hl : last <> []) (E : framed service = concat chunks ++ last) :
  feed adbhost s chunks last st = dispatch adbhost s service (holding s a (framed service) st).
Proof.
  destruct chunks as [|c r]; cbn [feed concat] in *; [cbn in E; subst last; by apply smart_complete|].
  apply Forall_cons in Hc as [Hc Hr]. rewrite <- app_assoc in E. unfold bind.
  rewrite (smart_partial adbhost s a service c st); [|done|done|done|].
  - by apply feed_holding.
  - exists (concat r ++ last). split; [done|]. by destruct (concat r), last.
Qed.

(** ** Accepting clients *)

(** A client that has just connected to the server's port. *)
Definition smart_sock (peer : option ptr) : asocket :=
  mksock 0 false false peer blank_fde 0 [] smart_enqueue smart_ready false smart_close None 0.
Definition fresh_client (id fd : Z) (peer : option ptr) (t : option ptr) : asocket :=
  mksock id false false peer (mkfde fd false FDE_ACTIVE 0) fd [] local_enqueue local_ready false local_close t 0.

Lemma keeps_listeners_create fd s p s' : create_local_socket fd s = Ok (p, s') -> listeners s' = listeners s.
Proof.
  unfold create_local_socket, install_local_socket, new_sock, lock, unlock, modify, gets, upd_sock, get_sock, put_sock, bind.
  cbn -[lookup insert]. destruct (slock s); [done|]. cbn -[lookup insert]. rewrite lookup_insert_eq. cbn -[lookup insert].
  destruct (fd <? 0); [done|]. destruct (32000 <? fd); [done|]. cbn -[lookup insert]. rewrite lookup_insert_eq. by intros [= _ <-].
Qed.

Lemma wp_create_keeps fd s : quiet s -> wp (create_local_socket fd) s (fun p s' => quiet s' /\ p = next_ptr s /\
  heap s' !! p = Some (fresh_client (next_id s) fd None None) /\ listeners s' = listeners s /\ trs s' = trs s).
Proof.
  intros [Wf Hs]. pose proof (create_local_socket_spec ∅ ∅ s fd Wf Hs) as H. unfold wp in *.
  destruct (create_local_socket fd s) as [[p s']| | |] eqn:E; [|done..].
  destruct H as (Wf' & Hs' & -> & Hp & _ & Etr & _). split_and!; try done. by apply keeps_listeners_create in E.
Qed.

Lemma accept_smart s : quiet s ->
  wp ss_listener_event_func s (fun _ s' => quiet s').
Proof.
  intros Hq. unfold ss_listener_event_func. apply wp_bind. eapply wp_mono; [by apply next_fd_quiet|].
  intros fd s1 (i & c & -> & [Wf1 Hs1]). set (s1 := set_io i (set_conns c s)) in *. destruct (fd <? 0); [by apply wp_ret|].
  apply wp_bind. eapply wp_mono; [by apply (create_local_socket_spec ∅ ∅ s1 fd)|].
  intros p s2 (Wf2 & Hs2 & -> & Hp & _). set (p := next_ptr s1) in *. fold (fresh_client (next_id s1) fd None None) in Hp.
  unfold connect_to_smartsocket, create_smart_socket. apply wp_bind. unfold new_sock, wp at 1. set (r := next_ptr s2).
  assert (p < r)%nat as Hlt by (apply (wf_fresh _ _ _ Wf2); eauto).
  apply wp_bind. eapply wp_upd_sock; [simpl; rewrite lookup_insert_ne by lia; exact Hp|].
  apply wp_bind. eapply wp_upd_sock; [simpl; rewrite lookup_insert_ne, lookup_insert_eq by lia; reflexivity|].
  set (s3 := upd_heap r _ _).
  assert (wf {[p]} ∅ s2) as Wf2'.
  { rewrite <- (union_empty_r_L {[p]}). apply wf_mark_gone; [done|]. intros x b y ->%elem_of_singleton Hb Hy. simplify_eq. }
  assert (wf ∅ ∅ s3) as Wf3.
  { replace (∅ : gset ptr) with ({[p]} ∖ {[p]} : gset ptr) at 1 by set_solver.
    eapply (wf_link {[p]} ∅ s2 s3 p _ (fresh_client (next_id s1) fd (Some r) None) r (smart_sock (Some p)));
      [exact Wf2'|set_solver|apply not_elem_of_singleton; lia|exact Hp|done|done|done|..]; try done.
    - pose proof (wf_sock _ _ _ Wf2 p _ Hp) as Hok. eapply sock_ok_same; [exact Hok|done..|apply Hok|done].
    - simpl. rewrite (insert_insert_ne _ p r) by lia. by rewrite !insert_insert_eq.
    - apply Wf2. }
  apply (ready_quiet s3 p (fresh_client (next_id s1) fd (Some r) None)); [by split|].
  simpl. rewrite lookup_insert_ne by lia. rewrite lookup_insert_eq. done.
Qed.

(** Changing what a local socket remembers of its transport. *)
Lemma quiet_transport s p a t : quiet s -> heap s !! p = Some a -> is_local a -> quiet (upd_heap p (sk_transport t a) s).
Proof.
  intros [Wf Hs] Hp Hl. split; [|done]. pose proof (wf_sock _ _ _ Wf p a Hp) as Hok.
  eapply wf_upd_heap; [exact Wf|exact Hp|..]; try done.
  - unfold sock_ok in *. simpl. unfold is_local in Hl. rewrite Hl in *. exact Hok.
  - intros Hc. by apply (wf_detached _ _ _ Wf p a).
  - intros Hr. unfold is_local in Hl. congruence.
  - intros HD. split; [done|]. intros _ Hpk. by apply (wf_pkts _ _ _ Wf p a).
  - intros _. by apply (wf_pkts _ _ _ Wf p a).
  - intros _ HW. by apply (wf_wants _ _ _ Wf p a).
Qed.

(** A connection to a forwarded port: the client waits, without a peer, for the
    device's answer to the [A_OPEN] that was sent. *)
Lemma accept_forward s l a t : quiet s -> listeners s !! l = Some a -> l_transport a = Some t ->
  wp (listener_event_func l) s (fun _ s' => quiet s').
Proof.
  intros Hq Hl Ht. unfold listener_event_func. apply wp_bind. eapply wp_mono; [by apply next_fd_quiet|].
  intros fd s1 (i & c & -> & [Wf1 Hs1]). set (s1 := set_io i (set_conns c s)) in *. destruct (fd <? 0); [by apply wp_ret|].
  apply wp_bind. eapply wp_mono; [apply (wp_create_keeps fd s1 (conj Wf1 Hs1))|].
  intros p s2 (Hq2 & -> & Hp & El & Etr). set (p := next_ptr s1) in *.
  apply wp_bind. unfold get_lis, wp at 1. rewrite El. change (listeners s1) with (listeners s). rewrite Hl.
  apply wp_bind. eapply wp_upd_sock; [exact Hp|]. rewrite Ht.
  pose proof (quiet_transport s2 p _ (Some t) Hq2 Hp eq_refl) as Hq3. set (s3 := upd_heap p _ s2) in *.
  unfold connect_to_remote. apply wp_bind. eapply wp_get_sock; [apply lookup_insert_eq|]. case_if_goal; [apply wp_stop|].
  destruct Hq as [Wf Hs]. destruct (wf_lisowner _ _ _ Wf l a t Hl Ht) as [u Hu].
  eapply wp_mono; [apply send_quiet; [done| |]|]; [|exists u|by intros _ s4 [? _]].
  - unfold fillable. cbn. rewrite length_app. simpl. lia.
  - unfold s3. simpl. by rewrite Etr.
Qed.

(** A client that has connected to the server's port, and what it is bound to. *)
Definition demo_client : sv := match ss_listener_event_func demo with Ok (_, s) => s | _ => demo end.

Lemma request_reassembled_witness :
  feed false 101%nat [lit "00"; lit "0chos"; lit "t"] (lit ":version") demo_client =
    dispatch false 101%nat (lit "host:version") (holding 101%nat (smart_sock (Some 100%nat)) (framed (lit "host:version")) demo_client).
Proof.
  apply (request_reassembled false 101%nat (smart_sock (Some 100%nat)) (lit "host:version") [lit "00"; lit "0chos"; lit "t"] (lit ":version") demo_client);
    try (by vm_compute); [simpl; lia|apply (bool_decide_eq_false_1 (_ ∈ _)); by vm_compute|].
  repeat (apply Forall_cons; split; [done|]). by apply Forall_nil.
Defined.

(** The state a computation leaves. *)
Definition after {A} (m : M A) (s : sv) : sv := match m s with Ok (_, s') => s' | _ => s end.
Lemma after_quiet {A} (m : M A) s : quiet s -> wp m s (fun _ s' => quiet s') -> quiet (after m s).
Proof. unfold wp, after. intros Hq H. by destruct (m s) as [[x s']| | |]. Qed.

(** A client of the forwarded port, waiting for its device; a second device is
    attached. *)
Definition demo_two : sv := set_trs (<[2%nat := demo_tr]> (trs demo_forward)) (set_conns [(6, mkfio [] [] [])] demo_forward).
Definition demo_waiting : sv := after (listener_event_func 100%nat) demo_two.
Definition demo_listener : alistener := mklis (lit "tcp:6100") (lit "tcp:7") (Some 1%nat) 5 false.

Lemma demo_two_listeners : listeners demo_two = {[100%nat := demo_listener]}.
Proof. by vm_compute. Qed.

Lemma demo_two_quiet : quiet demo_two.
Proof.
  apply (quiet_new_tr (set_conns [(6, mkfio [] [] [])] demo_forward) 2%nat demo_tr);
    [apply quiet_conns, demo_forward_quiet|by vm_compute|apply Nat.ltb_lt; by vm_compute|done].
Qed.

Lemma demo_waiting_quiet : quiet demo_waiting.
Proof.
  unfold demo_waiting. apply after_quiet; [exact demo_two_quiet|].
  apply (accept_forward demo_two 100%nat demo_listener 1%nat demo_two_quiet); [|done].
  rewrite demo_two_listeners. apply lookup_singleton_eq.
Qed.

(** The same packet closes a stream that is still waiting for its device's
    answer, whichever device it was opened on: until the first [A_OKAY] there is
    no peer to compare the transport with. *)
Theorem foreign_close_hits_pending env t u s x a id
  (Hqt : quiet s) (Hu : trs s !! t = Some u) (Hon : t_online u = true) (Hid : id <> 0)
  (Hx : find_local_socket id 0 s = Ok (Some x, s))
  (Ha : heap s !! x = Some a) (Hp : a_peer a = None) (Hother : a_transport a <> Some t) :
  wp (handle_packet env (wire_packet A_CLSE 0 id []) t) s (fun _ s' => quiet s' /\ x ∉ local_list s' /\
    (no_backlog a = true -> heap s' !! x = None)).
Proof.
  apply wp_handle_close. unfold close_packet. apply wp_bind. eapply wp_get_tr; [exact Hu|]. apply Z.eqb_neq in Hid. cbn. rewrite Hon, Hid. cbn.
  apply wp_bind. unfold wp at 1. rewrite Hx. apply wp_bind. eapply wp_get_sock; [exact Ha|]. rewrite Hp.
  apply wp_bind, wp_ret. destruct Hqt as [Wf Hs]. cbn.
  eapply wp_mono; [by apply (sock_close_spec ∅ s x a)|]. intros _ s' (Wf' & F & L & Hf & _).
  split; [split; [eapply wf_weaken; [|exact Wf']; set_solver|by rewrite (fr_lock _ _ _ F)]|].
  split; [rewrite L; naive_solver|]. unfold fate in Hf. intros E. by rewrite E in Hf.
Qed.

Lemma foreign_close_hits_pending_witness :
  wp (handle_packet no_auth (wire_packet A_CLSE 0 1 []) 2%nat) demo_waiting (fun _ s' => quiet s' /\ 101%nat ∉ local_list s' /\
    (no_backlog (fresh_client 1 6 None (Some 1%nat)) = true -> heap s' !! 101%nat = None)).
Proof.
  apply (foreign_close_hits_pending no_auth 2%nat demo_tr demo_waiting 101%nat (fresh_client 1 6 None (Some 1%nat)) 1);
    try (by vm_compute). exact demo_waiting_quiet.
Defined.

(** ** Where client events go wrong *)

(** A client connects and sends one request; its descriptor takes the [OKAY] and
    then fails. *)
Definition demo_request (service : bytes) (rest : list (Z * fio)) : sv :=
  set_conns ((5, mkfio [RBytes (framed service); RAgain] [WUpto 3; WFail] []) :: rest) demo.
Definition client_sends : M unit := ss_listener_event_func ;; local_socket_event_func false 5 FDE_READ 100%nat.

(** When the answer of a host service cannot be written to its client, the
    service's own socket is closed with the client's, and the event function
    goes on to use it: [local_socket_enqueue] answers 1 and not -1. *)
Theorem service_reply_use_after_free :
  (client_sends ;; local_socket_event_func false 6 FDE_READ 102%nat)
    (demo_request (lit "host:wait-for-any") [(6, mkfio [RBytes (lit "OKAY"); RAgain] [] [])]) = UB "asocket is not live".
Proof. by vm_compute. Qed.

(** The same happens to a client that asks to track devices and goes away:
    the first device list is written from inside the client's own event. *)
Theorem tracker_use_after_free :
  client_sends (demo_request (lit "host:track-devices") []) = UB "asocket is not live".
Proof. by vm_compute. Qed.

(** A smart socket keeps a pointer to the transport a client selected
    without holding a reference: when the device goes away before the client's
    next request, that request reads the freed transport. *)
Theorem selected_transport_use_after_free :
  (client_sends ;;
   transport_unref 1%nat ;; transport_unref 1%nat ;; transport_registration_func 8 ;;
   smart_socket_enqueue false 101%nat (raw (framed (lit "shell:")))) (demo_request (lit "host:transport-any") []) =
  UB "atransport is not live".
Proof. by vm_compute. Qed.
