(* ===== verification/RequestSafe.v ===== *)
(** * Requests are handled safely

    The parts of a request's way through the server that all requests share: the
    choice of a device, the pair of a client and its smart socket, the answers, and
    the stream that waits for its device. *)

From S2P Require Import Prelude CString Io Wire DList Fdevent Server Transports Sockets Packets SocketInv SocketOps SocketLink PacketsSafe Keeps EngineProps Registry RegistryProps Listeners HostRequest ListenersProps SmartSocket EventProps.

(** ** Choosing a device *)

Lemma scan_in ttype serial l : forall st x, s_result (scan_transports ttype serial l st) = Some x -> x ∈ l \/ s_result st = Some x.
Proof.
  induction l as [|[p t] l IH]; intros st x; cbn [scan_transports]; [by right|]. intros H. rewrite elem_of_cons.
  repeat case_match; simpl in H; try done; apply IH in H as [H|H]; simpl in *; naive_solver.
Qed.

Lemma acquire_live ttype serial s : quiet s ->
  wp (acquire_any ttype serial) s (fun r s' => s' = s /\ match r with inl t => is_Some (trs s !! t) | inr _ => True end).
Proof.
  intros [Wf Hs]. unfold acquire_any. apply wp_bind. unfold wp at 1, live_pairs.
  destruct (mapM (fun t => pair t <$> trs s !! t) (transport_list s)) as [l|] eqn:E.
  2:{ apply mapM_None_1, Exists_exists in E as (t & Ht & Hn). destruct (wf_listed _ _ _ Wf t Ht) as [u Hu]. by rewrite Hu in Hn. }
  assert (forall x, x ∈ l -> is_Some (trs s !! x.1)) as Hl.
  { intros x Hx. apply mapM_Some_1 in E. apply list_elem_of_lookup in Hx as [i Hi]. destruct (Forall2_lookup_r _ _ _ _ _ E Hi) as (t & _ & Ht).
    destruct (trs s !! t) as [u|] eqn:Hu; [|done]. injection Ht as <-. by exists u. }
  pose proof (proj1 (acquire_any_answers ttype serial l)) as Hr. destruct (acquire_pass CS_ANY ttype serial l) as [t|w|] eqn:Ep; [|by apply wp_ret|done].
  apply wp_ret. split; [done|]. revert Ep. unfold acquire_pass.
  destruct (s_result (scan_transports ttype serial l (mkscan None false "device not found"))) as [x|] eqn:Ex.
  - apply scan_in in Ex as [Hx|Hx]; [|done]. destruct x as [p u]. repeat case_if_goal; try done; intros [= <-]; by apply (Hl (p, u)).
  - by repeat case_if_goal.
Qed.

(** ** The socket graph *)

(** A local socket that has lost its peer, and has nothing queued, is in order. *)
Lemma wf_unmark D W s q c : wf ({[q]} ∪ D) W s -> heap s !! q = Some c -> is_local c -> a_peer c = None -> a_pkts c = [] -> wf D W s.
Proof.
  intros Wf Hq Hl Hpe Hpk. constructor; try apply Wf.
  - intros p a x Hp HD Hx. destruct (decide (p = q)) as [->|Hne]; [congruence|].
    destruct (wf_peer _ _ _ Wf p a x Hp ltac:(set_solver) Hx) as (HxD & Hxp & H). split; [set_solver|done].
  - intros p a Hp HD Hn. destruct (decide (p = q)) as [->|Hne]; [congruence|]. apply (wf_half _ _ _ Wf p a Hp); [set_solver|done].
  - intros p a Hp Hla. destruct (wf_pkts _ _ _ Wf p a Hp Hla) as [H1 H2]. split; [done|]. intros HD Hne.
    destruct (decide (p = q)) as [->|]; [congruence|]. apply H2; [set_solver|done].
  - intros p a Hp HD HW Ht. destruct (decide (p = q)) as [->|]; [unfold is_local in Hl; congruence|]. apply (wf_update _ _ _ Wf p a Hp); [set_solver|done|done].
Qed.

(** A smart socket that has been cut off is freed, and that is all. *)
Lemma close_smart D W s m a : wf D W s -> m ∈ D -> heap s !! m = Some a -> a_enqueue a = smart_enqueue -> a_peer a = None ->
  wp (sock_close m) s (fun _ s' => wf (D ∖ {[m]}) (W ∖ {[m]}) s' /\ s' = set_heap (delete m (heap s)) s).
Proof.
  intros Wf HD Hm He Hp. pose proof (wf_sock _ _ _ Wf m a Hm) as (Hk & _). rewrite He in Hk. destruct Hk as (_ & Hc & _).
  unfold sock_close, close_fuel. rewrite do_close_S. unfold smart_socket_close, close_peer.
  apply wp_bind. eapply wp_get_sock; [exact Hm|]. rewrite Hc. apply wp_bind. eapply wp_get_sock; [exact Hm|]. rewrite Hp. apply wp_bind, wp_ret.
  eapply wp_mono; [eapply (wp_and _ _ _ (fun _ s' => s' = set_heap (delete m (heap s)) s)); [by apply (free_smart_detached D W s m a)|]|by intros _ s' [(Wf' & _) ->]].
  apply wp_bind. eapply wp_upd_sock; [exact Hm|]. eapply wp_free_sock; [apply lookup_insert_eq|]. unfold upd_heap, set_heap. cbn. by rewrite delete_insert_eq.
Qed.

(** What a smart socket remembers. *)
Lemma smart_upd s m a a' : quiet s -> heap s !! m = Some a -> a_enqueue a = smart_enqueue ->
  (a_id a', a_closing a', a_exit_on_close a', a_peer a', a_enqueue a', a_ready a', a_shutdown a', a_close a', a_update a') =
  (a_id a, a_closing a, a_exit_on_close a, a_peer a, a_enqueue a, a_ready a, a_shutdown a, a_close a, a_update a) ->
  quiet (upd_heap m a' s).
Proof.
  intros [Wf Hs] Hm He [= E1 E2 E3 E4 E5 E6 E7 E8 E9]. split; [|done]. pose proof (wf_sock _ _ _ Wf m a Hm) as (Hk & Hx & Hi).
  eapply wf_upd_heap; [exact Wf|exact Hm|..]; unfold is_local; try congruence.
  - unfold sock_ok. rewrite E5, E6, E7, E8, E3, E1, He in *. done.
  - rewrite E2, E4. by apply (wf_detached _ _ _ Wf m a).
  - intros _. split; [done|]. rewrite He. done.
Qed.

(** The two ends of a client that talks to its smart socket. *)
Record asking (m q : ptr) (a c : asocket) (s : sv) : Prop := {
  as_quiet : quiet s;
  as_smart : heap s !! m = Some a /\ a_enqueue a = smart_enqueue /\ a_peer a = Some q;
  as_client : heap s !! q = Some c /\ is_local c /\ a_peer c = Some m /\ a_closing c = false /\ a_pkts c = [] }.

(** What is left: the client was disconnected, or is there. *)
Definition answered (q : ptr) (r : Z) (s' : sv) : Prop := quiet s' /\ (r < 0 \/ is_Some (heap s' !! q)).

Lemma asking_ne m q a c s : asking m q a c s -> q <> m.
Proof. intros [_ (H1 & H2 & _) (H3 & H4 & _)] ->. unfold is_local in H4. congruence. Qed.

Lemma asking_upd m q a a' c s : asking m q a c s ->
  (a_id a', a_closing a', a_exit_on_close a', a_peer a', a_enqueue a', a_ready a', a_shutdown a', a_close a', a_update a') =
  (a_id a, a_closing a, a_exit_on_close a, a_peer a, a_enqueue a, a_ready a, a_shutdown a, a_close a, a_update a) ->
  asking m q a' c (upd_heap m a' s).
Proof.
  intros H E. pose proof (asking_ne _ _ _ _ _ H) as Hne. destruct H as [Hq (Hm & He & Hp) (Hc & Hl & Hcp & Hcl & Hpk)]. constructor.
  - by eapply smart_upd.
  - injection E as _ _ _ E4 E5 _ _ _ _. cbn. rewrite lookup_insert_eq. split_and!; congruence.
  - cbn. rewrite lookup_insert_ne by done. done.
Qed.
Lemma asking_io m q a c s i : asking m q a c s -> asking m q a c (set_io i s).
Proof. intros [H1 H2 H3]. constructor; [by apply quiet_io|done..]. Qed.

Lemma fail_answered m q a c s : asking m q a c s -> wp (smart_fail m) s (answered q).
Proof.
  intros [Hq (Hm & _) _]. unfold smart_fail. apply wp_bind. eapply wp_mono; [by apply (close_quiet s m a)|]. intros [] s' Hq'. apply wp_ret. split; [done|]. left. lia.
Qed.

(** The client waits for a device: its smart socket is gone, and it has no peer
    until the device answers. *)
Lemma open_answered m q a c s service t : asking m q a c s -> a_transport a = Some t -> is_Some (trs s !! t) -> wp (open_remote m q service) s (answered q).
Proof.
  intros H Ht Hlive. pose proof (asking_ne _ _ _ _ _ H) as Hne. destruct H as [[Wf Hs] (Hm & He & Hmp) (Hc & Hl & Hcp & Hcl & Hpk)].
  unfold open_remote. apply wp_bind. eapply wp_get_sock; [exact Hm|]. rewrite Ht.
  apply wp_bind. eapply wp_upd_sock; [exact Hc|]. apply wp_bind. eapply wp_upd_sock; [apply lookup_insert_eq|]. apply wp_bind. eapply wp_upd_sock; [apply lookup_insert_eq|].
  set (c1 := sk_transport (Some t) (sk_peer None (sk_plain local_ready_notify local_close_notify c))). set (s1 := upd_heap q c1 _).
  assert (s1 = upd_heap q c1 s) as Es1 by (unfold s1, upd_heap, set_heap; cbn; by rewrite !insert_insert_eq). clearbody s1. subst s1.
  assert (wf ({[q]} ∪ {[m]}) ∅ s) as Wf0.
  { rewrite <- (union_empty_r_L ({[q]} ∪ {[m]})). apply wf_mark_gone; [done|]. intros x b y Hx Hb Hy. apply elem_of_union in Hx as [->%elem_of_singleton| ->%elem_of_singleton]; simplify_eq; set_solver. }
  assert (wf ({[q]} ∪ {[m]}) ∅ (upd_heap q c1 s)) as Wf1.
  { pose proof (wf_sock _ _ _ Wf q c Hc) as (Hk & Hx & Hi). eapply wf_upd_heap; [exact Wf0|exact Hc|..]; try done; cbn.
    - unfold sock_ok. cbn. unfold is_local in Hl. rewrite Hl in *. split; [|exact (conj Hx Hi)]. destruct Hk as [Hsh _]. split; [done|right; by split_and!].
    - intros Hr. unfold is_local in Hl. congruence.
    - set_solver.
    - intros _. rewrite Hpk. constructor.
    - intros _ _ Hw. by apply (wf_wants _ _ _ Wf q c Hc Hl) in Hw; [|set_solver]. }
  apply wp_bind. unfold connect_to_remote. apply wp_bind. eapply wp_get_sock; [apply lookup_insert_eq|]. case_if_goal; [apply wp_stop|].
  eapply wp_mono; [eapply (send_packet_wf _ _ ∅); [exact Wf1| |done]|]; [unfold fillable; cbn; rewrite length_app; simpl; lia|].
  intros _ s2 (Wf2 & F2 & Eh2). assert (heap s2 !! m = Some a) as Hm2 by (rewrite Eh2; cbn; by rewrite lookup_insert_ne).
  assert (heap s2 !! q = Some c1) as Hc2 by (rewrite Eh2; apply lookup_insert_eq).
  apply wp_bind. eapply wp_upd_sock; [exact Hm2|]. set (a1 := sk_peer None a). pose proof (wf_sock _ _ _ Wf m a Hm) as (Hk & Hx & Hi).
  assert (wf ({[q]} ∪ {[m]}) ∅ (upd_heap m a1 s2)) as Wf3.
  { eapply wf_upd_heap; [exact Wf2|exact Hm2|..]; unfold is_local; try done; cbn; try congruence; try set_solver.
    unfold sock_ok. cbn. rewrite He in *. done. }
  apply wp_bind. eapply wp_mono; [apply (close_detached ({[q]} ∪ {[m]}) ∅ _ m a1 2 false); [exact Wf3|set_solver|apply lookup_insert_eq|done|]|].
  { intros Hla. unfold is_local in Hla. cbn in Hla. congruence. }
  intros _ s4 (Wf4 & F4 & _ & _). apply wp_ret.
  assert (heap s4 !! q = Some c1) as Hc4 by (rewrite (fr_heap _ _ _ F4 q) by set_solver; cbn; by rewrite lookup_insert_ne).
  split; [|right; eauto]. split.
  - apply (wf_unmark ∅ ∅ s4 q c1); [|exact Hc4|done|done|done].
    replace ({[q]} ∪ ∅ : gset ptr) with (({[q]} ∪ {[m]}) ∖ {[m]} : gset ptr) by set_solver. eapply wf_weaken; [|exact Wf4]. set_solver.
  - rewrite (fr_lock _ _ _ F4). cbn. rewrite (fr_lock _ _ _ F2). exact Hs.
Qed.

(** ** Answers *)

Lemma wp_okay_msg fd m s (Q : unit -> sv -> Prop) : (forall i, Q tt (set_io i s)) -> wp (send_msg_with_okay fd m) s Q.
Proof. intros H. unfold send_msg_with_okay. apply wp_bind, wp_fd_writex. intros b i. apply wp_bind, wp_fd_writex. intros b' j. apply wp_ret, H. Qed.
Lemma wp_fail_with fd w s (Q : unit -> sv -> Prop) : (forall i, Q tt (set_io i s)) -> wp (fail_with fd w) s Q.
Proof. intros H. unfold fail_with. apply wp_bind, wp_sendfailmsg. intros b i. apply wp_ret, H. Qed.
Lemma wp_acquire_tr ttype serial s (Q : option atransport -> sv -> Prop) : quiet s -> (forall u, Q u s) -> wp (acquire_tr ttype serial) s Q.
Proof.
  intros Hq H. unfold acquire_tr. apply wp_bind. eapply wp_mono; [by apply acquire_live|]. intros [t|w] s' [-> Hl]; [|by apply wp_ret].
  destruct Hl as [u Hu]. apply wp_bind. eapply wp_get_tr; [exact Hu|]. by apply wp_ret.
Qed.

Lemma device_answered m service q a c s : (forall t, a_transport a = Some t -> is_Some (trs s !! t)) -> asking m q a c s ->
  wp (device_request m service) s (answered q).
Proof.
  intros Hl H. destruct (as_smart _ _ _ _ _ H) as (Hm & _ & Hmp). destruct (as_client _ _ _ _ _ H) as (Hc & _).
  unfold device_request. apply wp_bind. eapply wp_get_sock; [exact Hm|]. apply wp_bind.
  eapply (wp_mono _ _ (fun off s' => s' = s /\ (off = false -> exists t, a_transport a = Some t))).
  { destruct (a_transport a) as [t|]; [|by apply wp_ret]. destruct (Hl t eq_refl) as [u Hu]. apply wp_bind. eapply wp_get_tr; [exact Hu|]. apply wp_ret. eauto. }
  intros off s' [-> Hoff]. unfold peer_fd. apply wp_bind, wp_bind. eapply wp_get_sock; [exact Hm|]. rewrite Hmp. apply wp_bind. eapply wp_get_sock; [exact Hc|]. apply wp_ret.
  destruct off.
  - apply wp_bind, wp_fail_with. intros i. eapply fail_answered. by apply asking_io.
  - destruct (Hoff eq_refl) as [t Ht]. eapply open_answered; [done|exact Ht|by apply Hl].
Qed.

(** ** The end of a read *)

(** What follows the [enqueue] of the peer in [event_read]: the socket is still
    there unless the answer is negative. *)
Lemma event_read_end p (eof : bool) c rz s : quiet s -> heap s !! p = Some c ->
  wp (do a1 <- get_sock p; when ((f_force_eof (a_fde a1) && rz) || eof) (sock_close p)) s (fun _ s' => quiet s').
Proof. intros Hq Hc. apply wp_bind. eapply wp_get_sock; [exact Hc|]. apply wp_when; intros _; [by eapply close_quiet|done]. Qed.
Lemma event_read_tail p (eof : bool) r s : quiet s -> r < 0 \/ is_Some (heap s !! p) ->
  wp (if r <? 0 then ret None else when (0 <? r) (sock_fde_del FDE_READ p) ;; ret (Some (r =? 0))) s (fun go s1 =>
    wp (match go with
        | None => ret tt
        | Some rz => do a1 <- get_sock p; when ((f_force_eof (a_fde a1) && rz) || eof) (sock_close p)
        end) s1 (fun _ s' => quiet s')).
Proof.
  intros Hq Hr. destruct (Z.ltb_spec r 0); [by apply wp_ret, wp_ret|]. destruct Hr as [?|[b Hb]]; [lia|].
  apply wp_bind, wp_when; intros _.
  - unfold sock_fde_del. eapply wp_upd_sock; [exact Hb|]. apply wp_ret. eapply event_read_end; [apply quiet_fde; [done|exact Hb|]|apply lookup_insert_eq].
    apply fde_del_read_write.
  - apply wp_ret. by eapply event_read_end.
Qed.
