(* ===== verification/Preserve.v ===== *)
(** * What an operation leaves alone

    [pres R m] says that every run of [m] that returns relates its two states by the
    preorder [R]; it composes along the structure of the computation, and the tactic
    [pres] follows it. *)

From S2P Require Import Prelude CString Io Wire DList Fdevent Server Transports Sockets Packets SocketInv Registry Listeners HostRequest.

(** Every run of [m] that returns relates its states by the preorder [R]. *)
Definition pres (R : relation sv) {A} (m : M A) : Prop := forall s a s', m s = Ok (a, s') -> R s s'.

Section pres.
Context {R : relation sv} `{!PreOrder R}.

Lemma pres_id {A} (m : M A) : (forall s a s', m s = Ok (a, s') -> s' = s) -> pres R m.
Proof. intros H s a s' ->%H. reflexivity. Qed.
Lemma pres_ret {A} (a : A) : pres R (ret a).
Proof. apply pres_id. by intros s x s' [= <- <-]. Qed.
Lemma pres_bind {A B} (m : M A) (k : A -> M B) : pres R m -> (forall a, pres R (k a)) -> pres R (bind m k).
Proof.
  intros Hm Hk s b s'. unfold bind. destruct (m s) as [[a s1]| | |] eqn:E; [|done..]. intros E2.
  etrans; [exact (Hm _ _ _ E)|exact (Hk _ _ _ _ E2)].
Qed.
Lemma pres_never {A} (m : M A) : (forall s, match m s with Ok _ => False | _ => True end) -> pres R m.
Proof. intros H s a s' E. specialize (H s). by rewrite E in H. Qed.
Lemma pres_stop {A} w : pres R (stop (A := A) w).
Proof. by apply pres_never. Qed.
Lemma pres_undefined {A} w : pres R (undefined (A := A) w).
Proof. by apply pres_never. Qed.
Lemma pres_diverge {A} : pres R (diverge (A := A)).
Proof. by apply pres_never. Qed.
Lemma pres_gets {A} (f : sv -> A) : pres R (gets f).
Proof. apply pres_id. by intros s a s' [= <- <-]. Qed.
Lemma pres_lift {A} (r : res A) : pres R (lift r).
Proof. apply pres_id. intros s a s'. unfold lift. destruct r; simpl; [|done..]. by intros [= <- <-]. Qed.
Lemma pres_modify f : (forall s, R s (f s)) -> pres R (modify f).
Proof. by intros H s a s' [= <- <-]. Qed.
Lemma pres_when b m : pres R m -> pres R (when b m).
Proof. destruct b; [done|]. intros _. apply pres_ret. Qed.
Lemma pres_get_tr t : pres R (get_tr t).
Proof. apply pres_id. intros s a s'. unfold get_tr. destruct (trs s !! t); [|done]. by intros [= <- <-]. Qed.
Lemma pres_get_lis l : pres R (get_lis l).
Proof. apply pres_id. intros s a s'. unfold get_lis. destruct (listeners s !! l); [|done]. by intros [= <- <-]. Qed.
Lemma pres_live_pairs : pres R live_pairs.
Proof. apply pres_id. intros s a s'. unfold live_pairs. destruct (mapM _ _); [|done]. by intros [= <- <-]. Qed.
End pres.

Create HintDb pres.

Ltac pres_leaf :=
  first [apply pres_ret | apply pres_stop | apply pres_undefined | apply pres_diverge | apply pres_gets | apply pres_lift
        | apply pres_get_tr | apply pres_get_lis | apply pres_live_pairs | solve [auto with pres]].
(** Follow the structure of the computation. *)
Ltac pres_step :=
  lazymatch goal with
  | |- forall _, _ => intro
  | |- pres _ (bind _ _) => apply pres_bind
  | |- pres _ (when _ _) => apply pres_when
  | |- pres _ (modify _) => apply pres_modify; intros []; by repeat split
  | |- pres _ (match ?x with _ => _ end) => destruct x
  | |- pres _ (let '_ := ?x in _) => destruct x
  | |- _ => pres_leaf
  end.
Ltac pres := repeat pres_step.

Lemma wp_pres {A} R (m : M A) s (Q : A -> sv -> Prop) : pres R m -> wp m s Q -> wp m s (fun a s' => Q a s' /\ R s s').
Proof. unfold wp. intros Hm H. destruct (m s) as [[a s']| | |] eqn:E; [|done..]. split; [done|]. by eapply Hm. Qed.
