(* ===== verification/StreamProps.v ===== *)
(** * A stream over many events

    The event function of a client's socket, the smart socket behind it and
    [handle_packet] together make a stream: this file follows one stream through
    any sequence of events of its client and packets of its device.  The abstract
    view is a [duplex]: two directions, each with what is still to come, what has
    gone through, and the flow control between the two ends. *)

From S2P Require Import Prelude CString Io Wire DList Fdevent Server Transports Sockets Packets SocketInv SocketOps SocketLink PacketsSafe Keeps EngineProps Registry RegistryProps Listeners HostRequest ListenersProps SmartSocket EventProps.

(** ** The abstract stream *)

(** What the server says to the device: data, or the wish for more. *)
Inductive said := Data (d : bytes) | Ack.

(** What the client will still send; may it be read; what was said to the device;
    what the client was sent; what it is owed, and whether anything is queued. *)
Record duplex := mkx { x_up : bytes; x_go : bool; x_wire : list said; x_down : bytes; x_queue : bytes; x_blocked : bool }.

(** An event of the client's socket (for writing, for reading), or a packet. *)
Inductive sevent := Client (w r : bool) | Okay | Wrte (d : bytes).

(** [d] is delivered: it is written or queued behind what is queued, and the device
    is told to go on when nothing is left. *)
Definition delivered (d : bytes) (X X' : duplex) : Prop :=
  x_up X' = x_up X /\ x_go X' = x_go X /\ x_down X' ++ x_queue X' = x_down X ++ x_queue X ++ d /\
  x_wire X' = x_wire X ++ (if x_blocked X' then [] else [Ack]) /\ (x_blocked X' = false -> x_queue X' = []).
(** The client is read: at most one packet, after which the device has to answer. *)
Definition read_once (X X' : duplex) : Prop :=
  exists d, x_up X = d ++ x_up X' /\ (length d <= 4096)%nat /\
    (x_down X', x_queue X', x_blocked X') = (x_down X, x_queue X, x_blocked X) /\
    match d with
    | [] => x_go X' = x_go X /\ x_wire X' = x_wire X
    | _ => x_go X' = false /\ x_wire X' = x_wire X ++ [Data d]
    end.

Inductive dstep : sevent -> duplex -> duplex -> Prop :=
  | d_okay X : dstep Okay X (mkx (x_up X) true (x_wire X) (x_down X) (x_queue X) (x_blocked X))
  | d_wrte d X X' : delivered d X X' -> dstep (Wrte d) X X'
  | d_idle w r X : dstep (Client w r) X X
  | d_write w r X X' : x_blocked X = true -> delivered [] X X' -> dstep (Client w r) X X'
  | d_read w r X X' : x_go X = true -> read_once X X' -> dstep (Client w r) X X'
  | d_both w r X X1 X' : x_blocked X = true -> delivered [] X X1 -> x_blocked X1 = false ->
      x_go X = true -> read_once X1 X' -> dstep (Client w r) X X'.
Inductive dsteps : list sevent -> duplex -> duplex -> Prop :=
  | ds_nil X : dsteps [] X X
  | ds_cons e es X X1 X' : dstep e X X1 -> dsteps es X1 X' -> dsteps (e :: es) X X'.

#[export] Instance said_eq_dec : EqDecision said.
Proof. solve_decision. Defined.
#[export] Instance sevent_eq_dec : EqDecision sevent.
Proof. solve_decision. Defined.

(** The data and the acknowledgements in what was said, and what a sequence of
    events brings from the device. *)
Definition datas (l : list said) : bytes := concat (omap (fun x => match x with Data d => Some d | Ack => None end) l).
Definition n_data (l : list said) : nat := length (filter (fun x => x <> Ack) l).
Definition n_ack (l : list said) : nat := length (filter (fun x => x = Ack) l).
Definition brought (es : list sevent) : bytes := concat (omap (fun e => match e with Wrte d => Some d | _ => None end) es).
Definition n_okay (es : list sevent) : nat := length (filter (fun e => e = Okay) es).
Definition n_wrte (es : list sevent) : nat := length (omap (fun e => match e with Wrte d => Some d | _ => None end) es).

Lemma datas_app a b : datas (a ++ b) = datas a ++ datas b.
Proof. unfold datas. by rewrite omap_app, concat_app. Qed.
Lemma n_data_app a b : n_data (a ++ b) = (n_data a + n_data b)%nat.
Proof. unfold n_data. by rewrite filter_app, length_app. Qed.
Lemma n_ack_app a b : n_ack (a ++ b) = (n_ack a + n_ack b)%nat.
Proof. unfold n_ack. by rewrite filter_app, length_app. Qed.

Lemma n_one d : n_data [] = 0%nat /\ n_ack [] = 0%nat /\ n_data [Ack] = 0%nat /\ n_ack [Ack] = 1%nat /\ n_data [Data d] = 1%nat /\ n_ack [Data d] = 0%nat.
Proof. split_and!; reflexivity. Qed.
Lemma datas_one d : datas [Data d] = d /\ datas [Ack] = [].
Proof. split; [cbn; apply app_nil_r|done]. Qed.
Lemma n_event e : n_okay [] = 0%nat /\ n_wrte [] = 0%nat /\ n_okay [Okay] = 1%nat /\
  n_okay [e] = (match e with Okay => 1 | _ => 0 end)%nat /\ n_wrte [e] = (match e with Wrte _ => 1 | _ => 0 end)%nat.
Proof. destruct e; split_and!; reflexivity. Qed.
Ltac counts := repeat match goal with
  | |- context [n_okay [?e]] => rewrite (proj1 (proj2 (proj2 (proj2 (n_event e)))))
  | |- context [n_wrte [?e]] => rewrite (proj2 (proj2 (proj2 (proj2 (n_event e)))))
  end; pose proof (n_one []) as (? & ? & ? & ? & _); cbn [Nat.b2n] in *.

(** What holds between the two ends of a run: nothing is lost or reordered in
    either direction; a packet of data needs an acknowledgement before it, an
    acknowledgement a packet. *)
Definition transparent (es : list sevent) (X X' : duplex) : Prop :=
  datas (x_wire X') ++ x_up X' = datas (x_wire X) ++ x_up X /\
  x_down X' ++ x_queue X' = x_down X ++ x_queue X ++ brought es /\
  (n_data (x_wire X') + Nat.b2n (x_go X') <= n_data (x_wire X) + Nat.b2n (x_go X) + n_okay es)%nat /\
  (n_ack (x_wire X') + Nat.b2n (x_blocked X') <= n_ack (x_wire X) + Nat.b2n (x_blocked X) + n_wrte es)%nat.

Lemma delivered_transparent d X X' : delivered d X X' ->
  datas (x_wire X') ++ x_up X' = datas (x_wire X) ++ x_up X /\ n_data (x_wire X') = n_data (x_wire X) /\
  (n_ack (x_wire X') + Nat.b2n (x_blocked X') <= n_ack (x_wire X) + 1)%nat.
Proof.
  intros (-> & _ & _ & -> & _). rewrite datas_app, n_data_app, n_ack_app.
  counts. destruct (x_blocked X'); cbn [Nat.b2n]; rewrite ?(proj2 (datas_one [])), ?app_nil_r; (split; [done|lia]).
Qed.
Lemma read_transparent X X' : read_once X X' -> x_go X = true ->
  datas (x_wire X') ++ x_up X' = datas (x_wire X) ++ x_up X /\ x_down X' ++ x_queue X' = x_down X ++ x_queue X /\
  (n_data (x_wire X') + Nat.b2n (x_go X') <= n_data (x_wire X) + Nat.b2n (x_go X))%nat /\
  n_ack (x_wire X') = n_ack (x_wire X) /\ x_blocked X' = x_blocked X.
Proof.
  intros (d & Hu & _ & [= -> -> ->] & Hd) Hgo. rewrite Hu, Hgo. destruct d as [|c d]; destruct Hd as [-> ->]; [rewrite Hgo; done|].
  rewrite datas_app, n_data_app, n_ack_app, (proj1 (datas_one (c :: d))), <- app_assoc.
  destruct (n_one (c :: d)) as (_ & _ & _ & _ & E1 & E2). cbn [Nat.b2n]. split_and!; [done|done|lia|lia|done].
Qed.

Lemma dstep_transparent e X X' : dstep e X X' -> transparent [e] X X'.
Proof.
  unfold transparent. destruct 1 as [X|d X X' H|w r X|w r X X' Hb H|w r X X' Hg H|w r X X1 X' Hb H Hb1 Hg H2].
  all: unfold brought; cbn [omap list_omap concat]; counts; rewrite ?app_nil_r.
  - cbn [x_wire x_up x_down x_queue x_go x_blocked Nat.b2n]. split_and!; [done|done| |lia]. destruct (x_go X); cbn [Nat.b2n]; lia.
  - destruct (delivered_transparent d X X' H) as (-> & -> & ?). destruct H as (_ & -> & -> & _). split_and!; [done|done|lia|lia].
  - split_and!; [done|done|lia|lia].
  - destruct (delivered_transparent [] X X' H) as (-> & -> & ?). destruct H as (_ & -> & -> & _). rewrite Hb, app_nil_r. cbn [Nat.b2n].
    split_and!; [done|done|lia|lia].
  - destruct (read_transparent X X' H Hg) as (-> & -> & ? & -> & ->). split_and!; [done|done|lia|lia].
  - destruct (delivered_transparent [] X X1 H) as (E1 & E2 & ?). destruct H as (_ & Hg1 & E3 & _).
    destruct (read_transparent X1 X' H2) as (-> & -> & ? & -> & ->); [congruence|]. rewrite E1, E3, Hb, app_nil_r. rewrite Hg1, E2 in *. cbn [Nat.b2n].
    split_and!; [done|done|lia|lia].
Qed.

Lemma brought_cons e es : brought (e :: es) = brought [e] ++ brought es.
Proof. unfold brought. destruct e; cbn; by rewrite ?app_nil_r. Qed.

(** The abstract stream is transparent over any sequence of events. *)
Lemma dsteps_transparent es X X' : dsteps es X X' -> transparent es X X'.
Proof.
  induction 1 as [X|e es X X1 X' H _ IH].
  { unfold transparent. change (brought []) with (@nil byte). rewrite !app_nil_r. split_and!; [done|done|lia|lia]. }
  destruct (dstep_transparent e X X1 H) as (A1 & A2 & A3 & A4). destruct IH as (B1 & B2 & B3 & B4). unfold transparent.
  split_and!; [by rewrite B1, A1|by rewrite B2, (app_assoc (x_down X1)), A2, (brought_cons e es), <- !app_assoc|..].
  - assert (n_okay (e :: es) = n_okay [e] + n_okay es)%nat as -> by (unfold n_okay; rewrite !filter_cons; destruct (decide _); simpl; lia). lia.
  - assert (n_wrte (e :: es) = n_wrte [e] + n_wrte es)%nat as -> by (by destruct e). lia.
Qed.

(** ** The descriptor of the client *)

(** All a descriptor will deliver before its end, over any number of reads. *)
Fixpoint coming (s : list rres) : bytes :=
  match s with
  | [] | RFail :: _ | RBytes [] :: _ => []
  | RIntr :: s' | RAgain :: s' => coming s'
  | RBytes b :: s' => b ++ coming s'
  end.
Definition future (fd : Z) (s : sv) : bytes := match io s !! fd with Some f => coming (io_in f) | None => [] end.

Lemma adb_read_coming n s : (0 < n)%nat ->
  match adb_read n s with
  | (Got b, s') => coming s = b ++ coming s' /\ (0 < length b <= n)%nat
  | (Again, s') => coming s = coming s'
  | _ => True
  end.
Proof.
  intros Hn. induction s as [|[[|b l]| | |] s IH]; cbn [adb_read coming]; try done.
  destruct (Nat.leb_spec (length (b :: l)) n) as [Hl|Hl]; [split; [done|simpl in *; lia]|].
  rewrite length_take. split; [|lia]. destruct (drop n (b :: l)) as [|c t] eqn:E.
  { apply (f_equal length) in E. rewrite length_drop in E. simpl in *. lia. }
  cbn [coming]. by rewrite <- E, app_assoc, take_drop.
Qed.

Lemma fd_write_future fd d s r s' x : fd_write fd d s = Ok (r, s') -> future x s' = future x s.
Proof.
  unfold fd_write, get_fd, put_fd, bind, gets, modify, ret. destruct (io s !! fd) as [f|] eqn:E; [|by intros [= _ <-]].
  destruct (adb_write (length d) (io_wr f)) as [w l]. intros [= _ <-]. unfold future. cbn.
  destruct (decide (x = fd)) as [->|]; [by rewrite lookup_insert_eq, E|by rewrite lookup_insert_ne].
Qed.
Lemma flush_future fd : forall n k s r s' x, flush_pkt n fd k s = Ok (r, s') -> future x s' = future x s.
Proof.
  induction n as [|n IH]; intros k s r s' x; cbn [flush_pkt]; (destruct (p_len k <=? 0); [by intros [= _ <-]|]); [done|].
  unfold bind, lift. destruct (pkt_bytes k) as [d| | |]; cbn [rbind]; try done. destruct (fd_write fd d s) as [[w s1]| | |] eqn:E; try done.
  apply (fd_write_future _ _ _ _ _ x) in E. intros H. rewrite <- E. destruct w; try (by injection H as _ <-). by eapply IH.
Qed.
Lemma drain_future fd p : forall n s r s' x, drain_pkts n fd p s = Ok (r, s') -> future x s' = future x s.
Proof.
  induction n as [|n IH]; intros s r s' x; cbn [drain_pkts]; [done|]. unfold bind, get_sock. destruct (heap s !! p) as [a|] eqn:Ep; [|done].
  destruct (a_pkts a) as [|k l]; [by intros [= _ <-]|]. destruct (flush fd k s) as [[[st k1] s1]| | |] eqn:E; try done.
  unfold flush in E. apply (flush_future _ _ _ _ _ _ x) in E. rewrite <- E.
  destruct st; unfold upd_sock, bind, get_sock; (destruct (heap s1 !! p); [|done]); intros H; [|by injection H as _ <-..].
  apply (IH _ _ _ x) in H. exact H.
Qed.

(** The read loop, with what is left for later events. *)
Lemma read_avail_future fd : forall n fuel acc s, (n <= fuel)%nat ->
  wp (read_avail fuel fd n acc) s (fun r s' => exists i d, s' = set_io i s /\ fst (fst r) = acc ++ d /\ (length d <= n)%nat /\
    out fd s' = out fd s /\ (snd (fst r) = false -> future fd s = d ++ future fd s') /\ (snd r = true -> snd (fst r) = true)).
Proof.
  intros n fuel. revert n. induction fuel as [|fuel IH]; intros n acc s Hn; (destruct n as [|n]; [cbn [read_avail]; apply wp_ret; exists (io s), [];
    rewrite set_io_id, app_nil_r; split_and!; [done|done|simpl; lia|done|done|done]|]); [lia|].
  cbn [read_avail]. apply wp_bind. unfold fd_read, get_fd. apply wp_bind, wp_gets.
  destruct (io s !! fd) as [f|] eqn:Ef.
  2:{ apply wp_ret, wp_ret. exists (io s), []. rewrite set_io_id, app_nil_r. split_and!; [done|done|simpl; lia|done|done|done]. }
  pose proof (adb_read_coming (S n) (io_in f) ltac:(lia)) as Hr. destruct (adb_read (S n) (io_in f)) as [r l].
  apply wp_bind, wp_modify, wp_ret. set (s1 := set_io _ s).
  assert (out fd s1 = out fd s) as Ho by (unfold out, s1; cbn; by rewrite lookup_insert_eq, Ef).
  assert (future fd s = coming (io_in f) /\ future fd s1 = coming l) as [E0 E1] by (unfold future, s1; cbn; by rewrite lookup_insert_eq, Ef).
  destruct r as [b| | |].
  - destruct Hr as [Hc Hb]. eapply wp_mono; [apply IH; lia|]. intros r s2 (i & d & -> & E & Hl & Eo & Hf & Hz). exists i, (b ++ d).
    rewrite E, E0, Hc, length_app, <- !app_assoc, Eo. split_and!; [done|done|lia|done| |done]. intros He. by rewrite <- Hf, E1.
  - apply wp_ret. exists (<[fd := mkfio l (io_wr f) (io_sent f)]> (io s)), []. rewrite app_nil_r. split_and!; [done|done|simpl; lia|done|done|done].
  - apply wp_ret. eexists _, []. rewrite app_nil_r. split_and!; [done|done|simpl; lia|exact Ho| |done]. intros _. cbn. rewrite E0, Hr. by symmetry.
  - apply wp_ret. eexists _, []. rewrite app_nil_r. split_and!; [done|done|simpl; lia|exact Ho|done|done].
Qed.

#[export] Instance rres_eq_dec : EqDecision rres.
Proof. solve_decision. Defined.

(** A client that stays: its descriptor does not fail, and delivers something or
    nothing [n] more times before its end. *)
Definition calm (n : nat) (s : list rres) : Prop :=
  Forall (fun r => r <> RFail /\ r <> RBytes []) s /\ (n <= length (filter (fun r => r = RAgain) s))%nat.
Definition steady (P : list rres -> Prop) (fd : Z) (s : sv) : Prop :=
  match io s !! fd with Some f => P (io_in f) /\ Forall (fun w => w <> WFail /\ w <> WZero) (io_wr f) | None => False end.
Definition patient (n : nat) (fd : Z) (s : sv) : Prop := steady (calm n) fd s.
(** A descriptor that can be written to. *)
Definition writable (fd : Z) (s : sv) : Prop := steady (fun _ => True) fd s.

(** The descriptor lasts as long as it did. *)
Definition stays (x : Z) (s s' : sv) : Prop := forall n, patient n x s -> patient n x s'.

Lemma patient_S n fd s : patient (S n) fd s -> patient n fd s.
Proof. unfold patient, steady, calm. destruct (io s !! fd); [|done]. intros [[? ?] ?]. split_and!; [done|lia|done]. Qed.

Lemma adb_read_calm n k s : (0 < n)%nat -> calm (S k) s ->
  match adb_read n s with (Got _, s') => calm (S k) s' | (Again, s') => calm k s' | _ => False end.
Proof.
  intros Hn. induction s as [|[[|b l]| | |] s IH]; intros [Hf Hc]; cbn [adb_read]; [by simpl in Hc; lia| |..];
    apply Forall_cons in Hf as [[H1 H2] Hf]; try done; rewrite filter_cons in Hc.
  - destruct (decide _) as [|_]; [done|]. destruct (Nat.leb_spec (length (b :: l)) n) as [Hl|Hl]; [done|]. split.
    + constructor; [|done]. split; [done|]. intros E. injection E as E. apply (f_equal length) in E. rewrite length_drop in E. simpl in *. lia.
    + rewrite filter_cons. by destruct (decide _).
  - destruct (decide _) as [|_]; [done|]. by apply IH.
  - destruct (decide _) as [_|?]; [|done]. split; [done|]. simpl in Hc. lia.
Qed.

Lemma adb_write_steady n s : Forall (fun w => w <> WFail /\ w <> WZero) s ->
  match adb_write n s with (Wrote _, s') | (WAgainR, s') => Forall (fun w => w <> WFail /\ w <> WZero) s' | _ => False end.
Proof. induction 1 as [|[] s [H1 H2] Hf IH]; cbn [adb_write]; done. Qed.

Lemma fd_write_steady P fd d s r s' : fd_write fd d s = Ok (r, s') -> steady P fd s -> steady P fd s' /\ r <> WErrR /\ r <> WroteZero.
Proof.
  unfold steady, fd_write, get_fd, put_fd, bind, gets, modify, ret. destruct (io s !! fd) as [f|] eqn:E; [|done]. intros H [Hc Hw].
  pose proof (adb_write_steady (length d) (io_wr f) Hw) as Hs. destruct (adb_write (length d) (io_wr f)) as [w l].
  injection H as <- <-. cbn. rewrite lookup_insert_eq. by destruct w.
Qed.
Lemma flush_steady P fd : forall m k s r s', flush_pkt m fd k s = Ok (r, s') -> steady P fd s -> steady P fd s' /\ fst r <> WBroken.
Proof.
  induction m as [|m IH]; intros k s r s'; cbn [flush_pkt]; (destruct (p_len k <=? 0); [by intros [= <- <-]|]); [done|].
  unfold bind, lift. destruct (pkt_bytes k) as [d| | |]; cbn [rbind]; try done. destruct (fd_write fd d s) as [[w s1]| | |] eqn:E; try done.
  intros H Hp. destruct (fd_write_steady P _ _ _ _ _ E Hp) as (Hp1 & H1 & H2). destruct w; try done; [by eapply IH|by injection H as <- <-].
Qed.
Lemma drain_patient fd x : forall m s r s' n, drain_pkts m fd x s = Ok (r, s') -> patient n fd s -> patient n fd s' /\ r <> WBroken.
Proof.
  induction m as [|m IH]; intros s r s' n; cbn [drain_pkts]; [done|]. unfold bind, get_sock. destruct (heap s !! x) as [a|] eqn:Ep; [|done].
  destruct (a_pkts a) as [|k l]; [by intros [= <- <-]|]. destruct (flush fd k s) as [[[st k1] s1]| | |] eqn:E; try done. intros H Hp.
  unfold flush in E. destruct (flush_steady (calm n) _ _ _ _ _ _ E Hp) as [Hp1 Hb].
  destruct st; unfold upd_sock, bind, get_sock in H; (destruct (heap s1 !! x); [|done]); [|by injection H as <- <-|done].
  by apply (IH _ _ _ n) in H.
Qed.
Lemma read_avail_patient fd k : forall fuel n acc s r s', read_avail fuel fd n acc s = Ok (r, s') -> patient (S k) fd s ->
  patient k fd s' /\ snd (fst r) = false.
Proof.
  induction fuel as [|fuel IH]; intros n acc s r s'; (destruct n as [|n]; [cbn [read_avail]; intros [= <- <-] Hp; split; [by apply patient_S|done]|]); [done|].
  cbn [read_avail]. unfold bind, fd_read, get_fd, put_fd, bind, gets, modify, ret. intros H Hp. pose proof Hp as Hp0. unfold patient, steady in Hp.
  destruct (io s !! fd) as [f|] eqn:E; [|done]. destruct Hp as [Hc Hw]. pose proof (adb_read_calm (S n) k (io_in f) ltac:(lia) Hc) as Hr.
  destruct (adb_read (S n) (io_in f)) as [[b| | |] l]; try done.
  - apply IH in H; [done|]. unfold patient, steady. cbn. by rewrite lookup_insert_eq.
  - injection H as <- <-. split; [|done]. unfold patient, steady. cbn. by rewrite lookup_insert_eq.
Qed.

(** ** Interest of the client's fdevent *)

Lemma fde_add_read f : has (f_state (fde_add FDE_READ f)) FDE_READ = true.
Proof.
  rewrite !has_READ. unfold fde_add. rewrite fde_set_testbit by lia. rewrite Z.lor_spec, (Z.land_spec FDE_READ). eval_bits. apply orb_true_r.
Qed.
Lemma fde_add_write_read f : has (f_state (fde_add FDE_WRITE f)) FDE_READ = has (f_state f) FDE_READ.
Proof.
  rewrite !has_READ. unfold fde_add. rewrite fde_set_testbit by lia. unfold interest.
  rewrite Z.lor_spec, !Z.land_spec. eval_bits. by rewrite andb_true_r, orb_false_r.
Qed.
Lemma fde_del_write_read f : has (f_state (fde_del FDE_WRITE f)) FDE_READ = has (f_state f) FDE_READ.
Proof.
  rewrite !has_READ. unfold fde_del. rewrite fde_set_testbit by lia. unfold interest.
  rewrite Z.land_spec, Z.lnot_spec, !Z.land_spec by lia. eval_bits. simpl. by rewrite !andb_true_r.
Qed.

(** ** The stream in the server *)

Section stream.
Context (env : auth_env) (adbhost : bool) (p q t : ptr) (fd lid rid : Z) (base : list apacket).

(** The packets that say it. *)
Definition packet_of (x : said) : apacket :=
  match x with Data d => wrte_packet lid rid d | Ack => wire_packet A_OKAY lid rid [] end.

(** The client's socket, the remote socket, the transport and the descriptor. *)
Record shows (X : duplex) (s : sv) : Prop := {
  sh_p : exists a, heap s !! p = Some a /\ is_local a /\ a_ready a = local_ready /\ a_peer a = Some q /\ a_closing a = false /\ a_fd a = fd /\
    a_id a = lid /\ backlog a = x_queue X /\ (x_blocked X = false <-> a_pkts a = []) /\ wants FDE_READ a = x_go X;
  sh_q : exists b, heap s !! q = Some b /\ a_enqueue b = remote_enqueue /\ a_ready b = remote_ready /\ a_peer b = Some p /\
    a_id b = rid /\ a_transport b = Some t;
  sh_t : exists u, trs s !! t = Some u /\ t_online u = true /\ t_out u = base ++ (packet_of <$> x_wire X);
  sh_ids : p ∈ local_list s /\ forall x c, x ∈ local_list s -> heap s !! x = Some c -> a_id c = lid -> x = p;
  sh_future : future fd s = x_up X;
  sh_out : out fd s = x_down X }.
Definition carries (X : duplex) (s : sv) : Prop := quiet s /\ shows X s.

Hypothesis ids_set : lid <> 0 /\ rid <> 0.
Hypothesis ids_word : is_u32 lid /\ is_u32 rid.

Lemma find_in_hit l s pid : p ∈ l -> (forall x, x ∈ l -> is_Some (heap s !! x)) ->
  (forall x c, x ∈ l -> heap s !! x = Some c -> a_id c = lid -> x = p) ->
  (exists a b, heap s !! p = Some a /\ a_id a = lid /\ a_peer a = Some q /\ heap s !! q = Some b /\ (pid = 0 \/ a_id b = pid)) ->
  find_in l lid pid s = Ok (Some p, s).
Proof.
  intros Hin Hlive Huniq (a & b & Ha & Hid & Hpe & Hb & Hpid). induction l as [|x l IH]; [by apply elem_of_nil in Hin|].
  cbn [find_in]. unfold bind, get_sock, ret. destruct (Hlive x ltac:(by left)) as [c Hc]. rewrite Hc. destruct (Z.eqb_spec (a_id c) lid) as [E|E].
  - assert (x = p) as -> by (eapply Huniq; [by left|done|done]). simplify_eq. cbn [negb]. destruct (Z.eqb_spec pid 0); [done|]. rewrite Hpe, Hb.
    destruct Hpid as [?| ->]; [done|]. by rewrite Z.eqb_refl.
  - cbn [negb]. apply IH; [|intros y Hy; apply Hlive; by right|intros y d Hy; apply Huniq; by right].
    apply elem_of_cons in Hin as [->|Hin]; [simplify_eq|done].
Qed.
Lemma find_stream X s pid : carries X s -> pid = 0 \/ pid = rid -> find_local_socket lid pid s = Ok (Some p, s).
Proof.
  intros [[Wf Hs] Sh] Hpid. destruct (sh_p _ _ Sh) as (a & Ha & _ & _ & Hpe & _ & _ & Hid & _). destruct (sh_q _ _ Sh) as (b & Hb & _ & _ & _ & Hr & _).
  destruct (sh_ids _ _ Sh) as [Hl Hu]. unfold find_local_socket, lock, unlock, bind, gets, modify, ret. rewrite Hs.
  assert (forall x, x ∈ local_list s -> is_Some (heap s !! x)) as Hlive by (intros x Hx; apply (wf_local _ _ _ Wf) in Hx as (c & Hc & _); eauto).
  pose proof (find_in_hit (local_list s) (set_slock true s) pid Hl Hlive Hu) as Hf. cbn in Hf |- *. rewrite Hf.
  - f_equal. f_equal. destruct s; cbn in *; by subst.
  - exists a, b. split_and!; try done. destruct Hpid; [by left|right; congruence].
Qed.

(** The socket of the client changed in ways that the stream does not show. *)
Lemma shows_p X X' s s' a a' : shows X s -> heap s !! p = Some a -> heap s' = <[p := a']> (heap s) -> local_list s' = local_list s ->
  a_enqueue a' = a_enqueue a -> a_ready a' = a_ready a -> a_peer a' = a_peer a -> a_closing a' = a_closing a -> a_fd a' = a_fd a -> a_id a' = a_id a ->
  backlog a' = x_queue X' -> (x_blocked X' = false <-> a_pkts a' = []) -> wants FDE_READ a' = x_go X' ->
  (exists u, trs s' !! t = Some u /\ t_online u = true /\ t_out u = base ++ (packet_of <$> x_wire X')) ->
  future fd s' = x_up X' -> out fd s' = x_down X' -> shows X' s'.
Proof.
  intros Sh Hp Eh El E1 E2 E3 E4 E5 E6 Hb Hbl Hw Ht Hf Ho. destruct (sh_p _ _ Sh) as (a0 & Ha & ? & ? & ? & ? & ? & ? & _). simplify_eq.
  destruct (sh_q _ _ Sh) as (b & Hq & ? & ? & ? & ? & ?). destruct (sh_ids _ _ Sh) as [Hl Hu]. unfold is_local in *.
  assert (q <> p) as Hqp by (intros ->; simplify_eq; congruence).
  constructor; [| |done| |done|done].
  - exists a'. rewrite Eh, lookup_insert_eq. unfold is_local. split_and!; try done; congruence.
  - exists b. rewrite Eh, lookup_insert_ne by done. done.
  - rewrite El. split; [done|]. intros x c Hx Hc Hid. destruct (decide (x = p)) as [|Hne]; [done|].
    rewrite Eh, lookup_insert_ne in Hc by done. by apply (Hu x c).
Qed.

Lemma wire_fields c a0 a1 d : exists sum,
  wire_packet c a0 a1 d = with_msg (mkmsg c a0 a1 (Z.of_nat (length d)) sum (Z.lxor c 0xffffffff)) (mk_packet c a0 a1 d).
Proof.
  unfold wire_packet. destruct (fill_total (mk_packet c a0 a1 d) (mk_packet_fillable c a0 a1 d)) as (sum & _ & ->). by exists sum.
Qed.

(** The device acknowledges a packet: the client is read again. *)
Lemma okay_step X s : carries X s ->
  wp (handle_packet env (wire_packet A_OKAY rid lid []) t) s (fun _ s' => shows (mkx (x_up X) true (x_wire X) (x_down X) (x_queue X) (x_blocked X)) s' /\ stays fd s s').
Proof.
  intros Hc. pose proof Hc as [_ Sh]. destruct (sh_p _ _ Sh) as (a & Ha & _ & Hr & Hpe & _ & _ & _ & Hbl & Hb & _).
  destruct (sh_q _ _ Sh) as (b & Hq & _ & _ & _ & Hid & _). destruct (sh_t _ _ Sh) as (u & Hu & Hon & Hout).
  destruct (wire_fields A_OKAY rid lid []) as [sum ->]. unfold handle_packet, on_okay. cbn -[find_local_socket sock_ready].
  destruct ids_set as [Hl0 Hr0]. apply Z.eqb_neq in Hl0, Hr0. apply wp_bind. eapply wp_get_tr; [exact Hu|]. rewrite Hon, Hl0, Hr0. cbn -[find_local_socket sock_ready].
  apply wp_bind. unfold wp at 1. rewrite (find_stream X s 0 Hc ltac:(by left)). apply wp_bind. eapply wp_get_sock; [exact Ha|]. rewrite Hpe.
  apply wp_bind. eapply wp_get_sock; [exact Hq|]. rewrite Hid, Z.eqb_refl. cbn -[sock_ready].
  unfold sock_ready. apply wp_bind. eapply wp_get_sock; [exact Ha|]. rewrite Hr. unfold local_socket_ready, sock_fde_add. eapply wp_upd_sock; [exact Ha|].
  split; [|by intros n]. eapply (shows_p X _ s _ a); [exact Sh|exact Ha|reflexivity|done..| |exists u; done|apply (sh_future _ _ Sh)|apply (sh_out _ _ Sh)].
  apply fde_add_read.
Qed.

(** What the client's socket is after bytes were written or queued. *)
Definition kept_up (a a' : asocket) : Prop :=
  a_enqueue a' = a_enqueue a /\ a_ready a' = a_ready a /\ a_peer a' = a_peer a /\ a_closing a' = a_closing a /\ a_fd a' = a_fd a /\
  a_id a' = a_id a /\ wants FDE_READ a' = wants FDE_READ a.

Lemma local_enqueue_shape s a k : quiet s -> heap s !! p = Some a -> pkt_ok (mkpkt (msg k) (p_len k) 0 (data k)) ->
  wp (local_socket_enqueue p k) s (fun r s' => (p ∉ local_list s' /\ r = 1 /\ forall n, ~ patient n (a_fd a) s) \/
    exists i a', s' = upd_heap p a' (set_io i s) /\ kept_up a a' /\ future (a_fd a) s' = future (a_fd a) s /\ stays (a_fd a) s s' /\
      out (a_fd a) s' ++ backlog a' = out (a_fd a) s ++ backlog a ++ unsent (mkpkt (msg k) (p_len k) 0 (data k)) /\
      (r = 0 /\ a_pkts a' = [] \/ r = 1 /\ a_pkts a' <> [])).
Proof.
  intros Hq Hp Hk. unfold local_socket_enqueue. set (k0 := mkpkt (msg k) (p_len k) 0 (data k)) in *.
  assert (forall i k1, future (a_fd a) (set_io i s) = future (a_fd a) s -> stays (a_fd a) s (set_io i s) ->
    out (a_fd a) (set_io i s) ++ backlog a ++ unsent k1 = out (a_fd a) s ++ backlog a ++ unsent k0 ->
    wp (upd_sock p (fun a => sk_pkts (a_pkts a ++ [k1]) a) ;; sock_fde_add FDE_WRITE p ;; ret 1) (set_io i s)
      (fun r s' => (p ∉ local_list s' /\ r = 1 /\ forall n, ~ patient n (a_fd a) s) \/
        exists i a', s' = upd_heap p a' (set_io i s) /\ kept_up a a' /\ future (a_fd a) s' = future (a_fd a) s /\ stays (a_fd a) s s' /\
        out (a_fd a) s' ++ backlog a' = out (a_fd a) s ++ backlog a ++ unsent k0 /\
        (r = 0 /\ a_pkts a' = [] \/ r = 1 /\ a_pkts a' <> []))) as Hqueue.
  { intros i k1 Hf Hy Ho. apply wp_bind. eapply wp_upd_sock; [exact Hp|]. apply wp_bind. unfold sock_fde_add.
    eapply wp_upd_sock; [apply lookup_insert_eq|]. apply wp_ret. right. eexists i, _. split_and!.
    - unfold upd_heap, set_heap. simpl. by rewrite insert_insert_eq.
    - unfold kept_up. split_and!; try done. apply fde_add_write_read.
    - exact Hf.
    - exact Hy.
    - unfold backlog. simpl. rewrite map_app, concat_app. simpl. rewrite app_nil_r. exact Ho.
    - right. split; [done|]. simpl. by destruct (a_pkts a). }
  apply wp_bind. eapply wp_get_sock; [exact Hp|]. unfold no_pkts. destruct (a_pkts a) as [|k1 l] eqn:Epk; simpl.
  - apply wp_bind. unfold flush. eapply wp_mono; [apply wp_run, flush_spec; [exact Hk|done]|].
    intros [st k1] s1 [(i & -> & Hk1 & _ & Hout & Hst) Hrun]. pose proof (fun n => flush_steady (calm n) _ _ _ _ _ _ Hrun) as Hy.
    apply (flush_future _ _ _ _ _ _ (a_fd a)) in Hrun. simpl in Hout, Hst.
    assert (backlog a = []) as Ebl by (unfold backlog; by rewrite Epk). destruct st.
    + apply wp_ret. right. exists i, a. split_and!; [by rewrite upd_heap_id|done|done|intros n Hn; by apply (Hy n)| |by left]. apply unsent_nil in Hst; [|done].
      rewrite Ebl, app_nil_r. cbn [app]. by rewrite <- Hout, Hst, app_nil_r.
    + apply Hqueue; [done|intros n Hn; by apply (Hy n)|by rewrite Ebl].
    + apply wp_bind. eapply wp_mono; [apply (close_after (set_io i s) p a); [by apply quiet_io|done]|]. intros _ s2 [_ H2]. apply wp_ret. left.
      split_and!; [done..|]. intros n Hn. by apply (Hy n) in Hn as [_ ?].
  - rewrite <- (set_io_id s) at 1. apply Hqueue; rewrite set_io_id; [done|by intros n|done].
Qed.

Lemma blocked_iff (a : asocket) (b : bool) : (b = false <-> a_pkts a = []) -> b = negb (no_pkts a).
Proof. unfold no_pkts. destruct b, (a_pkts a); naive_solver. Qed.

(** A data packet of the device. *)
Lemma wrte_step X s d : carries X s ->
  wp (handle_packet env (wire_packet A_WRTE rid lid d) t) s (fun _ s' =>
    (p ∉ local_list s' /\ forall n, ~ patient n fd s) \/ exists X', delivered d X X' /\ shows X' s' /\ stays fd s s').
Proof.
  intros Hc. pose proof Hc as [Hqt Sh]. destruct (sh_p _ _ Sh) as (a & Ha & Hloc & Hr & Hpe & _ & Hfd & Hlid & Hbl & Hb & Hw).
  destruct (sh_t _ _ Sh) as (u & Hu & Hon & Hout).
  destruct (wire_fields A_WRTE rid lid d) as [sum ->]. unfold handle_packet, on_wrte. cbn -[find_local_socket listed_enqueue send_ready].
  destruct ids_set as [Hl0 Hr0]. apply Z.eqb_neq in Hl0, Hr0. apply wp_bind. eapply wp_get_tr; [exact Hu|]. rewrite Hon, Hl0, Hr0. cbn -[find_local_socket listed_enqueue send_ready].
  apply wp_bind. unfold wp at 1. rewrite (find_stream X s rid Hc ltac:(by right)). apply wp_bind. unfold listed_enqueue. apply wp_bind. eapply wp_get_sock; [exact Ha|].
  rewrite Hloc. eapply wp_mono; [apply (local_enqueue_shape s a); [done|done|]|].
  { unfold pkt_ok. simpl. rewrite drop_0. lia. }
  rewrite Hfd in *. intros r s1 [(Hg & -> & Hn)|(i & a' & -> & (E1 & E2 & E3 & E4 & E5 & E6 & E7) & Hf & Hy & Ho & Hres)]; [by left|].
  simpl in Ho. unfold unsent in Ho. simpl in Ho. rewrite drop_0, take_ge in Ho by lia.
  assert (forall s2 w, heap s2 = <[p := a']> (heap s) -> local_list s2 = local_list s -> io s2 = i ->
    (exists u, trs s2 !! t = Some u /\ t_online u = true /\ t_out u = base ++ (packet_of <$> x_wire X ++ w)) ->
    w = (if no_pkts a' then [Ack] else []) -> exists X', delivered d X X' /\ shows X' s2 /\ stays fd s s2) as Hend.
  { intros s2 w Eh El Ei Ht ->. exists (mkx (x_up X) (x_go X) (x_wire X ++ (if no_pkts a' then [Ack] else [])) (out fd s2) (backlog a') (negb (no_pkts a'))).
    assert (out fd s2 = out fd (upd_heap p a' (set_io i s))) as Eo by (unfold out; rewrite Ei; done). split_and!.
    - unfold delivered. simpl. rewrite Eo, Ho, Hbl, (sh_out _ _ Sh). split_and!; try done; [by destruct (no_pkts a')|].
      unfold backlog, no_pkts. by destruct (a_pkts a').
    - eapply (shows_p X _ s s2 a a'); try done; simpl; [unfold no_pkts; by destruct (a_pkts a')|congruence|].
      rewrite <- (sh_future _ _ Sh), <- Hf. unfold future. by rewrite Ei.
    - intros n Hn. unfold patient, steady. rewrite Ei. exact (Hy n Hn). }
  destruct Hres as [[-> Hpk]|[-> Hpk]]; simpl.
  - apply wp_bind. eapply wp_get_sock; [apply lookup_insert_eq|]. unfold send_ready. eapply wp_send; [exact Hu|]. intros r Er. right.
    apply (Hend _ [Ack]); [done|done|done| |unfold no_pkts; by rewrite Hpk].
    eexists. split; [apply lookup_insert_eq|]. split; [done|]. simpl. rewrite Hout, fmap_app, E6, Hlid, app_assoc. done.
  - right. apply (Hend _ []); [done|done|done| |unfold no_pkts; by destruct (a_pkts a')]. exists u. by rewrite app_nil_r.
Qed.

(** The client's socket can be written: the queue goes out, and when it is empty
    the device is told to go on. *)
Lemma write_step X s a : carries X s -> heap s !! p = Some a -> wants FDE_WRITE a = true ->
  wp (event_write fd p) s (fun r s' => quiet s' /\ ((r = false /\ p ∉ local_list s' /\ forall n, ~ patient n fd s) \/
    exists X', delivered [] X X' /\ shows X' s' /\ stays fd s s' /\ r = negb (x_blocked X'))).
Proof.
  intros [Hqt Sh] Hp Hw. destruct (sh_p _ _ Sh) as (a0 & Ha & Hloc & Hr & Hpe & Hcl & Hfd & Hlid & Hbl & Hb & Hrd). simplify_eq.
  destruct (sh_q _ _ Sh) as (b & Hq & _ & Hqr & Hqp & Hid & Htr). destruct (sh_t _ _ Sh) as (u & Hu & Hon & Hout).
  pose proof Hqt as [Wf Hs]. pose proof (event_write_spec s p a Wf Hs Hp Hloc Hw) as Hspec. rewrite Hfd in Hspec.
  enough (wp (event_write fd p) s (fun r s' => (r = false /\ p ∉ local_list s' /\ forall n, ~ patient n fd s) \/
    exists X', delivered [] X X' /\ shows X' s' /\ stays fd s s' /\ r = negb (x_blocked X'))) as Hin.
  { eapply wp_mono; [exact (wp_and _ _ _ _ Hspec Hin)|]. intros r s' [(Wf' & Hs' & _) H]. split; [by split|exact H]. }
  clear Hspec. unfold event_write.
  apply wp_bind. eapply wp_get_sock; [exact Hp|]. apply (wf_weaken _ _ ({[p]} ∪ ∅)) in Wf; [|set_solver].
  apply wp_bind. rewrite <- Hfd. eapply wp_mono; [apply wp_run, (drain_pkts_spec ({[p]} ∪ ∅) p ltac:(set_solver) _ s a); [done..|lia]|].
  intros st s1 [(i & r & -> & Wf1 & Hk & Hst) Hrun]. rewrite Hfd in Hrun. pose proof (fun n => drain_patient _ _ _ _ _ _ n Hrun) as Hy. apply (drain_future _ _ _ _ _ _ fd) in Hrun.
  set (s1 := upd_heap p (sk_pkts r a) (set_io i s)) in *. assert (heap s1 !! p = Some (sk_pkts r a)) as Hp1 by apply lookup_insert_eq.
  unfold stream_kept in Hk. rewrite Hfd in Hk. assert (q <> p) as Hqn by (intros ->; simplify_eq; congruence). destruct st.
  - assert (r = []) as -> by (by apply Hst). apply wp_bind. eapply wp_get_sock; [exact Hp1|]. simpl. rewrite Hcl, Hpe.
    apply wp_bind. unfold sock_fde_del. eapply wp_upd_sock; [exact Hp1|]. set (a2 := sk_fde _ _). apply wp_bind. unfold sock_ready, remote_socket_ready, peer_id.
    assert (heap (upd_heap p a2 s1) !! q = Some b) as Hq2 by (unfold s1; simpl; by rewrite !lookup_insert_ne).
    apply wp_bind. eapply wp_get_sock; [exact Hq2|]. rewrite Hqr. apply wp_bind. eapply wp_get_sock; [exact Hq2|]. rewrite Hqp. apply wp_bind, wp_bind. eapply wp_get_sock; [apply lookup_insert_eq|]. apply wp_ret.
    rewrite Htr. eapply wp_send; [exact Hu|]. intros n Er. apply wp_ret. right.
    exists (mkx (x_up X) (x_go X) (x_wire X ++ [Ack]) (out fd s1) [] false). split_and!; [| |rewrite Hfd; intros n' Hn; by apply (Hy n')|done].
    + unfold delivered. simpl. split_and!; try done. rewrite !app_nil_r. change (backlog (sk_pkts [] a)) with (@nil byte) in Hk. rewrite app_nil_r in Hk.
      by rewrite Hk, Hbl, (sh_out _ _ Sh).
    + eapply (shows_p X _ s _ a a2); try done; simpl.
      * unfold s1. simpl. by rewrite insert_insert_eq.
      * unfold a2, wants. simpl. rewrite fde_del_write_read. exact Hrd.
      * eexists. split; [apply lookup_insert_eq|]. split; [done|]. simpl. rewrite Hout, fmap_app, app_assoc, Hid. rewrite Hlid. done.
      * rewrite <- (sh_future _ _ Sh), <- Hrun. done.
  - assert (r <> []) as Hne by (intros E; by apply Hst in E). apply wp_ret. right.
    exists (mkx (x_up X) (x_go X) (x_wire X) (out fd s1) (backlog (sk_pkts r a)) true). split_and!; [| |rewrite Hfd; intros n' Hn; by apply (Hy n')|done].
    + unfold delivered. simpl. rewrite !app_nil_r, Hk, Hbl, (sh_out _ _ Sh). done.
    + eapply (shows_p X _ s _ a (sk_pkts r a)); try done; simpl; [by exists u|]. by rewrite Hrun, (sh_future _ _ Sh).
  - assert (r <> []) as Hne by (intros E; by apply Hst in E). apply wp_bind.
    assert (wf ∅ ∅ s1) as Wf1' by (eapply wf_strengthen; [exact Wf1|exact Hp1|done|done]).
    eapply wp_mono; [apply (close_after s1 p (sk_pkts r a)); [by split|done]|]. intros _ s2 [_ H2]. apply wp_ret. left.
    split_and!; [done..|]. rewrite Hfd. intros n Hn. by apply (Hy n) in Hn as [_ ?].
Qed.

(** The client's socket can be read. *)
Lemma read_step X s : carries X s -> x_go X = true ->
  wp (event_read adbhost fd p) s (fun _ s' => quiet s' /\
    ((p ∉ local_list s' /\ forall n, ~ patient (S n) fd s) \/ exists X', read_once X X' /\ shows X' s' /\ forall n, patient (S n) fd s -> patient n fd s')).
Proof.
  intros [Hqt Sh] Hgo. destruct (sh_p _ _ Sh) as (a & Hp & Hloc & Hr & Hpe & Hcl & Hfd & Hlid & Hbl & Hb & Hrd). 
  destruct (sh_q _ _ Sh) as (b & Hq & Hqe & _ & Hqp & Hid & Htr). destruct (sh_t _ _ Sh) as (u & Hu & Hon & Hout).
  unfold event_read. apply wp_bind. eapply wp_mono; [apply wp_run, (read_avail_future fd 4096 4096 [] s); lia|].
  intros [[d eof] z] s1 [(i & d' & -> & Ed & Hlen & Eo & Hf & Hz) Hrun]. simpl in Ed, Hf, Hz. pose proof (fun k => read_avail_patient _ k _ _ _ _ _ _ Hrun) as Hy. simpl in Hy. subst d'. set (s1 := set_io i s) in *.
  assert (quiet s1) as Hq1 by (by apply quiet_io). apply wp_bind. eapply wp_get_sock; [exact Hp|]. rewrite Hpe.
  assert (forall s2 a2 rz w, quiet s2 -> heap s2 = <[p := a2]> (heap s) -> local_list s2 = local_list s -> io s2 = i -> kept_up a (sk_fde (a_fde a) a2) ->
    (rz = true -> eof = true) -> a_pkts a2 = a_pkts a -> wants FDE_READ a2 = match d with [] => true | _ => false end ->
    (exists u, trs s2 !! t = Some u /\ t_online u = true /\ t_out u = base ++ (packet_of <$> x_wire X ++ w)) -> w = match d with [] => [] | _ => [Data d] end ->
    wp (do a1 <- get_sock p; when ((f_force_eof (a_fde a1) && rz) || eof) (sock_close p)) s2 (fun _ s' => quiet s' /\
      ((p ∉ local_list s' /\ forall n, ~ patient (S n) fd s) \/ exists X', read_once X X' /\ shows X' s' /\ forall n, patient (S n) fd s -> patient n fd s'))) as Hend.
  { intros s2 a2 rz w Hq2 Eh El Ei (E1 & E2 & E3 & E4 & E5 & E6 & _) Hfe Epk Hw2 Ht2 ->. apply wp_bind. eapply wp_get_sock; [rewrite Eh; apply lookup_insert_eq|].
    apply wp_when; cbn [orb]; intros He.
    - eapply wp_mono; [apply (close_after s2 p a2); [done|rewrite Eh; apply lookup_insert_eq]|]. intros _ s3 [? ?]. split; [done|]. left.
      split; [done|]. intros n Hn. apply Hy in Hn as [_ ->]. rewrite orb_false_r in He. apply andb_true_iff in He as [_ He]. apply Hfe in He. done.
    - apply orb_false_iff in He as [_ He]. split; [done|]. right. exists (mkx (future fd s2) (match d with [] => true | _ => false end) (x_wire X ++ match d with [] => [] | _ => [Data d] end) (x_down X) (x_queue X) (x_blocked X)).
      assert (future fd s2 = future fd s1) as Ef by (unfold future; by rewrite Ei). split_and!.
      + exists d. simpl. rewrite Ef, <- (sh_future _ _ Sh). split_and!; [by apply Hf|done|done|]. destruct d; [by rewrite Hgo, app_nil_r|done].
      + eapply (shows_p X _ s s2 a a2); try done; simpl.
        * unfold backlog in *. by rewrite Epk.
        * by rewrite Epk.
        * rewrite <- (sh_out _ _ Sh), <- Eo. unfold out. by rewrite Ei.
      + intros n Hn. apply Hy in Hn as [Hn _]. unfold patient, steady. rewrite Ei. exact Hn. }
  destruct d as [|c d'] eqn:Ed; cbn [fst].
  - apply wp_bind, wp_ret. eapply (Hend s1 a z []); try done; [by rewrite insert_id|by rewrite Hrd|exists u; by rewrite app_nil_r].
  - apply wp_bind, wp_bind. unfold sock_enqueue. apply wp_bind. eapply wp_get_sock; [exact Hq|]. rewrite Hqe.
    eapply wp_mono; [by apply (remote_enqueue_spec s1 q b t u p a (c :: d'))|].
    intros r s2 (-> & n & k & -> & Ek). change (1 <? 0) with false. cbv iota. set (s2 := upd_trs t _ s1).
    assert (quiet s2) as Hq2 by (apply (quiet_upd t u); done).
    apply wp_bind, wp_when; [intros _|done]. unfold sock_fde_del. eapply wp_upd_sock; [exact Hp|]. apply wp_ret.
    eapply (Hend _ (sk_fde (fde_del FDE_READ (a_fde a)) a)); try done.
    + apply quiet_fde; [done|done|]. apply fde_del_read_write.
    + unfold wants. simpl. apply fde_del_read.
    + eexists. split; [apply lookup_insert_eq|]. split; [done|]. simpl. rewrite Hout, fmap_app, app_assoc. do 2 f_equal. simpl. unfold wrte_packet.
      by rewrite <- Hlid, <- Hid, Ek.
Qed.

(** ** Any sequence of events *)

(** The events the main loop can report for a socket: those it asked for. *)
Definition ev_of (a : asocket) (w r : bool) : Z :=
  Z.lor (if w && wants FDE_WRITE a then FDE_WRITE else 0) (if r && wants FDE_READ a then FDE_READ else 0).
Definition run_event (e : sevent) : M unit :=
  match e with
  | Client w r => do a <- get_sock p; local_socket_event_func adbhost fd (ev_of a w r) p
  | Okay => handle_packet env (wire_packet A_OKAY rid lid []) t
  | Wrte d => handle_packet env (wire_packet A_WRTE rid lid d) t
  end.
(** Once the stream is closed there are no more events for it. *)
Fixpoint run_events (es : list sevent) : M unit :=
  match es with
  | [] => ret tt
  | e :: r =>
      run_event e ;;
      do l <- gets local_list;
      if bool_decide (p ∈ l) then run_events r else ret tt
  end.

Lemma ev_of_has a w r : has (ev_of a w r) FDE_WRITE = w && wants FDE_WRITE a /\ has (ev_of a w r) FDE_READ = r && wants FDE_READ a.
Proof. unfold ev_of. by destruct (w && wants FDE_WRITE a), (r && wants FDE_READ a). Qed.

(** What an event leaves. *)
Definition moved (e : sevent) (X : duplex) (s s' : sv) : Prop :=
  (p ∉ local_list s' /\ forall n, ~ patient (S n) fd s) \/
  exists X', dstep e X X' /\ shows X' s' /\ forall n, patient (S n) fd s -> patient n fd s'.

Lemma packet_quiet c d X s : carries X s -> c <> A_CNXN ->
  wp (handle_packet env (wire_packet c rid lid d) t) s (fun _ s' => quiet s').
Proof.
  intros [Hq Sh] Hc. destruct (sh_t _ _ Sh) as (u & Hu & _). destruct ids_word. destruct (wire_fields c rid lid d) as [sum ->].
  apply handle_packet_quiet; [done|by exists u| |done]. unfold pkt_wire, fillable. simpl. split_and!; [lia|lia|done|done].
Qed.

Lemma client_step w r X s : carries X s -> wp (run_event (Client w r)) s (fun _ s' => quiet s' /\ moved (Client w r) X s s').
Proof.
  intros Hc. pose proof Hc as [Hq Sh]. destruct (sh_p _ _ Sh) as (a & Hp & Hl & _ & _ & _ & _ & _ & _ & Hb & Hrd). cbn [run_event].
  apply wp_bind. eapply wp_get_sock; [exact Hp|]. unfold local_socket_event_func. destruct (ev_of_has a w r) as [-> ->]. rewrite Hrd.
  assert (exists X', dstep (Client w r) X X' /\ shows X' s /\ forall n, patient (S n) fd s -> patient n fd s) as Hidle.
  { exists X. split_and!; [apply d_idle|done|]. intros n. apply patient_S. }
  apply wp_bind. destruct (w && wants FDE_WRITE a) eqn:Ew.
  - apply andb_true_iff in Ew as [_ Ew]. eapply wp_mono; [by apply (write_step X s a)|].
    assert (x_blocked X = true) as Hbl.
    { destruct (x_blocked X); [done|]. destruct Hq as [Wf _]. exfalso. eapply (wf_wants _ _ _ Wf p a Hp Hl); [set_solver|done|by apply Hb]. }
    intros g s1 [Hq1 [(-> & Hg & Hn)|(X1 & Hd & Sh1 & Hy & ->)]]; [apply wp_ret; split; [done|]; left; split; [done|]; intros n; apply Hn|].
    assert (forall n, patient (S n) fd s -> patient n fd s1) as Hy1 by (intros n Hn; apply patient_S; by apply Hy).
    apply wp_when; intros Hgo; cbn [andb] in Hgo.
    + apply andb_true_iff in Hgo as [Hb1%negb_true_iff Hgo]. apply andb_true_iff in Hgo as [_ Hgo].
      pose proof Hd as (_ & Hgo1 & _). eapply wp_mono; [apply (read_step X1 s1); [by split|congruence]|].
      intros _ s2 [Hq2 [[Hg Hn]|(X2 & Hr & Sh2 & Hy2)]]; (split; [done|]); [left|right].
      * split; [done|]. intros n Hp0. by apply (Hn n), Hy.
      * exists X2. split_and!; [by eapply d_both|done|]. intros n Hp0. by apply Hy2, Hy.
    + split; [done|]. right. exists X1. split_and!; [by apply d_write|done|done].
  - apply wp_ret. apply wp_when; intros Hgo; cbn [andb] in Hgo; [|split; [done|by right]].
    apply andb_true_iff in Hgo as [_ Hgo]. eapply wp_mono; [by apply (read_step X s)|].
    intros _ s2 [Hq2 [[Hg Hn]|(X2 & Hr & Sh2 & Hy2)]]; (split; [done|]); [by left|right]. exists X2. split_and!; [by apply d_read|done|done].
Qed.

Lemma run_event_step e X s : carries X s -> wp (run_event e) s (fun _ s' => quiet s' /\ moved e X s s').
Proof.
  intros Hc. destruct e as [w r| |d]; [by apply client_step|..]; cbn [run_event].
  - apply wp_and; [by eapply packet_quiet|]. eapply wp_mono; [apply (okay_step X s Hc)|]. intros _ s' [Sh Hy]. right. eexists.
    split_and!; [apply d_okay|exact Sh|]. intros n Hn. apply patient_S. by apply Hy.
  - apply wp_and; [by eapply packet_quiet|]. eapply wp_mono; [apply (wrte_step X s d Hc)|].
    intros _ s' [[Hg Hn]|(X' & Hd & Sh & Hy)]; [by left|right]. exists X'. split_and!; [by apply d_wrte|done|]. intros n Hn. apply patient_S. by apply Hy.
Qed.

(** What a run leaves: it is closed only when the client went away. *)
Definition ran (es : list sevent) (X : duplex) (s s' : sv) : Prop :=
  (p ∉ local_list s' /\ ~ patient (length es) fd s) \/ exists X', dsteps es X X' /\ shows X' s'.

Lemma run_events_step es : forall X s, carries X s -> wp (run_events es) s (fun _ s' => quiet s' /\ ran es X s s').
Proof.
  induction es as [|e es IH]; intros X s Hc; cbn [run_events].
  { apply wp_ret. destruct Hc as [Hq Sh]. split; [done|]. right. exists X. split; [constructor|done]. }
  apply wp_bind. eapply wp_mono; [by apply run_event_step|]. intros _ s1 [Hq1 [[Hg Hn]|(X1 & Hd & Sh1 & Hy)]]; apply wp_bind, wp_gets.
  - rewrite bool_decide_eq_false_2 by done. apply wp_ret. split; [done|]. left. split; [done|apply Hn].
  - rewrite bool_decide_eq_true_2 by (apply (sh_ids _ _ Sh1)). eapply wp_mono; [apply (IH X1 s1); by split|].
    intros _ s2 [Hq2 [[Hg Hn]|(X2 & Hds & Sh2)]]; (split; [done|]); [left|right].
    + split; [done|]. intros Hp. by apply Hn, Hy.
    + exists X2. split; [by eapply ds_cons|done].
Qed.
End stream.

(** ** A stream of the terminal *)

(** The first stream of [demo_session]: the client sends two messages, and takes
    two bytes before its buffer is full. *)
Definition demo_stream : sv :=
  set_io {[5 := mkfio [RBytes (lit "ping"); RAgain; RBytes (lit "pong"); RAgain; RAgain; RAgain; RAgain] [WUpto 1; WAgain] []]} (demo_at 1).
Definition demo_duplex : duplex := mkx (lit "pingpong") true [] [] [] false.
Definition demo_events : list sevent := [Client true true; Wrte (lit "hello"); Client true true; Okay; Client true true].

Lemma demo_stream_carries : carries 100%nat 101%nat 1%nat 5 1 9 [wire_packet A_OKAY 1 9 []] demo_duplex demo_stream.
Proof.
  split; [apply quiet_io, demo_at_quiet|]. constructor.
  - exists (demo_sock 1 100%nat). by vm_compute.
  - exists (demo_sock 1 101%nat). by vm_compute.
  - exists (demo_tr1 1). by vm_compute.
  - assert (local_list demo_stream = [100%nat]) as -> by (by vm_compute). split; [by left|]. by intros x c ->%list_elem_of_singleton.
  - by vm_compute.
  - by vm_compute.
Qed.
Lemma demo_patient : patient (length demo_events) 5 demo_stream.
Proof. unfold patient, steady, demo_stream. cbn [io set_io]. rewrite lookup_singleton_eq. split; [split|]; [|apply Nat.leb_le; by vm_compute|]; repeat (apply Forall_cons; split; [done|]); by apply Forall_nil. Qed.

(** C2. The server implements the abstract stream: from any state in which a
    client's socket and a device's stream are joined, any sequence of events of
    that socket and of [A_OKAY] and [A_WRTE] packets for that stream is handled
    without a use of a freed object and, unless the client went away, takes the
    abstract stream through one step per event.  A client that has not gone away
    is never disconnected. *)
Theorem stream_refines env adbhost p q t fd lid rid base es X s
  (Hids : lid <> 0 /\ rid <> 0) (Hw : is_u32 lid /\ is_u32 rid) (Hc : carries p q t fd lid rid base X s) :
  wp (run_events env adbhost p t fd lid rid es) s (fun _ s' => quiet s' /\
    ((p ∉ local_list s' /\ ~ patient (length es) fd s) \/
     exists X', dsteps es X X' /\ shows p q t fd lid rid base X' s')).
Proof. by apply (run_events_step env adbhost p q t fd lid rid base Hids Hw es X s). Qed.

(** C3. Both directions of a stream are transparent, over any interleaving of the
    client's events with the device's packets, as long as the client stays: the
    data packets sent to the device carry exactly what was read from the client,
    cut into packets but neither lost, doubled nor reordered, and what the client
    was sent and is still owed is exactly what the device sent.  Data are sent
    only when the device acknowledged the packet before, and a packet of the
    device is acknowledged at most once. *)
Theorem stream_transparent env adbhost p q t fd lid rid base es X s
  (Hids : lid <> 0 /\ rid <> 0) (Hw : is_u32 lid /\ is_u32 rid) (Hc : carries p q t fd lid rid base X s)
  (Hp : patient (length es) fd s) (Hx : x_wire X = []) (Hbl : x_blocked X = false) (Hqu : x_queue X = []) :
  wp (run_events env adbhost p t fd lid rid es) s (fun _ s' => exists W a u, heap s' !! p = Some a /\ trs s' !! t = Some u /\
    t_out u = base ++ (packet_of lid rid <$> W) /\
    future fd s = datas W ++ future fd s' /\
    out fd s' ++ backlog a = out fd s ++ brought es /\
    (n_data W <= 1 + n_okay es)%nat /\ (n_ack W <= n_wrte es)%nat).
Proof.
  eapply wp_mono; [by apply (run_events_step env adbhost p q t fd lid rid base Hids Hw es X s)|].
  intros _ s' [_ [[_ H]|(X' & Hd & Sh')]]; [done|]. destruct Hc as [_ Sh].
  destruct (sh_p _ _ _ _ _ _ _ _ _ Sh') as (a & Ha & _ & _ & _ & _ & _ & _ & Hb & _).
  destruct (sh_t _ _ _ _ _ _ _ _ _ Sh') as (u & Hu & _ & Ho). exists (x_wire X'), a, u.
  destruct (dsteps_transparent es X X' Hd) as (T1 & T2 & T3 & T4).
  rewrite Hb, (sh_future _ _ _ _ _ _ _ _ _ Sh), (sh_future _ _ _ _ _ _ _ _ _ Sh'), (sh_out _ _ _ _ _ _ _ _ _ Sh), (sh_out _ _ _ _ _ _ _ _ _ Sh').
  rewrite Hx, Hqu in *. rewrite Hbl in *. simpl in T1, T2. change (n_data []) with 0%nat in T3. change (n_ack []) with 0%nat in T4. cbn [Nat.b2n] in *.
  split_and!; [done..| |lia]. destruct (x_go X), (x_go X'); cbn [Nat.b2n] in *; lia.
Qed.

Lemma stream_refines_witness :
  wp (run_events no_auth false 100%nat 1%nat 5 1 9 demo_events) demo_stream (fun _ s' => quiet s' /\
    ((100%nat ∉ local_list s' /\ ~ patient (length demo_events) 5 demo_stream) \/
     exists X', dsteps demo_events demo_duplex X' /\ shows 100%nat 101%nat 1%nat 5 1 9 [wire_packet A_OKAY 1 9 []] X' s')).
Proof.
  apply (stream_refines no_auth false 100%nat 101%nat 1%nat 5 1 9 [wire_packet A_OKAY 1 9 []] demo_events demo_duplex demo_stream);
    [done|by unfold is_u32|exact demo_stream_carries].
Defined.

Lemma stream_transparent_witness :
  wp (run_events no_auth false 100%nat 1%nat 5 1 9 demo_events) demo_stream (fun _ s' => exists W a u,
    heap s' !! 100%nat = Some a /\ trs s' !! 1%nat = Some u /\ t_out u = [wire_packet A_OKAY 1 9 []] ++ (packet_of 1 9 <$> W) /\
    future 5 demo_stream = datas W ++ future 5 s' /\ out 5 s' ++ backlog a = out 5 demo_stream ++ brought demo_events /\
    (n_data W <= 1 + n_okay demo_events)%nat /\ (n_ack W <= n_wrte demo_events)%nat).
Proof.
  apply (stream_transparent no_auth false 100%nat 101%nat 1%nat 5 1 9 [wire_packet A_OKAY 1 9 []] demo_events demo_duplex demo_stream);
    [done|by unfold is_u32|exact demo_stream_carries|exact demo_patient|done..].
Defined.
