(* ===== verification/Typed.v ===== *)
(** * Types of what the server keeps and sends

    The identifiers of sockets are 32-bit words and every packet handed to a
    transport is one that the reader at the other end accepts.  [ty] says of one
    computation that it keeps the state so, and what its result satisfies; it
    composes, and every function of the main thread has it. *)

From S2P Require Import Prelude CString Io Wire DList Fdevent Server Transports Sockets Packets SocketInv SocketOps SocketLink PacketsSafe Keeps EngineProps Registry Listeners HostRequest ListenersProps SmartSocket EventProps.

(** What [check_header] and [check_data] accept: the words of the header fit, its
    magic is that of its command, the payload is as long as announced and at most
    a packet's worth, and the checksum is that of the payload. *)
Definition well_formed (p : apacket) : Prop :=
  msg_ok (msg p) /\ check_header p = true /\ Z.of_nat (length (data p)) = data_length (msg p) /\ data_check (msg p) = sum_bytes (data p).

Record typed (s : sv) : Prop := {
  ty_ids : map_Forall (fun _ a => is_u32 (a_id a)) (heap s);
  ty_next : is_u32 (next_id s);
  ty_out : map_Forall (fun _ u => Forall well_formed (t_out u)) (trs s) }.

Definition ty {A} (P : A -> Prop) (m : M A) : Prop := forall s a s', typed s -> m s = Ok (a, s') -> typed s' /\ P a.
Notation ok m := (ty (fun _ => True) m).

Create HintDb ty.

(** ** Rules *)

Lemma ty_ret {A} (P : A -> Prop) a : P a -> ty P (ret a).
Proof. by intros H s x s' Hs [= <- <-]. Qed.
Lemma ty_bind {A B} (P : A -> Prop) (Q : B -> Prop) (m : M A) (k : A -> M B) : ty P m -> (forall a, P a -> ty Q (k a)) -> ty Q (bind m k).
Proof.
  intros Hm Hk s b s' Hs. unfold bind. destruct (m s) as [[a s1]| | |] eqn:E; [|done..]. destruct (Hm _ _ _ Hs E) as [H1 HP]. by apply (Hk a HP).
Qed.
Lemma ty_any {A} (P : A -> Prop) (m : M A) : ty P m -> ok m.
Proof. intros H s a s' Hs E. by destruct (H s a s' Hs E). Qed.
Lemma ty_never {A} (P : A -> Prop) (m : M A) : (forall s, match m s with Ok _ => False | _ => True end) -> ty P m.
Proof. intros H s a s' _ E. specialize (H s). by rewrite E in H. Qed.
Lemma ty_stop {A} (P : A -> Prop) w : ty P (stop w).
Proof. by apply ty_never. Qed.
Lemma ty_undefined {A} (P : A -> Prop) w : ty P (undefined w).
Proof. by apply ty_never. Qed.
Lemma ty_diverge {A} (P : A -> Prop) : ty P diverge.
Proof. by apply ty_never. Qed.
Lemma ty_gets {A} (f : sv -> A) : ok (gets f).
Proof. by intros s a s' Hs [= <- <-]. Qed.
Lemma ty_next_id : ty is_u32 (gets next_id).
Proof. intros s a s' Hs [= <- <-]. split; [done|apply Hs]. Qed.
Lemma ty_lift {A} (r : res A) : ok (lift r).
Proof. intros s a s' Hs. unfold lift. destruct r; simpl; [|done..]. by intros [= <- <-]. Qed.
Lemma ty_modify f : (forall s, typed s -> typed (f s)) -> ok (modify f).
Proof. intros H s a s' Hs [= <- <-]. by auto. Qed.
Lemma ty_when b m : ok m -> ok (when b m).
Proof. destruct b; [done|]. intros _. by apply ty_ret. Qed.
Lemma typed_ext s s' : typed s -> heap s' = heap s -> next_id s' = next_id s -> trs s' = trs s -> typed s'.
Proof. intros [H1 H2 H3] E1 E2 E3. constructor; [by rewrite E1|by rewrite E2|by rewrite E3]. Qed.
Lemma ty_keeps {A} (m : M A) :
  (forall s a s', m s = Ok (a, s') -> heap s' = heap s /\ next_id s' = next_id s /\ trs s' = trs s) -> ok m.
Proof. intros H s a s' Hs E. destruct (H s a s' E) as (? & ? & ?). split; [by eapply typed_ext|done]. Qed.

Lemma ty_get_sock p : ty (fun a => is_u32 (a_id a)) (get_sock p).
Proof.
  intros s a s' Hs. unfold get_sock. destruct (heap s !! p) as [b|] eqn:E; [|done]. intros [= <- <-]. split; [done|]. by apply (ty_ids _ Hs p).
Qed.
Lemma ty_get_tr t : ty (fun u => Forall well_formed (t_out u)) (get_tr t).
Proof.
  intros s a s' Hs. unfold get_tr. destruct (trs s !! t) as [b|] eqn:E; [|done]. intros [= <- <-]. split; [done|]. by apply (ty_out _ Hs t).
Qed.
Lemma ty_get_lis p : ok (get_lis p).
Proof. apply ty_keeps. intros s a s'. unfold get_lis. destruct (listeners s !! p); [|done]. by intros [= <- <-]. Qed.
Lemma ty_put_sock p a : is_u32 (a_id a) -> ok (put_sock p a).
Proof. intros H. apply ty_modify. intros s Hs. constructor; [apply map_Forall_insert_2; [done|]|..]; apply Hs. Qed.
Lemma ty_upd_sock p f : (forall a, is_u32 (a_id a) -> is_u32 (a_id (f a))) -> ok (upd_sock p f).
Proof. intros H. unfold upd_sock. eapply ty_bind; [apply ty_get_sock|]. intros a Ha. apply ty_put_sock. by apply H. Qed.
Lemma ty_upd_tr t f : (forall u, Forall well_formed (t_out u) -> Forall well_formed (t_out (f u))) -> ok (upd_tr t f).
Proof.
  intros H. unfold upd_tr. eapply ty_bind; [apply ty_get_tr|]. intros u Hu. apply ty_modify. intros s Hs.
  constructor; [apply Hs..|]. apply map_Forall_insert_2; [by apply H|apply Hs].
Qed.
Lemma ty_new_sock a : is_u32 (a_id a) -> ok (new_sock a).
Proof. intros Ha s p s' Hs [= <- <-]. split; [|done]. constructor; [apply map_Forall_insert_2; [done|]|..]; apply Hs. Qed.
Lemma ty_free_sock p : ok (free_sock p).
Proof.
  unfold free_sock. eapply ty_bind; [apply ty_get_sock|]. intros _ _. apply ty_modify. intros s Hs.
  constructor; [apply map_Forall_delete|..]; apply Hs.
Qed.
Lemma ty_new_tr u : Forall well_formed (t_out u) -> ok (new_tr u).
Proof. intros Hu s p s' Hs [= <- <-]. split; [|done]. constructor; [apply Hs..|]. apply map_Forall_insert_2; [done|apply Hs]. Qed.
Lemma ty_free_tr t : ok (free_tr t).
Proof.
  unfold free_tr. eapply ty_bind; [apply ty_get_tr|]. intros _ _. apply ty_modify. intros s Hs.
  constructor; [apply Hs..|]. apply map_Forall_delete, Hs.
Qed.
Lemma ty_lock : ok lock.
Proof. apply ty_keeps. intros s a s'. unfold lock. destruct (slock s); [done|]. by intros [= <- <-]. Qed.
Lemma ty_live : ok live_transports.
Proof. apply ty_keeps. intros s a s'. unfold live_transports. destruct (mapM _ _); [|done]. by intros [= <- <-]. Qed.
Lemma ty_live_pairs : ok live_pairs.
Proof. apply ty_keeps. intros s a s'. unfold live_pairs. destruct (mapM _ _); [|done]. by intros [= <- <-]. Qed.
Lemma ty_next_fd : ok next_fd.
Proof.
  apply ty_keeps. intros s a s'. unfold next_fd. destruct (conns s) as [|[fd f] r]; intros [= <- <-]; [done|]. by destruct (0 <=? fd).
Qed.

#[export] Hint Resolve ty_stop ty_undefined ty_diverge ty_next_id ty_lift ty_get_sock ty_get_tr ty_get_lis ty_free_sock ty_free_tr ty_lock
  ty_live ty_live_pairs ty_next_fd : ty.
#[export] Hint Resolve ty_gets | 50 : ty.

Ltac ty_leaf := first [solve [eauto with ty nocore] | eapply ty_any; solve [eauto with ty nocore]].
(** Follow the structure of the computation. *)
Ltac ty_step :=
  lazymatch goal with
  | |- forall _, _ => intro
  | |- ty _ (bind _ _) => first [eapply ty_bind; [solve [eauto with ty nocore]|] | apply (ty_bind (fun _ => True))]
  | |- ty _ (when _ _) => apply ty_when
  | |- ty _ (ret _) => apply ty_ret; try done
  | |- ty _ (modify _) => apply ty_modify; intros [] ?; eapply typed_ext; [eassumption|reflexivity..]
  | |- ty _ (upd_tr _ _) => apply ty_upd_tr; try done
  | |- ty _ (upd_sock _ _) => apply ty_upd_sock; try done
  | |- ty _ (new_sock _) => apply ty_new_sock; try done
  | |- ty _ (new_tr _) => apply ty_new_tr; try done
  | |- ty _ (match ?x with _ => _ end) => destruct x
  | |- ty _ (let '_ := ?x in _) => destruct x
  | |- ty _ _ => ty_leaf
  end.
Ltac ty := repeat ty_step.

(** ** Sending *)

Lemma ty_send_packet p t : is_u32 (command (msg p)) -> is_u32 (arg0 (msg p)) -> is_u32 (arg1 (msg p)) ->
  Z.of_nat (length (data p)) = data_length (msg p) -> data_length (msg p) <= MAX_PAYLOAD -> ok (send_packet p t).
Proof.
  intros Hc H0 H1 Hl Hm. unfold send_packet. apply (ty_bind well_formed).
  - intros s k s' Hs. unfold lift, send_packet_fill. rewrite checksum_exact by lia. rewrite take_ge by lia. cbn. intros [= <- <-]. split; [done|].
    unfold well_formed, msg_ok, check_header. cbn. rewrite Z.eqb_refl, (proj2 (Z.ltb_ge _ _)) by lia.
    pose proof (sum_bytes_nonneg (data p)). pose proof (sum_bytes_bound (data p)). pose proof (lxor_u32 _ Hc). unfold is_u32, u32_mod, MAX_PAYLOAD in *.
    split_and!; try done; lia.
  - intros k Hk. destruct t as [t|]; [|ty]. eapply ty_bind; [apply ty_get_tr|]. intros u Hu. destruct (t_room u); [ty|].
    apply ty_upd_tr. intros v _. cbn. by apply Forall_app_2; [|apply Forall_singleton].
Qed.
(** The packets of the protocol: the payload is given. *)
Lemma ty_send c a0 a1 d t : is_u32 c -> is_u32 a0 -> is_u32 a1 -> (length d <= 4096)%nat -> ok (send_packet (mk_packet c a0 a1 d) t).
Proof. intros Hc H0 H1 Hd. apply ty_send_packet; try done. cbn. unfold MAX_PAYLOAD. lia. Qed.

Ltac word := vm_compute; split; [discriminate|reflexivity].

Lemma ty_fd_write fd d : ok (fd_write fd d).
Proof. unfold fd_write, get_fd, put_fd. ty. Qed.
Lemma ty_fd_writex fd d : ok (fd_writex fd d).
Proof. unfold fd_writex, get_fd, put_fd. ty. Qed.
Lemma ty_fd_close fd : ok (fd_close fd).
Proof. unfold fd_close. ty. Qed.
Lemma ty_unlock : ok unlock.
Proof. unfold unlock. ty. Qed.
Lemma ty_peer_id a : ty is_u32 (peer_id a).
Proof. unfold peer_id. destruct (a_peer a); [|ty]. eapply ty_bind; [apply ty_get_sock|]. intros b Hb. by apply ty_ret. Qed.
#[export] Hint Resolve ty_fd_write ty_fd_writex ty_fd_close ty_unlock ty_peer_id : ty.

(** ** Sockets *)

Lemma ty_sendfailmsg fd r : ok (sendfailmsg fd r).
Proof. unfold sendfailmsg. ty. Qed.
Lemma ty_find_in l i j : ok (find_in l i j).
Proof. induction l as [|p l IH]; cbn [find_in]; ty. Qed.
#[export] Hint Resolve ty_sendfailmsg ty_find_in : ty.
Lemma ty_find i j : ok (find_local_socket i j).
Proof. unfold find_local_socket. ty. Qed.
Lemma ty_install p : ok (install_local_socket p).
Proof.
  unfold install_local_socket. eapply ty_bind; [ty_leaf|]. intros _ _. eapply ty_bind; [apply ty_next_id|]. intros i Hi.
  apply (ty_bind (fun _ => True)); [by apply ty_upd_sock|]. intros _ _. apply (ty_bind (fun _ => True)); [|ty]. apply ty_modify. intros s Hs.
  constructor; [apply Hs| |apply Hs]. cbn. pose proof (wrap32_range (i + 1)). destruct (_ =? 0); [word|done].
Qed.
Lemma ty_remove_socket p : ok (remove_socket p).
Proof. unfold remove_socket. ty. Qed.
Lemma ty_fde_add e p : ok (sock_fde_add e p).
Proof. unfold sock_fde_add. ty. Qed.
Lemma ty_fde_del e p : ok (sock_fde_del e p).
Proof. unfold sock_fde_del. ty. Qed.
Lemma ty_fde_remove p : ok (sock_fde_remove p).
Proof. unfold sock_fde_remove. ty. Qed.
Lemma ty_add_dis t d : ok (add_transport_disconnect t d).
Proof. unfold add_transport_disconnect. ty. Qed.
Lemma ty_remove_dis t d : ok (remove_transport_disconnect t d).
Proof. unfold remove_transport_disconnect. ty. Qed.
#[export] Hint Resolve ty_find ty_install ty_remove_socket ty_fde_add ty_fde_del ty_fde_remove ty_add_dis ty_remove_dis : ty.

Lemma ty_shutdown p : ok (remote_socket_shutdown p).
Proof.
  unfold remote_socket_shutdown. eapply ty_bind; [apply ty_get_sock|]. intros a Ha. apply (ty_bind is_u32).
  - destruct (a_peer a); [apply ty_peer_id|]. apply ty_ret. word.
  - intros i Hi. apply ty_send; [word|done|done|cbn; lia].
Qed.
Lemma ty_destroy p : ok (local_socket_destroy p).
Proof. unfold local_socket_destroy. ty. Qed.
#[export] Hint Resolve ty_shutdown ty_destroy : ty.
Lemma ty_finish p : ok (local_socket_finish p).
Proof. unfold local_socket_finish. ty. Qed.
Lemma ty_tracker_remove p : ok (device_tracker_remove p).
Proof. unfold device_tracker_remove. ty. Qed.
#[export] Hint Resolve ty_finish ty_tracker_remove : ty.
Lemma ty_do_close n d p : ok (do_close n d p).
Proof. revert d p. induction n as [|n IH]; intros d p; close_step; ty. Qed.
#[export] Hint Resolve ty_do_close : ty.
Lemma ty_sock_close p : ok (sock_close p).
Proof. apply ty_do_close. Qed.
Lemma ty_flush n fd p : ok (flush_pkt n fd p).
Proof. revert p. induction n as [|n IH]; intros p; cbn [flush_pkt]; ty. Qed.
#[export] Hint Resolve ty_sock_close ty_flush : ty.
Lemma ty_local_enqueue p k : ok (local_socket_enqueue p k).
Proof. unfold local_socket_enqueue, flush. ty. Qed.
#[export] Hint Resolve ty_local_enqueue : ty.
Lemma ty_tracker_send p b : ok (device_tracker_send p b).
Proof. unfold device_tracker_send. ty. Qed.
#[export] Hint Resolve ty_tracker_send : ty.
Lemma ty_send_all l b : ok (send_to_trackers l b).
Proof. induction l as [|p l IH]; cbn [send_to_trackers]; ty. Qed.
#[export] Hint Resolve ty_send_all : ty.
Lemma ty_update : ok update_transports.
Proof. unfold update_transports. ty. Qed.
Lemma ty_ready p : ok (sock_ready p).
Proof.
  unfold sock_ready, local_socket_ready_notify, remote_socket_ready, smart_socket_ready, device_tracker_ready, local_socket_ready.
  eapply ty_bind; [apply ty_get_sock|]. intros c _. destruct (a_ready c); [ty..| |ty|ty]. eapply ty_bind; [apply ty_get_sock|]. intros a Ha.
  eapply ty_bind; [apply ty_peer_id|]. intros i Hi. apply ty_send; [word|done|done|cbn; lia].
Qed.
#[export] Hint Resolve ty_update ty_ready : ty.
Lemma ty_create_local fd : ok (create_local_socket fd).
Proof. unfold create_local_socket. ty. Qed.
Lemma ty_create_remote i t : is_u32 i -> ok (create_remote_socket i t).
Proof. intros Hi. unfold create_remote_socket. ty. Qed.
Lemma ty_free_listener l : ok (free_listener l).
Proof. unfold free_listener. ty. Qed.
#[export] Hint Resolve ty_create_local ty_free_listener : ty.
Lemma ty_run_disconnect d : ok (run_disconnect d).
Proof. unfold run_disconnect. ty. Qed.
#[export] Hint Resolve ty_run_disconnect : ty.
Lemma ty_run_disconnects l : ok (run_disconnects l).
Proof. induction l as [|d l IH]; cbn [run_disconnects]; ty. Qed.
#[export] Hint Resolve ty_run_disconnects : ty.
Lemma ty_offline t : ok (handle_offline t).
Proof. unfold handle_offline, run_transport_disconnects. ty. Qed.
Lemma ty_online t : ok (handle_online t).
Proof. unfold handle_online. ty. Qed.
#[export] Hint Resolve ty_offline ty_online : ty.

(** ** Packets *)

Lemma banner_props_out l u : t_out (fold_left banner_prop l u) = t_out u.
Proof. revert u. induction l as [|x l IH]; intros u; cbn [fold_left]; [done|]. rewrite IH. unfold banner_prop. by repeat case_match. Qed.
Lemma banner_split_out b u : t_out (banner_split b u).2 = t_out u.
Proof. unfold banner_split. repeat case_match; cbn [snd]; [apply banner_props_out|done..]. Qed.
Lemma ty_parse_banner b t : ok (parse_banner b t).
Proof.
  unfold parse_banner. eapply ty_bind; [apply ty_get_tr|]. intros u Hu. pose proof (banner_split_out b u) as E. destruct (banner_split b u) as [ty u1]. cbn in E.
  apply (ty_bind (fun _ => True)); [apply ty_upd_tr; intros _ _; by rewrite E|]. intros _ _. cbv zeta. ty.
Qed.
Lemma ty_link p i t : is_u32 i -> ok (link_remote p i t).
Proof. intros Hi. unfold link_remote. apply (ty_bind (fun _ => True)); [by apply ty_create_remote|]. ty. Qed.
Lemma ty_service_to_fd n : ok (service_to_fd n).
Proof. unfold service_to_fd. ty. Qed.
#[export] Hint Resolve ty_parse_banner ty_service_to_fd : ty.
Lemma ty_service_socket n : ok (create_local_service_socket n).
Proof. unfold create_local_service_socket. ty. Qed.
Lemma ty_send_connect t : ok (send_connect t).
Proof. apply ty_send; [word|word|word|]. apply Nat.leb_le. by vm_compute. Qed.
#[export] Hint Resolve ty_service_socket ty_send_connect : ty.

(** A signature and a public key fit a packet. *)
Definition keys_fit (env : auth_env) : Prop := forall k token, (length (e_sign env k token) <= 4096)%nat.

Lemma ty_auth_response env k token t : keys_fit env -> ok (send_auth_response env k token t).
Proof. intros Hf. unfold send_auth_response. specialize (Hf k token). destruct (e_sign env k token); [ty|]. apply ty_send; [word|word|word|done]. Qed.
Lemma ty_auth_publickey env t : ok (send_auth_publickey env t).
Proof.
  unfold send_auth_publickey, adb_auth_get_userkey. destruct (e_pubkey env) as [k|]; [|ty].
  destruct (Z.ltb_spec MAX_PAYLOAD (Z.of_nat (length k) + 1)); [ty|]. destruct (k ++ [x00]) eqn:E; [ty|]. apply ty_send; [word|word|word|].
  rewrite <- E, length_app. unfold MAX_PAYLOAD in *. simpl. lia.
Qed.
Lemma ty_send_ready i j t : is_u32 i -> is_u32 j -> ok (send_ready i j t).
Proof. intros Hi Hj. apply ty_send; [word|done|done|cbn; lia]. Qed.
Lemma ty_send_close0 j t : is_u32 j -> ok (send_close 0 j t).
Proof. intros Hj. apply ty_send; [word|word|done|cbn; lia]. Qed.
#[export] Hint Resolve ty_link ty_auth_response ty_auth_publickey ty_send_ready ty_send_close0 : ty.

Lemma ty_handle_packet env p t : keys_fit env -> packet_ok p -> ok (handle_packet env p t).
Proof.
  intros Hf ((Hc & H0 & H1 & _) & Hh & Hl & _). assert (data_length (msg p) <= MAX_PAYLOAD) as Hm.
  { unfold check_header in Hh. destruct (negb _); [done|]. destruct (Z.ltb_spec MAX_PAYLOAD (data_length (msg p))); [done|lia]. }
  pose proof (fun t => ty_send_packet p t Hc H0 H1 Hl Hm).
  unfold handle_packet, on_sync, on_cnxn, on_auth, on_open, on_okay, on_clse, on_wrte, listed_enqueue, on_hdsk. cbv beta. ty.
  apply ty_send; [word|word|word|]. apply Nat.leb_le. by vm_compute.
Qed.
#[export] Hint Resolve ty_handle_packet : ty.

(** ** Clients *)

Lemma ty_drain n fd p : ok (drain_pkts n fd p).
Proof. revert p. induction n as [|n IH]; intros p; cbn [drain_pkts]; unfold flush; ty. Qed.
#[export] Hint Resolve ty_drain : ty.
Lemma ty_event_write fd p : ok (event_write fd p).
Proof. unfold event_write. ty. Qed.
#[export] Hint Resolve ty_event_write : ty.
Lemma ty_connect_remote p d : ok (connect_to_remote p d).
Proof.
  unfold connect_to_remote. eapply ty_bind; [apply ty_get_sock|]. intros a Ha. cbv zeta. destruct (Z.ltb_spec (MAX_PAYLOAD - 1) (Z.of_nat (length d) + 1)); [ty|].
  apply ty_send_packet; [word|done|word| |]; cbn; [rewrite length_app; simpl|unfold MAX_PAYLOAD in *]; lia.
Qed.
Lemma ty_create_smart : ok create_smart_socket.
Proof. unfold create_smart_socket. ty. Qed.
Lemma ty_create_tracker : ok create_device_tracker.
Proof. unfold create_device_tracker. ty. Qed.
#[export] Hint Resolve ty_connect_remote ty_create_smart ty_create_tracker : ty.
Lemma ty_smartsocket p : ok (connect_to_smartsocket p).
Proof. unfold connect_to_smartsocket. ty. Qed.
#[export] Hint Resolve ty_smartsocket : ty.
Lemma ty_remote_enqueue p k : p_len k = Z.of_nat (length (data k)) -> p_len k <= MAX_PAYLOAD -> ok (remote_socket_enqueue p k).
Proof.
  intros Hl Hm. unfold remote_socket_enqueue. eapply ty_bind; [apply ty_get_sock|]. intros a Ha. eapply ty_bind; [apply ty_peer_id|]. intros i Hi.
  apply (ty_bind (fun _ => True)); [|ty]. apply ty_send_packet; [word|done|done|done|done].
Qed.
Lemma ty_tracker_enqueue p k : ok (device_tracker_enqueue p k).
Proof. unfold device_tracker_enqueue, device_tracker_close, close_peer. ty. Qed.
#[export] Hint Resolve ty_remote_enqueue ty_tracker_enqueue : ty.

(** ** Transports and listeners *)

Lemma ty_unlink t : ok (unlink_transport t).
Proof. unfold unlink_transport. ty. Qed.
Lemma ty_link_master t : ok (link_master t).
Proof. unfold link_master. ty. Qed.
Lemma ty_link_pending t : ok (link_pending t).
Proof. unfold link_pending. ty. Qed.
Lemma ty_find_slot l port : ok (find_slot l port).
Proof. induction l as [|[t|] l IH]; cbn [find_slot]; ty. Qed.
Lemma ty_remote_kick t : ok (remote_kick t).
Proof. unfold remote_kick. ty. Qed.
Lemma ty_remote_close t : ok (remote_close_tr t).
Proof. unfold remote_close_tr. ty. Qed.
#[export] Hint Resolve ty_unlink ty_link_master ty_link_pending ty_find_slot ty_remote_kick ty_remote_close : ty.
Lemma ty_kick t : ok (kick_transport t).
Proof. unfold kick_transport. ty. Qed.
#[export] Hint Resolve ty_kick : ty.
Lemma ty_unref t : ok (transport_unref t).
Proof. unfold transport_unref, post_action. ty. Qed.
#[export] Hint Resolve ty_unref : ty.
Lemma ty_unregister t : ok (unregister_transport t).
Proof. unfold unregister_transport. ty. Qed.
Lemma ty_unregister_tcp l : ok (unregister_tcp l).
Proof. induction l as [|t l IH]; cbn [unregister_tcp]; ty. Qed.
Lemma ty_init_socket t port local : ok (init_socket_transport t port local).
Proof. unfold init_socket_transport, find_emulator_transport_by_adb_port, get_available_local_transport_index. ty. Qed.
Lemma ty_serial_taken l serial : ok (serial_taken l serial).
Proof. induction l as [|t l IH]; cbn [serial_taken]; ty. Qed.
#[export] Hint Resolve ty_unregister ty_unregister_tcp ty_init_socket ty_serial_taken : ty.
Lemma ty_register_socket fd serial port local : ok (register_socket_transport fd serial port local).
Proof. unfold register_socket_transport, post_action. ty. Qed.
Lemma ty_register_usb usb serial devpath w : ok (register_usb_transport usb serial devpath w).
Proof. unfold register_usb_transport, post_action. ty. Qed.
Lemma ty_unregister_usb l usb : ok (unregister_usb l usb).
Proof. induction l as [|t l IH]; cbn [unregister_usb]; ty. Qed.
Lemma ty_find_serial l serial : ok (find_serial l serial).
Proof. induction l as [|t l IH]; cbn [find_serial]; ty. Qed.
#[export] Hint Resolve ty_register_socket ty_register_usb ty_unregister_usb ty_find_serial : ty.
Lemma ty_local_connect adbhost port : ok (local_connect adbhost port).
Proof. unfold local_connect, local_connect_arbitrary_ports. ty. Qed.
Lemma ty_registration capacity : ok (transport_registration_func capacity).
Proof. unfold transport_registration_func, remove_action, add_action, run_transport_disconnects. ty. Qed.
Lemma ty_listener_line a : ok (listener_line a).
Proof. unfold listener_line. ty. Qed.
#[export] Hint Resolve ty_local_connect ty_registration ty_listener_line : ty.
Lemma ty_format_lines l : forall n acc r, ok (format_lines l n acc r).
Proof. induction l as [|p l IH]; intros n acc r; cbn [format_lines]; ty. Qed.
Lemma ty_remove_named l name : ok (remove_named l name).
Proof. induction l as [|p l IH]; cbn [remove_named]; ty. Qed.
Lemma ty_remove_unstarred l : ok (remove_unstarred l).
Proof. induction l as [|p l IH]; cbn [remove_unstarred]; ty. Qed.
Lemma ty_find_listener l name : ok (find_listener l name).
Proof. induction l as [|p l IH]; cbn [find_listener]; ty. Qed.
#[export] Hint Resolve ty_format_lines ty_remove_named ty_remove_unstarred ty_find_listener : ty.
Lemma ty_rebind p c t b : ok (rebind_listener p c t b).
Proof. unfold rebind_listener, put_lis. ty. Qed.
#[export] Hint Resolve ty_rebind : ty.
Lemma ty_new_ptr : ok (fun s => Ok (next_ptr s, set_next_ptr (S (next_ptr s)) s)).
Proof. apply ty_keeps. by intros s a s' [= <- <-]. Qed.
#[export] Hint Resolve ty_new_ptr : ty.
Lemma ty_install_listener n c t b : ok (install_listener n c t b).
Proof. unfold install_listener, local_name_to_fd, put_lis. ty. Qed.
#[export] Hint Resolve ty_install_listener : ty.

(** ** Requests *)

Lemma ty_okay_msg fd m : ok (send_msg_with_okay fd m).
Proof. unfold send_msg_with_okay. ty. Qed.
Lemma ty_acquire t serial : ok (acquire_any t serial).
Proof. unfold acquire_any. ty. Qed.
#[export] Hint Resolve ty_okay_msg ty_acquire : ty.
Lemma ty_acquire_tr t serial : ok (acquire_tr t serial).
Proof. unfold acquire_tr. ty. Qed.
Lemma ty_fail_with fd w : ok (fail_with fd w).
Proof. unfold fail_with. ty. Qed.
#[export] Hint Resolve ty_acquire_tr ty_fail_with : ty.
Lemma ty_forward service t serial fd : ok (handle_forward_request service t serial fd).
Proof. unfold handle_forward_request, format_listeners, create_forward, kill_forward, remove_listener, remove_all_listeners, okay_twice. ty. Qed.
Lemma ty_select service serial fd s : ok (select_transport service serial fd s).
Proof. unfold select_transport. ty. Qed.
Lemma ty_disconnect serial : ok (disconnect_request serial).
Proof. unfold disconnect_request, unregister_all_tcp_transports, find_transport. ty. Qed.
#[export] Hint Resolve ty_forward ty_select ty_disconnect : ty.
Lemma ty_host adbhost service t serial fd s : ok (handle_host_request adbhost service t serial fd s).
Proof. unfold handle_host_request. ty. Qed.
Lemma ty_host_service name serial : ok (host_service_to_socket name serial).
Proof. unfold host_service_to_socket. ty. Qed.
Lemma ty_peer_fd s : ok (peer_fd s).
Proof. unfold peer_fd. ty. Qed.
#[export] Hint Resolve ty_host ty_host_service ty_peer_fd : ty.
Lemma ty_bind_service s q fd s2 : ok (bind_service s q fd s2).
Proof. unfold bind_service. ty. Qed.
Lemma ty_open_remote s q service : ok (open_remote s q service).
Proof. unfold open_remote. ty. Qed.
Lemma ty_smart_fail s : ok (smart_fail s).
Proof. unfold smart_fail. ty. Qed.
#[export] Hint Resolve ty_bind_service ty_open_remote ty_smart_fail : ty.
Lemma ty_smart_enqueue adbhost s p : ok (smart_socket_enqueue adbhost s p).
Proof. unfold smart_socket_enqueue, host_request, create_host_service_socket, device_request. ty. Qed.
#[export] Hint Resolve ty_smart_enqueue : ty.
Lemma ty_sock_enqueue adbhost s p : p_len p = Z.of_nat (length (data p)) -> p_len p <= MAX_PAYLOAD -> ok (sock_enqueue adbhost s p).
Proof. intros H1 H2. unfold sock_enqueue. ty. Qed.

(** At most a packet's worth is read. *)
Lemma ty_read_avail fd : forall fuel n acc, ty (fun r => (length (fst (fst r)) <= length acc + n)%nat) (read_avail fuel fd n acc).
Proof.
  induction fuel as [|fuel IH]; intros n acc; (destruct n as [|n]; [cbn [read_avail]; apply ty_ret; cbn; lia|]); [apply ty_diverge|].
  cbn [read_avail]. apply (ty_bind (fun r => match r with Got b => (length b <= S n)%nat | _ => True end)).
  - unfold fd_read, get_fd, put_fd. apply (ty_bind (fun _ => True)); [ty|]. intros [f|] _; [|by apply ty_ret].
    assert (match fst (adb_read (S n) (io_in f)) with Got b => (length b <= S n)%nat | _ => True end) as Hr.
    { induction (io_in f) as [|[[|b l]| | |] s IHs]; cbn [adb_read]; try done. destruct (Nat.leb_spec (length (b :: l)) (S n)); cbn [fst]; [done|].
      rewrite length_take. lia. }
    destruct (adb_read (S n) (io_in f)) as [r l]. apply (ty_bind (fun _ => True)); [ty|]. intros _ _. by apply ty_ret.
  - intros [b| | |] Hb; [|apply ty_ret; cbn; lia..]. intros s r s' Hs E. destruct (IH _ _ _ _ _ Hs E) as [H1 H2]. split; [done|]. rewrite length_app in H2. lia.
Qed.

Lemma ty_event_read adbhost fd s : ok (event_read adbhost fd s).
Proof.
  unfold event_read. eapply ty_bind; [apply ty_read_avail|]. intros [[b eof] z] Hb. cbn in Hb. eapply ty_bind; [apply ty_get_sock|]. intros a Ha.
  apply (ty_bind (fun _ => True)); [|ty]. destruct b as [|c b']; [ty|]. destruct (a_peer a) as [q|]; [|ty].
  apply (ty_bind (fun _ => True)); [|ty]. apply ty_sock_enqueue; cbn in *; [lia|unfold MAX_PAYLOAD; lia].
Qed.
#[export] Hint Resolve ty_event_read : ty.
Lemma ty_client adbhost fd ev s : ok (local_socket_event_func adbhost fd ev s).
Proof. unfold local_socket_event_func. ty. Qed.

(** ** Everything the main thread does *)

(** What the main loop reacts to, and the calls of the other threads that change
    the tables of the main thread. *)
Inductive server_event :=
  | EvPacket (t : ptr) (p : apacket)
  | EvClient (fd ev : Z) (s : ptr)
  | EvSmartListener
  | EvListener (l : ptr)
  | EvRegistration (capacity : nat)
  | EvEmulator (adbhost : bool) (port : Z)
  | EvConnect (fd : Z) (serial : bytes) (port : Z) (local : bool)
  | EvUsb (usb : nat) (serial devpath : option bytes) (writeable : bool)
  | EvUsbGone (usb : nat)
  | EvKick (t : ptr)
  | EvUnref (t : ptr).

Definition serve (env : auth_env) (adbhost : bool) (e : server_event) : M unit :=
  match e with
  | EvPacket t p => handle_packet env p t
  | EvClient fd ev s => local_socket_event_func adbhost fd ev s
  | EvSmartListener => ss_listener_event_func
  | EvListener l => listener_event_func l
  | EvRegistration capacity => transport_registration_func capacity
  | EvEmulator host port => local_connect host port ;; ret tt
  | EvConnect fd serial port local => register_socket_transport fd serial port local ;; ret tt
  | EvUsb usb serial devpath w => register_usb_transport usb serial devpath w
  | EvUsbGone usb => unregister_usb_transport usb
  | EvKick t => kick_transport t
  | EvUnref t => transport_unref t
  end.
Fixpoint serve_all (env : auth_env) (adbhost : bool) (es : list server_event) : M unit :=
  match es with [] => ret tt | e :: r => serve env adbhost e ;; serve_all env adbhost r end.

Lemma ty_serve env adbhost e : keys_fit env -> match e with EvPacket _ p => packet_ok p | _ => True end -> ok (serve env adbhost e).
Proof.
  intros Hf He. destruct e; cbn [serve]; [by apply ty_handle_packet|apply ty_client|..];
    unfold ss_listener_event_func, listener_event_func, unregister_usb_transport; ty.
Qed.

(** C4. Whatever sequence of packets, client events, connections, registrations and
    removals the server goes through, every packet it hands to a transport is one
    that the reader at the other end accepts, with 32-bit words in its header, the
    magic of its command, at most 4096 bytes of payload, the announced length and
    the right checksum; and the identifier of every socket is a 32-bit word. *)
Theorem server_typed env adbhost es s u s'
  (Hf : keys_fit env) (He : Forall (fun e => match e with EvPacket _ p => packet_ok p | _ => True end) es)
  (Hs : typed s) (E : serve_all env adbhost es s = Ok (u, s')) : typed s'.
Proof.
  revert s Hs E. induction He as [|e es He _ IH]; cbn [serve_all]; intros s Hs E; [by injection E as _ <-|].
  unfold bind in E. destruct (serve env adbhost e s) as [[[] s1]| | |] eqn:E1; [|done..].
  apply (IH s1); [|done]. by destruct (ty_serve env adbhost e Hf He s tt s1 Hs E1).
Qed.

(** A terminal opens a stream to a client, which is read and answered. *)
Definition demo_served : list server_event :=
  [EvPacket 1%nat (wire_packet A_OPEN 9 0 (lit "tcp:80" ++ [x00])); EvClient 5 FDE_READ 100%nat;
   EvPacket 1%nat (wire_packet A_OKAY 9 1 []); EvPacket 1%nat (wire_packet A_HDSK 1 0 []); EvKick 1%nat].

Lemma demo_typed : typed demo.
Proof. constructor; [apply map_Forall_empty|by vm_compute|]. apply map_Forall_singleton. by apply Forall_nil. Qed.

Lemma server_typed_witness : length (sent_to 1%nat (after (serve_all no_auth false demo_served) demo)) = 3%nat /\
  typed (after (serve_all no_auth false demo_served) demo).
Proof.
  split; [by vm_compute|].
  apply (server_typed no_auth false demo_served demo tt (after (serve_all no_auth false demo_served) demo));
    [intros k token; cbn; lia| |exact demo_typed|by vm_compute].
  repeat (apply Forall_cons; split; [first [done | vm_compute; repeat split; try done; discriminate]|]). by apply Forall_nil.
Defined.
