(* ===== verification/Pump.v ===== *)
(** * The packet pump of a transport (transport.c)

    Three threads work on a registered transport.  The output thread reads
    packets from the device and hands them to the main thread through a socket
    pair; the main thread handles them and queues its answers; the input thread
    takes the answers from the same pair and writes them to the device.  What
    crosses the pair is the address of a packet.  A [SYNC] message that the main
    thread sends back tells the input thread that the transport is online, and a
    second one that it is over.

    A thread is a program counter with one [step] per packet; the steps of the
    three threads interleave in any order.  The part of a step that runs under a
    lock, or between two system calls, is atomic. *)

From S2P Require Import Prelude CString Io Wire DList Fdevent Server Transports Sockets Packets Registry.

(** ** Addresses on the socket pair *)

(** An address is 8 bytes, a message to the registration socket an address, an
    [int] and 4 bytes of padding. *)
Definition le64 (p : Z) : bytes := le32 (p mod u32_mod) ++ le32 (p / u32_mod).
Definition unle64 (b : bytes) : Z := unle32 (take 4 b) + u32_mod * unle32 (drop 4 b).

(** [read_packet] and [transport_read_action] loop as [readx] does. *)
Definition read_packet (s : list rres) : res (option Z * list rres) :=
  let* '(o, s') := readx 8 s in Ok (unle64 <$> o, s').
Definition transport_read_action (s : list rres) : res (option (Z * Z) * list rres) :=
  let* '(o, s') := readx 16 s in
  Ok ((fun b => (unle64 (take 8 b), to_int (unle32 (take 4 (drop 8 b))))) <$> o, s').

(** The loop of [write_packet] and [transport_write_action]: unlike [writex] it
    gives up on [EAGAIN]. *)
Fixpoint write_all (fuel : nat) (data sent : bytes) (s : list wres) : res (bool * bytes * list wres) :=
  match data with
  | [] => Ok (true, sent, s)
  | _ =>
      match fuel with
      | O => Timeout
      | S f =>
          match adb_write (length data) s with
          | (Wrote n, s') => write_all f (drop n data) (sent ++ take n data) s'
          | (_, s') => Ok (false, sent, s')
          end
      end
  end.
Definition write_packet (p : Z) (s : list wres) : res (bool * bytes * list wres) := write_all 8 (le64 p) [] s.
Definition transport_write_action (t action : Z) (padding : bytes) (s : list wres) : res (bool * bytes * list wres) :=
  write_all 16 (le64 t ++ le32 (wrap32 action) ++ padding) [] s.

(** ** The threads *)

Inductive opc := OStart | OLoop | OOffline | OExit | ODone.
Inductive ipc := IRun (active : bool) | IExit | IDone.

#[export] Instance opc_eq_dec : EqDecision opc.
Proof. solve_decision. Defined.
#[export] Instance ipc_eq_dec : EqDecision ipc.
Proof. solve_decision. Defined.

Section pump.
Context {R W : Type} `{RemoteIO R W}.

(** [sync_token] of the transport, the packets on their way to the main thread,
    the two threads, the device's end, and what was given to
    [write_to_remote]. *)
Record pump := mkpump {
  k_token : Z; k_up : list apacket; k_out : opc; k_in : ipc; k_remote : R; k_wire : list apacket }.

Definition with_out (o : opc) (k : pump) : pump := mkpump (k_token k) (k_up k) o (k_in k) (k_remote k) (k_wire k).
Definition with_in (i : ipc) (k : pump) : pump := mkpump (k_token k) (k_up k) (k_out k) i (k_remote k) (k_wire k).
Definition with_remote (r : R) (k : pump) : pump := mkpump (k_token k) (k_up k) (k_out k) (k_in k) r (k_wire k).
Definition with_up (u : list apacket) (k : pump) : pump := mkpump (k_token k) u (k_out k) (k_in k) (k_remote k) (k_wire k).
Definition with_wire (w : list apacket) (k : pump) : pump := mkpump (k_token k) (k_up k) (k_out k) (k_in k) (k_remote k) w.

Definition sync_packet (a0 a1 : Z) : apacket :=
  with_msg (mkmsg A_SYNC a0 a1 0 0 (Z.lxor A_SYNC 0xffffffff)) get_apacket.

(** One step of [output_thread]; [ok] says whether its [write_packet] works. *)
Definition output_step (t : ptr) (ok : bool) (k : pump) : M pump :=
  match k_out k with
  | OStart =>
      let token := wrap32 (k_token k + 1) in
      let k1 := mkpump token (k_up k) (k_out k) (k_in k) (k_remote k) (k_wire k) in
      ret (if ok then with_up (k_up k ++ [sync_packet 1 token]) (with_out OLoop k1) else with_out OExit k1)
  | OLoop =>
      do '(o, r) <- lift (rio_read (k_remote k));
      ret (match o with
           | Some p => if ok then with_up (k_up k ++ [p]) (with_remote r k) else with_out OExit (with_remote r k)
           | None => with_out OOffline (with_remote r k)
           end)
  | OOffline =>
      ret (with_out OExit (if ok then with_up (k_up k ++ [sync_packet 0 0]) k else k))
  | OExit => kick_transport t ;; transport_unref t ;; ret (with_out ODone k)
  | ODone => ret k
  end.

(** [transport_socket_events]: one packet for the main thread. *)
Definition transport_socket_events (env : auth_env) (t : ptr) (k : pump) : M pump :=
  match k_up k with
  | [] => ret k
  | p :: r => handle_packet env p t ;; ret (with_up r k)
  end.

(** One step of [input_thread]: [read_packet] waits while the queue is empty. *)
Definition input_step (t : ptr) (k : pump) : M pump :=
  match k_in k with
  | IRun active =>
      do u <- get_tr t;
      match t_out u with
      | [] => ret k
      | p :: r =>
          upd_tr t (tr_queue r (S (t_room u))) ;;
          if command (msg p) =? A_SYNC then
            if arg0 (msg p) =? 0 then ret (with_in IExit k)
            else ret (with_in (IRun (if arg1 (msg p) =? k_token k then true else active)) k)
          else ret (if active then with_wire (k_wire k ++ [p]) k else k)
      end
  | IExit => close_all_sockets t ;; kick_transport t ;; transport_unref t ;; ret (with_in IDone k)
  | IDone => ret k
  end.

(** ** Interleavings *)

Inductive thread := Output (ok : bool) | Main | Input.

Definition pump_step (env : auth_env) (t : ptr) (x : thread) (k : pump) : M pump :=
  match x with
  | Output ok => output_step t ok k
  | Main => transport_socket_events env t k
  | Input => input_step t k
  end.

(** A thread that has ended or waits on an empty queue cannot move. *)
Definition enabled (t : ptr) (x : thread) (k : pump) (s : sv) : bool :=
  match x with
  | Output _ => match k_out k with ODone => false | _ => true end
  | Main => match k_up k with [] => false | _ => true end
  | Input =>
      match k_in k with
      | IRun _ => match trs s !! t with Some u => match t_out u with [] => false | _ => true end | None => true end
      | IExit => true
      | IDone => false
      end
  end.

Fixpoint run_threads (env : auth_env) (t : ptr) (l : list thread) (k : pump) : M pump :=
  match l with
  | [] => ret k
  | x :: r => do k1 <- pump_step env t x k; run_threads env t r k1
  end.

(** One move of one thread; [fault] allows a [write_packet] of the output thread
    to fail. *)
Inductive moves (env : auth_env) (t : ptr) (fault : bool) : pump * sv -> pump * sv -> Prop :=
| moves_intro x k s k' s' :
    (x = Output false -> fault = true) -> enabled t x k s = true ->
    pump_step env t x k s = Ok (k', s') -> moves env t fault (k, s) (k', s').

End pump.
