(* ===== verification/PumpProps.v ===== *)
(** * What the packet pump guarantees

    For every interleaving of the three threads: no step touches a freed object,
    the transport is removed when, and only when, both of its threads are gone,
    nothing reaches the device before the host's connect message, and once the
    device is silent everything comes to an end. *)

From stdpp Require Import relations.
From S2P Require Import Prelude CString Io Wire DList Fdevent Server Transports Sockets Packets SocketInv SocketOps SocketLink PacketsSafe Keeps EngineProps Registry RegistryProps Pump.

(** ** Addresses cross the socket pair in order *)

Lemma unle64_le64 p rest : 0 <= p < u32_mod * u32_mod -> unle64 (take 8 (le64 p ++ rest)) = p.
Proof.
  intros Hp. unfold u32_mod in *. rewrite take_app_exact by (unfold le64; by rewrite length_app, !length_le32). unfold unle64, le64.
  rewrite take_app_exact, drop_app_exact by done.
  rewrite !unle32_le32 by (unfold is_u32, u32_mod; div_mod_lia). unfold u32_mod. div_mod_lia.
Qed.

Lemma write_all_spec fuel d sent s : (length d <= fuel)%nat ->
  exists ok out s', write_all fuel d sent s = Ok (ok, sent ++ out, s') /\ (if ok : bool then out = d else out `prefix_of` d).
Proof.
  revert d sent s. induction fuel as [|f IH]; intros [|b d] sent s Hf; cbn [write_all].
  1,3: exists true, [], s; by rewrite app_nil_r.
  { simpl in Hf. lia. }
  pose proof (adb_write_cases (length (b :: d)) s) as Hw.
  destruct (adb_write (length (b :: d)) s) as [[m| | |] s']; try (exists false, [], s'; rewrite app_nil_r; split; [done|apply prefix_nil]).
  destruct Hw as (Hm & Hp & _). specialize (Hp ltac:(simpl; lia)).
  destruct (IH (drop m (b :: d)) (sent ++ take m (b :: d)) s') as (ok & out & s2 & -> & Ho); [rewrite length_drop; simpl in *; lia|].
  exists ok, (take m (b :: d) ++ out), s2. rewrite app_assoc. split; [done|].
  destruct ok; [subst; apply take_drop|]. rewrite <- (take_drop m (b :: d)) at 2. by apply prefix_app.
Qed.

(** The addresses a thread wrote are the addresses the other end reads, in
    order, however the kernel cuts the bytes; a write that fails leaves at most a
    part of an address behind it. *)
Fixpoint write_packets (ps : list Z) (s : list wres) : res (bool * bytes) :=
  match ps with
  | [] => Ok (true, [])
  | p :: r =>
      let* '(ok, out, s') := write_packet p s in
      if negb ok then Ok (false, out) else let* '(ok2, out2) := write_packets r s' in Ok (ok2, out ++ out2)
  end.
Fixpoint read_addresses (n : nat) (s : list rres) : res (list Z) :=
  match n with
  | O => Ok []
  | S m =>
      let* '(o, s') := read_packet s in
      match o with None => Ok [] | Some p => let* l := read_addresses m s' in Ok (p :: l) end
  end.

Theorem addresses_cross ps ws out rs (Hps : Forall (fun p => 0 <= p < u32_mod * u32_mod) ps)
  (Hw : write_packets ps ws = Ok (true, out)) (Hs : stream rs = out) : read_addresses (length ps) rs = Ok ps.
Proof.
  revert ws out rs Hw Hs. induction Hps as [|p ps Hp _ IH]; intros ws out rs; cbn [write_packets read_addresses length]; [done|].
  unfold write_packet. destruct (write_all_spec 8 (le64 p) [] ws ltac:(unfold le64; rewrite length_app, !length_le32; lia))
    as (ok & o & ws' & -> & Ho). cbn [rbind app]. destruct ok; cbn [negb]; [|done]. subst o.
  destruct (write_packets ps ws') as [[ok2 out2]| | |] eqn:E; [|done..]. cbn [rbind]. intros [= -> <-] Hs.
  unfold read_packet. destruct (readx_app 8 rs (le64 p) out2 Hs) as (rs' & -> & Hs'); [unfold le64; by rewrite length_app, !length_le32|].
  assert (unle64 (le64 p) = p) as Ep by (rewrite <- (unle64_le64 p [] Hp) at 2; by rewrite app_nil_r).
  cbn -[unle64 le64 read_addresses]. by rewrite Ep, (IH ws' out2 rs' E Hs').
Qed.

(** ** The end of a thread *)

(** What shutting the connection down leaves of a transport. *)
Definition tr_left (t : ptr) (u : atransport) (s s' : sv) : Prop :=
  quiet s' /\ actions s' = actions s /\
  exists u', trs s' !! t = Some u' /\ t_out u' = t_out u /\ t_ref_count u' = t_ref_count u /\ t_kicked u' = t_kicked u.

Lemma tr_left_upd t u u' s : quiet s -> trs s !! t = Some u -> t_disconnects u' = t_disconnects u ->
  t_out u' = t_out u -> t_ref_count u' = t_ref_count u -> t_kicked u' = t_kicked u -> tr_left t u s (upd_trs t u' s).
Proof.
  intros Hq Hu Ed Eo Er Ek. split; [by eapply quiet_upd|]. split; [done|]. exists u'. simpl. by rewrite lookup_insert_eq.
Qed.

Lemma remote_kick_spec t u s : quiet s -> trs s !! t = Some u -> wp (remote_kick t) s (fun _ s' => tr_left t u s s').
Proof.
  intros Hq Hu. unfold remote_kick. apply wp_bind. eapply wp_get_tr; [exact Hu|].
  assert (tr_left t u s s) by (split; [done|]; split; [done|]; by exists u).
  destruct (t_type u); try (by apply wp_ret).
  apply wp_bind. eapply wp_upd_tr; [exact Hu|].
  assert (tr_left t u s (upd_trs t (tr_sfd (-1) u) s)) as (Hq1 & Ha1 & u1 & Hu1 & H1) by (by eapply tr_left_upd).
  apply wp_bind, wp_modify, wp_modify. split; [|split; [done|by exists u1]].
  destruct (fd_close_quiet (t_sfd u) _ Hq1) as [Wf Hs]. split; [by eapply wf_ext; [..|exact Wf]|done].
Qed.

Lemma kick_spec t u s : quiet s -> trs s !! t = Some u ->
  wp (kick_transport t) s (fun _ s' => tr_left t (tr_kicked true u) s s').
Proof.
  intros Hq Hu. unfold kick_transport. apply wp_bind. eapply wp_get_tr; [exact Hu|].
  destruct (t_kicked u) eqn:Ek.
  - apply wp_ret. split; [done|]. split; [done|]. by exists u.
  - apply wp_bind. eapply wp_upd_tr; [exact Hu|].
    assert (quiet (upd_trs t (tr_kicked true u) s)) as Hq1 by (by eapply quiet_upd).
    eapply wp_mono; [apply (remote_kick_spec t (tr_kicked true u)); [done|simpl; by rewrite lookup_insert_eq]|].
    intros [] s' Hl. exact Hl.
Qed.

Lemma remote_close_spec t u s : quiet s -> trs s !! t = Some u ->
  wp (remote_close_tr t) s (fun _ s' => tr_left t u s s').
Proof.
  intros Hq Hu. unfold remote_close_tr. apply wp_bind. eapply wp_get_tr; [exact Hu|].
  destruct (t_type u).
  all: try (eapply wp_upd_tr; [exact Hu|]; by eapply tr_left_upd).
  apply wp_modify. split; [by apply fd_close_quiet|]. split; [done|]. by exists u.
Qed.

Lemma tr_left_trans t u u1 s s1 s2 : trs s1 !! t = Some u1 -> tr_left t u s s1 -> tr_left t u1 s1 s2 -> tr_left t u s s2.
Proof.
  intros Hu1 (_ & Ha1 & x & Hx & Ho & Hr & Hk) (Hq2 & Ha2 & u2 & Hu2 & Ho2 & Hr2 & Hk2). simplify_eq.
  split; [done|]. split; [congruence|]. exists u2. split_and!; congruence.
Qed.

(** The last lines of both threads. *)
Definition unreffed (t : ptr) (u : atransport) (s s' : sv) : Prop :=
  quiet s' /\ actions s' = actions s ++ (if t_ref_count u =? 1 then [(t, 0)] else []) /\
  exists u', trs s' !! t = Some u' /\ t_out u' = t_out u /\ t_ref_count u' = t_ref_count u - 1 /\ t_kicked u' = true.

Lemma thread_end_spec t u s : quiet s -> trs s !! t = Some u ->
  wp (kick_transport t ;; transport_unref t) s (fun _ s' => unreffed t u s s').
Proof.
  intros Hq Hu. apply wp_bind. eapply wp_mono; [by apply kick_spec|].
  intros _ s1 (Hq1 & Ha1 & u1 & Hu1 & Ho1 & Hr1 & Hk1). simpl in Ho1, Hr1, Hk1.
  unfold transport_unref. apply wp_bind. eapply wp_get_tr; [exact Hu1|]. apply wp_bind.
  eapply wp_upd_tr; [exact Hu1|]. rewrite Hr1.
  set (u2 := tr_ref_count (t_ref_count u - 1) u1). set (s2 := upd_trs t u2 s1).
  assert (quiet s2) as Hq2 by (by eapply quiet_upd).
  assert (trs s2 !! t = Some u2) as Hu2 by (simpl; by rewrite lookup_insert_eq).
  destruct (Z.eqb_spec (t_ref_count u - 1) 0) as [E1|E1]; destruct (Z.eqb_spec (t_ref_count u) 1) as [E2|E2]; try lia.
  - apply wp_bind. eapply wp_mono; [by apply kick_spec|]. intros _ s3 (Hq3 & Ha3 & u3 & Hu3 & H3).
    apply wp_bind. eapply wp_mono; [by apply remote_close_spec|]. intros _ s4 (Hq4 & Ha4 & u4 & Hu4 & Ho4 & Hr4 & Hk4).
    unfold post_action. apply wp_modify. simpl in H3. destruct H3 as (Ho3 & Hr3 & Hk3).
    split; [by apply quiet_actions|]. rewrite E2. split; [cbn; by rewrite Ha4, Ha3, <- Ha1|].
    exists u4. simpl. split_and!; [done|congruence..].
  - apply wp_ret. split; [done|]. rewrite (proj2 (Z.eqb_neq _ _) E2), app_nil_r. split; [done|]. by exists u2.
Qed.

Lemma wp_thread_end {A} t u s (k : M A) (Q : A -> sv -> Prop) : quiet s -> trs s !! t = Some u ->
  (forall s', unreffed t u s s' -> wp k s' Q) -> wp (kick_transport t ;; transport_unref t ;; k) s Q.
Proof.
  intros Hq Hu Hk. pose proof (thread_end_spec t u s Hq Hu) as Hw. unfold wp, bind in *.
  destruct (kick_transport t s) as [[[] s1]| | |]; [|done..]. destruct (transport_unref t s1) as [[[] s2]| | |]; [|done..].
  by apply Hk.
Qed.

(** ** The invariant *)

Section pump_props.
Context {R W : Type} `{RemoteIO R W}.
Implicit Types k : pump (R := R).

(** A device whose banners are terminated, and the message that ends a
    transport. *)
Definition terminated (p : apacket) : Prop := command (msg p) = A_CNXN -> x00 ∈ data p.
Definition device_ok (r : R) : Prop := forall n ps r', read_packets n r = Ok (ps, r') -> Forall terminated ps.
Definition is_off (p : apacket) : Prop := command (msg p) = A_SYNC /\ arg0 (msg p) = 0.

(** The threads that still hold a reference. *)
Definition refs (o : opc) (i : ipc) : Z :=
  (if decide (o = ODone) then 0 else 1) + (if decide (i = IDone) then 0 else 1).

Definition leaving (fault : bool) k (u : atransport) : Prop :=
  fault = false -> k_out k = OExit \/ k_out k = ODone -> (exists b, k_in k = IRun b) ->
  Exists is_off (k_up k) \/ Exists is_off (t_out u).

Record pinv (fault : bool) (t : ptr) (A0 : list (ptr * Z)) k (s : sv) : Prop := {
  pi_quiet : quiet s;
  pi_tr : exists u, trs s !! t = Some u /\ t_ref_count u = refs (k_out k) (k_in k) /\
    (k_out k = ODone \/ k_in k = IDone -> t_kicked u = true) /\ leaving fault k u;
  pi_up : Forall (fun p => pkt_wire p /\ terminated p) (k_up k);
  pi_dev : k_out k = OStart \/ k_out k = OLoop -> device_ok (k_remote k);
  pi_act : actions s = A0 ++ (if refs (k_out k) (k_in k) =? 0 then [(t, 0)] else []) }.

(** Handling [SYNC(0, 0)] sends it back. *)
Lemma off_echoed env p t s : quiet s -> is_Some (trs s !! t) -> pkt_wire p -> is_off p ->
  wp (handle_packet env p t) s (fun _ s' => forall u, trs s' !! t = Some u -> Exists is_off (t_out u)).
Proof.
  intros Hq Ht (Hf & _) [Hc H0]. unfold handle_packet. rewrite Hc, Z.eqb_refl. unfold on_sync. rewrite H0. cbn [negb Z.eqb].
  apply wp_bind. eapply wp_mono; [by apply upd_tr_quiet|]. intros _ s1 [Hq1 Ht1].
  apply wp_bind. eapply wp_mono; [by apply handle_offline_quiet|]. intros _ s2 (_ & [u2 Hu2] & _).
  eapply wp_send_packet; [done|exact Hu2|]. intros p1 r E _ u Hu. simpl in Hu. rewrite lookup_insert_eq in Hu.
  simplify_eq. simpl. apply Exists_app. right. apply Exists_cons_hd.
  destruct (fill_total p Hf) as (sum & _ & E2). rewrite E in E2. simplify_eq. done.
Qed.

Lemma Exists_prefix (P : apacket -> Prop) l l' : l `prefix_of` l' -> Exists P l -> Exists P l'.
Proof. intros [x ->] HP. apply Exists_app. by left. Qed.

Lemma main_step_inv fault env t A0 k s : pinv fault t A0 k s ->
  wp (transport_socket_events env t k) s (fun k' s' => pinv fault t A0 k' s').
Proof.
  intros Hi. pose proof Hi as [Hq (u & Hu & Hr & Hk & Hl) Hup Hd Ha]. unfold transport_socket_events.
  destruct (k_up k) as [|p r] eqn:Ek; [by apply wp_ret|]. apply Forall_cons in Hup as [[Hp Hz] Hup]. apply wp_bind.
  assert (wp (handle_packet env p t) s (fun _ s' => is_off p -> forall u, trs s' !! t = Some u -> Exists is_off (t_out u))) as He.
  { destruct (decide (command (msg p) = A_SYNC /\ arg0 (msg p) = 0)) as [Ho|Ho].
    - eapply wp_mono; [apply off_echoed; eauto|]. auto.
    - eapply wp_mono; [by apply handle_packet_quiet; eauto|]. intros _ s' _ Hx. by destruct Ho. }
  eapply wp_mono; [apply wp_and; [exact He|apply wp_grows; [apply keeps_handle_packet|]; apply handle_packet_quiet; eauto]|].
  intros _ s1 (Ho1 & Hq1 & Ha1 & Hg). apply wp_ret. destruct (Hg t u Hu) as (u1 & Hu1 & G).
  constructor; simpl; [done| |done|done|by rewrite Ha1].
  exists u1. split_and!; [done|by rewrite (gr_ref _ _ G)|by rewrite (gr_kicked _ _ G)|].
  intros Hf Hx Hi1. destruct (Hl Hf Hx Hi1) as [Hex|Hex]; [|right; by eapply Exists_prefix; [apply (gr_out _ _ G)|]].
  rewrite Ek in Hex. apply Exists_cons in Hex as [Hex|Hex]; [right; by apply Ho1|by left].
Qed.

Lemma refs_out k : k_out k <> ODone -> refs (k_out k) (k_in k) = 1 + refs ODone (k_in k).
Proof. intros Ho. unfold refs. rewrite (decide_False _ _ Ho). done. Qed.
Lemma refs_in k : k_in k <> IDone -> refs (k_out k) (k_in k) = 1 + refs (k_out k) IDone.
Proof. intros Ho. unfold refs. rewrite (decide_False _ _ Ho). rewrite (decide_True _ _ eq_refl). lia. Qed.

Lemma device_next r p r' : device_ok r -> rio_read r = Ok (Some p, r') -> terminated p /\ device_ok r'.
Proof.
  intros Hd E. split.
  - specialize (Hd 1%nat [p] r'). cbn [read_packets] in Hd. rewrite E in Hd. by apply Forall_singleton, Hd.
  - intros n ps r2 E2. specialize (Hd (S n) (p :: ps) r2). cbn [read_packets] in Hd. rewrite E in Hd. cbn [rbind] in Hd.
    rewrite E2 in Hd. by eapply Forall_inv_tail, Hd.
Qed.

Lemma sync_packet_wire a0 a1 : is_u32 a0 -> is_u32 a1 -> pkt_wire (sync_packet a0 a1) /\ terminated (sync_packet a0 a1).
Proof. intros H0 H1. split; [|done]. unfold pkt_wire, fillable. simpl. split_and!; try done; lia. Qed.

(** A step of the output thread that only concerns the queue upwards. *)
Lemma pinv_output fault t A0 k k' s : pinv fault t A0 k s -> k_in k' = k_in k -> k_out k <> ODone -> k_out k' <> ODone ->
  Forall (fun p => pkt_wire p /\ terminated p) (k_up k') -> (k_out k' = OStart \/ k_out k' = OLoop -> device_ok (k_remote k')) ->
  (k_out k' = OExit -> fault = false -> Exists is_off (k_up k')) -> pinv fault t A0 k' s.
Proof.
  intros [Hq (u & Hu & Hr & Hk & Hl) Hup Hd Ha] Ei Ho Ho' Hup' Hd' Hx.
  assert (refs (k_out k') (k_in k') = refs (k_out k) (k_in k)) as Er
    by (rewrite !refs_out by done; by rewrite Ei).
  constructor; [done| |done|done|by rewrite Er]. exists u. rewrite Er, Ei. split_and!; [done|done| |].
  - intros [?|?]; [done|]. apply Hk. by right.
  - intros Hf [E|E] _; [|done]. left. by apply Hx.
Qed.

Lemma unreffed_inv fault t A0 k k' u s s' : pinv fault t A0 k s -> trs s !! t = Some u -> unreffed t u s s' ->
  refs (k_out k) (k_in k) = 1 + refs (k_out k') (k_in k') -> k_up k' = k_up k -> k_remote k' = k_remote k ->
  (k_out k' = k_out k \/ k_out k' = ODone) -> leaving fault k' u -> pinv fault t A0 k' s'.
Proof.
  intros [Hq (u0 & Hu0 & Hr & Hk & _) Hup Hd Ha] Hu (Hq' & Ha' & u' & Hu' & Eo & Er & Ek) Erf Eu Erm Eout Hl. simplify_eq.
  assert (0 <= refs (k_out k') (k_in k')) by (unfold refs; repeat case_decide; lia).
  constructor; [done| |by rewrite Eu| |].
  - exists u'. split_and!; [done|lia|done|]. intros Hf Hx Hi. rewrite Eo. by apply Hl.
  - rewrite Erm. destruct Eout as [->| ->]; [done|]. by intros [?|?].
  - rewrite Ha', Ha, Hr, Erf. rewrite (proj2 (Z.eqb_neq (1 + _) 0)) by lia. rewrite app_nil_r.
    destruct (Z.eqb_spec (refs (k_out k') (k_in k')) 0) as [->|]; [done|].
    by rewrite (proj2 (Z.eqb_neq (1 + _) 1)) by lia.
Qed.

Lemma output_step_inv fault t A0 ok k s : pinv fault t A0 k s -> (ok = false -> fault = true) ->
  wp (output_step t ok k) s (fun k' s' => pinv fault t A0 k' s').
Proof.
  intros Hi Hok. pose proof Hi as [Hq (u & Hu & Hr & Hk & Hl) Hup Hd Ha]. unfold output_step.
  assert (forall x y, ok = false -> x = OExit -> fault = false -> Exists is_off y) as Hno
    by (intros x y Ho _ Hf; rewrite (Hok Ho) in Hf; done).
  destruct (k_out k) eqn:Eo.
  - apply wp_ret. destruct ok; (eapply pinv_output; [exact Hi|done|by rewrite Eo|done|simpl|simpl|by intros; eauto]).
    + apply Forall_app. split; [done|]. apply Forall_singleton, sync_packet_wire; [done|]. apply wrap32_range.
    + auto.
    + done.
    + by intros [?|?].
  - destruct (rio_read_total (k_remote k)) as (o & r & E & Hp). apply wp_bind. eapply wp_lift; [exact E|]. apply wp_ret.
    destruct o as [p|]; [destruct ok|]; (eapply pinv_output; [exact Hi|done|by rewrite Eo|simpl; congruence|simpl..]); eauto.
    + destruct Hp as [Hp _]. destruct (device_next _ _ _ (Hd (or_intror eq_refl)) E) as [Ht _].
      apply Forall_app. split; [done|]. apply Forall_singleton. split; [by apply packet_ok_wire|done].
    + intros _. by eapply device_next; [apply Hd; auto|].
    + rewrite Eo. done.
    + by intros [?|?].
    + by intros [?|?].
    + done.
  - apply wp_ret. eapply pinv_output; [exact Hi|by destruct ok|by rewrite Eo|done|destruct ok; simpl|by intros [?|?]|].
    + apply Forall_app. split; [done|]. apply Forall_singleton, sync_packet_wire; done.
    + done.
    + intros _ Hf. destruct ok; [|by rewrite Hok in Hf]. simpl. apply Exists_app. right. by apply Exists_cons_hd.
  - eapply wp_thread_end; [done|exact Hu|]. intros s' Hx. apply wp_ret.
    eapply unreffed_inv; [exact Hi|exact Hu|exact Hx|simpl; apply refs_out; by rewrite Eo|done|done|by right|].
    intros Hf _ Hi1. apply (Hl Hf); [by left|done].
  - by apply wp_ret.
Qed.

Lemma input_step_inv fault t A0 k s : pinv fault t A0 k s ->
  wp (input_step t k) s (fun k' s' => pinv fault t A0 k' s').
Proof.
  intros Hi. pose proof Hi as [Hq (u & Hu & Hr & Hk & Hl) Hup Hd Ha]. unfold input_step.
  destruct (k_in k) as [b| |] eqn:Ei; [| |by apply wp_ret].
  - apply wp_bind. eapply wp_get_tr; [exact Hu|]. destruct (t_out u) as [|p r] eqn:Eo; [by apply wp_ret|].
    apply wp_bind. eapply wp_upd_tr; [exact Hu|].
    assert (quiet (upd_trs t (tr_queue r (S (t_room u)) u) s)) as Hq1 by (by eapply quiet_upd).
    assert (forall i w, i <> IDone -> ((exists c, i = IRun c) -> ~ is_off p) ->
      pinv fault t A0 (with_wire w (with_in i k)) (upd_trs t (tr_queue r (S (t_room u)) u) s)) as Hnext.
    { intros i w Hne Hoff.
      assert (refs (k_out k) i = refs (k_out k) (IRun b)) as Er
        by (unfold refs; repeat case_decide; done).
      constructor; simpl; [done| |done|done|by rewrite Er]. exists (tr_queue r (S (t_room u)) u).
      rewrite lookup_insert_eq, Er. split_and!; [done|done| |].
      - intros [?|?]; [apply Hk; by left|done].
      - intros Hf Hx Hc. simpl in *. destruct (Hl Hf Hx) as [?|Hex]; [by exists b|by left|]. rewrite Eo in Hex.
        apply Exists_cons in Hex as [Hex|Hex]; [by destruct Hoff|by right]. }
    assert (forall w, with_wire w (with_in (IRun b) k) = with_wire w k) as Esame by (intros w; unfold with_in; by rewrite <- Ei; destruct k).
    destruct (Z.eqb_spec (command (msg p)) A_SYNC) as [Hc|Hc].
    + destruct (Z.eqb_spec (arg0 (msg p)) 0) as [H0|H0]; apply wp_ret.
      * apply (Hnext IExit (k_wire k)); [done|]. by intros [c ?].
      * apply (Hnext (IRun _) (k_wire k)); [done|]. by intros _ [_ ?].
    + apply wp_ret. destruct b.
      * rewrite <- Esame. apply (Hnext (IRun true)); [done|]. by intros _ [? _].
      * replace k with (with_wire (k_wire k) k) by (by destruct k). rewrite <- Esame.
        apply (Hnext (IRun false)); [done|]. by intros _ [? _].
  - apply wp_bind. destruct Hq as [Wf Hs].
    eapply wp_mono; [apply wp_grows; [apply keeps_close_all|by apply (close_all_spec ∅)]|].
    intros _ s1 ((Wf1 & Hs1 & _ & _) & Ha1 & Hg). destruct (Hg t u Hu) as (u1 & Hu1 & G).
    assert (pinv fault t A0 k s1) as Hi1.
    { constructor; [done| |done|done|by rewrite Ha1, Ei]. exists u1.
      rewrite Ei, (gr_ref _ _ G), (gr_kicked _ _ G). split_and!; [done..|]. intros _ _ [c ?]. congruence. }
    eapply wp_thread_end; [done|exact Hu1|]. intros s' Hx. apply wp_ret.
    eapply unreffed_inv; [exact Hi1|exact Hu1|exact Hx|simpl; apply refs_in; by rewrite Ei|done|done|by left|].
    intros _ _ [c ?]. done.
Qed.

Lemma pump_step_inv fault env t A0 x k s : pinv fault t A0 k s -> (x = Output false -> fault = true) ->
  wp (pump_step env t x k) s (fun k' s' => pinv fault t A0 k' s').
Proof.
  intros Hi Hx. destruct x as [ok| |]; [apply output_step_inv|apply main_step_inv|apply input_step_inv]; try done.
  intros ->. by apply Hx.
Qed.

Lemma moves_inv fault env t A0 x y : rtc (moves env t fault) x y -> pinv fault t A0 x.1 x.2 -> pinv fault t A0 y.1 y.2.
Proof.
  induction 1 as [|x y z [th k s k' s' Hf _ E] _ IH]; [done|]. intros Hi. apply IH.
  pose proof (pump_step_inv fault env t A0 th k s Hi Hf) as Hw. unfold wp in Hw. simpl in *. by rewrite E in Hw.
Qed.

(** ** Termination *)

Definition out_left k : nat :=
  match k_out k with
  | OStart => rio_left (k_remote k) + 4
  | OLoop => rio_left (k_remote k) + 3
  | OOffline => 2 | OExit => 1 | ODone => 0
  end.
Definition in_left (t : ptr) k (s : sv) : nat :=
  match k_in k with
  | IRun _ => 2 + length (match trs s !! t with Some u => t_out u | None => [] end)
  | IExit => 1 | IDone => 0
  end.
Definition before (t : ptr) (y x : pump * sv) : Prop :=
  (out_left y.1 < out_left x.1)%nat \/
  out_left y.1 = out_left x.1 /\
  ((length (k_up y.1) < length (k_up x.1))%nat \/
   length (k_up y.1) = length (k_up x.1) /\ (in_left t y.1 y.2 < in_left t x.1 x.2)%nat).

Lemma before_wf t : well_founded (before t).
Proof.
  assert (forall a b c x, (out_left x.1 < a)%nat -> (length (k_up x.1) < b)%nat -> (in_left t x.1 x.2 < c)%nat -> Acc (before t) x) as Hacc.
  { induction a as [|a IHa]; [lia|]. induction b as [|b IHb]; [lia|]. induction c as [|c IHc]; [lia|].
    intros x Ha Hb Hc. constructor. intros y [Hy|[E [Hy|[E2 Hy]]]].
    - apply (IHa (S (length (k_up y.1))) (S (in_left t y.1 y.2))); lia.
    - apply (IHb (S (in_left t y.1 y.2))); lia.
    - apply IHc; lia. }
  intros x. by eapply Hacc; apply Nat.lt_succ_diag_r.
Qed.

Lemma moves_before fault env t x y : moves env t fault x y -> before t y x.
Proof.
  intros [th k s k' s' _ He E]. unfold before. simpl. destruct th as [ok| |]; simpl in He, E.
  - left. unfold output_step in E. unfold out_left at 2. destruct (k_out k) eqn:Eo; [..|done].
    + unfold ret in E. destruct ok; simplify_eq; unfold out_left; simpl; lia.
    + destruct (rio_read_total (k_remote k)) as (o & r & Er & Hp). unfold bind, lift, ret in E. rewrite Er in E. simpl in E.
      destruct o as [p|]; [destruct Hp; destruct ok|]; simplify_eq; unfold out_left; simpl; rewrite ?Eo; lia.
    + unfold ret in E. simplify_eq. unfold out_left. simpl. lia.
    + unfold bind in E. repeat case_match; simplify_eq. unfold ret in *. simplify_eq. unfold out_left. simpl. lia.
  - right. unfold transport_socket_events in E. destruct (k_up k) as [|p r] eqn:Ek; [done|].
    unfold bind in E. repeat case_match; simplify_eq. unfold ret in *. simplify_eq. simpl. split; [done|]. left. lia.
  - right. unfold input_step in E. unfold in_left at 2. destruct (k_in k) as [b| |] eqn:Ei; [| |done].
    + unfold bind at 1, get_tr in E. destruct (trs s !! t) as [u|] eqn:Hu; [|done]. simpl in E.
      destruct (t_out u) as [|p r] eqn:Eq; [done|]. unfold bind, upd_tr, get_tr, modify in E. unfold bind in E. rewrite Hu in E.
      unfold ret in E. simpl. unfold in_left.
      destruct (command (msg p) =? A_SYNC); [destruct (arg0 (msg p) =? 0)|destruct b]; simplify_eq; simpl; rewrite ?Ei, ?lookup_insert_eq;
        simpl; (split; [done|]); right; (split; [done|]); lia.
    + unfold bind in E. repeat case_match; simplify_eq. unfold ret in *. simplify_eq. simpl. split; [done|]. right.
      split; [done|]. unfold in_left. simpl. lia.
Qed.

Lemma moves_end fault env t x : Acc (flip (moves env t fault)) x.
Proof.
  induction x as [x IH] using (well_founded_ind (before_wf t)). constructor. intros y Hy.
  by apply IH, (moves_before fault env).
Qed.

Lemma stuck_done t A0 k s : pinv false t A0 k s -> (forall x, enabled t x k s = false) -> k_out k = ODone /\ k_in k = IDone.
Proof.
  intros [Hq (u & Hu & _ & _ & Hl) _ _ _] Hs. pose proof (Hs (Output true)) as Ho. pose proof (Hs Main) as Hm.
  pose proof (Hs Input) as Hn. simpl in *. rewrite Hu in Hn.
  destruct (k_out k) eqn:Eo; try done. split; [done|]. destruct (k_up k) eqn:Ek; [|done].
  destruct (k_in k) as [b| |] eqn:Ei; try done. exfalso. destruct (Hl eq_refl) as [Hex|Hex]; [by right|by exists b| |].
  - rewrite Ek in Hex. by apply Exists_nil in Hex.
  - destruct (t_out u); [by apply Exists_nil in Hex|done].
Qed.

(** ** The connect message comes first *)

Definition hello : apacket := wire_packet A_CNXN A_VERSION MAX_PAYLOAD (lit "host::" ++ [x00]).

Inductive greeting (q : list apacket) k : Prop :=
| G_waiting : k_wire k = [] -> k_in k = IRun false -> q = [] -> k_up k = [] -> k_out k <> OLoop -> k_out k <> OOffline ->
    greeting q k
| G_starting r : k_wire k = [] -> k_in k = IRun false -> q = [] -> k_up k = sync_packet 1 (k_token k) :: r ->
    k_out k <> OStart -> greeting q k
| G_syncing p r : k_wire k = [] -> k_in k = IRun false -> q = p :: hello :: r -> command (msg p) = A_SYNC ->
    arg0 (msg p) = 1 -> arg1 (msg p) = k_token k -> k_out k <> OStart -> greeting q k
| G_active r : k_wire k = [] -> k_in k = IRun true -> q = hello :: r -> greeting q k
| G_greeted w : k_wire k = hello :: w -> greeting q k.

Definition greets (t : ptr) k (s : sv) : Prop := forall u, trs s !! t = Some u -> greeting (t_out u) k.

Lemma greeting_more q q' r k : q `prefix_of` q' -> greeting q k -> q <> [] \/ (exists w, k_wire k = hello :: w) ->
  greeting q' (with_up r k).
Proof.
  intros [x ->] G Hq. destruct G as [| |p r'|r'|w]; subst;
    [by destruct Hq as [?|[w Hw]]; [|congruence]..|by eapply G_syncing|by eapply G_active|by eapply G_greeted].
Qed.

Lemma main_greets fault env t A0 k s : pinv fault t A0 k s -> greets t k s -> k_up k <> [] ->
  wp (transport_socket_events env t k) s (greets t).
Proof.
  intros Hi G Hne. pose proof Hi as [Hq (u & Hu & _) Hup _ _]. unfold transport_socket_events.
  destruct (k_up k) as [|p r] eqn:Ek; [done|]. apply Forall_cons in Hup as [[Hp Hz] Hup]. apply wp_bind.
  assert (greeting (t_out u) k) as Gu by (by apply G).
  assert (t_out u <> [] \/ (exists w, k_wire k = hello :: w) ->
    wp (handle_packet env p t) s (fun _ s1 => wp (ret (with_up r k)) s1 (greets t))) as Hmore.
  { intros Hx. eapply wp_mono; [apply wp_grows; [apply keeps_handle_packet|]; apply handle_packet_quiet; eauto|].
    intros _ s1 (_ & _ & Hg). apply wp_ret. intros u1 Hu1. destruct (Hg t u Hu) as (u2 & Hu2 & Gr). simplify_eq.
    by eapply greeting_more; [apply (gr_out _ _ Gr)|..]. }
  destruct Gu as [|r' Hw Hin Eq Eup Ho|p' r' Hw Hin Eq|r' Hw Hin Eq|w Hw]; [congruence| |apply Hmore; left; by rewrite Eq..|apply Hmore; eauto].
  rewrite Ek in Eup. injection Eup as -> <-.
  unfold handle_packet, on_sync. cbn [sync_packet with_msg msg command arg0 Z.eqb negb]. rewrite Z.eqb_refl.
  apply wp_bind. eapply wp_send_packet; [apply Hp|exact Hu|]. intros p1 n E _. rewrite Eq. simpl app.
  eapply wp_send; [simpl; by rewrite lookup_insert_eq|]. intros n2 _. apply wp_ret. intros u1 Hu1.
  simpl in Hu1. rewrite lookup_insert_eq in Hu1. simplify_eq. simpl.
  destruct (fill_total (sync_packet 1 (k_token k)) (proj1 Hp)) as (sum & _ & E2). rewrite E in E2. injection E2 as ->.
  eapply (G_syncing _ _ _ []); done.
Qed.

(** A step of the output thread adds to the queue upwards or ends the thread. *)
Lemma greeting_out q k k' x : greeting q k -> k_wire k' = k_wire k -> k_in k' = k_in k -> k_token k' = k_token k ->
  k_up k' = k_up k ++ x -> k_out k = OLoop \/ k_out k = OOffline -> k_out k' <> OStart -> greeting q k'.
Proof.
  intros G Ew Ei Et Eu Ho Ho'. destruct G as [|r Hw Hn E1 E2|p r Hw Hn E1 Hc H0 H1|r Hw Hn E1|w Hw].
  - by destruct Ho.
  - apply (G_starting _ _ (r ++ x)); [congruence..| |done]. by rewrite Eu, E2, Et.
  - apply (G_syncing _ _ p r); try congruence.
  - apply (G_active _ _ r); congruence.
  - apply (G_greeted _ _ w). congruence.
Qed.

Lemma output_greets fault t A0 ok k s : pinv fault t A0 k s -> greets t k s -> wp (output_step t ok k) s (greets t).
Proof.
  intros Hi G. pose proof Hi as [Hq (u & Hu & _) _ _ _]. unfold output_step.
  assert (greeting (t_out u) k) as Gu by (by apply G).
  destruct (k_out k) eqn:Eo.
  - apply wp_ret. intros u1 Hu1. simplify_eq. destruct Gu as [Hw Hn E1 E2|r Hw Hn E1 E2 Hne|p r Hw Hn E1 E2 E3 E4 Hne|r Hw Hn E1|w Hw]; try congruence.
    + destruct ok; [by eapply (G_starting _ _ []); simpl; rewrite ?E2|by apply G_waiting].
    + destruct ok; by eapply G_active.
    + destruct ok; by eapply G_greeted.
  - destruct (rio_read_total (k_remote k)) as (o & r & E & _). apply wp_bind. eapply wp_lift; [exact E|]. apply wp_ret.
    intros u1 Hu1. simplify_eq.
    destruct o as [p|]; [destruct ok|]; eapply (greeting_out _ k); try done; simpl; rewrite ?Eo; try done; auto using app_nil_r.
    all: by rewrite app_nil_r.
  - apply wp_ret. intros u1 Hu1. simplify_eq.
    destruct ok; eapply (greeting_out _ k); try done; simpl; auto. by rewrite app_nil_r.
  - eapply wp_thread_end; [done|exact Hu|]. intros s' (_ & _ & u' & Hu' & Eq & _). apply wp_ret. intros u1 Hu1. simplify_eq.
    rewrite Eq. destruct Gu as [|r' Hw Hn E1 E2|p r'|r'|w]; [by apply G_waiting|by eapply G_starting|by eapply G_syncing|by eapply G_active|by eapply G_greeted].
  - by apply wp_ret.
Qed.

Lemma input_greets fault t A0 k s : pinv fault t A0 k s -> greets t k s -> wp (input_step t k) s (greets t).
Proof.
  intros Hi G. pose proof Hi as [Hq (u & Hu & _) _ _ _]. unfold input_step.
  assert (greeting (t_out u) k) as Gu by (by apply G).
  destruct (k_in k) as [b| |] eqn:Ei; [| |by apply wp_ret].
  - apply wp_bind. eapply wp_get_tr; [exact Hu|]. destruct (t_out u) as [|p r] eqn:Eo; [apply wp_ret; intros u1 Hu1; simplify_eq; by rewrite Eo|].
    apply wp_bind. eapply wp_upd_tr; [exact Hu|].
    destruct Gu as [|r' Hw Hn E1|p' r' Hw Hn [= -> ->] Hc H0 H1 Hne|r' Hw Hn [= -> ->]|w Hw]; try done.
    + rewrite Hc, H0, H1, !Z.eqb_refl. cbn [Z.eqb]. apply wp_ret. intros u1 Hu1. simpl in Hu1. rewrite lookup_insert_eq in Hu1.
      simplify_eq. by eapply G_active.
    + change (command (msg hello) =? A_SYNC) with false. cbn iota. apply wp_ret. intros u1 Hu1. rewrite Ei in Hn. simplify_eq.
      eapply (G_greeted _ _ []). simpl. by rewrite Hw.
    + assert (forall k', (exists w', k_wire k' = hello :: w') -> forall s', wp (ret k') s' (greets t)) as Hd
        by (intros k' [w' E'] s'; apply wp_ret; intros u1 _; by eapply G_greeted).
      repeat case_match; apply Hd; simpl; rewrite ?Hw; eauto.
  - apply wp_bind. destruct Hq as [Wf Hs].
    eapply wp_mono; [apply wp_grows; [apply keeps_close_all|by apply (close_all_spec ∅)]|].
    intros _ s1 ((Wf1 & Hs1 & _ & _) & _ & Hg). destruct (Hg t u Hu) as (u1 & Hu1 & Gr).
    eapply wp_thread_end; [done|exact Hu1|]. intros s' _. apply wp_ret. intros u2 Hu2.
    destruct Gu as [| | | |w Hw]; try congruence. by eapply G_greeted.
Qed.

Lemma moves_greets fault env t A0 x y : rtc (moves env t fault) x y ->
  pinv fault t A0 x.1 x.2 -> greets t x.1 x.2 -> greets t y.1 y.2.
Proof.
  induction 1 as [|x y z Hm _ IH]; [done|]. intros Hi G. apply IH.
  - by eapply (moves_inv _ _ _ _ x y); [apply rtc_once|].
  - destruct Hm as [th k s k' s' Hf He E]. simpl in *.
    assert (wp (pump_step env t th k) s (greets t)) as Hw.
    { destruct th as [ok| |]; [by eapply output_greets|eapply main_greets; [done..|]|by eapply input_greets].
      intros Ek. simpl in He. by rewrite Ek in He. }
    unfold wp in Hw. by rewrite E in Hw.
Qed.

(** A schedule that runs through is a sequence of moves: a thread that is not
    enabled does nothing. *)
Lemma step_disabled env t x k s k' s' : enabled t x k s = false -> pump_step env t x k s = Ok (k', s') -> k' = k /\ s' = s.
Proof.
  destruct x as [ok| |]; simpl; intros He E.
  - unfold output_step in E. destruct (k_out k); try done. by injection E as <- <-.
  - unfold transport_socket_events in E. destruct (k_up k); try done. by injection E as <- <-.
  - unfold input_step in E. destruct (k_in k); try done; [|by injection E as <- <-].
    unfold bind, get_tr in E. destruct (trs s !! t) as [u|]; [|done]. destruct (t_out u); [|done]. by injection E as <- <-.
Qed.

Lemma run_threads_moves fault env t l k s k' s' : Forall (fun x => x = Output false -> fault = true) l ->
  run_threads env t l k s = Ok (k', s') -> rtc (moves env t fault) (k, s) (k', s').
Proof.
  intros Hl. revert k s. induction Hl as [|x l Hx _ IH]; intros k s; cbn [run_threads]; [by intros [= -> ->]|].
  unfold bind. destruct (pump_step env t x k s) as [[k1 s1]| | |] eqn:E; [|done..]. intros Hr.
  destruct (enabled t x k s) eqn:He; [eapply rtc_l; [by econstructor|by apply IH]|].
  destruct (step_disabled _ _ _ _ _ _ _ He E) as [-> ->]. by apply IH.
Qed.

(** ** Theorems *)

(** A transport whose threads were just created by [add_action]. *)
Record launched (t : ptr) k (s : sv) : Prop := {
  la_quiet : quiet s;
  la_tr : exists u, trs s !! t = Some u /\ t_ref_count u = 2 /\ t_out u = [];
  la_pump : k_up k = [] /\ k_out k = OStart /\ k_in k = IRun false /\ k_wire k = [];
  la_dev : device_ok (k_remote k) }.

Lemma launched_inv fault t k s : launched t k s -> pinv fault t (actions s) k s.
Proof.
  intros [Hq (u & Hu & Hr & _) (Eu & Eo & Ei & _) Hd]. constructor; [done| |by rewrite Eu|done|].
  - exists u. rewrite Eo, Ei. split_and!; [done|done|by intros [?|?]|]. intros _ [?|?]; congruence.
  - rewrite Eo, Ei. simpl. by rewrite app_nil_r.
Qed.


(** C22. The first packet the device is sent is the host's connect message, in every
    interleaving: until the main thread has answered the first [SYNC] the input
    thread drops what it is given. *)
Theorem connect_comes_first fault env t k s k' s' (Hl : launched t k s) (Hr : rtc (moves env t fault) (k, s) (k', s')) :
  k_wire k' = [] \/ exists w, k_wire k' = hello :: w.
Proof.
  assert (greets t k s) as G.
  { destruct Hl as [_ (u & Hu & _ & Eq) (Eu & Eo & Ei & Ew) _]. intros u' Hu'. simplify_eq. apply G_waiting; congruence. }
  pose proof (moves_greets _ _ _ _ _ _ Hr (launched_inv fault t k s Hl) G) as G'.
  destruct (pi_tr _ _ _ _ _ (moves_inv _ _ _ _ _ _ Hr (launched_inv fault t k s Hl))) as (u & Hu & _).
  destruct (G' u Hu); [by left..|right; by eexists].
Qed.


End pump_props.

(** A device that asks for the handshake and is then unplugged. *)
Definition demo_remote : list rres := [RBytes (tcp_encode (wire_packet A_HDSK PAX_HANDSHAKE_REQ 0 []))].
Definition demo_pump : pump := mkpump 1 [] OStart (IRun false) demo_remote [].

Lemma demo_launched : launched 1%nat demo_pump demo.
Proof.
  constructor; [apply demo_quiet|by exists demo_tr|done|]. intros [|[|n]] ps r' E; cbn [read_packets] in E.
  - injection E as <- <-. constructor.
  - vm_compute in E. injection E as <- <-. by repeat constructor.
  - simpl rio_read in E. change (k_remote demo_pump) with demo_remote in E.
    assert (tcp_remote_read demo_remote = Ok (Some (wire_packet A_HDSK PAX_HANDSHAKE_REQ 0 []), [])) as E1 by (vm_compute; done).
    rewrite E1 in E. cbn [rbind] in E. change (tcp_remote_read []) with (Ok (A := option apacket * list rres) (None, [])) in E.
    cbn [rbind] in E. injection E as <- <-. by repeat constructor.
Qed.

(** Its threads, run to the end. *)
Definition demo_schedule : list thread :=
  [Output true; Output true; Main; Output true; Input; Input; Main; Output true; Output true; Input; Main; Input; Input].
Definition demo_run : res (pump * sv) := run_threads no_auth 1%nat demo_schedule demo_pump demo.

Lemma demo_moves fault : match demo_run with Ok (k, s) => rtc (moves no_auth 1%nat fault) (demo_pump, demo) (k, s) | _ => True end.
Proof.
  destruct demo_run as [[k s]| | |] eqn:E; [|exact I..]. eapply run_threads_moves; [|exact E]. repeat constructor; done.
Qed.


Lemma connect_comes_first_witness :
  match demo_run with Ok (k', _) => exists w, w <> [] /\ k_wire k' = hello :: w | _ => False end.
Proof.
  pose proof (demo_moves false) as Hm. destruct demo_run as [[k' s']| | |] eqn:E; try (vm_compute in E; discriminate E).
  assert ((1 < length (k_wire k'))%nat) as Hw by (vm_compute in E; injection E as <- _; simpl; lia).
  destruct (connect_comes_first false no_auth 1%nat demo_pump demo k' s' demo_launched Hm) as [Ew|[w Ew]]; rewrite Ew in *; simpl in Hw.
  - lia.
  - exists w. split; [|done]. intros ->. simpl in Hw. lia.
Defined.

