(* ===== verification/TableSafe.v ===== *)
(** * Requests that change the tables of the server

    Forwardings are installed and removed, a device on the network is unregistered,
    an emulator is registered: none of these requests touches a socket, and each
    keeps the invariant under the condition the code relies on. *)

From S2P Require Import Prelude CString Io Wire DList Fdevent Server Transports Sockets Packets SocketInv SocketOps SocketLink PacketsSafe Keeps EngineProps Registry RegistryProps Listeners HostRequest ListenersProps SmartSocket EventProps RequestSafe Preserve Pump PumpProps.

(** ** Operations that leave the sockets alone *)

Definition same_heap (s s' : sv) : Prop := heap s' = heap s.
#[export] Instance same_heap_preorder : PreOrder same_heap.
Proof. split; [done|]. intros s1 s2 s3 H1 H2. unfold same_heap in *. congruence. Qed.
Abbreviation still := (pres same_heap).

Lemma still_next_fd : still next_fd.
Proof.
  intros s a s'. unfold next_fd, same_heap. destruct (conns s) as [|[fd f] r]; intros [= <- <-]; [done|]. by destruct (0 <=? fd).
Qed.
Lemma still_new_tr u : still (new_tr u).
Proof. by intros s a s' [= <- <-]. Qed.
#[export] Hint Resolve still_next_fd still_new_tr : pres.

Lemma still_upd_tr t f : still (upd_tr t f).
Proof. unfold upd_tr. pres. Qed.
Lemma still_fd_write fd d : still (fd_write fd d).
Proof. unfold fd_write, get_fd, put_fd. pres. Qed.
Lemma still_fd_writex fd d : still (fd_writex fd d).
Proof. unfold fd_writex, get_fd, put_fd. pres. Qed.
Lemma still_fd_close fd : still (fd_close fd).
Proof. unfold fd_close. pres. Qed.
#[export] Hint Resolve still_upd_tr still_fd_write still_fd_writex still_fd_close : pres.
Lemma still_fail fd w : still (fail_with fd w).
Proof. unfold fail_with, sendfailmsg. pres. Qed.
Lemma still_free_listener l : still (free_listener l).
Proof. unfold free_listener, remove_transport_disconnect. pres. Qed.
Lemma still_unlink t : still (unlink_transport t).
Proof. unfold unlink_transport. pres. Qed.
Lemma still_kick t : still (kick_transport t).
Proof. unfold kick_transport, remote_kick. pres. Qed.
#[export] Hint Resolve still_fail still_free_listener still_unlink still_kick : pres.
Lemma still_unref t : still (transport_unref t).
Proof. unfold transport_unref, remote_close_tr, post_action. pres. Qed.
#[export] Hint Resolve still_unref : pres.
Lemma still_unregister_tcp l : still (unregister_tcp l).
Proof. induction l as [|t l IH]; cbn [unregister_tcp]; pres. Qed.
Lemma still_find_serial l serial : still (find_serial l serial).
Proof. induction l as [|t l IH]; cbn [find_serial]; pres. Qed.
Lemma still_find_slot l port : still (find_slot l port).
Proof. induction l as [|[t|] l IH]; cbn [find_slot]; pres. Qed.
Lemma still_serial_taken l serial : still (serial_taken l serial).
Proof. induction l as [|t l IH]; cbn [serial_taken]; pres. Qed.
Lemma still_remove_named l name : still (remove_named l name).
Proof. induction l as [|p l IH]; cbn [remove_named]; pres. Qed.
Lemma still_remove_unstarred l : still (remove_unstarred l).
Proof. induction l as [|p l IH]; cbn [remove_unstarred]; pres. Qed.
Lemma still_format_lines l : forall n acc r, still (format_lines l n acc r).
Proof. induction l as [|p l IH]; intros n acc r; cbn [format_lines]; unfold listener_line; pres. Qed.
Lemma still_find_listener l name : still (find_listener l name).
Proof. induction l as [|p l IH]; cbn [find_listener]; pres. Qed.
#[export] Hint Resolve still_unregister_tcp still_find_serial still_find_slot still_serial_taken still_remove_named still_remove_unstarred
  still_format_lines still_find_listener : pres.
Lemma still_new_ptr : still (fun s => Ok (next_ptr s, set_next_ptr (S (next_ptr s)) s)).
Proof. by intros s a s' [= <- <-]. Qed.
Lemma still_disconnect serial : still (disconnect_request serial).
Proof. unfold disconnect_request, unregister_all_tcp_transports, find_transport, unregister_transport. pres. Qed.
Lemma still_register fd serial port local : still (register_socket_transport fd serial port local).
Proof.
  unfold register_socket_transport, init_socket_transport, find_emulator_transport_by_adb_port, get_available_local_transport_index,
    link_pending, free_tr, post_action. pres.
Qed.
#[export] Hint Resolve still_new_ptr still_disconnect still_register : pres.
Lemma still_local_connect adbhost port : still (local_connect adbhost port).
Proof. unfold local_connect, local_connect_arbitrary_ports. pres. Qed.
Lemma still_install name to t b : still (install_listener name to t b).
Proof. unfold install_listener, local_name_to_fd, rebind_listener, put_lis, add_transport_disconnect, remove_transport_disconnect. pres. Qed.
#[export] Hint Resolve still_local_connect still_install : pres.
Lemma still_forward service ttype serial fd : still (handle_forward_request service ttype serial fd).
Proof.
  unfold handle_forward_request, format_listeners, send_msg_with_okay, remove_all_listeners, create_forward, kill_forward, acquire_any,
    remove_listener, okay_twice. pres.
Qed.

(** ** Forwardings *)

Lemma free_listener_quiet s l a : quiet s -> listeners s !! l = Some a ->
  wp (free_listener l) s (fun _ s' => quiet s' /\ listeners s' = delete l (listeners s)).
Proof. intros [Wf Hs] Hl. eapply wp_mono; [by apply free_listener_run|]. intros _ s' [-> Wf']. by split. Qed.

Lemma remove_named_quiet name : forall l s, quiet s -> (forall p, p ∈ l -> is_Some (listeners s !! p)) ->
  wp (remove_named l name) s (fun _ s' => quiet s').
Proof.
  induction l as [|p l IH]; intros s Hq Hl; cbn [remove_named]; [by apply wp_ret|].
  destruct (Hl p (list_elem_of_here _ _)) as [a Ha]. apply wp_bind. eapply wp_get_lis; [exact Ha|].
  destruct (streq name (l_local_name a)); [|apply IH; [done|intros q Hp; apply Hl; by right]].
  apply wp_bind. eapply wp_mono; [by eapply free_listener_quiet|]. intros _ s' [Hq' _]. by apply wp_ret.
Qed.

Lemma remove_unstarred_quiet : forall l s, quiet s -> NoDup l -> (forall p, p ∈ l -> is_Some (listeners s !! p)) ->
  wp (remove_unstarred l) s (fun _ s' => quiet s').
Proof.
  induction l as [|p l IH]; intros s Hq Hnd Hl; cbn [remove_unstarred]; [by apply wp_ret|]. apply NoDup_cons in Hnd as [Hp Hnd].
  destruct (Hl p (list_elem_of_here _ _)) as [a Ha]. apply wp_bind. eapply wp_get_lis; [exact Ha|]. apply wp_bind.
  destruct (starts_star (l_connect_to a)); [apply wp_ret, IH; [done|done|intros q Hin; apply Hl; by right]|].
  eapply wp_mono; [by eapply free_listener_quiet|]. intros _ s' [Hq' E]. apply IH; [done|done|]. intros q Hin.
  rewrite E, lookup_delete_ne by (by intros ->). apply Hl. by right.
Qed.

(** Every device with a forwarding has a serial number to list it under. *)
Definition serials_known (s : sv) : Prop :=
  forall l a t, listeners s !! l = Some a -> l_transport a = Some t -> is_Some (trs s !! t ≫= t_serial).

Lemma known_listable s p : quiet s -> serials_known s -> p ∈ listener_list s -> listable s p.
Proof.
  intros [Wf _] Hk Hp. apply (wf_lislist _ _ _ Wf) in Hp as [a Ha]. exists a. split; [done|].
  destruct (starts_star (l_connect_to a)) eqn:E; [by left|]. right. destruct (wf_lisok _ _ _ Wf p a Ha) as [_ Hb].
  destruct (Hb E) as [t Ht]. destruct (Hk p a t Ha Ht) as [x Hx]. unfold line_of. rewrite Ha, E, Ht, Hx. eauto.
Qed.

Lemma okay_twice_quiet fd s : quiet s -> wp (okay_twice fd) s (fun _ s' => quiet s').
Proof.
  intros Hq. unfold okay_twice. apply wp_bind, wp_fd_writex. intros b i. apply wp_bind, wp_fd_writex. intros b' j. by apply wp_ret, quiet_io, quiet_io.
Qed.
Lemma fail_with_quiet fd w s : quiet s -> wp (fail_with fd w) s (fun _ s' => quiet s').
Proof. intros Hq. apply wp_fail_with. intros i. by apply quiet_io. Qed.

Lemma create_forward_quiet rest ttype serial fd s : quiet s -> wp (create_forward rest ttype serial fd) s (fun _ s' => quiet s').
Proof.
  intros Hq. unfold create_forward. cbv zeta. destruct (split_chr _ _) as [[local remote]|]; [|by apply fail_with_quiet].
  case_match; [by apply fail_with_quiet|]. apply wp_bind. eapply wp_mono; [by apply acquire_live|].
  intros [t|w] s' [-> Ht]; [|by apply fail_with_quiet]. apply wp_bind. eapply wp_mono; [by apply install_listener_spec|].
  intros r s' [Hq' _]. destruct (r =? 0); [by apply okay_twice_quiet|by apply fail_with_quiet].
Qed.

Lemma kill_forward_quiet local ttype serial fd s : quiet s -> wp (kill_forward local ttype serial fd) s (fun _ s' => quiet s').
Proof.
  intros Hq. unfold kill_forward. destruct local as [|c local]; [by apply fail_with_quiet|]. apply wp_bind.
  eapply wp_mono; [by apply acquire_live|]. intros [t|w] s' [-> _]; [|by apply fail_with_quiet].
  apply wp_bind. unfold remove_listener. apply wp_bind, wp_gets. destruct Hq as [Wf Hs].
  eapply wp_mono; [apply remove_named_quiet; [done|]; intros p; by apply (wf_lislist _ _ _ Wf)|].
  intros r s' Hq'. destruct (r =? 0); [by apply okay_twice_quiet|by apply fail_with_quiet].
Qed.

(** A forward request is answered, or it is none and nothing happens. *)
Lemma forward_quiet service ttype serial fd s : quiet s -> (streq service (lit "list-forward") = true -> serials_known s) ->
  wp (handle_forward_request service ttype serial fd) s (fun r s' => quiet s' /\ (r = 1 \/ r = 0 /\ s' = s)).
Proof.
  intros Hq Hk. destruct (streq service (lit "list-forward")) eqn:El.
  { apply streq_true in El as ->. unfold wp. rewrite forward_list_complete by (intros p; by apply known_listable, Hk).
    apply wp_bind, wp_okay_msg. intros i. apply wp_ret. split; [by apply quiet_io|by left]. }
  unfold handle_forward_request. rewrite El. destruct (streq service (lit "killforward-all")).
  { pose proof Hq as [Wf _]. apply wp_bind. unfold remove_all_listeners. apply wp_bind, wp_gets.
    eapply wp_mono; [apply remove_unstarred_quiet; [done|apply Wf|]; intros p; by apply (wf_lislist _ _ _ Wf)|].
    intros [] s' Hq'. apply wp_bind, wp_fd_write. intros r i _. apply wp_bind, wp_fd_write. intros r' j _. apply wp_ret.
    split; [by apply quiet_io, quiet_io|by left]. }
  destruct (has_prefix (lit "forward:") service).
  { apply wp_bind. eapply wp_mono; [by apply create_forward_quiet|]. intros [] s' Hq'. apply wp_ret. auto. }
  destruct (has_prefix (lit "killforward:") service); [|apply wp_ret; auto].
  apply wp_bind. eapply wp_mono; [by apply kill_forward_quiet|]. intros [] s' Hq'. apply wp_ret. auto.
Qed.

(** ** Registering a socket transport *)

Lemma quiet_alloc s u : quiet s -> t_disconnects u = [] -> quiet (set_next_ptr (S (next_ptr s)) (set_trs (<[next_ptr s := u]> (trs s)) s)).
Proof.
  intros [Wf Hs] Hd. assert (quiet (set_next_ptr (S (next_ptr s)) s)) as Hq.
  { split; [|done]. constructor; try apply Wf; simpl.
    - intros p Hp. pose proof (wf_fresh _ _ _ Wf p Hp). lia.
    - intros l a Hl. destruct (wf_lisok _ _ _ Wf l a Hl). split; [lia|done].
    - intros t Ht. pose proof (wf_trfresh _ _ _ Wf t Ht). lia. }
  apply (quiet_new_tr _ (next_ptr s) u Hq); [|simpl; lia|done]. simpl. destruct (trs s !! next_ptr s) eqn:E; [|done].
  pose proof (wf_trfresh _ _ _ Wf _ (mk_is_Some _ _ E)). lia.
Qed.
Lemma quiet_locals L s : quiet s -> quiet (set_locals L s).
Proof. intros [Wf Hs]. split; [by apply (wf_ext ∅ ∅ s)|done]. Qed.
Lemma quiet_pending l s : quiet s -> quiet (set_pending_list l s).
Proof. intros [Wf Hs]. split; [by apply (wf_ext ∅ ∅ s)|done]. Qed.

(** Nothing can point to a transport whose disconnect list is empty. *)
Lemma free_tr_quiet s t u : quiet s -> trs s !! t = Some u -> t_disconnects u = [] -> t ∉ transport_list s ->
  wp (free_tr t ;; ret false) s (fun _ s' => quiet s').
Proof.
  intros [Wf Hs] Hu Hd Hn. apply wp_bind. unfold free_tr. apply wp_bind. eapply wp_get_tr; [exact Hu|]. apply wp_modify, wp_ret.
  split; [|done]. apply wf_free_tr; [done| |done]. intros [p|l] H.
  - destruct H as (a & Ha & Hr & Ht). destruct (wf_remote _ _ _ Wf p a t Ha Hr Ht) as (v & Hv & Hin). simplify_eq. rewrite Hd in Hin. set_solver.
  - apply (wf_dis _ _ _ Wf t u Hu) in H. rewrite Hd in H. set_solver.
Qed.

Lemma register_quiet fd serial port local s : reg_ok s -> quiet s -> wp (register_socket_transport fd serial port local) s (fun _ s' => quiet s').
Proof.
  intros Hok Hq. unfold register_socket_transport. apply wp_bind. unfold new_tr, wp at 1. set (t := next_ptr s). set (s1 := set_next_ptr _ _).
  assert (reg_ok s1) as Hok1 by (by apply reg_ok_alloc). assert (quiet s1) as Hq1 by (by apply quiet_alloc).
  destruct (init_run s1 t (blank_socket_transport fd) port local) as (ok & u' & L & E & _ & Hd & _); [done|apply lookup_insert_eq|done|].
  apply wp_bind. unfold wp at 1. rewrite E. set (s2 := set_locals L (upd_trs t u' s1)).
  assert (quiet s2) as Hq2 by (eapply quiet_locals, quiet_upd; [done|apply lookup_insert_eq|done]).
  assert (trs s2 !! t = Some u') as Hu2 by (unfold s2; simpl; by rewrite lookup_insert_eq).
  assert (t ∉ transport_list s2) as Hn.
  { intros Hin. destruct Hq as [Wf _]. pose proof (wf_trfresh _ _ _ Wf t (wf_listed _ _ _ Wf t Hin)). unfold t in *. lia. }
  pose proof (free_tr_quiet s2 t u' Hq2 Hu2 Hd Hn) as Hfail. destruct ok; cbn [negb]; [|done].
  assert (forall l, (forall x, x ∈ l -> x ∈ pending_list s ++ transport_list s) -> exists b, serial_taken l serial s2 = Ok (b, s2)) as Htaken.
  { intros l Hl. destruct (serial_taken_run s2 serial l) as (b & Eb & _); [|eauto]. intros x Hx. unfold s2. simpl.
    rewrite insert_insert_eq. apply keeps_insert, (ro_listed _ Hok), Hl, Hx. }
  apply wp_bind, wp_gets, wp_bind. destruct (Htaken (pending_list s)) as [b1 E1]; [intros x Hx; apply elem_of_app; by left|].
  unfold wp at 1. change (pending_list s2) with (pending_list s). rewrite E1. destruct b1; [done|].
  apply wp_bind, wp_gets, wp_bind. destruct (Htaken (transport_list s)) as [b2 E2]; [intros x Hx; apply elem_of_app; by right|].
  unfold wp at 1. change (transport_list s2) with (transport_list s). rewrite E2. destruct b2; [done|].
  unfold link_pending, post_action. apply wp_bind, wp_bind, wp_modify. eapply wp_upd_tr; [exact Hu2|].
  apply wp_bind. eapply wp_upd_tr; [apply lookup_insert_eq|]. apply wp_bind, wp_modify, wp_ret.
  apply quiet_actions. eapply quiet_upd; [eapply quiet_upd; [by apply quiet_pending|exact Hu2|done]|apply lookup_insert_eq|done].
Qed.

Lemma local_connect_quiet adbhost port s : reg_ok s -> quiet s -> wp (local_connect adbhost port) s (fun _ s' => quiet s').
Proof.
  intros Hok Hq. unfold local_connect, local_connect_arbitrary_ports. apply wp_bind.
  eapply (wp_mono _ _ (fun _ s1 => reg_ok s1 /\ quiet s1)).
  { destruct adbhost; [|by apply wp_ret]. eapply wp_mono; [by apply next_fd_quiet|]. intros fd s1 (i & c & -> & Hq1). split; [by apply reg_ok_io|done]. }
  intros fd1 s1 [Hok1 Hq1]. apply wp_bind. eapply (wp_mono _ _ (fun _ s1 => reg_ok s1 /\ quiet s1)).
  { destruct (fd1 <? 0); [|by apply wp_ret]. eapply wp_mono; [by apply next_fd_quiet|]. intros fd s2 (i & c & -> & Hq2). split; [by apply reg_ok_io|done]. }
  intros fd s2 [Hok2 Hq2]. destruct (0 <=? fd); [|by apply wp_ret]. apply wp_bind. eapply wp_mono; [by apply register_quiet|].
  intros r s3 Hq3. by apply wp_ret.
Qed.

(** ** Unregistering *)

(** Only the transport [t] is touched, and the device list is not. *)
Definition apart (t : ptr) (s s' : sv) : Prop := transport_list s' = transport_list s /\ forall x, x <> t -> trs s' !! x = trs s !! x.
#[export] Instance apart_preorder t : PreOrder (apart t).
Proof.
  split; [by split|]. intros s1 s2 s3 [E1 H1] [E2 H2]. split; [congruence|]. intros x Hx. by rewrite H2, H1.
Qed.
Lemma apart_upd_tr t f : pres (apart t) (upd_tr t f).
Proof.
  unfold upd_tr. apply pres_bind; [pres|]. intros u. apply pres_modify. intros s. split; [done|]. intros x Hx. cbn. by rewrite lookup_insert_ne.
Qed.
Lemma apart_fd_close t fd : pres (apart t) (fd_close fd).
Proof. unfold fd_close. pres. Qed.
#[export] Hint Resolve apart_upd_tr apart_fd_close : pres.
Lemma apart_kick t : pres (apart t) (kick_transport t).
Proof. unfold kick_transport, remote_kick. pres. Qed.
#[export] Hint Resolve apart_kick : pres.
Lemma apart_end t : pres (apart t) (kick_transport t ;; transport_unref t).
Proof. unfold transport_unref, remote_close_tr, post_action. pres. Qed.

(** The listed devices are linked, once each. *)
Definition linked_devices (s : sv) (l : list ptr) : Prop :=
  NoDup l /\ forall t, t ∈ l -> t ∈ transport_list s /\ exists u, trs s !! t = Some u /\ t_stale u = None.

(** One device goes; the others stay linked. *)
Lemma unregister_quiet s t u l : quiet s -> trs s !! t = Some u -> t_stale u = None -> t ∈ transport_list s -> t ∉ l -> linked_devices s l ->
  wp (unregister_transport t) s (fun _ s' => quiet s' /\ linked_devices s' l).
Proof.
  intros Hq Hu Hst Hin Hn [Hnd Hl]. unfold unregister_transport. apply wp_bind.
  eapply wp_mono; [apply (unlink_first s t u); [done..|by left]|]. intros _ s1 [Hq1 (ln & ->)]. rewrite bool_decide_eq_true_2 in * by done.
  set (s1 := upd_trs _ _ _) in *. assert (trs s1 !! t = Some (tr_stale (Some ln) u)) as Hu1 by apply lookup_insert_eq.
  eapply wp_mono; [eapply (wp_pres (apart t)), thread_end_spec; [apply apart_end|done|exact Hu1]|].
  intros _ s2 [[Hq2 _] [El Ht]]. split; [done|]. split; [done|]. intros x Hx. assert (x <> t) as Hne by (by intros ->).
  destruct (Hl x Hx) as [Hxl (v & Hv & Hvs)]. rewrite El, Ht by done. unfold s1. simpl. rewrite lookup_insert_ne by done.
  rewrite elem_of_remove_elt. eauto.
Qed.

Lemma unregister_tcp_quiet : forall l s, quiet s -> linked_devices s l -> wp (unregister_tcp l) s (fun _ s' => quiet s').
Proof.
  induction l as [|t l IH]; intros s Hq [Hnd Hl]; cbn [unregister_tcp]; [by apply wp_ret|]. apply NoDup_cons in Hnd as [Hn Hnd].
  destruct (Hl t (list_elem_of_here _ _)) as [Hin (u & Hu & Hst)]. assert (linked_devices s l) as Hrest by (split; [done|]; intros x Hx; apply Hl; by right).
  apply wp_bind. eapply wp_get_tr; [exact Hu|]. apply wp_bind.
  destruct (t_type u); [apply wp_ret; by apply IH| |apply wp_ret; by apply IH..].
  apply wp_when; intros _; [|by apply IH]. eapply wp_mono; [by apply (unregister_quiet s t u l)|]. intros [] s' [Hq' Hl']. by apply IH.
Qed.

Lemma find_serial_spec serial s : forall l, (forall t, t ∈ l -> is_Some (trs s !! t)) ->
  wp (find_serial l serial) s (fun r s' => s' = s /\ match r with Some t => t ∈ l | None => True end).
Proof.
  induction l as [|t l IH]; intros Hl; cbn [find_serial]; [by apply wp_ret|]. destruct (Hl t (list_elem_of_here _ _)) as [u Hu].
  apply wp_bind. eapply wp_get_tr; [exact Hu|]. case_match; [apply wp_ret; split; [done|apply list_elem_of_here]|].
  eapply wp_mono; [apply IH; intros x Hx; apply Hl; by right|]. intros [x|] s' [-> Hx]; split; try done. by right.
Qed.

(** The device list is in order: [disconnect] may unlink what it finds there. *)
Definition detachable (s : sv) : Prop := linked_devices s (transport_list s).

Lemma disconnect_quiet serial s : quiet s -> detachable s -> wp (disconnect_request serial) s (fun _ s' => quiet s').
Proof.
  intros Hq Hd. unfold disconnect_request. destruct serial as [|c serial].
  - apply wp_bind. unfold unregister_all_tcp_transports. apply wp_bind, wp_gets. eapply wp_mono; [by apply unregister_tcp_quiet|].
    intros [] s' Hq'. by apply wp_ret.
  - cbv zeta. apply wp_bind. unfold find_transport. apply wp_bind, wp_gets.
    eapply wp_mono; [apply find_serial_spec; intros t Ht; by apply (wf_listed _ _ _ (proj1 Hq))|].
    intros [t|] s' [-> Ht]; [|by apply wp_ret]. destruct Hd as [_ Hd]. destruct (Hd t Ht) as [_ (u & Hu & Hst)].
    apply wp_bind. eapply wp_mono; [apply (unregister_quiet s t u []); try done; [by apply not_elem_of_nil|]|intros [] s' [Hq' _]; by apply wp_ret].
    split; [constructor|]. intros x Hx. by apply elem_of_nil in Hx.
Qed.

(** ** USB devices *)

Lemma register_usb_quiet usb serial devpath w s : quiet s -> wp (register_usb_transport usb serial devpath w) s (fun _ s' => quiet s').
Proof.
  intros Hq. unfold register_usb_transport, link_pending, post_action. apply wp_bind. unfold new_tr, wp at 1. apply wp_bind, wp_bind, wp_modify.
  eapply wp_upd_tr; [apply lookup_insert_eq|]. apply wp_modify. apply quiet_actions. eapply quiet_upd; [apply quiet_pending; by apply quiet_alloc|apply lookup_insert_eq|done].
Qed.

Lemma unregister_usb_quiet usb s : quiet s -> detachable s -> wp (unregister_usb_transport usb) s (fun _ s' => quiet s').
Proof.
  intros Hq [_ Hd]. unfold unregister_usb_transport. apply wp_bind, wp_gets.
  assert (forall l, (forall t, t ∈ l -> t ∈ transport_list s) -> wp (unregister_usb l usb) s (fun _ s' => quiet s')) as H; [|by apply H].
  induction l as [|t l IH]; intros Hl; cbn [unregister_usb]; [by apply wp_ret|]. pose proof (Hl t (list_elem_of_here _ _)) as Ht.
  destruct (Hd t Ht) as [_ (u & Hu & Hst)]. apply wp_bind. eapply wp_get_tr; [exact Hu|]. destruct (_ && _); [|apply IH; intros x Hx; apply Hl; by right].
  eapply wp_mono; [apply (unlink_first s t u); [done..|by left]|]. by intros _ s' [? _].
Qed.
