(* ===== verification/ServiceSafe.v ===== *)
(** * Requests that start a service

    [host:wait-for-*], [host:connect:] and [host:track-devices] give the client a new
    peer, the end of a service thread's pair or a tracker, in place of its smart
    socket.  Both ends stay in order; what a service answers reaches the client as
    long as the client's descriptor takes it. *)

From S2P Require Import Prelude CString Io Wire DList Fdevent Server Transports Sockets Packets SocketInv SocketOps SocketLink PacketsSafe Keeps EngineProps Registry RegistryProps Listeners HostRequest ListenersProps SmartSocket EventProps RequestSafe Preserve StreamProps.

(** ** A new socket *)

(** [s1] is [s] with the fresh socket [r], which is [b], on the list of its kind. *)
Record born (r : ptr) (b : asocket) (s s1 : sv) : Prop := {
  bo_ptr : r = next_ptr s;
  bo_next : next_ptr s1 = S r;
  bo_heap : heap s1 = <[r := b]> (heap s);
  bo_local : local_list s1 = (if decide (a_enqueue b = local_enqueue) then local_list s ++ [r] else local_list s);
  bo_trackers : trackers s1 = (if decide (a_enqueue b = tracker_enqueue) then r :: trackers s else trackers s);
  bo_id : 0 < next_id s1 < u32_mod;
  bo_rest : (closing_list s1, transport_list s1, listeners s1, listener_list s1, trs s1, slock s1, io s1) =
            (closing_list s, transport_list s, listeners s, listener_list s, trs s, slock s, io s) }.

Lemma create_local_born fd s : quiet s ->
  wp (create_local_socket fd) s (fun r s1 => born r (fresh_client (next_id s) fd None None) s s1).
Proof.
  intros [Wf Hs]. unfold create_local_socket. apply wp_bind. unfold new_sock, wp at 1.
  apply wp_bind. unfold install_local_socket. apply wp_bind, wp_lock; [done|]. apply wp_bind, wp_gets, wp_bind.
  eapply wp_upd_sock; [apply lookup_insert_eq|]. apply wp_bind, wp_modify, wp_bind, wp_modify.
  unfold unlock. apply wp_modify. apply wp_bind. destruct (fd <? 0); [apply wp_stop|].
  destruct (32000 <? fd); [apply wp_stop|]. eapply wp_upd_sock; [apply lookup_insert_eq|]. apply wp_ret.
  constructor; try done; simpl; [by rewrite !insert_insert_eq|apply (next_id_range (next_id s))|by rewrite Hs].
Qed.

Definition tracker_sock (peer : option ptr) (update : Z) : asocket :=
  mksock 0 false false peer blank_fde 0 [] tracker_enqueue tracker_ready false tracker_close None update.

Lemma create_tracker_born s : quiet s -> wp create_device_tracker s (fun r s1 => born r (tracker_sock None 1) s s1).
Proof.
  intros [Wf Hs]. unfold create_device_tracker. apply wp_bind. unfold new_sock, wp at 1. apply wp_bind, wp_modify, wp_ret.
  constructor; try done. apply Wf.
Qed.

(** ** The client is bound to it *)

Section bind_service.
Context (m q r : ptr) (a c b : asocket) (s s1 : sv).
Hypotheses (As : asking m q a c s) (Bo : born r b s s1).
Hypotheses (Hokb : forall x, sock_ok (sk_peer x b)) (Hkind : a_enqueue b = local_enqueue \/ a_enqueue b = tracker_enqueue).
Hypotheses (Hcb : a_closing b = false) (Hpkb : a_pkts b = []) (Hwb : wants FDE_WRITE b = false).

Let c' : asocket := sk_peer (Some r) (sk_plain local_ready local_close c).
Let b' : asocket := sk_peer (Some q) b.
Let s2 (i : gmap Z fio) : sv := upd_heap r b' (upd_heap q c' (set_io i s1)).

Lemma bind_fresh : m <> r /\ q <> r /\ m <> q.
Proof using As Bo.
  pose proof (asking_ne _ _ _ _ _ As). destruct As as [[Wf _] (Hm & _) (Hq & _)]. rewrite (bo_ptr _ _ _ _ Bo).
  pose proof (wf_fresh _ _ _ Wf m ltac:(eauto)). pose proof (wf_fresh _ _ _ Wf q ltac:(eauto)). repeat split; [lia|lia|done].
Qed.

Lemma bind_wf i : wf {[m]} {[r]} (s2 i).
Proof using All.
  destruct bind_fresh as (Hmr & Hqr & Hmq). destruct As as [[Wf Hs] (Hm & He & Hmp) (Hq & Hl & Hcp & Hcl & Hpk)].
  assert (wf ({[q]} ∪ {[m]}) {[r]} s) as Wf0.
  { apply (wf_weaken _ ∅); [set_solver|]. rewrite <- (union_empty_r_L ({[q]} ∪ {[m]})). apply wf_mark_gone; [done|]. intros x d y Hx Hd Hy.
    apply elem_of_union in Hx as [->%elem_of_singleton| ->%elem_of_singleton]; simplify_eq; set_solver. }
  replace ({[m]} : gset ptr) with (({[q]} ∪ {[m]}) ∖ {[q]} : gset ptr) by set_solver.
  pose proof (wf_sock _ _ _ Wf q c Hq) as (Hk & Hx & Hi). destruct Bo as [Ep En Eh El Et Hid Er]. injection Er as E1 E2 E3 E4 E5 E6 E7.
  eapply (wf_link _ _ s (s2 i) q c c' r b'); [exact Wf0|set_solver|set_solver|exact Hq|done|done|done|..]; try done.
  - unfold sock_ok. cbn. unfold is_local in Hl. rewrite Hl in *. split; [|done]. destruct Hk as [Hsh _]. split; [done|by left].
  - cbn. rewrite Hpk. constructor.
  - intros _ Hw. by apply (wf_wants _ _ _ Wf q c Hq Hl ltac:(set_solver)) in Hw.
  - apply Hokb.
  - set_solver.
  - cbn. rewrite Eh. rewrite (insert_insert_ne _ q r) by done. by rewrite insert_insert_eq.
  - cbn. intros x Hr. destruct Hkind; congruence.
  - intros x. cbn. rewrite E5. unfold is_remote_on. cbn. destruct Hkind as [-> | ->]; done.
Qed.

(** The smart socket goes. *)
Lemma bind_closed i : wp (upd_sock m (sk_peer None) ;; sock_close m) (s2 i) (fun _ s' =>
  wf ∅ {[r]} s' /\ slock s' = false /\ heap s' !! q = Some c' /\ heap s' !! r = Some b' /\ io s' = i).
Proof using All.
  destruct bind_fresh as (Hmr & Hqr & Hmq). pose proof (bind_wf i) as Wf2. pose proof As as [[Wf Hs] (Hm & He & Hmp) (Hq & _)].
  pose proof (bo_rest _ _ _ _ Bo) as Er. injection Er as _ _ _ _ _ Els _.
  assert (heap (s2 i) !! m = Some a) as Hm2 by (cbn; rewrite (bo_heap _ _ _ _ Bo), !lookup_insert_ne by done; done).
  apply wp_bind. eapply wp_upd_sock; [exact Hm2|]. set (a1 := sk_peer None a). pose proof (wf_sock _ _ _ Wf m a Hm) as (Hk & Hx & Hi).
  assert (wf {[m]} {[r]} (upd_heap m a1 (s2 i))) as Wf3.
  { eapply wf_upd_heap; [exact Wf2|exact Hm2|..]; unfold is_local; try done; cbn; try congruence; try set_solver.
    unfold sock_ok. cbn. rewrite He in *. done. }
  eapply wp_mono; [apply (close_smart {[m]} {[r]} _ m a1); [exact Wf3|set_solver|apply lookup_insert_eq|done|done]|].
  intros _ s' [Wf4 ->]. split_and!; [|cbn; congruence|cbn; rewrite lookup_delete_ne, !lookup_insert_ne, lookup_insert_eq by done; done|
    cbn; rewrite lookup_delete_ne, !lookup_insert_ne, lookup_insert_eq by done; done|done].
  rewrite difference_diag_L in Wf4. eapply wf_weaken; [|exact Wf4]. set_solver.
Qed.

(** Up to the call of the new socket's [ready]. *)
Lemma bind_ready fd (Q : Z -> sv -> Prop) :
  (forall i w s', fd_write fd (lit "OKAY") s1 = Ok (w, set_io i s1) -> wf ∅ {[r]} s' -> slock s' = false ->
     heap s' !! q = Some c' -> heap s' !! r = Some b' -> io s' = i -> wp (sock_ready r ;; ret 0) s' Q) ->
  wp (bind_service m q fd r) s1 Q.
Proof using All.
  intros H. destruct bind_fresh as (Hmr & Hqr & Hmq). pose proof As as [_ _ (Hq & _)].
  unfold bind_service. apply wp_bind. eapply wp_mono; [apply (wp_run _ _ (fun _ s3 => exists i, s3 = set_io i s1)), wp_fd_write; intros w i _; by exists i|].
  intros w s3 [[i ->] E]. apply wp_bind. assert (heap (set_io i s1) !! q = Some c) as Hq1 by (cbn; by rewrite (bo_heap _ _ _ _ Bo), lookup_insert_ne).
  eapply wp_upd_sock; [exact Hq1|]. apply wp_bind. eapply wp_upd_sock; [apply lookup_insert_eq|]. apply wp_bind.
  assert (forall x y : asocket, heap (upd_heap q x (upd_heap q y (set_io i s1))) !! r = Some b) as Hr1
    by (intros x y; cbn; by rewrite !lookup_insert_ne, (bo_heap _ _ _ _ Bo), lookup_insert_eq).
  eapply wp_upd_sock; [apply Hr1|].
  match goal with |- wp _ ?x _ => replace x with (s2 i) by (unfold s2, upd_heap, set_heap; cbn; by rewrite insert_insert_eq) end.
  pose proof (bind_closed i) as Hc. unfold wp, bind in Hc |- *. destruct (upd_sock m (sk_peer None) (s2 i)) as [[[] s4]| | |]; [|done..].
  destruct (sock_close m s4) as [[[] s5]| | |]; [|done..]. destruct Hc as (H1 & H2 & H3 & H4 & H5). by apply (H i w s5).
Qed.
End bind_service.

(** The end of a service thread's pair. *)
Lemma service_bound m q a c s s1 r id fd : asking m q a c s -> is_u32 id -> born r (fresh_client id fd None None) s s1 ->
  wp (bind_service m q (a_fd c) r) s1 (answered q).
Proof.
  intros As Hid Bo. eapply (bind_ready m q r a c _ s s1 As Bo); try done; [|by left|].
  { intros x. split; [split; [done|by left]|done]. }
  intros i w s' _ Wf Hs Hq Hr _. apply wp_bind.
  assert (wf ∅ ∅ s') as Wf' by (rewrite <- (union_empty_r_L {[r]}) in Wf; eapply wf_settle; [exact Wf|exact Hr|done|done]).
  eapply wp_mono; [apply (sock_ready_spec ∅ s' r _ Wf' Hr); set_solver|]. intros _ s3 (Wf3 & F3 & _). apply wp_ret.
  split; [split; [done|by rewrite (fr_lock _ _ _ F3)]|]. right. rewrite (fr_heap _ _ _ F3 q); [eauto|].
  destruct As as [[Wf0 _] _ (Hq0 & _)]. pose proof (wf_fresh _ _ _ Wf0 q ltac:(eauto)). rewrite (bo_ptr _ _ _ _ Bo). apply not_elem_of_singleton. lia.
Qed.

(** ** Writing to a client that takes it *)

Lemma enqueue_stays s p a k : heap s !! p = Some a -> pkt_ok (mkpkt (msg k) (p_len k) 0 (data k)) -> writable (a_fd a) s ->
  wp (local_socket_enqueue p k) s (fun _ s' => local_list s' = local_list s).
Proof.
  intros Hp Hk Hw. unfold local_socket_enqueue. apply wp_bind. eapply wp_get_sock; [exact Hp|].
  assert (forall i k1, wp (upd_sock p (fun a => sk_pkts (a_pkts a ++ [k1]) a) ;; sock_fde_add FDE_WRITE p ;; ret 1) (set_io i s)
    (fun _ s' => local_list s' = local_list s)) as Hqueue.
  { intros i k1. apply wp_bind. eapply wp_upd_sock; [exact Hp|]. apply wp_bind. eapply wp_upd_sock; [apply lookup_insert_eq|]. by apply wp_ret. }
  destruct (no_pkts a); cbn [negb]; [|rewrite <- (set_io_id s) at 1; apply Hqueue].
  apply wp_bind. unfold flush. eapply wp_mono; [apply wp_run, flush_spec; [exact Hk|done]|].
  intros [st k1] s1 [(i & -> & _) Hrun]. apply (flush_steady (fun _ => True)) in Hrun as [_ Hb]; [|exact Hw].
  destruct st; [by apply wp_ret|apply Hqueue|done].
Qed.

(** A writable client keeps its place, and its peer is not touched. *)
Lemma enqueue_kept s p a k : quiet s -> heap s !! p = Some a -> is_local a -> is_Some (a_peer a) ->
  pkt_ok (mkpkt (msg k) (p_len k) 0 (data k)) -> writable (a_fd a) s ->
  wp (local_socket_enqueue p k) s (fun r s' => quiet s' /\ 0 <= r /\ frame {[p]} s s' /\ is_Some (heap s' !! p)).
Proof.
  intros [Wf Hs] Hp Hl Hpe Hk Hw. eapply wp_mono; [apply wp_and; [by apply (local_socket_enqueue_spec ∅ s p a k)|by apply (enqueue_stays s p a k)]|].
  intros r s' [(Wf' & F & [[Hn _]|[F1 (_ & a' & Ha' & _ & _ & _ & _ & Hr)]]) El].
  - exfalso. apply Hn. rewrite El. apply (wf_local _ _ _ Wf). exists a. split_and!; [done|done|]. destruct (a_closing a) eqn:Ec; [|done].
    rewrite (wf_detached _ _ _ Wf p a Hp Ec) in Hpe. by destruct Hpe.
  - split; [split; [done|by rewrite (fr_lock _ _ _ F)]|]. split_and!; [|done|eauto]. destruct Hr as [[-> _]|[-> _]]; lia.
Qed.

(** A tracker sends its first list before the client's event returns. *)
Lemma tracker_bound m q a c s s1 r : asking m q a c s -> born r (tracker_sock None 1) s s1 -> writable (a_fd c) s ->
  wp (bind_service m q (a_fd c) r) s1 (answered q).
Proof.
  intros As Bo Hw. pose proof As as [[Wf0 _] _ (Hq0 & Hl0 & _)]. pose proof (bo_rest _ _ _ _ Bo) as Er. injection Er as _ _ _ _ _ _ Eio.
  assert (q <> r) as Hne by (pose proof (wf_fresh _ _ _ Wf0 q ltac:(eauto)); rewrite (bo_ptr _ _ _ _ Bo); lia).
  eapply (bind_ready m q r a c _ s s1 As Bo); try done; [by right|].
  intros i w s' E Wf Hs Hq Hr Ei. apply (fd_write_steady (fun _ => True)) in E as [Hw' _]; [|unfold steady; rewrite Eio; exact Hw].
  apply wp_bind. unfold sock_ready, device_tracker_ready. apply wp_bind. eapply wp_get_sock; [exact Hr|].
  apply wp_bind. eapply wp_get_sock; [exact Hr|]. cbn. apply wp_bind. eapply wp_upd_sock; [exact Hr|]. set (s3 := upd_heap r _ s').
  assert (heap s3 !! r = Some (tracker_sock (Some q) 0)) as Hr3 by apply lookup_insert_eq.
  assert (wf ∅ ∅ s3) as Wf3.
  { eapply wf_settle; [rewrite union_empty_r_L|exact Hr3|done|done].
    eapply wf_upd_heap_gen; [exact Wf|exact Hr|..]; unfold is_local; cbn; try done. by right. }
  apply wp_bind. apply (wp_live_transports ∅ ∅); [done|]. intros ts. destruct (list_transports_msg_ok ts) as [buf Eb].
  apply wp_bind. eapply wp_lift; [exact Eb|]. apply wp_bind. unfold device_tracker_send. apply wp_bind. eapply wp_get_sock; [exact Hr3|]. cbn.
  assert (heap s3 !! q = Some (sk_peer (Some r) (sk_plain local_ready local_close c))) as Hq3 by (cbn; by rewrite lookup_insert_ne).
  apply wp_bind. eapply wp_get_sock; [exact Hq3|]. cbn. unfold is_local in Hl0. rewrite Hl0.
  eapply wp_mono; [apply (enqueue_kept s3 q _ _ (conj Wf3 Hs) Hq3); [done|eauto|apply whole_pkt_ok|]|].
  - unfold writable, steady in *. cbn in *. by rewrite Ei.
  - intros z s4 (Hq4 & _ & _ & Hk). apply wp_ret, wp_ret. split; [done|by right].
Qed.

(** ** What a service answers *)

(** Reading changes no descriptor's writes. *)
Definition keeps_writable (s s' : sv) : Prop := forall x, writable x s -> writable x s'.
#[export] Instance keeps_writable_preorder : PreOrder keeps_writable.
Proof. split; [by intros s x|]. intros s1 s2 s3 H1 H2 x Hx. by apply H2, H1. Qed.
Lemma writable_fd_read fd n : pres keeps_writable (fd_read fd n).
Proof.
  intros s a s'. unfold fd_read, get_fd, put_fd, bind, gets, modify, ret. destruct (io s !! fd) as [f|] eqn:Ef; [|by intros [= <- <-]].
  destruct (adb_read n (io_in f)) as [r l]. intros [= <- <-] x. unfold writable, steady. cbn. destruct (decide (x = fd)) as [->|Hne].
  - by rewrite Ef, lookup_insert_eq.
  - by rewrite lookup_insert_ne.
Qed.
#[export] Hint Resolve writable_fd_read : pres.
Lemma writable_read_avail fd : forall fuel n acc, pres keeps_writable (read_avail fuel fd n acc).
Proof. induction fuel as [|fuel IH]; intros [|n] acc; cbn [read_avail]; pres. Qed.

(** A service's socket is read into its client, which takes it. *)
Lemma event_read_local adbhost s p a q b : quiet s -> heap s !! p = Some a -> a_peer a = Some q ->
  heap s !! q = Some b -> is_local b -> writable (a_fd b) s ->
  wp (event_read adbhost (a_fd a) p) s (fun _ s' => quiet s').
Proof.
  intros Hq Hp Hpe Hb Hlb Hw. destruct (wf_peer _ _ _ (proj1 Hq) p a q Hp ltac:(apply not_elem_of_empty) Hpe) as (_ & Hne & b' & Hb' & Hbp & _). simplify_eq.
  unfold event_read. apply wp_bind. eapply wp_mono; [apply (wp_pres keeps_writable), read_avail_spec; [apply writable_read_avail|lia]|].
  intros [[d eof] z] s1 [(i & -> & _) Hk]. apply Hk in Hw. apply (quiet_io i) in Hq. set (s1 := set_io i s) in *.
  apply wp_bind. eapply wp_get_sock; [exact Hp|]. rewrite Hpe.
  destruct d as [|x d]; [apply wp_bind, wp_ret; by apply (event_read_end p eof a)|].
  apply wp_bind, wp_bind. unfold sock_enqueue. apply wp_bind. eapply wp_get_sock; [exact Hb|]. unfold is_local in Hlb. rewrite Hlb.
  eapply wp_mono; [apply (enqueue_kept s1 q b); [done|done|done|eauto|apply whole_pkt_ok|done]|].
  intros r s2 (Hq2 & Hr & F & _). assert (heap s2 !! p = Some a) as Hp2 by (rewrite (fr_heap _ _ _ F p); [done|set_solver]).
  apply event_read_tail; [done|right; eauto].
Qed.

(** ** Writing before reading *)

(** What the writable part of an event on [p] leaves: no descriptor got worse, the
    other sockets are as they were, and [p] has its peer. *)
Definition only_writes (p : ptr) (s s' : sv) : Prop :=
  keeps_writable s s' /\ (forall x, x <> p -> heap s' !! x = heap s !! x) /\ a_peer <$> heap s' !! p = a_peer <$> heap s !! p.
#[export] Instance only_writes_preorder p : PreOrder (only_writes p).
Proof.
  split; [by intros s; split_and!|]. intros s1 s2 s3 (H1 & H2 & H3) (K1 & K2 & K3). split; [by etrans|]. split; [|congruence].
  intros x Hx. by rewrite K2, H2.
Qed.
Lemma only_writes_get p x : pres (only_writes p) (get_sock x).
Proof. apply pres_id. intros s a s'. unfold get_sock. destruct (heap s !! x); [|done]. by intros [= <- <-]. Qed.
Lemma only_writes_upd p f : (forall a, a_peer (f a) = a_peer a) -> pres (only_writes p) (upd_sock p f).
Proof.
  intros Hf s a s'. unfold upd_sock, bind, get_sock, put_sock, modify. destruct (heap s !! p) as [b|] eqn:E; [|done]. intros [= <- <-].
  split; [by intros x|]. cbn. split; [intros x Hx; by rewrite lookup_insert_ne|]. rewrite lookup_insert_eq, E. cbn. by rewrite Hf.
Qed.
Lemma only_writes_fd p fd d : pres (only_writes p) (fd_write fd d).
Proof.
  intros s a s' E. assert (heap s' = heap s) as Eh.
  { revert E. unfold fd_write, get_fd, put_fd, bind, gets, modify, ret. destruct (io s !! fd) as [f|]; [|by intros [= <- <-]].
    destruct (adb_write (length d) (io_wr f)) as [w l]. by intros [= <- <-]. }
  split; [|by rewrite Eh]. intros x Hx. destruct (decide (x = fd)) as [->|Hne]; [by destruct (fd_write_steady _ _ _ _ _ _ E Hx)|].
  revert E Hx. unfold fd_write, get_fd, put_fd, bind, gets, modify, ret, writable, steady. destruct (io s !! fd) as [f|]; [|by intros [= <- <-]].
  destruct (adb_write (length d) (io_wr f)) as [w l]. intros [= <- <-]. cbn. by rewrite lookup_insert_ne.
Qed.
#[export] Hint Resolve only_writes_get only_writes_fd : pres.
Lemma only_writes_flush p fd : forall n k, pres (only_writes p) (flush_pkt n fd k).
Proof. induction n as [|n IH]; intros k; cbn [flush_pkt]; pres. Qed.
Lemma only_writes_drain p fd : forall n, pres (only_writes p) (drain_pkts n fd p).
Proof.
  pose proof (only_writes_flush p fd). induction n as [|n IH]; cbn [drain_pkts]; unfold flush; pres; by apply only_writes_upd.
Qed.

(** The writable part of an event of a socket whose peer is local. *)
Lemma event_write_writable s s' p a q b : quiet s -> heap s !! p = Some a -> a_peer a = Some q -> heap s !! q = Some b -> is_local b ->
  event_write (a_fd a) p s = Ok (true, s') -> keeps_writable s s' /\ heap s' !! q = Some (sk_fde (fde_add FDE_READ (a_fde b)) b).
Proof.
  intros [Wf _] Hp Hpe Hb Hl. destruct (wf_peer _ _ _ Wf p a q Hp ltac:(apply not_elem_of_empty) Hpe) as (_ & Hne & b' & Hb' & Hbp & _). simplify_eq.
  assert (a_ready b = local_ready) as Hr.
  { pose proof (wf_sock _ _ _ Wf q b Hb) as (Hk & _). unfold is_local in Hl. rewrite Hl in Hk. destruct Hk as [_ [[? _]|(_ & _ & ? & _)]]; congruence. }
  unfold event_write, bind at 1, get_sock at 1. rewrite Hp. unfold bind at 1. intros E.
  destruct (drain_pkts _ _ p s) as [[st s1]| | |] eqn:Ed; [|done..]. apply only_writes_drain in Ed as (K1 & H1 & P1). rewrite Hp in P1.
  destruct st; [|done|unfold bind in E; by destruct (sock_close p s1) as [[[] ?]| | |]].
  unfold bind at 1, get_sock at 1 in E. destruct (heap s1 !! p) as [a1|] eqn:Ha1; [|done]. injection P1 as P1.
  destruct (a_closing a1); [unfold bind in E; by destruct (sock_close p s1) as [[[] ?]| | |]|]. rewrite P1, Hpe in E.
  unfold bind at 1 in E. destruct (sock_fde_del FDE_WRITE p s1) as [[[] s2]| | |] eqn:Ef; [|done..].
  apply (only_writes_upd p) in Ef as (K2 & H2 & _); [|done].
  assert (heap s2 !! q = Some b) as Hb2 by (by rewrite H2, H1).
  unfold bind at 1, sock_ready, bind at 1, get_sock at 1 in E. rewrite Hb2, Hr in E.
  unfold local_socket_ready, sock_fde_add, upd_sock, bind, get_sock, put_sock, modify in E. rewrite Hb2 in E. injection E as <-.
  split; [|apply lookup_insert_eq]. intros x Hx. exact (K2 x (K1 x Hx)).
Qed.

(** ** Writing to a tracker *)

(** A client must not: its connection goes, and the tracker with it. *)
Lemma tracker_enqueue_quiet s q b k : quiet s -> heap s !! q = Some b -> a_enqueue b = tracker_enqueue ->
  wp (device_tracker_enqueue q k) s (fun r s' => quiet s' /\ r = -1).
Proof.
  intros [Wf Hs] Hq Ht. destruct (tracker_peer ∅ s q b Wf Hq Ht) as (p & a & Hpe & Hp & Hl & Hap & Hne).
  destruct (wf_pair ∅ s q b p Wf Hq Hpe) as (a' & Ha' & _ & _ & _ & Wf1). simplify_eq.
  unfold device_tracker_enqueue, device_tracker_close, close_peer. apply wp_bind, wp_bind. eapply wp_get_sock; [exact Hq|]. rewrite Hpe.
  pose proof (wf_cut _ _ _ p a Wf1 ltac:(set_solver) Hp) as Wf2. apply wp_bind, wp_bind. eapply wp_upd_sock; [exact Hp|].
  eapply wp_mono; [apply (close_detached {[q; p]} ∅ _ p (sk_peer None a) 2 false); [done|set_solver|apply lookup_insert_eq|done|done]|].
  intros _ s3 (Wf3 & F3 & _). replace ({[q; p]} ∖ {[p]}) with ({[q]} : gset ptr) in Wf3 by set_solver.
  assert (heap s3 !! q = Some b) as Hq3 by (rewrite (fr_heap _ _ _ F3 q) by set_solver; cbn; by rewrite lookup_insert_ne).
  eapply wp_mono; [apply (free_tracker_detached {[q]} (∅ ∖ {[p]}) s3 q b); [exact Wf3|set_solver|done|done]|].
  intros _ s4 (Wf4 & F4 & _). apply wp_ret. split; [|done]. rewrite difference_diag_L in Wf4. split.
  - eapply wf_weaken; [|exact Wf4]. set_solver.
  - by rewrite (fr_lock _ _ _ F4), (fr_lock _ _ _ F3).
Qed.

Lemma event_read_tracker adbhost s p a q b : quiet s -> heap s !! p = Some a -> a_peer a = Some q -> heap s !! q = Some b ->
  a_enqueue b = tracker_enqueue -> wp (event_read adbhost (a_fd a) p) s (fun _ s' => quiet s').
Proof.
  intros Hq Hp Hpe Hb Ht. unfold event_read. apply wp_bind. eapply wp_mono; [apply read_avail_spec; lia|].
  intros [[d eof] z] s1 (i & -> & _). apply (quiet_io i) in Hq. apply wp_bind. eapply wp_get_sock; [exact Hp|]. rewrite Hpe.
  destruct d as [|x d]; [apply wp_bind, wp_ret; by apply (event_read_end p eof a)|].
  apply wp_bind, wp_bind. unfold sock_enqueue. apply wp_bind. eapply wp_get_sock; [exact Hb|]. rewrite Ht.
  eapply wp_mono; [by apply (tracker_enqueue_quiet _ q b)|]. intros r s2 [Hq2 ->]. apply event_read_tail; [done|by left].
Qed.
