(* ===== verification/ClientSafe.v ===== *)
(** * Everything a client asks for

    From a state between two events, what a client sends to its smart socket is
    collected, refused, answered, or leads to a selected device, to a service or to a
    stream that waits for its device, without a use of a freed object.  Five requests
    rely on more than the invariant; [servable] says on what, and
    [long_listing_overruns], [unlink_raw_twice_corrupts], [refused_emulator_dangles]
    and [tracker_use_after_free] show what happens otherwise. *)

From S2P Require Import Prelude CString Io Wire DList Fdevent Server Transports Sockets Packets SocketInv SocketOps SocketLink PacketsSafe Keeps EngineProps Registry RegistryProps Listeners HostRequest ListenersProps SmartSocket EventProps RequestSafe Preserve StreamProps Pump PumpProps TableSafe ServiceSafe.

(** ** Requests to the server *)

(** What single requests rely on: [devices-l] on descriptions that fit its buffer,
    [disconnect:] on devices that are linked, [emulator:] on slots that are live,
    [list-forward] on devices with serial numbers, [track-devices] on a client that
    takes the first list. *)
Record servable (s : sv) (fd : Z) (service : bytes) : Prop := {
  sv_long : streq service (lit "devices-l") = true ->
    forall ts, mapM (fun t => trs s !! t) (transport_list s) = Some ts -> exists text, list_transports ts 4096 true = Ok text;
  sv_disconnect : has_prefix (lit "disconnect:") service = true -> detachable s;
  sv_emulator : has_prefix (lit "emulator:") service = true -> reg_ok s;
  sv_forwards : streq service (lit "list-forward") = true -> serials_known s;
  sv_track : streq service (lit "track-devices") = true -> writable fd s }.

(** All other requests are always served. *)
Definition harmless (service : bytes) : bool :=
  negb (streq service (lit "devices-l") || has_prefix (lit "disconnect:") service || has_prefix (lit "emulator:") service ||
        streq service (lit "list-forward") || streq service (lit "track-devices")).
Lemma harmless_servable s fd service : harmless service = true -> servable s fd service.
Proof. unfold harmless. rewrite negb_true_iff, !orb_false_iff. intros ((((? & ?) & ?) & ?) & ?). constructor; congruence. Qed.

Lemma asking_quiet m q a c s s' : asking m q a c s -> quiet s' -> heap s' = heap s -> asking m q a c s'.
Proof. intros [_ H1 H2] Hq E. constructor; [done|by rewrite E..]. Qed.

Section requests.
Context (adbhost : bool) (service : bytes) (ttype : transport_type) (serial : option bytes) (m q : ptr).

(** After [handle_host_request]: answered, or a transport was chosen, or nothing
    has happened. *)
Definition handled (c : asocket) (s : sv) (r : Z) (s' : sv) : Prop :=
  (exists a', asking m q a' c s') /\ (r = 0 \/ has_prefix (lit "transport") service = true \/ s' = s).

Lemma select_handled a c s : asking m q a c s -> has_prefix (lit "transport") service = true ->
  wp (select_transport service serial (a_fd c) m) s (handled c s).
Proof.
  intros H Et. unfold select_transport. destruct (if has_prefix (lit "transport-usb") service then _ else _) as [ty se]. apply wp_bind.
  eapply wp_mono; [apply acquire_live; apply H|]. intros [t|w] s' [-> Hl].
  - destruct (as_smart _ _ _ _ _ H) as (Hm & _). apply wp_bind. eapply wp_upd_sock; [exact Hm|]. apply wp_bind, wp_fd_write. intros r i _. apply wp_ret.
    split; [|by right; left]. exists (sk_transport (Some t) a). apply asking_io. by apply (asking_upd m q a).
  - apply wp_bind, wp_fail_with. intros i. apply wp_ret. split; [|by right; left]. exists a. by apply asking_io.
Qed.

Lemma list_handled a c s : asking m q a c s -> servable s (a_fd c) service ->
  wp (do ts <- live_transports; do text <- lift (list_transports ts 4096 (streq service (lit "devices-l")));
      send_msg_with_okay (a_fd c) text ;; ret 0) s (handled c s).
Proof.
  intros H Hs. destruct (as_quiet _ _ _ _ _ H) as [Wf _]. apply wp_bind.
  eapply wp_mono; [apply wp_run, (wp_live_transports ∅ ∅ s (fun _ s' => s' = s) Wf); done|]. intros ts s' [-> E].
  assert (mapM (fun t => trs s !! t) (transport_list s) = Some ts) as Em.
  { unfold live_transports in E. destruct (mapM _ _); [|done]. by injection E as ->. }
  assert (exists text, list_transports ts 4096 (streq service (lit "devices-l")) = Ok text) as [text Et].
  { destruct (streq service (lit "devices-l")) eqn:El; [by apply (sv_long _ _ _ Hs)|].
    destruct (list_lines_short ts 4096 [] ltac:(simpl; lia)) as (k & Ek & _). unfold list_transports. eauto. }
  apply wp_bind. eapply wp_lift; [exact Et|]. apply wp_bind, wp_okay_msg. intros i. apply wp_ret. split; [|by left]. exists a. by apply asking_io.
Qed.

Lemma host_handled a c s : asking m q a c s -> servable s (a_fd c) service ->
  wp (handle_host_request adbhost service ttype serial (a_fd c) m) s (handled c s).
Proof.
  intros H Hs. pose proof (as_quiet _ _ _ _ _ H) as Hq. unfold handle_host_request.
  destruct (streq service (lit "kill")); [apply wp_bind, wp_fd_write; intros r i _; apply wp_stop|].
  destruct (has_prefix (lit "transport") service) eqn:Et; [by apply (select_handled a)|].
  destruct (streq service (lit "devices") || streq service (lit "devices-l")); [by apply (list_handled a)|].
  assert (forall s' text, asking m q a c s' -> wp (send_msg_with_okay (a_fd c) text ;; ret 0) s' (handled c s)) as Hmsg.
  { intros s' text H'. apply wp_bind, wp_okay_msg. intros i. apply wp_ret. split; [|by left]. exists a. by apply asking_io. }
  destruct (has_prefix (lit "disconnect:") service) eqn:Ed.
  { apply wp_bind. eapply wp_mono; [apply (wp_pres same_heap), disconnect_quiet; [apply still_disconnect|done|by apply (sv_disconnect _ _ _ Hs)]|].
    intros text s' [Hq' Eh]. apply Hmsg. by eapply asking_quiet. }
  destruct (streq service (lit "version")); [by apply Hmsg|].
  assert (forall f, wp (do u <- acquire_tr ttype serial; send_msg_with_okay (a_fd c) (f u) ;; ret 0) s (handled c s)) as Hinfo.
  { intros f. apply wp_bind, wp_acquire_tr; [done|]. intros u. by apply Hmsg. }
  destruct (has_prefix (lit "get-serialno") service); [apply (Hinfo (fun u => match u ≫= t_serial with Some x => x | None => lit "unknown" end))|].
  destruct (has_prefix (lit "get-devpath") service); [apply (Hinfo (fun u => match u ≫= t_devpath with Some x => x | None => lit "unknown" end))|].
  destruct (has_prefix (lit "emulator:") service) eqn:Ee.
  { apply wp_bind. eapply wp_mono; [apply (wp_pres same_heap), local_connect_quiet; [apply still_local_connect|by apply (sv_emulator _ _ _ Hs)|done]|].
    intros z s' [Hq' Eh]. apply wp_ret. split; [|by left]. exists a. by eapply asking_quiet. }
  destruct (has_prefix (lit "get-state") service); [apply Hinfo|].
  apply wp_bind. eapply wp_mono; [apply (wp_pres same_heap), forward_quiet; [apply still_forward|done|apply (sv_forwards _ _ _ Hs)]|].
  intros r s' [[Hq' Hr] Eh]. apply wp_ret. split; [exists a; by eapply asking_quiet|]. destruct Hr as [->|[-> ->]]; [by left|by right; right].
Qed.

(** A service, or none of that name. *)
Lemma service_answered a c s : asking m q a c s -> servable s (a_fd c) service ->
  wp (do s2 <- create_host_service_socket service serial;
      match s2 with None => fail_with (a_fd c) "unknown host service" ;; smart_fail m | Some s2 => bind_service m q (a_fd c) s2 end) s (answered q).
Proof.
  intros H Hs. pose proof (as_quiet _ _ _ _ _ H) as Hq. unfold create_host_service_socket, host_service_to_socket. apply wp_bind.
  destruct (streq service (lit "track-devices")) eqn:Et.
  { apply wp_bind. eapply wp_mono; [by apply create_tracker_born|]. intros r s1 Bo. apply wp_ret.
    eapply tracker_bound; [exact H|exact Bo|by apply (sv_track _ _ _ Hs)]. }
  destruct (thread_of service serial).
  - apply wp_bind. eapply wp_mono; [by apply next_fd_quiet|]. intros fd s1 (i & l & -> & Hq1). set (s1 := set_io i (set_conns l s)) in *.
    apply wp_bind. eapply wp_mono; [by apply (create_local_born fd s1)|]. intros r s2 Bo. apply wp_ret.
    eapply (service_bound m q a c s1); [by eapply asking_quiet| |exact Bo].
    pose proof (wf_id _ _ _ (proj1 Hq1)). unfold is_u32. lia.
  - apply wp_ret. apply wp_bind, wp_fail_with. intros i. eapply fail_answered. by apply asking_io.
Qed.

Lemma host_answered a c s : asking m q a c s -> servable s (a_fd c) service ->
  wp (host_request adbhost m service ttype serial) s (answered q).
Proof.
  intros H Hs. destruct (as_smart _ _ _ _ _ H) as (Hm & _ & Hmp). destruct (as_client _ _ _ _ _ H) as (Hc & _).
  unfold host_request, peer_fd. apply wp_bind, wp_bind. eapply wp_get_sock; [exact Hm|]. rewrite Hmp. apply wp_bind. eapply wp_get_sock; [exact Hc|]. apply wp_ret.
  apply wp_bind. eapply wp_mono; [by eapply host_handled|]. intros r s' [(a' & H') Hr].
  destruct (Z.eqb_spec r 0) as [->|Hne]; [by eapply fail_answered|]. destruct (has_prefix (lit "transport") service).
  - destruct (as_smart _ _ _ _ _ H') as (Hm' & _). apply wp_bind. eapply wp_upd_sock; [exact Hm'|]. apply wp_ret.
    pose proof (asking_upd m q a' (sk_pkts (map (with_len 0) (a_pkts a')) a') c s' H' eq_refl) as [Hq' _ (Hc' & _)]. split; [done|]. right. eauto.
  - destruct Hr as [->|[? | ->]]; [done|done|]. by apply (service_answered a).
Qed.
End requests.

(** ** The packets of a client *)

(** What a packet completes may be asked for: a request to the server is
    [servable], and a transport that was chosen is still there. *)
Definition admissible (s : sv) (fd : Z) (a : asocket) (d : bytes) : Prop :=
  forall k, joined a (raw d) = Some k ->
    match host_service (cstr (take (Z.to_nat (unhex (data k) 4)) (drop 4 (data k)))) with
    | Some (service, _, _) => servable s fd service
    | None => forall t, a_transport a = Some t -> is_Some (trs s !! t)
    end.

(** The same as a test, for requests that are always served. *)
Definition may_ask (s : sv) (a : asocket) (d : bytes) : bool :=
  match joined a (raw d) with
  | None => true
  | Some k =>
      match host_service (cstr (take (Z.to_nat (unhex (data k) 4)) (drop 4 (data k)))) with
      | Some (service, _, _) => harmless service
      | None => match a_transport a with None => true | Some t => bool_decide (is_Some (trs s !! t)) end
      end
  end.
Lemma may_ask_admissible s fd a d : may_ask s a d = true -> admissible s fd a d.
Proof.
  unfold may_ask, admissible. intros H k E. rewrite E in H. destruct (host_service _) as [[[service ?] ?]|]; [by apply harmless_servable|].
  intros t Ht. rewrite Ht in H. by apply bool_decide_eq_true in H.
Qed.

Lemma servable_heap s fd service x b : servable s fd service -> servable (upd_heap x b s) fd service.
Proof. intros [H1 H2 H3 H4 H5]. constructor; try done. intros E. destruct (H3 E). by constructor. Qed.

Lemma smart_answered adbhost m q a c s d : asking m q a c s -> admissible s (a_fd c) a d -> wp (smart_socket_enqueue adbhost m (raw d)) s (answered q).
Proof.
  intros H Had. destruct (as_smart _ _ _ _ _ H) as (Hm & _). unfold smart_socket_enqueue. apply wp_bind. eapply wp_get_sock; [exact Hm|].
  destruct (joined a (raw d)) as [k|] eqn:Ej; [|by eapply fail_answered]. specialize (Had k Ej).
  apply wp_bind. eapply wp_upd_sock; [exact Hm|].
  pose proof (asking_upd m q a (sk_pkts [k] a) c s H eq_refl) as H1. set (s1 := upd_heap m (sk_pkts [k] a) s) in *.
  assert (wp (ret 0) s1 (answered q)) as H0.
  { apply wp_ret. destruct H1 as [Hq1 _ (Hc1 & _)]. split; [done|]. right. eauto. }
  destruct (p_len k <? 4); [done|]. destruct (_ || _); [by eapply fail_answered|]. destruct (p_len k <? _); [done|].
  destruct (host_service _) as [[[service ttype] serial]|]; [eapply host_answered; [exact H1|by apply servable_heap]|].
  eapply (device_answered m _ q (sk_pkts [k] a) c); [exact Had|exact H1].
Qed.

(** ** Reading from a client *)

(** What the condition of a read depends on is not changed by it. *)
Lemma servable_read s fd service i : keeps_writable s (set_io i s) -> servable s fd service -> servable (set_io i s) fd service.
Proof. intros Hk [H1 H2 H3 H4 H5]. constructor; try done; [|by intros E; apply Hk, H5]. intros E. destruct (H3 E). by constructor. Qed.

(** The client's socket is read while it talks to its smart socket. *)
Lemma event_read_smart adbhost m q a c s : asking m q a c s -> admissible s (a_fd c) a (take 4096 (inp (a_fd c) s)) ->
  wp (event_read adbhost (a_fd c) q) s (fun _ s' => quiet s').
Proof.
  intros H Had. destruct (as_smart _ _ _ _ _ H) as (Hm & He & _). destruct (as_client _ _ _ _ _ H) as (Hc & Hl & Hcp & _).
  unfold event_read. apply wp_bind. eapply wp_mono; [apply (wp_pres keeps_writable), read_avail_spec; [apply writable_read_avail|lia]|].
  intros [[d eof] z] s1 [(i & -> & Ed & _) Hk]. simpl in Ed. subst d. set (d := take 4096 (inp (a_fd c) s)) in *.
  apply (asking_io _ _ _ _ _ i) in H. apply wp_bind. eapply wp_get_sock; [exact Hc|]. rewrite Hcp.
  assert (admissible (set_io i s) (a_fd c) a d) as Had1.
  { intros k Ek. specialize (Had k Ek). destruct (host_service _) as [[[? ?] ?]|]; [by apply servable_read|done]. }
  destruct d as [|x d'] eqn:Ed.
  { apply wp_bind, wp_ret. apply (event_read_end q eof c); [apply H|exact Hc]. }
  apply wp_bind, wp_bind. unfold sock_enqueue. apply wp_bind. eapply wp_get_sock; [exact Hm|]. rewrite He.
  eapply wp_mono; [apply (smart_answered adbhost m q a c _ (x :: d')); [done|exact Had1]|].
  intros r s2 [Hq2 Hr]. by apply event_read_tail.
Qed.
