(* ===== verification/MainLoop.v ===== *)
(** * The main loop

    Everything the main thread reacts to, in any order: packets of devices, events
    of clients and services, new clients, registrations and removals of devices; and
    what the other threads do to its tables: new devices, devices that are gone, the
    ends of the threads of a transport.  A state that can be reached is between two
    events and its socket graph is in order. *)

From S2P Require Import Prelude CString Io Wire DList Fdevent Server Transports Sockets Packets SocketInv SocketOps SocketLink PacketsSafe Keeps EngineProps Registry RegistryProps Listeners HostRequest ListenersProps SmartSocket EventProps RequestSafe Preserve StreamProps Pump PumpProps TableSafe ServiceSafe ClientSafe.

(** ** Events of a client *)

(** A client that waits for its device and sends meanwhile. *)
Lemma event_read_waiting adbhost s p a : quiet s -> heap s !! p = Some a -> a_peer a = None ->
  wp (event_read adbhost (a_fd a) p) s (fun _ s' => quiet s').
Proof.
  intros Hq Hp Hpe. unfold event_read. apply wp_bind. eapply wp_mono; [apply (read_avail_spec (a_fd a) 4096 4096 [] s); lia|].
  intros [[d eof] z] s1 (i & -> & _). apply wp_bind. eapply wp_get_sock; [exact Hp|]. rewrite Hpe.
  apply wp_bind. assert (forall d : bytes, match d with [] => ret (Some z) | _ :: _ => ret (Some z) end = (ret (Some z) : M (option bool))) as -> by (by intros []).
  apply wp_ret, wp_bind. eapply wp_get_sock; [exact Hp|]. apply (quiet_io i) in Hq. apply wp_when; intros _; [by apply (close_quiet _ p a)|done].
Qed.

(** What may be read from: a client of a device or of a tracker, one that waits for
    its device, a service whose client takes the answer, or a client with a request
    that may be asked for. *)
Definition readable (s : sv) (a : asocket) : Prop :=
  match a_peer a with
  | None => True
  | Some q => exists b, heap s !! q = Some b /\
      match a_enqueue b with
      | remote_enqueue | tracker_enqueue => True
      | local_enqueue => writable (a_fd b) s
      | smart_enqueue => a_pkts a = [] /\ admissible s (a_fd a) b (take 4096 (inp (a_fd a) s))
      end
  end.

Lemma event_read_quiet adbhost s p a : quiet s -> heap s !! p = Some a -> is_local a -> readable s a ->
  wp (event_read adbhost (a_fd a) p) s (fun _ s' => quiet s').
Proof.
  intros Hq Hp Hl Hr. unfold readable in Hr. destruct (a_peer a) as [q|] eqn:Hpe; [|by apply event_read_waiting].
  destruct Hr as (b & Hb & Hk). pose proof Hq as [Wf _]. destruct (wf_peer _ _ _ Wf p a q Hp ltac:(apply not_elem_of_empty) Hpe) as (_ & _ & b' & Hb' & Hbp & _).
  simplify_eq. destruct (a_enqueue b) eqn:He.
  - by apply (event_read_local adbhost s p a q b).
  - pose proof (wf_sock _ _ _ Wf q b Hb) as (Ho & _). rewrite He in Ho. destruct Ho as (_ & _ & _ & [t Ht]).
    destruct (wf_remote _ _ _ Wf q b t Hb He Ht) as (u & Hu & _). eapply wp_mono; [by apply (event_read_remote s p a q b t u)|]. by intros _ s' [? _].
  - destruct Hk as [Hpk Had]. apply (event_read_smart adbhost q p b a); [|done]. constructor; [done|done|]. split_and!; try done.
    destruct (a_closing a) eqn:Hc; [|done]. by rewrite (wf_detached _ _ _ Wf p a Hp Hc) in Hpe.
  - by apply (event_read_tracker adbhost s p a q b).
Qed.

Lemma client_event_quiet adbhost ev s p a : quiet s -> heap s !! p = Some a -> is_local a ->
  (has ev FDE_WRITE = true -> wants FDE_WRITE a = true) -> (has ev FDE_READ = true -> readable s a) ->
  wp (local_socket_event_func adbhost (a_fd a) ev p) s (fun _ s' => quiet s').
Proof.
  intros Hq Hp Hl Hw Hr. pose proof Hq as [Wf Hs]. unfold local_socket_event_func. apply wp_bind. destruct (has ev FDE_WRITE).
  - eapply wp_mono; [apply wp_run; by apply (event_write_spec s p a); auto|]. intros [] s1 [(Wf1 & Hs1 & Hres) Hrun]; apply wp_when; intros Hg; try done.
    destruct Hres as (a' & Hp' & Hl' & Hpe' & _ & [q Hq'] & Hfd & _ & _ & _ & Hk). rewrite <- Hfd. apply event_read_quiet; [done|done|done|].
    specialize (Hr Hg). unfold readable in *. rewrite Hq'. rewrite <- Hpe', Hq' in Hr. destruct Hr as (b & Hb & Hkind).
    destruct (wf_peer _ _ _ Wf1 p a' q Hp' ltac:(apply not_elem_of_empty) Hq') as (_ & _ & c & Hc & _). exists c. split; [done|].
    destruct (Hk q c Hc) as (b1 & Hb1 & Ek & _). simplify_eq. rewrite Ek. destruct (a_enqueue b) eqn:He; try done.
    + destruct (event_write_writable s s1 p a q b Hq Hp ltac:(congruence) Hb He Hrun) as [Hkw Hq1]. rewrite Hc in Hq1. injection Hq1 as ->. by apply Hkw.
    + destruct Hkind as [Hpk _]. exfalso. by apply (wf_wants _ _ _ Wf p a Hp Hl ltac:(set_solver)); [apply Hw|].
  - apply wp_ret. apply wp_when; intros Hg; [|done]. apply event_read_quiet; [done|done|done|]. by apply Hr.
Qed.

(** ** The events of the loop *)

Inductive main_event :=
  | MPacket (t : ptr) (p : apacket)
  | MClient (x : ptr) (ev : Z)
  | MAccept
  | MForward (l : ptr)
  | MRegistration (capacity : nat)
  | MThreadEnd (t : ptr)
  | MConnect (fd : Z) (serial : bytes) (port : Z) (local : bool)
  | MUsb (usb : nat) (serial devpath : option bytes) (writeable : bool)
  | MUsbGone (usb : nat).

Definition react (env : auth_env) (adbhost : bool) (e : main_event) : M unit :=
  match e with
  | MPacket t p => handle_packet env p t
  | MClient x ev => do a <- get_sock x; local_socket_event_func adbhost (a_fd a) ev x
  | MAccept => ss_listener_event_func
  | MForward l => listener_event_func l
  | MRegistration capacity => transport_registration_func capacity
  | MThreadEnd t => kick_transport t ;; transport_unref t
  | MConnect fd serial port local => register_socket_transport fd serial port local ;; ret tt
  | MUsb usb serial devpath writeable => register_usb_transport usb serial devpath writeable
  | MUsbGone usb => unregister_usb_transport usb
  end.

(** The head of the registration queue: a transport to start, which is pending and
    has not been touched since it was made, or one to remove, whose links can be
    undone. *)
Definition registrable (s : sv) : Prop :=
  exists t u r, trs s !! t = Some u /\
    (actions s = (t, 1) :: r /\ t_stale u = None /\ t_disconnects u = [] /\ t ∉ transport_list s /\ t ∈ pending_list s \/
     actions s = (t, 0) :: r /\ unlinkable s t u).

(** When an event can happen: what the threads and [select] report is about objects
    that are there. *)
Definition enabled (s : sv) (e : main_event) : Prop :=
  match e with
  | MPacket t p => is_Some (trs s !! t) /\ deliverable p
  | MClient x ev => exists a, heap s !! x = Some a /\ is_local a /\
      (has ev FDE_WRITE = true -> wants FDE_WRITE a = true) /\ (has ev FDE_READ = true -> readable s a)
  | MAccept => True
  | MForward l => exists a t, listeners s !! l = Some a /\ l_transport a = Some t
  | MRegistration _ => registrable s
  | MThreadEnd t => is_Some (trs s !! t)
  | MConnect _ _ _ _ => reg_ok s
  | MUsb _ _ _ _ => True
  | MUsbGone _ => detachable s
  end.

Inductive reach (env : auth_env) (adbhost : bool) (s0 : sv) : sv -> Prop :=
  | reach_start : reach env adbhost s0 s0
  | reach_step s e s' : reach env adbhost s0 s -> enabled s e -> react env adbhost e s = Ok (tt, s') -> reach env adbhost s0 s'.

Lemma react_quiet env adbhost s e : quiet s -> enabled s e -> wp (react env adbhost e) s (fun _ s' => quiet s').
Proof.
  intros Hq He. destruct e as [t p|x ev| |l|capacity|t|fd serial port local|usb serial devpath w|usb]; cbn [react enabled] in *.
  - destruct He as [Ht [Hp Hz]]. apply handle_packet_quiet; [done|done|by apply packet_ok_wire|done].
  - destruct He as (a & Ha & Hl & Hw & Hr). apply wp_bind. eapply wp_get_sock; [exact Ha|]. by apply client_event_quiet.
  - by apply accept_smart.
  - destruct He as (a & t & Hl & Ht). by eapply accept_forward.
  - destruct He as (t & u & r & Hu & [(Ha & Hst & Hd & Hn & Hp)|(Ha & Hl)]).
    + eapply wp_mono; [by apply (registration_spec capacity s t u r)|]. by intros _ s' [? _].
    + eapply wp_mono; [by apply (removal_spec capacity s t u r)|]. by intros _ s' [? _].
  - destruct He as [u Hu]. eapply wp_mono; [by apply (thread_end_spec t u)|]. by intros _ s' [? _].
  - apply wp_bind. eapply wp_mono; [by apply register_quiet|]. intros r s' Hq'. by apply wp_ret.
  - by apply register_usb_quiet.
  - by apply unregister_usb_quiet.
Qed.


(** ** A session *)

(** A client connects, chooses the terminal, opens a shell, and is answered. *)
Definition demo_start : sv :=
  set_conns [(5, mkfio [RBytes (framed (lit "host:transport-any")); RAgain; RBytes (framed (lit "shell:ls")); RAgain; RAgain] [] [])] demo.
Definition demo_react (e : main_event) (s : sv) : sv := after (react no_auth false e) s.
Definition session_states : list sv :=
  let s1 := demo_react MAccept demo_start in
  let s2 := demo_react (MClient 100%nat FDE_READ) s1 in
  let s3 := demo_react (MClient 100%nat FDE_READ) s2 in
  [s1; s2; s3].
Definition session (n : nat) : sv := default demo_start (session_states !! n).

Definition session_sock (n : nat) (p : ptr) : asocket := default blank_sock (heap (session n) !! p).

Lemma demo_start_quiet : quiet demo_start.
Proof. apply quiet_conns, demo_quiet. Qed.

(** Every request may be made in it, those with a condition included. *)
Lemma session_servable service : servable (session 0) 5 service.
Proof.
  assert (transport_list (session 0) = [1%nat] /\ trs (session 0) = {[1%nat := demo_tr]} /\ pending_list (session 0) = [] /\
    locals (session 0) = [] /\ next_ptr (session 0) = 102%nat /\ listeners (session 0) = ∅) as (El & Et & Ep & Es & En & Ei) by (by vm_compute).
  assert (forall t, t ∈ [1%nat] -> trs (session 0) !! t = Some demo_tr) as Ht.
  { intros t ->%list_elem_of_singleton. by rewrite Et, lookup_singleton_eq. }
  constructor; intros _.
  - intros ts. rewrite El, Et. intros [= <-]. eexists. by vm_compute.
  - unfold detachable. rewrite El. split; [apply NoDup_singleton|]. intros t H. rewrite El. split; [done|]. exists demo_tr. auto.
  - constructor.
    + intros t. rewrite Ep, El. intros H. exists demo_tr. by apply Ht.
    + intros t. rewrite Es. intros H. by apply elem_of_nil in H.
    + intros t [u Hu]. rewrite Et in Hu. apply lookup_singleton_Some in Hu as [<- _]. rewrite En. lia.
  - intros l a t. rewrite Ei, lookup_empty. done.
  - by vm_compute.
Qed.

Lemma session_request n a b : heap (session n) !! 100%nat = Some a -> a_peer a = Some 101%nat -> a_enqueue a = local_enqueue ->
  heap (session n) !! 101%nat = Some b -> a_enqueue b = smart_enqueue -> a_pkts a = [] ->
  may_ask (session n) b (take 4096 (inp (a_fd a) (session n))) = true -> enabled (session n) (MClient 100%nat FDE_READ).
Proof.
  intros Ha Hp Hl Hb Hs Hk Had. exists a. split_and!; [done|done|done|]. intros _. unfold readable. rewrite Hp. exists b. split; [done|]. rewrite Hs.
  split; [done|]. by apply may_ask_admissible.
Qed.

Lemma session_reach : reach no_auth false demo_start (session 2).
Proof.
  assert (reach no_auth false demo_start (session 0)) as H0.
  { apply (reach_step _ _ _ demo_start MAccept); [constructor|done|by vm_compute]. }
  assert (reach no_auth false demo_start (session 1)) as H1.
  { apply (reach_step _ _ _ (session 0) (MClient 100%nat FDE_READ)); [done| |by vm_compute].
    apply (session_request 0 (session_sock 0 100%nat) (session_sock 0 101%nat)); by vm_compute. }
  apply (reach_step _ _ _ (session 1) (MClient 100%nat FDE_READ)); [done| |by vm_compute].
  apply (session_request 1 (session_sock 1 100%nat) (session_sock 1 101%nat)); by vm_compute.
Qed.

