(* ===== verification/Services.v ===== *)
(** * Host services that run in a thread of their own (services.c)

    [wait_for_state] waits for a device; [connect_service] connects to a device
    over TCP or to an emulator and reports in a sentence what became of it.  Each
    writes its answer to its end of the socket pair whose other end the client is
    bound to, and closes it. *)

From S2P Require Import Prelude CString Io Wire DList Fdevent Server Transports Sockets Registry HostRequest.

Definition DEFAULT_ADB_LOCAL_TRANSPORT_PORT : Z := 5555.

(** [wait_for_state]; [views] are the transport lists its polls see. *)
Definition wait_for_state (fd : Z) (transport : transport_type) (serial : option bytes) (state : Z)
  (views : list (list (ptr * atransport))) : M unit :=
  match acquire_wait state transport serial views with
  | Acquired _ => fd_writex fd (lit "OKAY") ;; fd_close fd
  | Refused err => sendfailmsg fd (lit err) ;; fd_close fd
  | Retry => diverge
  end.

(** [connect_device]: what it leaves in [buffer].  [hostbuf] is filled by
    [strncpy], which does not terminate it when the name has 99 characters or
    more, and [port] is not set when the string ends at the colon. *)
Definition host_and_port (host : bytes) : res (bytes + bytes * Z) :=
  match split_chr (ch 58) host with
  | Some (name, port) =>
      if (100 <=? length name)%nat then Ok (inl (lit "bad host name " ++ host))
      else
        match sscanf_d port with
        | ScanFail => Ok (inl (lit "bad port number :" ++ port))
        | ScanEof => UB "port is not initialised"
        | Scan v => Ok (inr (name, v))
        end
  | None =>
      if (99 <=? length host)%nat then UB "hostbuf is not terminated"
      else Ok (inr (host, DEFAULT_ADB_LOCAL_TRANSPORT_PORT))
  end.

Definition connect_device (host : bytes) (buffer_size : nat) : M bytes :=
  do hp <- lift (host_and_port host);
  match hp with
  | inl err => ret (snprintf buffer_size err)
  | inr (hostbuf, port) =>
      let serial := snprintf 100 (hostbuf ++ ch 58 :: fmt_dec port) in
      do fd <- next_fd;
      if fd <? 0 then ret (snprintf buffer_size (lit "unable to connect to " ++ host ++ ch 58 :: fmt_dec port))
      else
        do ok <- register_socket_transport fd serial port false;
        if ok : bool then ret (snprintf buffer_size (lit "connected to " ++ serial))
        else fd_close fd ;; ret (snprintf buffer_size (lit "already connected to " ++ serial))
  end.

(** [connect_emulator]. *)
Definition connect_emulator (adbhost : bool) (port_spec : bytes) (buffer_size : nat) : M bytes :=
  match split_chr (ch 44) port_spec with
  | None => ret (snprintf buffer_size (lit "unable to parse '" ++ port_spec ++ lit "' as <console port>,<adb port>"))
  | Some (console, adb) =>
      let console_port := to_int (strtol0 console) in
      let adb_port := to_int (strtol0 adb) in
      if negb ((0 <? console_port) && (0 <? adb_port)) then
        ret (snprintf buffer_size (lit "Invalid port numbers: Expected positive numbers, got '" ++ port_spec ++ lit "'"))
      else
        do known_emulator <- find_emulator_transport_by_adb_port adb_port;
        match known_emulator with
        | Some _ => ret (snprintf buffer_size (lit "Emulator on port " ++ fmt_dec adb_port ++ lit " already registered."))
        | None =>
            do candidate_slot <- get_available_local_transport_index;
            match candidate_slot with
            | None => ret (snprintf buffer_size (lit "Cannot accept more emulators."))
            | Some _ =>
                do r <- local_connect_arbitrary_ports adbhost console_port adb_port;
                ret (snprintf buffer_size
                  ((if r =? 0 then lit "Connected to emulator on ports " else lit "Could not connect to emulator on ports ") ++
                   fmt_dec console_port ++ ch 44 :: fmt_dec adb_port))
            end
        end
  end.

(** [connect_service]: the sentence, and the frame it is sent in. *)
Definition connect_text (adbhost : bool) (host : bytes) : M bytes :=
  if has_prefix (lit "emu:") host then connect_emulator adbhost (drop 4 host) 4096 else connect_device host 4096.
Definition connect_frame (buf : bytes) : bytes := snprintf 4096 (fmt_hex 4 (Z.of_nat (length buf)) ++ buf).
Definition connect_service (adbhost : bool) (fd : Z) (host : bytes) : M unit :=
  do buf <- connect_text adbhost host;
  fd_writex fd (connect_frame buf) ;;
  fd_close fd.

(** [service_bootstrap_func] runs the function its thread was created for. *)
Definition service_bootstrap_func (adbhost : bool) (fd : Z) (sti : service_thread)
  (views : list (list (ptr * atransport))) : M unit :=
  match sti with
  | WaitForState transport serial state => wait_for_state fd transport serial state views
  | ConnectService host => connect_service adbhost fd host
  end.
