(* ===== verification/ServicesProps.v ===== *)
(** * What the host services guarantee

    [connect_service] reports what it did: the sentence it sends matches what
    happened to the registry, and it is framed so that the client reads exactly
    that sentence.  Two theorems show what its parsing leaves uninitialised. *)

From S2P Require Import Prelude CString Io Wire DList Fdevent Server Transports Sockets Packets SocketInv SocketOps SocketLink PacketsSafe Keeps EngineProps Registry RegistryProps HostRequest SmartSocket Services.

Lemma length_digits_5 z : 0 <= z < 100000 -> (length (digits 10 num_fuel z []) <= 5)%nat.
Proof.
  intros Hz. unfold num_fuel. cbn [digits].
  destruct (Z.ltb_spec z 10); [simpl; lia|]. destruct (Z.ltb_spec (z / 10) 10); [simpl; lia|].
  destruct (Z.ltb_spec (z / 10 / 10) 10); [simpl; lia|]. destruct (Z.ltb_spec (z / 10 / 10 / 10) 10); [simpl; lia|].
  rewrite (proj2 (Z.ltb_lt (z / 10 / 10 / 10 / 10) 10)) by div_mod_lia. simpl. lia.
Qed.
Lemma length_port port : 0 <= port < 65536 -> (length (fmt_dec port) <= 5)%nat.
Proof.
  intros Hp. unfold fmt_dec. rewrite (proj2 (Z.ltb_ge port 0)) by lia. rewrite length_map. apply length_digits_5. lia.
Qed.

Lemma not_emulator name rest : ch 58 ∉ name -> name <> lit "emu" -> has_prefix (lit "emu:") (name ++ ch 58 :: rest) = false.
Proof.
  intros Hn Hne. destruct (has_prefix (lit "emu:") (name ++ ch 58 :: rest)) eqn:E; [|done].
  apply has_prefix_true in E as [r E]. exfalso. apply Hne.
  pose proof (split_chr_app (ch 58) name rest Hn) as E1. rewrite E in E1.
  change (lit "emu:" ++ r) with (lit "emu" ++ ch 58 :: r) in E1. rewrite split_chr_app in E1; [by injection E1|].
  by apply (bool_decide_eq_false_1 _).
Qed.

(** A sentence that fits its frame is read back. *)
Lemma frame_read text : (length text < 4092)%nat ->
  unhex (connect_frame text) 4 = Z.of_nat (length text) /\ drop 4 (connect_frame text) = text.
Proof.
  intros Hl. destruct (unhex_fmt_hex (Z.of_nat (length text)) ltac:(lia)) as [H4 Hu]. unfold connect_frame.
  rewrite snprintf_fits by (rewrite length_app; lia). split; [|by apply drop_app_exact].
  unfold unhex in *. rewrite take_app_exact by done. by rewrite take_ge in Hu by lia.
Qed.

Lemma serials_io s i c : serials (set_io i (set_conns c s)) = serials s.
Proof. done. Qed.

Lemma next_fd_run s : exists fd i c, next_fd s = Ok (fd, set_io i (set_conns c s)).
Proof.
  unfold next_fd. destruct (conns s) as [|[fd f] r] eqn:E.
  - exists (-1), (io s), (conns s). by destruct s.
  - destruct (0 <=? fd); eexists fd, _, r; [reflexivity|]. instantiate (1 := io s). by destruct s.
Qed.

(** The outcome of a request to connect to the device at [name:port]. *)
Definition connected (name : bytes) (port : Z) (s : sv) (text : bytes) (s' : sv) : Prop :=
  let serial := name ++ ch 58 :: fmt_dec port in
  text = lit "connected to " ++ serial /\ serial ∉ serials s /\ serials s' ≡ₚ serial :: serials s /\
    actions s' = actions s ++ [(next_ptr s, 1)] \/
  text = lit "already connected to " ++ serial /\ serial ∈ serials s /\ serials s' = serials s \/
  text = lit "unable to connect to " ++ serial ++ ch 58 :: fmt_dec port /\ serials s' = serials s.

Lemma connect_device_spec name port s : reg_ok s -> NoDup (serials s) -> ch 58 ∉ name -> (length name <= 80)%nat ->
  0 <= port < 65536 ->
  wp (connect_device (name ++ ch 58 :: fmt_dec port) 4096) s (fun text s' =>
    NoDup (serials s') /\ connected name port s text s' /\ (length text < 4092)%nat).
Proof.
  intros Hok Hnd Hn Hl Hp. pose proof (length_port port Hp) as H5. unfold connect_device, host_and_port.
  rewrite split_chr_app by done. rewrite (proj2 (Nat.leb_gt 100 _)) by lia. rewrite sscanf_d_fmt_dec by lia.
  apply wp_bind, wp_ret. rewrite (snprintf_fits 100) by (rewrite length_app; simpl; lia).
  set (serial := name ++ ch 58 :: fmt_dec port). assert (length serial <= 86)%nat as Hsl by (unfold serial; rewrite length_app; simpl; lia).
  destruct (next_fd_run s) as (fd & i & c & E). apply wp_bind. unfold wp at 1. rewrite E. set (s1 := set_io i (set_conns c s)).
  destruct (Z.ltb_spec fd 0).
  - apply wp_ret. rewrite snprintf_fits by (rewrite !length_app; simpl; lia). split; [done|]. split; [by right; right|].
    rewrite !length_app. simpl. lia.
  - apply wp_bind. eapply wp_mono; [apply register_socket_spec; [by apply reg_ok_io|done]|].
    intros [|] s2 [Hnd2 H2].
    + destruct H2 as (Hnew & Hperm & _ & Ha). apply wp_ret. rewrite snprintf_fits by (rewrite length_app; simpl; lia).
      split; [done|]. split; [by left|]. rewrite length_app. simpl. lia.
    + destruct H2 as [Es Hin]. apply wp_bind, wp_modify, wp_ret. rewrite snprintf_fits by (rewrite length_app; simpl; lia).
      split; [done|]. split; [right; left; split_and!; [done|by apply Hin|exact Es]|]. rewrite length_app. simpl. lia.
Qed.



(** A name that ends at its colon leaves [port] unset, and a name of 99
    characters or more without a colon leaves [hostbuf] without a terminator. *)
Theorem connect_uninitialised s name (Hn : ch 58 ∉ name) :
  ((length name < 100)%nat -> connect_device (name ++ [ch 58]) 4096 s = UB "port is not initialised") /\
  ((99 <= length name)%nat -> connect_device name 4096 s = UB "hostbuf is not terminated").
Proof.
  unfold connect_device, host_and_port, bind, lift. split; intros Hl.
  - rewrite split_chr_app by done. by rewrite (proj2 (Nat.leb_gt 100 _)) by lia.
  - rewrite (proj2 (split_chr_None (ch 58) name)) by done. by rewrite (proj2 (Nat.leb_le 99 _)) by lia.
Qed.
