(* ===== verification/Client.v ===== *)
(** * The client library (adb_client.c)

    A client of the server: a command of the command line connects, names the
    transport and the service it wants, and reads the answer.  The state holds
    the client's globals and the descriptors it has open; the descriptors that
    [connect] will return and the outcomes of [launch_server] are given in
    advance.  Code runs in the monad [C]. *)

From S2P Require Import Prelude CString Io Wire Server HostRequest.

(** ** Local files *)

(** What a name of the local file system stands for: a regular file with the
    answers its reads will give (None when it cannot be opened), a link, a
    directory with the names [readdir] lists, another kind of file, or a file the
    program created, whose contents are what was written on the descriptor. *)
Inductive entry :=
  | EReg (reads : option (list rres)) (size mode mtime : Z)
  | ELink (target : option bytes) (size mode mtime : Z)
  | EDir (names : option (list bytes)) (mode : Z)
  | ESpecial (mode : Z)
  | ENew (fd : Z) (mode mtime : Z).
Inductive mkres := MkOk | MkExists | MkFail.
Inductive attempt := AFstat | AUnlink | AUtime | AChmod.

(** The local file system: its entries by canonical name; how the kernel resolves
    a path, following a last link or not; the outcomes of the calls that create a
    file, with the answers its writes will give; the outcomes of [mkdir] and of
    the calls that can only succeed or fail; the umask. *)
Record local := mklocal {
  l_tree : gmap bytes entry;
  l_name : bool -> bytes -> bytes;
  l_creates : list (option (list wres));
  l_mkdir : bytes -> mkres;
  l_ok : attempt -> bytes -> bool;
  l_umask : Z }.

(** ** State and monad *)

Record client := mkclient {
  c_transport : transport_type;       (* __adb_transport *)
  c_serial : option bytes;            (* __adb_serial *)
  c_server_port : Z;                  (* __adb_server_port *)
  c_server_name : option bytes;       (* __adb_server_name *)
  c_error : bytes;                    (* __adb_error *)
  c_fds : gmap Z fio;
  c_conns : list (Z * fio);
  c_launches : list bool;
  c_out : bytes;                      (* standard output *)
  c_closed : list (Z * fio);          (* the descriptors closed so far *)
  c_local : local }.

Definition with_error (e : bytes) (c : client) : client :=
  mkclient (c_transport c) (c_serial c) (c_server_port c) (c_server_name c) e (c_fds c) (c_conns c) (c_launches c) (c_out c) (c_closed c) (c_local c).
Definition with_fds (f : gmap Z fio) (c : client) : client :=
  mkclient (c_transport c) (c_serial c) (c_server_port c) (c_server_name c) (c_error c) f (c_conns c) (c_launches c) (c_out c) (c_closed c) (c_local c).
Definition with_conns (l : list (Z * fio)) (c : client) : client :=
  mkclient (c_transport c) (c_serial c) (c_server_port c) (c_server_name c) (c_error c) (c_fds c) l (c_launches c) (c_out c) (c_closed c) (c_local c).
Definition with_launches (l : list bool) (c : client) : client :=
  mkclient (c_transport c) (c_serial c) (c_server_port c) (c_server_name c) (c_error c) (c_fds c) (c_conns c) l (c_out c) (c_closed c) (c_local c).
Definition with_stdout (o : bytes) (c : client) : client :=
  mkclient (c_transport c) (c_serial c) (c_server_port c) (c_server_name c) (c_error c) (c_fds c) (c_conns c) (c_launches c) o (c_closed c) (c_local c).
Definition with_closed (l : list (Z * fio)) (c : client) : client :=
  mkclient (c_transport c) (c_serial c) (c_server_port c) (c_server_name c) (c_error c) (c_fds c) (c_conns c) (c_launches c) (c_out c) l (c_local c).
Definition with_local (l : local) (c : client) : client :=
  mkclient (c_transport c) (c_serial c) (c_server_port c) (c_server_name c) (c_error c) (c_fds c) (c_conns c) (c_launches c) (c_out c) (c_closed c) l.
Definition with_target (t : transport_type) (s : option bytes) (c : client) : client :=
  mkclient t s (c_server_port c) (c_server_name c) (c_error c) (c_fds c) (c_conns c) (c_launches c) (c_out c) (c_closed c) (c_local c).
Definition with_server (p : Z) (n : option bytes) (c : client) : client :=
  mkclient (c_transport c) (c_serial c) p n (c_error c) (c_fds c) (c_conns c) (c_launches c) (c_out c) (c_closed c) (c_local c).

Definition C (A : Type) : Type := client -> res (A * client).
Definition cret {A} (a : A) : C A := fun c => Ok (a, c).
Definition cbind {A B} (m : C A) (k : A -> C B) : C B :=
  fun c => match m c with Ok (a, c1) => k a c1 | Exit w => Exit w | UB w => UB w | Timeout => Timeout end.
Definition cstop {A} (why : string) : C A := fun _ => Exit why.
Definition cundefined {A} (why : string) : C A := fun _ => UB why.
Definition cgets {A} (f : client -> A) : C A := fun c => Ok (f c, c).
Definition cmodify (f : client -> client) : C unit := fun c => Ok (tt, f c).
Definition clift {A} (m : res A) : C A := fun c => rbind m (fun a => Ok (a, c)).
Arguments cstop {A} why%_string.
Arguments cundefined {A} why%_string.

Declare Scope client_scope.
Delimit Scope client_scope with client.
Notation "'do' x <- m ; k" := (cbind m (fun x => k))
  (at level 200, x name, m at level 99, k at level 200) : client_scope.
Notation "'do' ' p <- m ; k" := (cbind m (fun x => match x with p => k end))
  (at level 200, p pattern, m at level 99, k at level 200) : client_scope.
Notation "m ;; k" := (cbind m (fun _ => k)) (at level 100, k at level 200, right associativity) : client_scope.
Open Scope client_scope.

(** ** Descriptors *)

(** A call on a descriptor that is not open fails. *)
Definition c_readx (fd : Z) (n : nat) : C (option bytes) :=
  do m <- cgets c_fds;
  match m !! fd with
  | None => cret (if (n =? 0)%nat then Some [] else None)
  | Some f =>
      do '(r, i) <- clift (readx n (io_in f));
      cmodify (with_fds (<[fd := mkfio i (io_wr f) (io_sent f)]> m)) ;;
      cret r
  end.
Definition c_writex (fd : Z) (d : bytes) : C bool :=
  do m <- cgets c_fds;
  match m !! fd with
  | None => cret (bool_decide (d = []))
  | Some f =>
      do '(ok, sent, w) <- clift (writex d (io_wr f));
      cmodify (with_fds (<[fd := mkfio (io_in f) w (io_sent f ++ sent)]> m)) ;;
      cret ok
  end.
Definition c_read (fd : Z) (n : nat) : C ioret :=
  do m <- cgets c_fds;
  match m !! fd with
  | None => cret Err
  | Some f =>
      let '(r, i) := adb_read n (io_in f) in
      cmodify (with_fds (<[fd := mkfio i (io_wr f) (io_sent f)]> m)) ;;
      cret r
  end.
Definition c_close (fd : Z) : C unit := cmodify (fun c =>
  match c_fds c !! fd with
  | None => c
  | Some f => with_closed (c_closed c ++ [(fd, f)]) (with_fds (delete fd (c_fds c)) c)
  end).

(** [socket_loopback_client] and [socket_network_client]. *)
Definition c_connect : C Z := fun c =>
  match c_conns c with
  | [] => Ok (-1, c)
  | (fd, f) :: r => Ok (fd, if 0 <=? fd then with_fds (<[fd := f]> (c_fds c)) (with_conns r c) else with_conns r c)
  end.

Definition set_error (e : bytes) : C unit := cmodify (with_error e).
Definition print (s : bytes) : C unit := cmodify (fun c => with_stdout (c_out c ++ s) c).

(** [launch_server]: does the new server answer? *)
Definition launch_server : C bool := fun c =>
  match c_launches c with [] => Ok (false, c) | b :: r => Ok (b, with_launches r c) end.

(** ** Globals *)

Definition adb_set_transport (type : transport_type) (serial : option bytes) : C unit := cmodify (with_target type serial).
Definition adb_set_tcp_specifics (server_port : Z) : C unit := cmodify (fun c => with_server server_port (c_server_name c) c).
Definition adb_set_tcp_name (hostname : option bytes) : C unit := cmodify (fun c => with_server (c_server_port c) hostname c).

(** ** Requests *)

(** [adb_status]: 0 after OKAY, -1 with the reason in [__adb_error] otherwise. *)
Definition adb_status (fd : Z) : C Z :=
  do b <- c_readx fd 4;
  match b with
  | None => set_error (lit "protocol fault (no status)") ;; cret (-1)
  | Some buf =>
      if bool_decide (buf = lit "OKAY") then cret 0
      else if negb (bool_decide (buf = lit "FAIL")) then
        set_error (lit "protocol fault (status " ++
          concat (map (fun x => fmt_hex 2 (b2z x) ++ lit " ") (take 3 buf)) ++
          concat (map (fun x => fmt_hex 2 (b2z x)) (drop 3 buf)) ++ lit "?!)") ;;
        cret (-1)
      else
        do l <- c_readx fd 4;
        match l with
        | None => set_error (lit "protocol fault (status len)") ;; cret (-1)
        | Some lb =>
            let len := wrap32 (strtoul16 (cstr lb)) in
            let len := if 255 <? len then 255 else len in
            do r <- c_readx fd (Z.to_nat len);
            match r with
            | None => set_error (lit "protocol fault (status read)") ;; cret (-1)
            | Some reason => set_error (cstr reason) ;; cret (-1)
            end
        end
  end.

(** The length header and the name; false when a write failed. *)
Definition send_service (fd : Z) (service : bytes) : C bool :=
  do ok <- c_writex fd (snprintf 5 (fmt_hex 4 (Z.of_nat (length service))));
  if negb ok then cret false else c_writex fd service.

Definition transport_service (c : client) : option bytes :=
  match c_serial c with
  | Some serial => Some (snprintf 64 (lit "host:transport:" ++ serial))
  | None =>
      match c_transport c with
      | kTransportUsb => Some (lit "host:transport-usb")
      | kTransportLocal => Some (lit "host:transport-local")
      | kTransportAny => Some (lit "host:transport-any")
      | kTransportHost => None
      end
  end.

(** [switch_socket_transport]: 0 or -1. *)
Definition switch_socket_transport (fd : Z) : C Z :=
  do ts <- cgets transport_service;
  match ts with
  | None => cret 0
  | Some service =>
      do ok <- send_service fd service;
      if negb ok then set_error (lit "write failure during connection") ;; c_close fd ;; cret (-1)
      else
        do st <- adb_status fd;
        if negb (st =? 0) then c_close fd ;; cret (-1) else cret 0
  end.

(** [_adb_connect]: a descriptor, -1, or -2 when there is no server. *)
Definition _adb_connect (service : bytes) : C Z :=
  let len := length service in
  if (len <? 1)%nat || (1024 <? len)%nat then set_error (lit "service name too long") ;; cret (-1)
  else
    do fd <- c_connect;
    if fd <? 0 then set_error (lit "cannot connect to daemon") ;; cret (-2)
    else
      do sw <- (if has_prefix (lit "host") service then cret 0 else switch_socket_transport fd);
      if negb (sw =? 0) then cret (-1)
      else
        do ok <- send_service fd service;
        if negb ok then set_error (lit "write failure during connection") ;; c_close fd ;; cret (-1)
        else
          do st <- adb_status fd;
          if negb (st =? 0) then c_close fd ;; cret (-1) else cret fd.

(** [sscanf(buf, "%04x", &version)]: at most four characters of a hexadecimal
    number. *)
Definition sscanf_04x (s : bytes) : option Z :=
  let '(neg, r) := sign_prefix (take 4 (skip_spaces s)) in
  let r' := match r with
            | z :: x :: t => if (b2z z =? 48) && ((b2z x =? 120) || (b2z x =? 88)) then t else r
            | _ => r
            end in
  match fst (digit_prefix 16 r') with
  | [] => None
  | ds => Some (to_int (if neg then - of_digits 16 ds else of_digits 16 ds))
  end.

(** The answer to "host:version", read into a buffer of 100 bytes that was only
    terminated at its fifth byte; None is [goto error]. *)
Definition read_version (fd : Z) : C (option Z) :=
  do b <- c_readx fd 4;
  match b with
  | None => cret None
  | Some h =>
      let n := strtoul16 (cstr h) in
      if 100 <? n then cret None
      else
        do d <- c_readx fd (Z.to_nat n);
        match d with
        | None => cret None
        | Some db =>
            c_close fd ;;
            let buf := db ++ drop (length db) (h ++ [x00]) in
            if bool_decide (x00 ∈ buf) then cret (sscanf_04x (cstr buf))
            else cundefined "version buffer is not terminated"
        end
  end.

(** The last part of [adb_connect]. *)
Definition connect_to_service (service : bytes) : C Z :=
  if streq service (lit "host:start-server") then cret 0 else _adb_connect service.

(** [start_server:]. *)
Definition start_server (service : bytes) : C Z :=
  do ok <- launch_server;
  if negb ok then cret (-1) else connect_to_service service.

(** A server of another version is killed and replaced. *)
Definition replace_server (service : bytes) : C Z :=
  do k <- _adb_connect (lit "host:kill");
  c_close k ;;
  start_server service.

(** [adb_connect]. *)
Definition adb_connect (service : bytes) : C Z :=
  do fd <- _adb_connect (lit "host:version");
  if fd =? -2 then
    do name <- cgets c_server_name;
    match name with Some _ => cret fd | None => start_server service end
  else if fd <? 0 then
    do e <- cgets c_error;
    if streq e (lit "unknown host service") then replace_server service else cret fd
  else
    do version <- read_version fd;
    match version with
    | None => c_close fd ;; cret (-1)
    | Some v => if v =? ADB_SERVER_VERSION then connect_to_service service else replace_server service
    end.

(** [adb_command] and [adb_query]. *)
Definition adb_command (service : bytes) : C Z :=
  do fd <- adb_connect service;
  if fd <? 0 then cret (-1)
  else
    do st <- adb_status fd;
    if negb (st =? 0) then c_close fd ;; cret (-1) else cret 0.

Definition adb_query (service : bytes) : C (option bytes) :=
  do fd <- adb_connect service;
  if fd <? 0 then cret None
  else
    do b <- c_readx fd 4;
    match b with
    | None => c_close fd ;; cret None
    | Some h =>
        let n := wrap32 (strtoul16 (cstr h)) in
        if 0xffff <=? n then set_error (lit "reply is too long (>= 64kB)") ;; c_close fd ;; cret None
        else
          do d <- c_readx fd (Z.to_nat n);
          match d with
          | Some tmp => c_close fd ;; cret (Some (cstr tmp))
          | None => c_close fd ;; cret None
          end
    end.

(** ** The console port of an emulator *)

(** The lines of a device list that name an emulator. *)
Fixpoint lines (fuel : nat) (s : bytes) : list bytes :=
  match fuel, s with
  | O, _ | _, [] => []
  | S f, _ => match split_chr (ch 10) s with Some (l, r) => l :: lines f r | None => [s] end
  end.
Definition LOCAL_CLIENT_PREFIX : bytes := lit "emulator-".

(** [adb_get_emulator_console_port]: without a serial, the one of the list is
    kept as a pointer into the list, which is freed before it is read. *)
Definition adb_get_emulator_console_port : C Z :=
  do serial <- cgets c_serial;
  match serial with
  | Some s =>
      if has_prefix LOCAL_CLIENT_PREFIX s then cret (to_int (strtol10 (drop 9 s))) else cret (-1)
  | None =>
      do tmp <- adb_query (lit "host:devices");
      match tmp with
      | None => print (lit "no emulator connected" ++ [ch 10]) ;; cret (-1)
      | Some text =>
          match filter (fun l => has_prefix LOCAL_CLIENT_PREFIX l = true) (lines (length text) text) with
          | [] => cret (-1)
          | [_] => cundefined "device list is freed"
          | _ => cret (-2)
          end
      end
  end.
