(* ===== verification/ClientProps.v ===== *)
(** * What the client library guarantees

    The client and the server agree on the framing of requests, of refusals and
    of replies: what one writes the other reads.  The client's error buffer is
    never overrun. *)

From S2P Require Import Prelude CString Io Wire DList Fdevent Server Transports Sockets HostRequest EngineProps EventProps Client.

(** ** Total runs of client code *)

Definition crun {A} (m : C A) (c : client) (Q : A -> client -> Prop) : Prop :=
  match m c with Ok (a, c') => Q a c' | _ => False end.

Lemma crun_ret {A} (a : A) c (Q : A -> client -> Prop) : Q a c -> crun (cret a) c Q.
Proof. done. Qed.
Lemma crun_bind {A B} (m : C A) (k : A -> C B) c Q : crun m c (fun a c1 => crun (k a) c1 Q) -> crun (cbind m k) c Q.
Proof. unfold crun, cbind. by destruct (m c) as [[a c1]| | |]. Qed.
Lemma crun_mono {A} (m : C A) c (P Q : A -> client -> Prop) : crun m c P -> (forall a c1, P a c1 -> Q a c1) -> crun m c Q.
Proof. unfold crun. destruct (m c) as [[a c1]| | |]; [|done..]. eauto. Qed.
Lemma crun_gets {A} (f : client -> A) c (Q : A -> client -> Prop) : Q (f c) c -> crun (cgets f) c Q.
Proof. done. Qed.
Lemma crun_modify f c (Q : unit -> client -> Prop) : Q tt (f c) -> crun (cmodify f) c Q.
Proof. done. Qed.
Lemma crun_lift {A} (m : res A) a c (Q : A -> client -> Prop) : m = Ok a -> Q a c -> crun (clift m) c Q.
Proof. intros ->. done. Qed.
Lemma crun_error e c (Q : unit -> client -> Prop) : Q tt (with_error e c) -> crun (set_error e) c Q.
Proof. done. Qed.

(** ** Descriptors *)

(** A descriptor that will deliver [inp], takes every write, and was sent
    [sent]. *)
Definition talks (c : client) (fd : Z) (inp sent : bytes) : Prop :=
  exists f, c_fds c !! fd = Some f /\ stream (io_in f) = inp /\ io_wr f = [] /\ io_sent f = sent.
(** Only the descriptor [fd] has changed. *)
Definition only_fd (fd : Z) (c c' : client) : Prop := exists f, c' = with_fds (<[fd := f]> (c_fds c)) c.

Lemma only_fd_trans fd c1 c2 c3 : only_fd fd c1 c2 -> only_fd fd c2 c3 -> only_fd fd c1 c3.
Proof. intros [f ->] [g ->]. exists g. unfold with_fds. simpl. by rewrite insert_insert_eq. Qed.

Lemma only_fd_error fd c c' : only_fd fd c c' -> c_error c' = c_error c.
Proof. by intros [f ->]. Qed.

(** Reading is total: the bytes of the stream, or nothing when it is too short. *)
Lemma readx_total fd n c : crun (c_readx fd n) c (fun r c' =>
  (c' = c \/ only_fd fd c c') /\ match r with Some b => length b = n | None => True end).
Proof.
  unfold c_readx. apply crun_bind, crun_gets. destruct (c_fds c !! fd) as [f|].
  - destruct (readx_spec n (io_in f)) as (i & E & _). apply crun_bind. eapply crun_lift; [exact E|].
    apply crun_bind, crun_modify, crun_ret. split; [right; by eexists|].
    destruct (Nat.leb_spec n (length (stream (io_in f)))); [|done]. rewrite length_take. lia.
  - apply crun_ret. split; [by left|]. by destruct (Nat.eqb_spec n 0) as [->|].
Qed.

Lemma readx_talks fd b rest sent c : talks c fd (b ++ rest) sent ->
  crun (c_readx fd (length b)) c (fun r c' => r = Some b /\ talks c' fd rest sent /\ only_fd fd c c').
Proof.
  intros (f & Hf & Hs & Hw & Ho). unfold c_readx. apply crun_bind, crun_gets. rewrite Hf.
  destruct (readx_app (length b) (io_in f) b rest Hs eq_refl) as (i & E & Hi). apply crun_bind. eapply crun_lift; [exact E|].
  apply crun_bind, crun_modify, crun_ret. split; [done|]. split; [|by eexists].
  eexists. unfold with_fds. simpl. rewrite lookup_insert_eq. by split_and!.
Qed.

Lemma writex_all d : writex d [] = Ok (true, d, []).
Proof.
  destruct (writex_spec d []) as (ok & out & s' & E & Hs & Ho). apply suffix_nil_inv in Hs as ->. rewrite E.
  destruct ok; [by subst|]. destruct Ho as [_ Ho]. by apply Exists_nil in Ho.
Qed.

Lemma writex_talks fd d inp sent c : talks c fd inp sent ->
  crun (c_writex fd d) c (fun r c' => r = true /\ talks c' fd inp (sent ++ d) /\ only_fd fd c c').
Proof.
  intros (f & Hf & Hs & Hw & Ho). unfold c_writex. apply crun_bind, crun_gets. rewrite Hf, Hw.
  apply crun_bind. eapply crun_lift; [apply writex_all|]. apply crun_bind, crun_modify, crun_ret. split; [done|]. split; [|by eexists].
  eexists. unfold with_fds. simpl. rewrite lookup_insert_eq. split_and!; [done..|]. by rewrite Ho.
Qed.

Lemma close_run fd c : crun (c_close fd) c (fun _ c' => c_error c' = c_error c).
Proof. apply crun_modify. by destruct (c_fds c !! fd). Qed.

(** ** [adb_status] *)

Lemma length_hex2 n : 0 <= n < 256 -> length (fmt_hex 2 n) = 2%nat.
Proof.
  intros Hn. unfold fmt_hex. rewrite length_map. unfold num_fuel, pad_zero. cbn [digits].
  destruct (Z.ltb_spec n 16); [done|]. by rewrite (proj2 (Z.ltb_lt (n / 16) 16)) by div_mod_lia.
Qed.

Lemma status_error_length (b : bytes) : length b = 4%nat ->
  (length (lit "protocol fault (status " ++ concat (map (fun x => fmt_hex 2 (b2z x) ++ lit " ") (take 3 b)) ++
     concat (map (fun x => fmt_hex 2 (b2z x)) (drop 3 b)) ++ lit "?!)") <= 255)%nat.
Proof.
  intros Hb. destruct b as [|b0 [|b1 [|b2 [|b3 [|]]]]]; try done. cbn [take drop map concat].
  rewrite !length_app, !length_hex2 by apply b2z_range. cbn. lia.
Qed.

Lemma length_cstr b : (length (cstr b) <= length b)%nat.
Proof. induction b as [|x b IH]; simpl; [lia|]. destruct (byte_eqb x x00); simpl; lia. Qed.

(** The next read of [adb_status], whatever the descriptor does. *)
Lemma status_read fd n c (k : option bytes -> C Z) (Q : Z -> client -> Prop) :
  (forall c', c_error c' = c_error c -> forall r, match r with Some b => length b = n | None => True end -> crun (k r) c' Q) ->
  crun (do r <- c_readx fd n; k r) c Q.
Proof.
  intros Hk. apply crun_bind. eapply crun_mono; [apply readx_total|]. intros r c' [Hc Hr]. apply Hk; [|done].
  destruct Hc as [->|Hc]; [done|]. by eapply only_fd_error.
Qed.

(** Whatever the server sends, [adb_status] returns 0 or -1, and the message it
    leaves fits the 256 bytes of [__adb_error]. *)
Theorem adb_status_bounded fd c (He : (length (c_error c) <= 255)%nat) :
  crun (adb_status fd) c (fun r c' => (r = 0 \/ r = -1) /\ (length (c_error c') <= 255)%nat).
Proof.
  unfold adb_status. apply status_read. intros c1 E1 [b|] Hb; [|apply crun_bind, crun_error, crun_ret; simpl; split; [by right|lia]].
  case_bool_decide; [apply crun_ret; rewrite E1; auto|]. case_bool_decide; cbn [negb].
  2: { apply crun_bind, crun_error, crun_ret. split; [by right|]. by apply status_error_length. }
  apply status_read. intros c2 E2 [l|] Hl; [|apply crun_bind, crun_error, crun_ret; simpl; split; [by right|lia]].
  set (len := if 255 <? wrap32 (strtoul16 (cstr l)) then 255 else wrap32 (strtoul16 (cstr l))).
  apply status_read. intros c3 E3 [r|] Hr; apply crun_bind, crun_error, crun_ret; (split; [by right|]); simpl; [|lia].
  pose proof (length_cstr r). assert (len <= 255) by (unfold len; destruct (Z.ltb_spec 255 (wrap32 (strtoul16 (cstr l)))); lia). lia.
Qed.

Definition demo_cl (fds : gmap Z fio) (conns : list (Z * fio)) : client :=
  mkclient kTransportAny None 5037 None [] fds conns [] [] [] (mklocal ∅ (fun _ p => p) [] (fun _ => MkOk) (fun _ _ => true) 18).

Lemma adb_status_bounded_witness :
  crun (adb_status 3) (demo_cl {[3 := mkfio [RBytes (lit "FAILzz")] [] []]} []) (fun r c' => (r = 0 \/ r = -1) /\ (length (c_error c') <= 255)%nat).
Proof. apply (adb_status_bounded 3 (demo_cl {[3 := mkfio [RBytes (lit "FAILzz")] [] []]} [])). simpl. lia. Defined.

(** ** Frames *)

Lemma send_service_talks fd service inp sent c : Z.of_nat (length service) < 65536 -> talks c fd inp sent ->
  crun (send_service fd service) c (fun ok c' => ok = true /\ talks c' fd inp (sent ++ framed service) /\ only_fd fd c c').
Proof.
  intros Hl Ht. unfold send_service. rewrite snprintf_fits by (rewrite length_hex4 by lia; lia).
  apply crun_bind. eapply crun_mono; [by apply writex_talks|]. intros ok c1 (-> & Ht1 & H1). cbn [negb].
  eapply crun_mono; [by apply writex_talks|]. intros ok c2 (-> & Ht2 & H2). split; [done|].
  unfold framed. rewrite app_assoc. split; [done|by eapply only_fd_trans].
Qed.

Lemma status_okay fd rest sent c : talks c fd (lit "OKAY" ++ rest) sent ->
  crun (adb_status fd) c (fun r c' => r = 0 /\ talks c' fd rest sent /\ only_fd fd c c').
Proof.
  intros Ht. unfold adb_status. apply crun_bind. eapply crun_mono; [by apply (readx_talks fd (lit "OKAY"))|].
  intros r c1 (-> & Ht1 & H1). rewrite bool_decide_true by done. by apply crun_ret.
Qed.

Lemma cstr_clean b : no_nul (cstr b).
Proof.
  unfold no_nul. induction b as [|x b IH]; simpl; [apply not_elem_of_nil|].
  destruct (byte_eqb x x00) eqn:E; [apply not_elem_of_nil|]. apply byte_eqb_false in E. apply not_elem_of_cons. auto.
Qed.

Lemma hex4_no_nul n : 0 <= n < 65536 -> cstr (fmt_hex 4 n) = fmt_hex 4 n.
Proof.
  intros Hn. apply cstr_id. unfold no_nul. destruct (hex4_digits n Hn) as [Hd _]. rewrite hex4 by done.
  intros (d & Ed & Hin)%list_elem_of_fmap. rewrite Forall_forall in Hd. specialize (Hd d Hin).
  apply (f_equal digit_value) in Ed. rewrite digit_value_char in Ed by lia. done.
Qed.

Lemma hex4_read n : 0 <= n < 65536 -> wrap32 (strtoul16 (cstr (fmt_hex 4 n))) = n.
Proof. intros Hn. rewrite hex4_no_nul, strtoul16_hex4 by done. apply wrap32_id. unfold is_u32, u32_mod. lia. Qed.

Lemma status_fail fd reason rest sent c : (length reason <= 255)%nat -> no_nul reason ->
  talks c fd (lit "FAIL" ++ framed reason ++ rest) sent ->
  crun (adb_status fd) c (fun r c' => r = -1 /\ c_error c' = reason).
Proof.
  intros Hl Hz Ht. unfold adb_status. apply crun_bind. eapply crun_mono; [by apply (readx_talks fd (lit "FAIL"))|].
  intros r c1 (-> & Ht1 & H1). rewrite bool_decide_false by done. rewrite bool_decide_true by done. cbn [negb].
  unfold framed in Ht1. rewrite <- app_assoc in Ht1. apply crun_bind.
  rewrite <- (length_hex4 (Z.of_nat (length reason))) at 1 by lia.
  eapply crun_mono; [by apply readx_talks|]. intros r c2 (-> & Ht2 & H2). rewrite hex4_read by lia.
  rewrite (proj2 (Z.ltb_ge 255 _)) by lia. rewrite Nat2Z.id. apply crun_bind. eapply crun_mono; [by apply readx_talks|].
  intros r c3 (-> & Ht3 & H3). apply crun_bind, crun_error, crun_ret. split; [done|]. by apply cstr_id.
Qed.

(** ** What the server writes *)

Lemma fd_writex_run fd f d s : io s !! fd = Some f -> io_wr f = [] ->
  fd_writex fd d s = Ok (true, set_io (<[fd := mkfio (io_in f) [] (io_sent f ++ d)]> (io s)) s).
Proof. intros Hf Hw. unfold fd_writex, get_fd, put_fd, bind, gets, lift, modify, ret. by rewrite Hf, Hw, writex_all. Qed.

Lemma sendfailmsg_run fd f reason s : io s !! fd = Some f -> io_wr f = [] -> Z.of_nat (length reason) < 65536 ->
  exists s', sendfailmsg fd reason s = Ok (true, s') /\
    io s' !! fd = Some (mkfio (io_in f) [] (io_sent f ++ lit "FAIL" ++ framed reason)).
Proof.
  intros Hf Hw Hl. unfold sendfailmsg, bind. rewrite Z.min_l by lia.
  rewrite snprintf_fits by (rewrite length_app, length_hex4 by lia; simpl; lia).
  rewrite take_ge by (rewrite length_app, length_hex4 by lia; simpl; lia). rewrite (fd_writex_run fd f) by done. cbn [negb].
  erewrite fd_writex_run; [|simpl; apply lookup_insert_eq|done]. eexists. split; [done|]. simpl. rewrite lookup_insert_eq.
  rewrite Nat2Z.id, take_ge by lia. unfold framed. by rewrite <- !app_assoc.
Qed.

Lemma send_msg_run fd f text s : io s !! fd = Some f -> io_wr f = [] -> Z.of_nat (length text) < 65536 ->
  exists s', send_msg_with_okay fd text s = Ok (tt, s') /\
    io s' !! fd = Some (mkfio (io_in f) [] (io_sent f ++ lit "OKAY" ++ framed text)).
Proof.
  intros Hf Hw Hl. unfold send_msg_with_okay, bind. rewrite Z.min_l by lia.
  rewrite snprintf_fits by (rewrite length_app, length_hex4 by lia; simpl; lia). rewrite (fd_writex_run fd f) by done.
  erewrite fd_writex_run; [|simpl; apply lookup_insert_eq|done]. eexists. split; [done|]. simpl. rewrite lookup_insert_eq.
  rewrite Nat2Z.id, take_ge by lia. unfold framed. by rewrite <- !app_assoc.
Qed.

(** ** Connecting *)

(** A connection that is about to be made, and what the client has besides it. *)
Definition ready (c : client) (fd : Z) (inp : bytes) (r : list (Z * fio)) : Prop :=
  exists f, c_conns c = (fd, f) :: r /\ 0 <= fd /\ stream (io_in f) = inp /\ io_wr f = [] /\ io_sent f = [].
(** The globals and what was closed are unchanged. *)
Definition same_client (c c' : client) : Prop :=
  c_serial c' = c_serial c /\ c_transport c' = c_transport c /\ c_server_name c' = c_server_name c /\ c_closed c' = c_closed c /\ c_local c' = c_local c.

Lemma only_fd_same fd c c' : only_fd fd c c' -> same_client c c' /\ c_conns c' = c_conns c.
Proof. by intros [f ->]. Qed.

Lemma connect_run c fd inp r : ready c fd inp r ->
  crun c_connect c (fun x c' => x = fd /\ talks c' fd inp [] /\ c_conns c' = r /\ same_client c c').
Proof.
  intros (f & Hc & Hfd & Hs & Hw & Ho). unfold crun, c_connect. rewrite Hc, (proj2 (Z.leb_le 0 fd)) by done.
  split; [done|]. split; [|done]. exists f. simpl. by rewrite lookup_insert_eq.
Qed.

(** The frames that precede a service: none for a host service, the choice of
    the transport otherwise. *)
Definition preamble (c : client) (service : bytes) : list bytes :=
  if has_prefix (lit "host") service then [] else match transport_service c with Some ts => [ts] | None => [] end.

Lemma preamble_short c service : Forall (fun ts => Z.of_nat (length ts) < 65536) (preamble c service).
Proof.
  unfold preamble. destruct (has_prefix (lit "host") service); [constructor|]. destruct (transport_service c) as [ts|] eqn:E; [|constructor].
  apply Forall_singleton. unfold transport_service in E. destruct (c_serial c) as [x|].
  - assert (ts = snprintf 64 (lit "host:transport:" ++ x)) as -> by congruence. pose proof (snprintf_bound 64 (lit "host:transport:" ++ x) ltac:(lia)). lia.
  - destruct (c_transport c); simplify_eq; simpl; lia.
Qed.

Lemma switch_run c fd service rest : (preamble c service = [] -> talks c fd rest []) ->
  (forall ts, preamble c service = [ts] -> talks c fd (lit "OKAY" ++ rest) []) ->
  crun (if has_prefix (lit "host") service then cret 0 else switch_socket_transport fd) c (fun sw c' =>
    sw = 0 /\ talks c' fd rest (concat (map framed (preamble c service))) /\ c_conns c' = c_conns c /\ same_client c c').
Proof.
  intros H0 H1. pose proof (preamble_short c service) as Hs. unfold preamble in *.
  destruct (has_prefix (lit "host") service); [apply crun_ret; split_and!; by auto|].
  unfold switch_socket_transport. apply crun_bind, crun_gets. revert H0 H1 Hs.
  destruct (transport_service c) as [ts|]; intros H0 H1 Hs; [|apply crun_ret; split_and!; by auto].
  specialize (H1 ts eq_refl). apply Forall_inv in Hs. cbn beta in Hs. apply crun_bind.
  eapply crun_mono; [by apply send_service_talks|]. intros ok c1 (-> & Ht1 & F1). cbn [negb]. apply crun_bind.
  eapply crun_mono; [by apply status_okay|]. intros st c2 (-> & Ht2 & F2). cbn [negb Z.eqb]. apply crun_ret.
  pose proof (only_fd_same _ _ _ (only_fd_trans _ _ _ _ F1 F2)) as [Hsame Hconns].
  split_and!; [done| |done|done]. simpl. by rewrite app_nil_r.
Qed.

(** [_adb_connect] on a server that agrees: the descriptor is returned, the
    server was sent exactly the frames of the transport, if one is needed, and of
    the service, and what follows the acknowledgements is still to be read. *)
Lemma adb_connect_run c fd service rest r : (1 <= length service <= 1024)%nat ->
  ready c fd (concat (map (fun _ => lit "OKAY") (preamble c service)) ++ lit "OKAY" ++ rest) r ->
  crun (_adb_connect service) c (fun x c' => x = fd /\
    talks c' fd rest (concat (map framed (preamble c service)) ++ framed service) /\ c_conns c' = r /\ same_client c c').
Proof.
  intros Hl Hr. unfold _adb_connect. rewrite (proj2 (Nat.ltb_ge _ 1)), (proj2 (Nat.ltb_ge 1024 _)) by lia. cbn [orb].
  assert (0 <= fd) as Hfd by (destruct Hr as (f & _ & ? & _); done).
  apply crun_bind. eapply crun_mono; [by apply connect_run|]. intros x c1 (-> & Ht1 & Hc1 & (Es & Et & En & Ed & El)).
  rewrite (proj2 (Z.ltb_ge fd 0)) by done. apply crun_bind.
  assert (preamble c1 service = preamble c service) as Ep by (unfold preamble, transport_service; by rewrite Es, Et).
  eapply crun_mono; [apply (switch_run c1 fd service (lit "OKAY" ++ rest)); rewrite Ep; [intros Hp|intros ts Hp]; rewrite Hp in Ht1; exact Ht1|].
  rewrite Ep. intros sw c2 (-> & Ht2 & Hc2 & (Es2 & Et2 & En2 & Ed2 & El2)). cbn [negb Z.eqb]. apply crun_bind.
  eapply crun_mono; [apply send_service_talks; [lia|exact Ht2]|]. intros ok c3 (-> & Ht3 & F3). cbn [negb]. apply crun_bind.
  eapply crun_mono; [by apply status_okay|]. intros st c4 (-> & Ht4 & F4). cbn [negb Z.eqb]. apply crun_ret.
  pose proof (only_fd_same _ _ _ (only_fd_trans _ _ _ _ F3 F4)) as [(Es4 & Et4 & En4 & Ed4 & El4) Hconns].
  split_and!; [done|done|congruence|]. unfold same_client. split_and!; congruence.
Qed.

(** ** The version handshake *)

Lemma close_talks fd inp sent c : talks c fd inp sent ->
  crun (c_close fd) c (fun _ c' => exists g, c_closed c' = c_closed c ++ [(fd, g)] /\ io_sent g = sent /\
    c_conns c' = c_conns c /\ c_serial c' = c_serial c /\ c_transport c' = c_transport c /\ c_launches c' = c_launches c /\ c_local c' = c_local c).
Proof.
  intros (f & Hf & _ & _ & Ho). apply crun_modify. rewrite Hf. exists f. by split_and!.
Qed.

Lemma sscanf_version v : 0 <= v < 65536 -> sscanf_04x (fmt_hex 4 v) = Some v.
Proof.
  intros Hv. destruct (hex4_digits v Hv) as [Hd Hval]. rewrite hex4 by done. revert Hd Hval.
  generalize (v / 4096) ((v / 256) mod 16) ((v / 16) mod 16) (v mod 16). intros a b d e Hd Hval.
  pose proof (Forall_inv Hd) as Ha. pose proof (Forall_inv (Forall_inv_tail Hd)) as Hb. cbn beta in Ha, Hb.
  unfold sscanf_04x. cbn [map]. destruct (digit_char_hex_plain a (map digit_char [b; d; e]) Ha) as [E1 E2].
  cbn [map] in E1, E2. rewrite E1. cbn [take]. rewrite E2, (digit_char_not_x b Hb), andb_false_r.
  change ([digit_char a; digit_char b; digit_char d; digit_char e]) with (map digit_char [a; b; d; e]).
  rewrite <- (app_nil_r (map digit_char _)), digit_prefix_chars by (done || lia). cbn [fst map]. rewrite Hval.
  unfold to_int, wrap32, u32_mod. rewrite Z.mod_small by lia. by rewrite (proj2 (Z.ltb_lt v _)) by lia.
Qed.

(** The answer to "host:version" of a server of version [v]. *)
Definition version_reply (v : Z) : bytes := framed (fmt_hex 4 v).

Lemma read_version_run v fd sent c : 0 <= v < 65536 -> talks c fd (version_reply v) sent ->
  crun (read_version fd) c (fun x c' => x = Some v /\ exists g, c_closed c' = c_closed c ++ [(fd, g)] /\
    io_sent g = sent /\ c_conns c' = c_conns c /\ c_serial c' = c_serial c /\ c_transport c' = c_transport c /\
    c_launches c' = c_launches c /\ c_local c' = c_local c).
Proof.
  intros Hv Ht. pose proof (length_hex4 v Hv) as H4. unfold version_reply, framed in Ht. rewrite H4 in Ht.
  unfold read_version. apply crun_bind. eapply crun_mono; [apply (readx_talks fd (lit "0004")); exact Ht|].
  intros b c1 (-> & Ht1 & F1). change (strtoul16 (cstr (lit "0004"))) with 4. cbn [Z.ltb Z.compare].
  apply crun_bind. change (Z.to_nat 4) with 4%nat. rewrite <- H4.
  eapply crun_mono; [apply (readx_talks fd (fmt_hex 4 v) []); by rewrite app_nil_r|].
  intros d c2 (-> & Ht2 & F2). apply crun_bind. eapply crun_mono; [eapply close_talks; exact Ht2|].
  intros _ c3 (g & Hg & Hs & Hc & Hse & Htr & Hla & Hlo). cbn zeta. rewrite H4. change (drop 4 (lit "0004" ++ [x00])) with [x00].
  rewrite bool_decide_true by (apply elem_of_app; right; by apply list_elem_of_singleton).
  apply crun_ret. rewrite cstr_no_nul by (rewrite <- (hex4_no_nul v Hv); apply cstr_clean). split; [by apply sscanf_version|].
  destruct (only_fd_trans _ _ _ _ F1 F2) as [f ->]. exists g. by split_and!.
Qed.

(** [adb_connect] on a server of the same version. *)
Lemma connect_current c service fd1 fd2 r rest : (1 <= length service <= 1024)%nat -> service <> lit "host:start-server" ->
  (exists f2 r', r = (fd2, f2) :: r' /\ 0 <= fd2 /\ stream (io_in f2) = concat (map (fun _ => lit "OKAY") (preamble c service)) ++ lit "OKAY" ++ rest /\
     io_wr f2 = [] /\ io_sent f2 = []) ->
  ready c fd1 (lit "OKAY" ++ version_reply ADB_SERVER_VERSION) r ->
  crun (adb_connect service) c (fun x c' => x = fd2 /\
    talks c' fd2 rest (concat (map framed (preamble c service)) ++ framed service) /\
    c_local c' = c_local c /\ exists g, c_closed c' = c_closed c ++ [(fd1, g)] /\ io_sent g = framed (lit "host:version")).
Proof.
  intros Hl Hne (f2 & r' & -> & Hfd2 & Hs2 & Hw2 & Ho2) Hr. unfold adb_connect.
  assert (0 <= fd1) as Hfd by (destruct Hr as (f & _ & ? & _); done). apply crun_bind.
  eapply crun_mono; [apply (adb_connect_run c fd1 (lit "host:version") (version_reply ADB_SERVER_VERSION)); [simpl; lia|exact Hr]|].
  intros x c1 (-> & Ht1 & Hc1 & (Es & Et & En & Ed & El)). rewrite (proj2 (Z.eqb_neq fd1 (-2))) by lia.
  rewrite (proj2 (Z.ltb_ge fd1 0)) by done. apply crun_bind.
  eapply crun_mono; [apply (read_version_run ADB_SERVER_VERSION); [unfold ADB_SERVER_VERSION; lia|exact Ht1]|].
  intros v c2 (-> & g & Hg & Hgs & Hc2 & Hse & Htr & _ & Hlo).
  rewrite Z.eqb_refl. unfold connect_to_service. rewrite (proj2 (streq_false _ _)) by done.
  assert (preamble c2 service = preamble c service) as Ep by (unfold preamble, transport_service; by rewrite Hse, Htr, Es, Et).
  eapply crun_mono; [apply (adb_connect_run c2 fd2 service rest r'); [done|]|].
  - exists f2. rewrite Ep. split_and!; [congruence|done..].
  - rewrite Ep. intros x c3 (-> & Ht3 & _ & (_ & _ & _ & Ed3 & El3)). split_and!; [done|done|congruence|]. exists g. split; [congruence|done].
Qed.

(** ** Theorems *)

(** C25. Connecting to a service of a server of the same version.  The version is
    asked for on a connection of its own, which is closed; then the server is
    sent exactly two frames, the choice of the transport and the service (one for
    a host service), each after the server's approval, and the descriptor is
    returned with everything that follows the approvals still to be read. *)
Theorem requests_framed c service fd1 f1 fd2 f2 r rest
  (Hl : (1 <= length service <= 1024)%nat) (Hne : service <> lit "host:start-server")
  (Hc : c_conns c = (fd1, f1) :: (fd2, f2) :: r) (Hfd : 0 <= fd1 /\ 0 <= fd2)
  (H1 : stream (io_in f1) = lit "OKAY" ++ version_reply ADB_SERVER_VERSION) (Hw1 : io_wr f1 = [] /\ io_sent f1 = [])
  (H2 : stream (io_in f2) = concat (map (fun _ => lit "OKAY") (preamble c service)) ++ lit "OKAY" ++ rest)
  (Hw2 : io_wr f2 = [] /\ io_sent f2 = []) :
  crun (adb_connect service) c (fun x c' => x = fd2 /\
    talks c' fd2 rest (concat (map framed (preamble c service ++ [service]))) /\
    exists g, c_closed c' = c_closed c ++ [(fd1, g)] /\ io_sent g = framed (lit "host:version")).
Proof.
  eapply crun_mono; [apply (connect_current c service fd1 fd2 ((fd2, f2) :: r) rest); [done|done|eexists _, _; by intuition|]|].
  - exists f1. by intuition.
  - intros x c' (-> & Ht & _ & Hg). split_and!; [done| |done]. rewrite map_app, concat_app. simpl. by rewrite app_nil_r.
Qed.

Definition demo_conn (b : bytes) : fio := mkfio [RBytes b] [] [].

Lemma requests_framed_witness :
  crun (adb_connect (lit "shell:ls")) (demo_cl ∅ [(3, demo_conn (lit "OKAY00040020")); (4, demo_conn (lit "OKAYOKAYfile"))])
    (fun x c' => x = 4 /\ talks c' 4 (lit "file") (lit "0012host:transport-any0008shell:ls") /\
       exists g, c_closed c' = [(3, g)] /\ io_sent g = lit "000chost:version").
Proof.
  eapply crun_mono; [apply (requests_framed (demo_cl ∅ [(3, demo_conn (lit "OKAY00040020")); (4, demo_conn (lit "OKAYOKAYfile"))])
    (lit "shell:ls") 3 (demo_conn (lit "OKAY00040020")) 4 (demo_conn (lit "OKAYOKAYfile")) [] (lit "file"))|].
  all: try (simpl; lia). all: try done.
Defined.

(** A refusal: what the server gives as the reason is what the client reports. *)
Theorem refusal_reported s fd f reason c cfd g rest sent
  (Hf : io s !! fd = Some f) (Hw : io_wr f = []) (He : io_sent f = [])
  (Hl : (length reason <= 255)%nat) (Hz : no_nul reason) :
  exists s' f', sendfailmsg fd reason s = Ok (true, s') /\ io s' !! fd = Some f' /\
    (c_fds c !! cfd = Some g -> stream (io_in g) = io_sent f' ++ rest -> io_wr g = [] -> io_sent g = sent ->
     crun (adb_status cfd) c (fun r c' => r = -1 /\ c_error c' = reason)).
Proof.
  destruct (sendfailmsg_run fd f reason s Hf Hw ltac:(lia)) as (s' & E & Hf'). eexists _, _. split; [exact E|]. split; [exact Hf'|].
  simpl. rewrite He. simpl. intros Hg Hs Hwg Hsg. apply (status_fail cfd reason rest sent); [done|done|]. exists g.
  split_and!; [done| |done|done]. rewrite Hs. done.
Qed.

Definition demo_io : sv := set_io {[7 := mkfio [] [] []]} demo.

Lemma refusal_reported_witness :
  exists s' f', sendfailmsg 7 (lit "device offline") demo_io = Ok (true, s') /\ io s' !! 7 = Some f' /\
    crun (adb_status 3) (demo_cl {[3 := demo_conn (lit "FAIL000edevice offline")]} []) (fun r c' => r = -1 /\ c_error c' = lit "device offline").
Proof.
  destruct (refusal_reported demo_io 7 (mkfio [] [] []) (lit "device offline")
    (demo_cl {[3 := demo_conn (lit "FAIL000edevice offline")]} []) 3 (demo_conn (lit "FAIL000edevice offline")) [] [])
    as (s' & f' & E & Hf & H); [done|done|done|simpl; lia|by apply (bool_decide_eq_false_1 _)|].
  exists s', f'. split; [exact E|]. split; [exact Hf|]. apply H; [done| |done|done].
  vm_compute in E. injection E as <-. vm_compute in Hf. injection Hf as <-. reflexivity.
Defined.

(** A query: the reply the server sends is the reply the client returns, up to
    the 64 kB the protocol allows. *)
Theorem query_answered s fd f text c service fd1 f1 fd2 f2 r
  (Hl : (1 <= length service <= 1024)%nat) (Hne : service <> lit "host:start-server") (Hh : has_prefix (lit "host") service = true)
  (Hf : io s !! fd = Some f) (Hw : io_wr f = []) (He : io_sent f = [])
  (Ht : Z.of_nat (length text) < 65535) (Hz : no_nul text)
  (Hc : c_conns c = (fd1, f1) :: (fd2, f2) :: r) (Hfd : 0 <= fd1 /\ 0 <= fd2)
  (H1 : stream (io_in f1) = lit "OKAY" ++ version_reply ADB_SERVER_VERSION) (Hw1 : io_wr f1 = [] /\ io_sent f1 = [])
  (Hw2 : io_wr f2 = [] /\ io_sent f2 = []) :
  exists s' f', send_msg_with_okay fd text s = Ok (tt, s') /\ io s' !! fd = Some f' /\
    (stream (io_in f2) = io_sent f' -> crun (adb_query service) c (fun x _ => x = Some text)).
Proof.
  destruct (send_msg_run fd f text s Hf Hw ltac:(lia)) as (s' & E & Hf'). eexists _, _. split; [exact E|]. split; [exact Hf'|].
  simpl. rewrite He. simpl. intros Hs. assert (preamble c service = []) as Ep by (unfold preamble; by rewrite Hh).
  unfold adb_query. apply crun_bind.
  eapply crun_mono; [apply (connect_current c service fd1 fd2 ((fd2, f2) :: r) (framed text)); [done|done|rewrite Ep; eexists _, _; by intuition|]|].
  { exists f1. by intuition. }
  intros x c1 (-> & Ht1 & _). rewrite (proj2 (Z.ltb_ge fd2 0)) by lia. unfold framed in Ht1 at 1.
  apply crun_bind. rewrite <- (length_hex4 (Z.of_nat (length text))) at 1 by lia.
  eapply crun_mono; [eapply readx_talks; exact Ht1|]. intros b c2 (-> & Ht2 & _). rewrite hex4_read by lia.
  rewrite (proj2 (Z.leb_gt 65535 _)) by lia. rewrite Nat2Z.id. apply crun_bind.
  eapply crun_mono; [apply (readx_talks fd2 text []); rewrite app_nil_r; exact Ht2|]. intros d c3 (-> & Ht3 & _).
  apply crun_bind. eapply crun_mono; [eapply close_talks; exact Ht3|]. intros _ c4 _. apply crun_ret. f_equal. by apply cstr_id.
Qed.

Lemma query_answered_witness :
  exists s' f', send_msg_with_okay 7 (lit "PAX1") demo_io = Ok (tt, s') /\ io s' !! 7 = Some f' /\
    crun (adb_query (lit "host:get-serialno"))
      (demo_cl ∅ [(3, demo_conn (lit "OKAY00040020")); (4, demo_conn (lit "OKAY0004PAX1"))]) (fun x _ => x = Some (lit "PAX1")).
Proof.
  destruct (query_answered demo_io 7 (mkfio [] [] []) (lit "PAX1")
    (demo_cl ∅ [(3, demo_conn (lit "OKAY00040020")); (4, demo_conn (lit "OKAY0004PAX1"))])
    (lit "host:get-serialno") 3 (demo_conn (lit "OKAY00040020")) 4 (demo_conn (lit "OKAY0004PAX1")) [])
    as (s' & f' & E & Hf & H); [simpl; lia|done|done|done|done|done|simpl; lia|by apply (bool_decide_eq_false_1 _)|done|lia|done|done|done|].
  exists s', f'. split; [exact E|]. split; [exact Hf|]. apply H.
  vm_compute in E. injection E as <-. vm_compute in Hf. injection Hf as <-. reflexivity.
Defined.

(** The console port of the only emulator is read from a list that was freed. *)
Theorem console_port_use_after_free :
  adb_get_emulator_console_port
    (demo_cl ∅ [(3, demo_conn (lit "OKAY00040020")); (4, demo_conn (lit "OKAY0015emulator-5554" ++ [ch 9] ++ lit "device" ++ [ch 10]))]) =
  UB "device list is freed".
Proof. vm_compute. reflexivity. Qed.

(** A version answer of five characters or more runs past what was read. *)
Theorem version_overreads :
  adb_connect (lit "host:devices") (demo_cl ∅ [(3, demo_conn (lit "OKAY000500020"))]) = UB "version buffer is not terminated".
Proof. vm_compute. reflexivity. Qed.
