(* ===== verification/FileSync.v ===== *)
(** * The file synchronisation client (file_sync_client.c)

    The "sync:" service of the device takes requests that carry a path and
    answers with framed data.  This file models the requests, the two directions
    of a file copy, the copies of whole directories, and the PAX extension that
    deletes a file of the device.

    Messages on [stderr] and the byte counter that only feeds them are left out. *)

From S2P Require Import Prelude CString Io Wire Server Client.

(** ** The protocol (file_sync_service.h) *)

Definition MKID (s : string) : Z := unle32 (lit s).
Arguments MKID s%_string.
Definition ID_STAT : Z := MKID "STAT".
Definition ID_LIST : Z := MKID "LIST".
Definition ID_ULNK : Z := MKID "ULNK".
Definition ID_SEND : Z := MKID "SEND".
Definition ID_RECV : Z := MKID "RECV".
Definition ID_DENT : Z := MKID "DENT".
Definition ID_DONE : Z := MKID "DONE".
Definition ID_DATA : Z := MKID "DATA".
Definition ID_OKAY : Z := MKID "OKAY".
Definition ID_FAIL : Z := MKID "FAIL".
Definition ID_QUIT : Z := MKID "QUIT".
Definition SYNC_DATA_MAX : Z := 65536.

(** The two words of a [syncmsg]'s [req], [data] or [status], and the fields of
    the answers. *)
Definition msg2 (id n : Z) : bytes := le32 id ++ le32 n.
Definition word (i : nat) (b : bytes) : Z := unle32 (drop (4 * i) b).

Definition S_IFMT (mode : Z) : Z := Z.land mode 0xf000.
Definition S_ISDIR (mode : Z) : bool := S_IFMT mode =? 0x4000.
Definition S_ISREG (mode : Z) : bool := S_IFMT mode =? 0x8000.
Definition S_ISLNK (mode : Z) : bool := S_IFMT mode =? 0xa000.
Definition S_ISCHR (mode : Z) : bool := S_IFMT mode =? 0x2000.
Definition S_ISBLK (mode : Z) : bool := S_IFMT mode =? 0x6000.

(** ** Local system calls *)

Record stat := mkstat { st_mode : Z; st_size : Z; st_mtime : Z }.
Definition entry_stat (e : entry) : stat :=
  match e with
  | EReg _ size mode mtime | ELink _ size mode mtime => mkstat mode size mtime
  | EDir _ mode | ESpecial mode => mkstat mode 0 0
  | ENew _ mode mtime => mkstat mode 0 mtime
  end.
Definition set_mode (mode : Z) (e : entry) : entry :=
  match e with
  | EReg r size _ mtime => EReg r size mode mtime
  | ELink t size _ mtime => ELink t size mode mtime
  | EDir n _ => EDir n mode
  | ESpecial _ => ESpecial mode
  | ENew fd _ mtime => ENew fd mode mtime
  end.
Definition set_mtime (mtime : Z) (e : entry) : entry :=
  match e with
  | EReg r size mode _ => EReg r size mode mtime
  | ELink t size mode _ => ELink t size mode mtime
  | ENew fd mode _ => ENew fd mode mtime
  | _ => e
  end.

(** What a path names, with a last link followed or not. *)
Definition find_entry (follow : bool) (l : local) (path : bytes) : option entry := l_tree l !! l_name l follow path.
Definition put_entry (follow : bool) (path : bytes) (e : option entry) (l : local) : local :=
  mklocal (partial_alter (fun _ => e) (l_name l follow path) (l_tree l)) (l_name l) (l_creates l) (l_mkdir l) (l_ok l) (l_umask l).
Definition with_creates (cs : list (option (list wres))) (l : local) : local :=
  mklocal (l_tree l) (l_name l) cs (l_mkdir l) (l_ok l) (l_umask l).
Definition change_local (f : local -> local) : C unit := cmodify (fun c => with_local (f (c_local c)) c).

Definition sys_stat (follow : bool) (path : bytes) : C (option stat) :=
  cgets (fun c => entry_stat <$> find_entry follow (c_local c) path).

(** A descriptor that is not in use; which one the kernel gives is immaterial. *)
Definition new_fd (m : gmap Z fio) : Z := 1 + map_fold (fun k _ a => Z.max k a) 2 m.
Definition open_fd (f : fio) : C Z := fun c =>
  let fd := new_fd (c_fds c) in Ok (fd, with_fds (<[fd := f]> (c_fds c)) c).

(** [open(path, O_RDONLY)] and [creat(path, perm)]. *)
Definition open_rdonly (path : bytes) : C Z :=
  do l <- cgets c_local;
  match find_entry true l path with
  | Some (EReg (Some reads) _ _ _) => open_fd (mkfio reads [] [])
  | _ => cret (-1)
  end.
Definition adb_creat (path : bytes) (perm : Z) : C Z :=
  do l <- cgets c_local;
  match l_creates l with
  | [] => cret (-1)
  | None :: r => change_local (with_creates r) ;; cret (-1)
  | Some w :: r =>
      do fd <- open_fd (mkfio [] w []);
      change_local (fun l => put_entry true path (Some (ENew fd (Z.lor 0x8000 (Z.land perm (Z.lnot (l_umask l)))) 0)) (with_creates r l)) ;;
      cret fd
  end.
Definition adb_unlink (path : bytes) : C unit := change_local (fun l =>
  match find_entry false l path with
  | None | Some (EDir _ _) => l
  | Some _ => if l_ok l AUnlink path then put_entry false path None l else l
  end).
Definition adb_mkdir (path : bytes) : C mkres :=
  do l <- cgets c_local;
  match l_mkdir l path with
  | MkOk => change_local (put_entry true path (Some (EDir (Some []) (Z.land 0x41fd (Z.lnot (l_umask l)))))) ;; cret MkOk
  | r => cret r
  end.

(** [readx] into a buffer of [cap] bytes with a length that was an [int]: a
    negative one becomes a huge [size_t], so the read only ends when the peer
    does, and overruns the buffer if it sends more than that. *)
Definition readx_into (fd cap len : Z) : C (option bytes) :=
  if len <? 0 then
    do m <- cgets c_fds;
    let input := match m !! fd with Some f => stream (io_in f) | None => [] end in
    if cap <? Z.of_nat (length input) then cundefined "buffer overrun" else c_readx fd (S (length input))
  else c_readx fd (Z.to_nat len).

(** ** Requests *)

(** A request header and the path; false when a write failed. *)
Definition send_req (fd id : Z) (path : bytes) : C bool :=
  do ok <- c_writex fd (msg2 id (Z.of_nat (length path)));
  if negb ok then cret false else c_writex fd path.

Definition sync_quit (fd : Z) : C unit := c_writex fd (msg2 ID_QUIT 0) ;; cret tt.

(** [sync_ls]: the callback is called for every entry until DONE.  One turn of
    the loop takes at least the 20 bytes of an entry. *)
Fixpoint ls_loop {A} (fuel : nat) (fd : Z) (func : Z -> Z -> Z -> bytes -> A -> C A) (a : A) : C (A * bool) :=
  match fuel with
  | O => clift Timeout
  | S n =>
      do h <- c_readx fd 20;
      match h with
      | None => cret (a, false)
      | Some dent =>
          if word 0 dent =? ID_DONE then cret (a, true)
          else if negb (word 0 dent =? ID_DENT) then cret (a, false)
          else
            let len := to_int (word 4 dent) in
            if 256 <? len then cret (a, false)
            else
              do b <- readx_into fd 257 len;
              match b with
              | None => cret (a, false)
              | Some buf =>
                  do a' <- func (word 1 dent) (word 2 dent) (word 3 dent) (cstr buf) a;
                  ls_loop n fd func a'
              end
      end
  end.
Definition fd_input (fd : Z) (c : client) : bytes :=
  match c_fds c !! fd with Some f => stream (io_in f) | None => [] end.
Definition sync_ls {A} (fd : Z) (path : bytes) (func : Z -> Z -> Z -> bytes -> A -> C A) (cookie : A) : C (A * Z) :=
  let len := Z.of_nat (length path) in
  if 1024 <? len then c_close fd ;; cret (cookie, -1)
  else
    do ok <- send_req fd ID_LIST path;
    if negb ok then c_close fd ;; cret (cookie, -1)
    else
      do fuel <- cgets (fun c => S (length (fd_input fd c)));
      do '(a, good) <- ls_loop fuel fd func cookie;
      if (good : bool) then cret (a, 0) else c_close fd ;; cret (a, -1).

(** The answer to a STAT request: time, mode and size. *)
Definition sync_start_readtime (fd : Z) (path : bytes) : C Z :=
  do ok <- send_req fd ID_STAT path;
  cret (if ok then 0 else -1).
Definition sync_finish_readtime (fd : Z) : C (option (Z * Z * Z)) :=
  do b <- c_readx fd 16;
  match b with
  | None => cret None
  | Some st => if negb (word 0 st =? ID_STAT) then cret None else cret (Some (word 3 st, word 1 st, word 2 st))
  end.
Definition sync_readtime (fd : Z) (path : bytes) : C (option (Z * Z)) :=
  do ok <- send_req fd ID_STAT path;
  if negb ok then cret None
  else
    do b <- c_readx fd 16;
    match b with
    | None => cret None
    | Some st => if negb (word 0 st =? ID_STAT) then cret None else cret (Some (word 3 st, word 1 st))
    end.
Definition sync_readmode (fd : Z) (path : bytes) : C (option Z) :=
  do ok <- send_req fd ID_STAT path;
  if negb ok then cret None
  else
    do b <- c_readx fd 16;
    match b with
    | None => cret None
    | Some st => if negb (word 0 st =? ID_STAT) then cret None else cret (Some (word 1 st))
    end.

(** [sync_unlink] and [do_sync_unlink], the PAX extension. *)
Definition sync_unlink (fd : Z) (path : bytes) : C Z :=
  do ok <- send_req fd ID_ULNK path;
  if negb ok then cret (-1)
  else
    do b <- c_readx fd 8;
    match b with
    | None => cret (-1)
    | Some st => cret (if word 0 st =? ID_OKAY then 0 else -1)
    end.
Definition do_sync_unlink (rpath : bytes) : C Z :=
  do fd <- adb_connect (lit "sync:");
  if fd <? 0 then cret 1
  else
    do mode <- sync_readmode fd rpath;
    let isdir := match mode with Some m => negb (m =? 0) && (Z.land m 0xf000 =? 0x4000) | None => false end in
    if isdir then sync_quit fd ;; cret 1
    else
      do ret <- sync_unlink fd rpath;
      sync_quit fd ;;
      cret (if ret =? 0 then 0 else 1).

(** ** Sending a file *)

(** The read loop of [write_data_file].  One turn takes a byte of the file, or a
    result of [read]. *)
Fixpoint send_loop (fuel : nat) (fd lfd : Z) : C Z :=
  match fuel with
  | O => clift Timeout
  | S n =>
      do r <- c_read lfd (Z.to_nat SYNC_DATA_MAX);
      match r with
      | Eof => cret 0
      | Again | Err => cret 0
      | Got b =>
          do ok <- c_writex fd (msg2 ID_DATA (Z.of_nat (length b)) ++ b);
          if negb ok then cret (-1) else send_loop n fd lfd
      end
  end.
Definition write_data_file (fd : Z) (path : bytes) (show_progress : bool) : C Z :=
  do lfd <- open_rdonly path;
  if lfd <? 0 then cret (-1)
  else
    do l <- cgets c_local;
    if show_progress && negb (l_ok l AFstat path) then cret (-1)
    else
      do fuel <- cgets (fun c => S (length (fd_input lfd c)));
      do err <- send_loop fuel fd lfd;
      c_close lfd ;;
      cret err.

(** [write_data_buffer]: [total] of the buffer's bytes are sent. *)
Fixpoint buffer_loop (fuel : nat) (fd : Z) (file_buffer : bytes) (total : Z) : C Z :=
  match fuel with
  | O => clift Timeout
  | S n =>
      let size := Z.of_nat (length file_buffer) in
      if size <=? total then cret 0
      else
        let count := if SYNC_DATA_MAX <? size - total then SYNC_DATA_MAX else size - total in
        do ok <- c_writex fd (msg2 ID_DATA count ++ take (Z.to_nat count) (drop (Z.to_nat total) file_buffer));
        if negb ok then cret (-1) else buffer_loop n fd file_buffer (total + count)
  end.
Definition write_data_buffer (fd : Z) (file_buffer : bytes) : C Z :=
  buffer_loop (S (length file_buffer)) fd file_buffer 0.

Definition write_data_link (fd : Z) (path : bytes) : C Z :=
  do l <- cgets c_local;
  match find_entry false l path with
  | Some (ELink (Some target) _ _ _) =>
      let data := take (Z.to_nat (SYNC_DATA_MAX - 1)) target in
      do ok <- c_writex fd (msg2 ID_DATA (Z.of_nat (length data) + 1) ++ data ++ [x00]);
      cret (if ok then 0 else -1)
  | _ => cret (-1)
  end.

(** The device's answer to a SEND. *)
Definition send_status (fd : Z) : C Z :=
  do b <- c_readx fd 8;
  match b with
  | None => cret (-1)
  | Some st =>
      if word 0 st =? ID_OKAY then cret 0
      else if word 0 st =? ID_FAIL then
        let len := to_int (word 1 st) in
        let len := if 256 <? len then 256 else len in
        readx_into fd SYNC_DATA_MAX len ;;
        cret (-1)
      else cret (-1)
  end.

(** [sync_send].  What the functions that send the data return is not looked at. *)
Definition sync_send (fd : Z) (lpath rpath : bytes) (mtime mode : Z) (show_progress : bool) : C Z :=
  let fail := c_close fd ;; cret (-1) in
  let len := Z.of_nat (length rpath) in
  if 1024 <? len then fail
  else
    let tmp := snprintf 64 (lit "," ++ fmt_dec (to_int mode)) in
    do ok1 <- c_writex fd (msg2 ID_SEND (len + Z.of_nat (length tmp)));
    if negb ok1 then fail
    else
      do ok2 <- c_writex fd rpath;
      if negb ok2 then fail
      else
        do ok3 <- c_writex fd tmp;
        if negb ok3 then fail
        else
          do sent <- (if S_ISREG mode then write_data_file fd lpath show_progress ;; cret true
                      else if S_ISLNK mode then write_data_link fd lpath ;; cret true
                      else cret false);
          if negb sent then fail
          else
            do ok4 <- c_writex fd (msg2 ID_DONE mtime);
            if negb ok4 then fail else send_status fd.

(** ** Receiving a file *)

(** [mkdirs]: the parents of [name], the loop on the slashes after its first
    byte.  [prefix] is what precedes [rest]. *)
Fixpoint mkdirs_loop (prefix rest : bytes) : C unit :=
  match rest with
  | [] => cret tt
  | b :: t =>
      if byte_eqb b (ch 47) then
        do r <- adb_mkdir prefix;
        match r with MkFail => cret tt | _ => mkdirs_loop (prefix ++ [b]) t end
      else mkdirs_loop (prefix ++ [b]) t
  end.
Definition mkdirs (name : bytes) : C unit :=
  match name with
  | [] => cundefined "read past the end of the path"
  | b :: t => mkdirs_loop [b] t
  end.

(** [remote_error:]: the local file is removed and success is reported. *)
Definition remote_error (fd lfd : Z) (lpath : bytes) (hdr : bytes) : C Z :=
  c_close lfd ;;
  adb_unlink lpath ;;
  if word 0 hdr =? ID_FAIL then
    let len := to_int (word 1 hdr) in
    let len := if 256 <? len then 256 else len in
    do r <- readx_into fd SYNC_DATA_MAX len;
    match r with None => cret (-1) | Some _ => cret 0 end
  else cret 0.

(** The loop of [sync_recv] from [handle_data:], with the header just read. *)
Fixpoint recv_loop (fuel : nat) (fd lfd : Z) (lpath hdr : bytes) : C Z :=
  match fuel with
  | O => clift Timeout
  | S n =>
      let len := to_int (word 1 hdr) in
      if word 0 hdr =? ID_DONE then c_close lfd ;; cret 0
      else if negb (word 0 hdr =? ID_DATA) then remote_error fd lfd lpath hdr
      else if SYNC_DATA_MAX <? len then c_close lfd ;; cret (-1)
      else
        do b <- readx_into fd SYNC_DATA_MAX len;
        match b with
        | None => c_close lfd ;; cret (-1)
        | Some buffer =>
            do ok <- c_writex lfd buffer;
            if negb ok then c_close lfd ;; cret (-1)
            else
              do h <- c_readx fd 8;
              match h with None => cret (-1) | Some hdr' => recv_loop n fd lfd lpath hdr' end
        end
  end.

(** The size of the remote file, which only the progress display uses. *)
Definition recv_size (fd : Z) (rpath : bytes) (show_progress : bool) : C bool :=
  if show_progress then
    do ok <- send_req fd ID_STAT rpath;
    if negb ok then cret false
    else
      do b <- c_readx fd 16;
      match b with None => cret false | Some st => cret (word 0 st =? ID_STAT) end
  else cret true.

Definition sync_recv (fd : Z) (rpath lpath : bytes) (show_progress : bool) : C Z :=
  if 1024 <? Z.of_nat (length rpath) then cret (-1)
  else
    do known <- recv_size fd rpath show_progress;
    if negb known then cret (-1)
    else
      do ok <- send_req fd ID_RECV rpath;
      if negb ok then cret (-1)
      else
        do h <- c_readx fd 8;
        match h with
        | None => cret (-1)
        | Some hdr =>
            if (word 0 hdr =? ID_DATA) || (word 0 hdr =? ID_DONE) then
              adb_unlink lpath ;;
              mkdirs lpath ;;
              do lfd <- adb_creat lpath 0x1a4;
              if lfd <? 0 then cret (-1)
              else
                do fuel <- cgets (fun c => S (length (fd_input fd c)));
                recv_loop fuel fd lfd lpath hdr
            else remote_error fd (-1) lpath hdr
        end.

(** ** Listing *)

Definition do_sync_ls_cb (mode size time : Z) (name : bytes) (_ : unit) : C unit :=
  print (fmt_hex 8 mode ++ lit " " ++ fmt_hex 8 size ++ lit " " ++ fmt_hex 8 time ++ lit " " ++ name ++ [ch 10]).
Definition do_sync_ls (path : bytes) : C Z :=
  do fd <- adb_connect (lit "sync:");
  if fd <? 0 then cret 1
  else
    do '(_, r) <- sync_ls fd path do_sync_ls_cb tt;
    if negb (r =? 0) then cret 1 else sync_quit fd ;; cret 0.

(** ** Lists of files to copy *)

Record copyinfo := mkci {
  ci_src : bytes; ci_dst : bytes; ci_time : Z; ci_mode : Z; ci_size : Z; ci_flag : bool }.
Definition mkcopyinfo (spath dpath name : bytes) (isdir : bool) : copyinfo :=
  let slen := length spath in
  let dlen := length dpath in
  let nlen := length name in
  let ssize := (slen + nlen + 2)%nat in
  let dsize := (dlen + nlen + 2)%nat in
  let slash := if isdir then lit "/" else [] in
  mkci (snprintf ssize (spath ++ name ++ slash)) (snprintf dsize (dpath ++ name ++ slash)) 0 0 0 false.
Definition ci_attrs (time mode size : Z) (ci : copyinfo) : copyinfo :=
  mkci (ci_src ci) (ci_dst ci) (wrap32 time) (wrap32 mode) (wrap32 size) (ci_flag ci).
Definition ci_set_flag (ci : copyinfo) : copyinfo :=
  mkci (ci_src ci) (ci_dst ci) (ci_time ci) (ci_mode ci) (ci_size ci) true.

Definition dot_name (name : bytes) : bool := streq name (lit ".") || streq name (lit "..").
Definition PATH_MAX : Z := 4096.

(** The [readdir] loop of [local_build_list].  New entries go to the front of
    the two lists; None when a second [lstat] failed. *)
Fixpoint scan_dir (l : local) (lpath rpath : bytes) (names : list bytes) (filelist dirlist : list copyinfo)
  : list copyinfo * option (list copyinfo) :=
  match names with
  | [] => (filelist, Some dirlist)
  | name :: r =>
      if dot_name name then scan_dir l lpath rpath r filelist dirlist
      else if PATH_MAX <? Z.of_nat (length lpath + length name + 1) then scan_dir l lpath rpath r filelist dirlist
      else
        match entry_stat <$> find_entry false l (lpath ++ name) with
        | None => scan_dir l lpath rpath r filelist dirlist
        | Some st =>
            if S_ISDIR (st_mode st) then scan_dir l lpath rpath r filelist (mkcopyinfo lpath rpath name true :: dirlist)
            else
              let ci := mkcopyinfo lpath rpath name false in
              match entry_stat <$> find_entry false l (ci_src ci) with
              | None => (filelist, None)
              | Some st =>
                  if negb (S_ISREG (st_mode st)) && negb (S_ISLNK (st_mode st)) then scan_dir l lpath rpath r filelist dirlist
                  else scan_dir l lpath rpath r (ci_attrs (st_mtime st) (st_mode st) (st_size st) ci :: filelist) dirlist
              end
        end
  end.

(** A step for every element of a list, stopping where one does not return. *)
Fixpoint rfold {A B} (f : B -> A -> res A) (l : list B) (a : A) : res A :=
  match l with [] => Ok a | b :: r => rbind (f b a) (rfold f r) end.

(** [local_build_list].  What the calls for the subdirectories return is not
    looked at.  A path in a subdirectory is longer than its parent's and no path
    is longer than PATH_MAX, which bounds the depth. *)
Fixpoint local_build_list (fuel : nat) (l : local) (lpath rpath : bytes) (filelist : list copyinfo)
  : res (Z * list copyinfo) :=
  match fuel with
  | O => Timeout
  | S n =>
      match find_entry true l lpath with
      | Some (EDir (Some names) _) =>
          match scan_dir l lpath rpath names filelist [] with
          | (filelist, None) => Ok (-1, filelist)
          | (filelist, Some dirlist) =>
              rbind (rfold (fun ci fl => rbind (local_build_list n l (ci_src ci) (ci_dst ci) fl) (fun r => Ok (snd r)))
                       dirlist filelist) (fun fl => Ok (0, fl))
          end
      | _ => Ok (-1, filelist)
      end
  end.
Definition build_fuel : nat := Z.to_nat (PATH_MAX + 2).

(** ** Pushing a directory *)

Definition ends_slash (path : bytes) : bool := bool_decide (last path = Some (ch 47)).
Definition with_slash (path : bytes) : bytes := if ends_slash path then path else path ++ lit "/".

(** The two loops that compare time stamps; None is [return 1]. *)
Fixpoint start_all (fd : Z) (files : list copyinfo) : C bool :=
  match files with
  | [] => cret true
  | ci :: r =>
      do s <- sync_start_readtime fd (ci_dst ci);
      if negb (s =? 0) then cret false else start_all fd r
  end.
Definition up_to_date (timestamp mode size : Z) (ci : copyinfo) : bool :=
  (size =? ci_size ci) &&
  ((S_ISREG (Z.land (ci_mode ci) mode) && (timestamp =? ci_time ci)) ||
   (S_ISLNK (Z.land (ci_mode ci) mode) && (ci_time ci <=? timestamp))).
Fixpoint finish_all (fd : Z) (files : list copyinfo) : C (option (list copyinfo)) :=
  match files with
  | [] => cret (Some [])
  | ci :: r =>
      do st <- sync_finish_readtime fd;
      match st with
      | None => cret None
      | Some (timestamp, mode, size) =>
          do rest <- finish_all fd r;
          cret (match rest with
                | None => None
                | Some r' => Some ((if up_to_date timestamp mode size ci then ci_set_flag ci else ci) :: r')
                end)
      end
  end.
Fixpoint push_all (fd : Z) (listonly : bool) (files : list copyinfo) : C Z :=
  match files with
  | [] => cret 0
  | ci :: r =>
      if ci_flag ci then push_all fd listonly r
      else
        do s <- (if listonly then cret 0 else sync_send fd (ci_src ci) (ci_dst ci) (ci_time ci) (ci_mode ci) false);
        if negb (s =? 0) then cret 1 else push_all fd listonly r
  end.
Definition copy_local_dir_remote (fd : Z) (lpath rpath : bytes) (checktimestamps listonly : bool) : C Z :=
  if bool_decide (lpath = []) || bool_decide (rpath = []) then cret (-1)
  else
    let lpath := with_slash lpath in
    let rpath := with_slash rpath in
    do l <- cgets c_local;
    do '(r, filelist) <- clift (local_build_list build_fuel l lpath rpath []);
    if negb (r =? 0) then cret (-1)
    else if checktimestamps then
      do ok <- start_all fd filelist;
      if negb ok then cret 1
      else
        do checked <- finish_all fd filelist;
        match checked with None => cret 1 | Some files => push_all fd listonly files end
    else push_all fd listonly filelist.

(** The last component of a path: what follows its last slash. *)
Definition base_name (path : bytes) : bytes := default path (after_last (ch 47) path).

Definition do_sync_push (lpath rpath : bytes) (show_progress : bool) : C Z :=
  do fd <- adb_connect (lit "sync:");
  if fd <? 0 then cret 1
  else
    do st <- sys_stat true lpath;
    match st with
    | None => sync_quit fd ;; cret 1
    | Some st =>
        if S_ISDIR (st_mode st) then
          do r <- copy_local_dir_remote fd lpath rpath false false;
          if negb (r =? 0) then cret 1 else sync_quit fd ;; cret 0
        else
          do m <- sync_readmode fd rpath;
          match m with
          | None => cret 1
          | Some mode =>
              let rpath := if negb (mode =? 0) && S_ISDIR mode then rpath ++ lit "/" ++ base_name lpath else rpath in
              do r <- sync_send fd lpath rpath (wrap32 (st_mtime st)) (st_mode st) show_progress;
              if negb (r =? 0) then cret 1 else sync_quit fd ;; cret 0
          end
    end.

(** ** Pulling *)

(** [sync_ls_build_list_cb]: the two lists that are being built are the cookie. *)
Definition sync_ls_build_list_cb (rpath lpath : bytes) (mode size time : Z) (name : bytes)
    (lists : list copyinfo * list copyinfo) : C (list copyinfo * list copyinfo) :=
  let '(filelist, dirlist) := lists in
  if S_ISDIR mode then
    if dot_name name then cret lists
    else cret (filelist, mkcopyinfo rpath lpath name true :: dirlist)
  else if S_ISREG mode || S_ISLNK mode then
    cret (ci_attrs time mode size (mkcopyinfo rpath lpath name false) :: filelist, dirlist)
  else cret lists.

(** [remote_build_list].  Every call takes the 20 bytes of a DONE from the device
    or is the last. *)
Fixpoint remote_build_list (fuel : nat) (fd : Z) (rpath lpath : bytes) (filelist : list copyinfo)
  : C (list copyinfo * Z) :=
  match fuel with
  | O => clift Timeout
  | S n =>
      do '(lists, r) <- sync_ls fd rpath (sync_ls_build_list_cb rpath lpath) (filelist, []);
      if negb (r =? 0) then cret (fst lists, 1)
      else
        (fix dirs (dirlist : list copyinfo) (fl : list copyinfo) : C (list copyinfo * Z) :=
           match dirlist with
           | [] => cret (fl, 0)
           | ci :: next =>
               do '(fl', r) <- remote_build_list n fd (ci_src ci) (ci_dst ci) fl;
               if negb (r =? 0) then cret (fl', 1) else dirs next fl'
           end) (snd lists) (fst lists)
  end.

(** [set_time_and_mode]: true when both calls succeeded. *)
Definition set_time_and_mode (lpath : bytes) (time mode : Z) : C bool :=
  do l <- cgets c_local;
  let set (f : entry -> entry) := change_local (fun l => put_entry true lpath (f <$> find_entry true l lpath) l) in
  let there := bool_decide (is_Some (find_entry true l lpath)) in
  let r1 := there && l_ok l AUtime lpath in
  let r2 := there && l_ok l AChmod lpath in
  (if r1 then set (set_mtime time) else cret tt) ;;
  (if r2 then set (set_mode (Z.land mode (Z.lnot (l_umask l)))) else cret tt) ;;
  cret (r1 && r2).

Fixpoint pull_all (fd : Z) (copy_attrs : bool) (files : list copyinfo) : C Z :=
  match files with
  | [] => cret 0
  | ci :: r =>
      if ci_flag ci then pull_all fd copy_attrs r
      else
        do s <- sync_recv fd (ci_src ci) (ci_dst ci) false;
        if negb (s =? 0) then cret 1
        else
          do ok <- (if copy_attrs then set_time_and_mode (ci_dst ci) (ci_time ci) (ci_mode ci) else cret true);
          if negb ok then cret 1 else pull_all fd copy_attrs r
  end.
Definition copy_remote_dir_local (fd : Z) (rpath lpath : bytes) (copy_attrs : bool) : C Z :=
  if bool_decide (rpath = []) || bool_decide (lpath = []) then cret (-1)
  else
    let rpath := with_slash rpath in
    let lpath := with_slash lpath in
    do fuel <- cgets (fun c => S (length (fd_input fd c)));
    do '(filelist, r) <- remote_build_list fuel fd rpath lpath [];
    if negb (r =? 0) then cret (-1) else pull_all fd copy_attrs filelist.

Definition do_sync_pull (rpath lpath : bytes) (show_progress copy_attrs : bool) : C Z :=
  do fd <- adb_connect (lit "sync:");
  if fd <? 0 then cret 1
  else
    do tm <- sync_readtime fd rpath;
    match tm with
    | None => cret 1
    | Some (time, mode) =>
        if mode =? 0 then cret 1
        else if S_ISREG mode || S_ISLNK mode || S_ISCHR mode || S_ISBLK mode then
          do st <- sys_stat true lpath;
          let lpath := match st with
                       | Some st => if S_ISDIR (st_mode st) then lpath ++ lit "/" ++ base_name rpath else lpath
                       | None => lpath
                       end in
          do r <- sync_recv fd rpath lpath show_progress;
          if negb (r =? 0) then cret 1
          else
            do ok <- (if copy_attrs then set_time_and_mode lpath time mode else cret true);
            if negb ok then cret 1 else sync_quit fd ;; cret 0
        else if S_ISDIR mode then
          do r <- copy_remote_dir_local fd rpath lpath copy_attrs;
          if negb (r =? 0) then cret 1 else sync_quit fd ;; cret 0
        else cret 1
    end.

Definition do_sync_sync (lpath rpath : bytes) (listonly : bool) : C Z :=
  do fd <- adb_connect (lit "sync:");
  if fd <? 0 then cret 1
  else
    do r <- copy_local_dir_remote fd lpath rpath true listonly;
    if negb (r =? 0) then cret 1 else sync_quit fd ;; cret 0.
