(* ===== verification/FileSyncProps.v ===== *)
(** * What a file copy guarantees

    A push sends the file whole, cut into data frames, and a pull of the same
    frames stores the same bytes.  The walks over local and remote directories
    end, and a file's place under the destination is its place under the
    source. *)

From S2P Require Import Prelude CString Io Wire Server Sockets HostRequest EventProps Client ClientProps FileSync.

(** ** Frames *)

Definition data_frame (b : bytes) : bytes := msg2 ID_DATA (Z.of_nat (length b)) ++ b.
Definition frames (chunks : list bytes) : bytes := concat (map data_frame chunks).
(** What [SYNC_DATA_MAX] allows. *)
Definition chunk_ok (b : bytes) : Prop := (0 < length b)%nat /\ Z.of_nat (length b) <= SYNC_DATA_MAX.

Lemma length_msg2 a b : length (msg2 a b) = 8%nat.
Proof. done. Qed.
Lemma word0_msg2 a b rest : is_u32 a -> word 0 (msg2 a b ++ rest) = a.
Proof. intros Ha. unfold word, msg2. rewrite <- app_assoc. change (4 * 0)%nat with 0%nat. rewrite drop_0, unle32_le32_app. by apply wrap32_id. Qed.
Lemma word1_msg2 a b : is_u32 b -> word 1 (msg2 a b) = b.
Proof.
  intros Hb. unfold word, msg2. rewrite drop_app_exact by done. by apply unle32_le32.
Qed.
Lemma to_int_length (b : bytes) : Z.of_nat (length b) <= SYNC_DATA_MAX -> is_u32 (Z.of_nat (length b)) /\ to_int (Z.of_nat (length b)) = Z.of_nat (length b).
Proof. unfold SYNC_DATA_MAX, is_u32, u32_mod. intros. split; [lia|]. apply to_int_small. lia. Qed.

(** ** Descriptors *)

Lemma new_fd_above (m : gmap Z fio) k f : m !! k = Some f -> k < new_fd m.
Proof.
  unfold new_fd. revert k f. apply (map_fold_weak_ind (fun a m => forall k f, m !! k = Some f -> k < 1 + a)).
  - intros k f. by rewrite lookup_empty.
  - intros j g m' a Hj IH k f. destruct (decide (j = k)) as [->|Hn]; [intros _; lia|].
    rewrite lookup_insert_ne by done. intros Hk. specialize (IH k f Hk). lia.
Qed.
Lemma new_fd_pos m : 0 <= new_fd m.
Proof. unfold new_fd. apply (map_fold_weak_ind (fun a _ => 0 <= 1 + a)); [lia|]. intros. lia. Qed.

(** A call on one descriptor leaves the others alone. *)
Lemma talks_other fd fd' inp sent c c' : fd <> fd' -> only_fd fd' c c' -> talks c fd inp sent -> talks c' fd inp sent.
Proof. intros Hn [g ->] (f & Hf & H). exists f. unfold with_fds. simpl. by rewrite lookup_insert_ne. Qed.

Lemma only_fd_local fd c c' : only_fd fd c c' -> c_local c' = c_local c /\ c_closed c' = c_closed c.
Proof. by intros [f ->]. Qed.

Lemma send_req_talks fd id path inp sent c : talks c fd inp sent ->
  crun (send_req fd id path) c (fun ok c' => ok = true /\
    talks c' fd inp (sent ++ msg2 id (Z.of_nat (length path)) ++ path) /\ only_fd fd c c').
Proof.
  intros Ht. unfold send_req. apply crun_bind. eapply crun_mono; [by apply writex_talks|].
  intros ok c1 (-> & Ht1 & F1). cbn [negb]. eapply crun_mono; [by apply writex_talks|].
  intros ok c2 (-> & Ht2 & F2). split; [done|]. rewrite app_assoc. split; [done|by eapply only_fd_trans].
Qed.

(** One [read] of a descriptor: the next bytes of its stream, or its end. *)
Lemma read_talks fd n inp sent c : (0 < n)%nat -> talks c fd inp sent ->
  crun (c_read fd n) c (fun r c' => only_fd fd c c' /\ exists rest, talks c' fd rest sent /\ match r with Got b => inp = b ++ rest /\ (0 < length b <= n)%nat | _ => inp = [] end).
Proof.
  intros Hn (f & Hf & Hs & Hw & Ho). unfold c_read. apply crun_bind, crun_gets. rewrite Hf.
  pose proof (adb_read_stream n (io_in f) Hn) as Hr. destruct (adb_read n (io_in f)) as [r i].
  apply crun_bind, crun_modify, crun_ret. split; [by eexists|]. exists (stream i). split.
  - eexists. unfold with_fds. simpl. rewrite lookup_insert_eq. by split_and!.
  - subst inp. by destruct r.
Qed.

(** ** Sending *)

(** The two descriptors of a copy. *)
Definition only_fds (fd lfd : Z) (c c' : client) : Prop :=
  c_local c' = c_local c /\ c_closed c' = c_closed c /\ forall k, k <> fd -> k <> lfd -> c_fds c' !! k = c_fds c !! k.

Lemma only_fd_fds fd lfd c c' : only_fd fd c c' \/ only_fd lfd c c' -> only_fds fd lfd c c'.
Proof.
  intros [[f ->]|[f ->]]; (split_and!; [done..|]); intros k H1 H2; unfold with_fds; simpl; by rewrite lookup_insert_ne.
Qed.
Lemma only_fds_trans fd lfd c1 c2 c3 : only_fds fd lfd c1 c2 -> only_fds fd lfd c2 c3 -> only_fds fd lfd c1 c3.
Proof.
  intros (A1 & B1 & D1) (A2 & B2 & D2). split_and!; [congruence..|]. intros k H1 H2. rewrite D2, D1 by done. done.
Qed.

(** Everything that can be read from the file is sent, in chunks. *)
Lemma send_loop_run fuel fd lfd inp sent data lsent c : fd <> lfd -> (length data < fuel)%nat ->
  talks c fd inp sent -> talks c lfd data lsent ->
  crun (send_loop fuel fd lfd) c (fun r c' => r = 0 /\ only_fds fd lfd c c' /\ exists chunks rest,
    concat chunks = data /\ Forall chunk_ok chunks /\ talks c' fd inp (sent ++ frames chunks) /\ talks c' lfd rest lsent).
Proof.
  revert sent data c. induction fuel as [|n IH]; intros sent data c Hne Hf Ht Hl; [lia|]. cbn [send_loop].
  apply crun_bind. eapply crun_mono; [apply (read_talks lfd (Z.to_nat SYNC_DATA_MAX) data lsent); [unfold SYNC_DATA_MAX; lia|done]|].
  intros r c1 (F1 & rest & Hl1 & Hr). assert (talks c1 fd inp sent) as Ht1 by (by eapply talks_other).
  destruct r as [b| | |].
  2-4: subst data; apply crun_ret; split_and!; [done|by apply only_fd_fds; right|]; exists [], rest;
       split_and!; [done|constructor|by rewrite app_nil_r|done].
  destruct Hr as [-> Hb]. apply crun_bind. eapply crun_mono; [apply writex_talks; exact Ht1|].
  intros ok c2 (-> & Ht2 & F2). cbn [negb]. rewrite length_app in Hf.
  eapply crun_mono; [eapply (IH _ rest c2); [done|lia|exact Ht2|by eapply talks_other]|].
  intros r c3 (-> & F3 & chunks & rest' & <- & Hc & Ht3 & Hl3). split_and!; [done| |].
  - eapply only_fds_trans; [|exact F3]. eapply only_fds_trans; apply only_fd_fds; [by right|by left].
  - exists (b :: chunks), rest'. split_and!; [done| | |done].
    + constructor; [split; [lia|unfold SYNC_DATA_MAX in *; lia]|done].
    + rewrite <- app_assoc in Ht3. exact Ht3.
Qed.

Definition reg_file (c : client) (path : bytes) (reads : list rres) : Prop :=
  exists size mode mtime, find_entry true (c_local c) path = Some (EReg (Some reads) size mode mtime).

Lemma open_fd_run c g fd inp sent : talks c fd inp sent ->
  crun (open_fd g) c (fun lfd c' => fd < lfd /\ 0 <= lfd /\ c_fds c !! lfd = None /\ c' = with_fds (<[lfd := g]> (c_fds c)) c /\ talks c' fd inp sent).
Proof.
  intros Ht. unfold crun, open_fd. pose proof Ht as (f & Hf & H). pose proof (new_fd_above _ _ _ Hf). split_and!; [done|apply new_fd_pos| |done|].
  - destruct (c_fds c !! new_fd (c_fds c)) eqn:E; [|done]. apply new_fd_above in E. lia.
  - eapply talks_other; [|by eexists|exact Ht]. lia.
Qed.

Lemma close_other fd fd' inp sent c : fd <> fd' -> talks c fd inp sent ->
  crun (c_close fd') c (fun _ c' => talks c' fd inp sent /\ c_local c' = c_local c).
Proof.
  intros Hn (f & Hf & H). apply crun_modify. destruct (c_fds c !! fd') eqn:E; (split; [exists f|done]); [|done].
  simpl. by rewrite lookup_delete_ne.
Qed.

Lemma write_data_file_run fd path sp reads inp sent c : reg_file c path reads -> (sp = true -> l_ok (c_local c) AFstat path = true) ->
  talks c fd inp sent ->
  crun (write_data_file fd path sp) c (fun r c' => r = 0 /\ c_local c' = c_local c /\ exists chunks,
    concat chunks = stream reads /\ Forall chunk_ok chunks /\ talks c' fd inp (sent ++ frames chunks)).
Proof.
  intros (size & mode & mtime & Hf) Hsp Ht. unfold write_data_file, open_rdonly. apply crun_bind, crun_bind, crun_gets. rewrite Hf.
  eapply crun_mono; [by apply open_fd_run|]. intros lfd c1 (Hlt & Hp & Hn & Ec & Ht1). rewrite (proj2 (Z.ltb_ge lfd 0)) by done.
  assert (talks c1 lfd (stream reads) []) as Hl1.
  { subst c1. eexists. unfold with_fds. simpl. rewrite lookup_insert_eq. by split_and!. }
  assert (c_local c1 = c_local c) as El by (by subst c1).
  apply crun_bind, crun_gets. rewrite El.
  replace (sp && negb (l_ok (c_local c) AFstat path)) with false by (destruct sp; [by rewrite Hsp|done]).
  apply crun_bind, crun_gets, crun_bind. assert (fd_input lfd c1 = stream reads) as ->.
  { destruct Hl1 as (g & Hg & Hs & _). unfold fd_input. by rewrite Hg. }
  eapply crun_mono; [apply (send_loop_run (S (length (stream reads))) fd lfd inp sent (stream reads) []); [lia|lia|exact Ht1|exact Hl1]|].
  intros r c2 (-> & (El2 & _) & chunks & rest & Hd & Hc & Ht2 & Hl2). apply crun_bind.
  eapply crun_mono; [apply (close_other fd lfd); [lia|exact Ht2]|]. intros _ c3 [Ht3 El3]. apply crun_ret.
  split_and!; [done|congruence|]. by exists chunks.
Qed.

(** The fields of a SEND request. *)
Definition send_head (rpath : bytes) (mode : Z) : bytes :=
  let tmp := lit "," ++ fmt_dec (to_int mode) in
  msg2 ID_SEND (Z.of_nat (length rpath) + Z.of_nat (length tmp)) ++ rpath ++ tmp.

Lemma send_status_okay fd n rest sent c : talks c fd (msg2 ID_OKAY n ++ rest) sent ->
  crun (send_status fd) c (fun r c' => r = 0 /\ talks c' fd rest sent /\ only_fd fd c c').
Proof.
  intros Ht. unfold send_status. apply crun_bind. eapply crun_mono; [apply (readx_talks fd (msg2 ID_OKAY n)); exact Ht|].
  intros r c1 (-> & Ht1 & F1). rewrite <- (app_nil_r (msg2 ID_OKAY n)), word0_msg2 by (by vm_compute). rewrite Z.eqb_refl. by apply crun_ret.
Qed.

(** [sync_send] up to the data, which [w] sends. *)
Lemma sync_send_run fd lpath rpath mtime mode sp body n inp sent c :
  (length rpath <= 1024)%nat -> talks c fd (msg2 ID_OKAY n ++ inp) sent ->
  (forall c1, only_fd fd c c1 -> talks c1 fd (msg2 ID_OKAY n ++ inp) (sent ++ send_head rpath mode) ->
     crun (if S_ISREG mode then write_data_file fd lpath sp ;; cret true
           else if S_ISLNK mode then write_data_link fd lpath ;; cret true else cret false) c1
       (fun ok c2 => ok = true /\ c_local c2 = c_local c1 /\ exists d, body d /\
          talks c2 fd (msg2 ID_OKAY n ++ inp) (sent ++ send_head rpath mode ++ d)))%client ->
  crun (sync_send fd lpath rpath mtime mode sp) c (fun r c' => r = 0 /\ c_local c' = c_local c /\ exists d, body d /\
    talks c' fd inp (sent ++ send_head rpath mode ++ d ++ msg2 ID_DONE mtime)).
Proof.
  intros Hl Ht Hw. unfold sync_send. rewrite (proj2 (Z.ltb_ge 1024 _)) by lia. cbn zeta.
  rewrite snprintf_fits by (pose proof (length_fmt_dec (to_int mode)); rewrite length_app; simpl length; lia).
  apply crun_bind. eapply crun_mono; [by apply writex_talks|]. intros ok c1 (-> & Ht1 & F1). cbn [negb].
  apply crun_bind. eapply crun_mono; [by apply writex_talks|]. intros ok c2 (-> & Ht2 & F2). cbn [negb].
  apply crun_bind. eapply crun_mono; [by apply writex_talks|]. intros ok c3 (-> & Ht3 & F3). cbn [negb].
  rewrite <- !app_assoc in Ht3. assert (only_fd fd c c3) as F by (do 2 (eapply only_fd_trans; [eassumption|]); done).
  apply crun_bind. eapply crun_mono; [apply (Hw c3); [done|unfold send_head; exact Ht3]|].
  intros ok c4 (-> & E4 & d & Hd & Ht4). cbn [negb]. apply crun_bind. eapply crun_mono; [apply writex_talks; exact Ht4|].
  intros ok c5 (-> & Ht5 & F5). cbn [negb]. eapply crun_mono; [eapply send_status_okay; exact Ht5|].
  intros r c6 (-> & Ht6 & F6). split; [done|]. pose proof (only_fd_local _ _ _ F) as [A _].
  pose proof (only_fd_local _ _ _ (only_fd_trans _ _ _ _ F5 F6)) as [B _]. split; [congruence|].
  exists d. split; [done|]. rewrite <- !app_assoc in Ht6. exact Ht6.
Qed.

Lemma push_file_run fd lpath rpath mtime mode sp reads n inp sent c :
  (length rpath <= 1024)%nat -> S_ISREG mode = true -> reg_file c lpath reads ->
  (sp = true -> l_ok (c_local c) AFstat lpath = true) -> talks c fd (msg2 ID_OKAY n ++ inp) sent ->
  crun (sync_send fd lpath rpath mtime mode sp) c (fun r c' => r = 0 /\ exists chunks,
    concat chunks = stream reads /\ Forall chunk_ok chunks /\
    talks c' fd inp (sent ++ send_head rpath mode ++ frames chunks ++ msg2 ID_DONE mtime)).
Proof.
  intros Hl Hm Hf Hsp Ht. eapply crun_mono.
  - apply (sync_send_run _ _ _ _ _ _ (fun d => exists chunks, d = frames chunks /\ concat chunks = stream reads /\ Forall chunk_ok chunks) n inp sent); [done|done|].
    intros c1 F1 Ht1. rewrite Hm. destruct (only_fd_local _ _ _ F1) as [El _]. apply crun_bind.
    eapply crun_mono; [apply (write_data_file_run fd lpath sp reads (msg2 ID_OKAY n ++ inp) (sent ++ send_head rpath mode)); [|by rewrite El|exact Ht1]|].
    + unfold reg_file. by rewrite El.
    + intros r c2 (-> & E2 & chunks & Hd & Hc & Ht2). apply crun_ret. split_and!; [done|done|]. exists (frames chunks).
      split; [by exists chunks|]. by rewrite <- app_assoc in Ht2.
  - intros r c' (-> & _ & d & (chunks & -> & Hd & Hc) & Ht'). split; [done|]. by exists chunks.
Qed.

(** ** Receiving *)

Definition data_stream (chunks : list bytes) (t : Z) : bytes := frames chunks ++ msg2 ID_DONE t.
Lemma data_stream_length chunks t : (8 + length chunks <= length (data_stream chunks t))%nat.
Proof.
  unfold data_stream. rewrite length_app, length_msg2. unfold frames. induction chunks as [|b l IH]; cbn [map concat length]; [lia|].
  rewrite length_app. unfold data_frame at 1. rewrite length_app, length_msg2. lia.
Qed.

Lemma close_both fd lfd inp sent linp lsent c : fd <> lfd -> talks c fd inp sent -> talks c lfd linp lsent ->
  crun (c_close lfd) c (fun _ c' => talks c' fd inp sent /\ c_local c' = c_local c /\
    exists g, c_closed c' = c_closed c ++ [(lfd, g)] /\ io_sent g = lsent).
Proof.
  intros Hn (f & Hf & H) (g & Hg & _ & _ & Hs). apply crun_modify. rewrite Hg. split_and!; [|done|by exists g].
  exists f. simpl. by rewrite lookup_delete_ne.
Qed.

Lemma readx_into_small fd cap b rest sent c : talks c fd (b ++ rest) sent ->
  crun (readx_into fd cap (Z.of_nat (length b))) c (fun r c' => r = Some b /\ talks c' fd rest sent /\ only_fd fd c c').
Proof. intros Ht. unfold readx_into. rewrite (proj2 (Z.ltb_ge _ 0)) by lia. rewrite Nat2Z.id. by apply readx_talks. Qed.

Lemma recv_loop_run fd lfd lpath chunks t rest sent : fd <> lfd -> Forall (fun b => Z.of_nat (length b) <= SYNC_DATA_MAX) chunks ->
  forall fuel lsent c, (length chunks < fuel)%nat -> talks c fd (drop 8 (data_stream chunks t) ++ rest) sent -> talks c lfd [] lsent ->
  crun (recv_loop fuel fd lfd lpath (take 8 (data_stream chunks t))) c (fun r c' => r = 0 /\ talks c' fd rest sent /\ c_local c' = c_local c /\
    exists g, c_closed c' = c_closed c ++ [(lfd, g)] /\ io_sent g = lsent ++ concat chunks).
Proof.
  intros Hne Hc. induction Hc as [|b chunks Hb Hc IH]; intros fuel lsent c Hf Ht Hl; (destruct fuel as [|n]; [simpl in Hf; lia|]); cbn [recv_loop].
  - unfold data_stream in *. cbn [frames map concat app] in *. rewrite take_ge by done. rewrite drop_ge in Ht by done.
    rewrite <- (app_nil_r (msg2 ID_DONE t)) at 2. rewrite word0_msg2 by (by vm_compute). rewrite Z.eqb_refl.
    apply crun_bind. eapply crun_mono; [by eapply close_both|]. intros _ c1 (Ht1 & E1 & g & Hg & Hs). apply crun_ret.
    split_and!; [done..|]. exists g. by rewrite app_nil_r.
  - assert (data_stream (b :: chunks) t = msg2 ID_DATA (Z.of_nat (length b)) ++ b ++ data_stream chunks t) as E.
    { unfold data_stream, frames. cbn [map concat]. unfold data_frame at 1. by rewrite <- !app_assoc. }
    rewrite E in Ht |- *. rewrite take_app_exact, word1_msg2 by (done || by apply to_int_length). rewrite drop_app_exact in Ht by done.
    rewrite <- (app_nil_r (msg2 ID_DATA _)), !word0_msg2 by (by vm_compute).
    change (ID_DATA =? ID_DONE) with false. cbn [negb]. rewrite Z.eqb_refl. cbn [negb].
    rewrite (proj2 (to_int_length b Hb)), (proj2 (Z.ltb_ge _ _)) by done.
    apply crun_bind. rewrite <- app_assoc in Ht. eapply crun_mono; [eapply readx_into_small; exact Ht|].
    intros r c1 (-> & Ht1 & F1). apply crun_bind. eapply crun_mono; [apply writex_talks; eapply talks_other; [by apply not_eq_sym|exact F1|exact Hl]|].
    intros ok c2 (-> & Hl2 & F2). cbn [negb]. assert (talks c2 fd (data_stream chunks t ++ rest) sent) as Ht2 by (by eapply talks_other).
    apply crun_bind. rewrite <- (take_drop 8 (data_stream chunks t)), <- app_assoc in Ht2.
    assert (length (take 8 (data_stream chunks t)) = 8%nat) as H8 by (rewrite length_take; pose proof (data_stream_length chunks t); lia).
    rewrite <- H8 at 1. eapply crun_mono; [eapply readx_talks; exact Ht2|]. intros h c3 (-> & Ht3 & F3).
    eapply crun_mono; [apply (IH n (lsent ++ b) c3); [simpl in Hf; lia|exact Ht3|eapply talks_other; [by apply not_eq_sym|exact F3|exact Hl2]]|].
    intros r c4 (-> & Ht4 & E4 & g & Hg & Hs). destruct (only_fd_local _ _ _ F1), (only_fd_local _ _ _ F2), (only_fd_local _ _ _ F3).
    split_and!; [done|done|congruence|]. exists g. split; [congruence|]. rewrite Hs. cbn [concat]. by rewrite <- app_assoc.
Qed.

(** Only the tree of the local file system has changed. *)
Definition only_tree (c c' : client) : Prop := exists t,
  c' = with_local (mklocal t (l_name (c_local c)) (l_creates (c_local c)) (l_mkdir (c_local c)) (l_ok (c_local c)) (l_umask (c_local c))) c.
Lemma only_tree_refl c : only_tree c c.
Proof. exists (l_tree (c_local c)). by destruct c as [? ? ? ? ? ? ? ? ? ? []]. Qed.
Lemma only_tree_trans c1 c2 c3 : only_tree c1 c2 -> only_tree c2 c3 -> only_tree c1 c3.
Proof. intros [t ->] [u ->]. by exists u. Qed.
Lemma talks_tree fd inp sent c c' : only_tree c c' -> talks c fd inp sent -> talks c' fd inp sent.
Proof. by intros [t ->]. Qed.

Lemma put_entry_tree b path e c : only_tree c (with_local (put_entry b path e (c_local c)) c).
Proof. by eexists. Qed.

Lemma with_local_same c : with_local (c_local c) c = c.
Proof. by destruct c. Qed.

Lemma adb_unlink_run path c : crun (adb_unlink path) c (fun _ c' => only_tree c c').
Proof.
  apply crun_modify. assert (only_tree c (with_local (c_local c) c)) as H0 by (rewrite with_local_same; apply only_tree_refl).
  destruct (find_entry false (c_local c) path) as [[]|]; try exact H0.
  all: destruct (l_ok (c_local c) AUnlink path); [apply put_entry_tree|exact H0].
Qed.

Lemma mkdirs_loop_run rest prefix c : crun (mkdirs_loop prefix rest) c (fun _ c' => only_tree c c').
Proof.
  revert prefix c. induction rest as [|b t IH]; intros prefix c; cbn [mkdirs_loop]; [apply crun_ret, only_tree_refl|].
  destruct (byte_eqb b (ch 47)); [|apply IH]. unfold adb_mkdir. apply crun_bind, crun_bind, crun_gets.
  destruct (l_mkdir (c_local c) prefix).
  - apply crun_bind, crun_modify, crun_ret. eapply crun_mono; [apply IH|]. intros u c2 Hc2. eapply only_tree_trans; [apply put_entry_tree|exact Hc2].
  - apply crun_ret, IH.
  - apply crun_ret, crun_ret, only_tree_refl.
Qed.
Lemma mkdirs_run name c : name <> [] -> crun (mkdirs name) c (fun _ c' => only_tree c c').
Proof. destruct name; [done|]. intros _. apply mkdirs_loop_run. Qed.

(** A new, empty file open on a new descriptor. *)
Lemma adb_creat_run path perm r fd inp sent c : l_creates (c_local c) = Some [] :: r -> talks c fd inp sent ->
  crun (adb_creat path perm) c (fun lfd c' => fd <> lfd /\ 0 <= lfd /\ talks c' fd inp sent /\ talks c' lfd [] [] /\
    c_closed c' = c_closed c /\ exists m, find_entry true (c_local c') path = Some (ENew lfd m 0)).
Proof.
  intros Hr Ht. unfold adb_creat. apply crun_bind, crun_gets. rewrite Hr. apply crun_bind.
  eapply crun_mono; [by apply open_fd_run|]. intros lfd c1 (Hlt & Hp & Hn & -> & Ht1). apply crun_bind, crun_modify, crun_ret.
  split_and!; [lia|done|exact Ht1| |done|].
  - eexists. simpl. rewrite lookup_insert_eq. by split_and!.
  - eexists. unfold find_entry, put_entry, with_creates. simpl. by rewrite lookup_partial_alter_eq.
Qed.

Definition stat_reply (mode size time : Z) : bytes := le32 ID_STAT ++ le32 mode ++ le32 size ++ le32 time.
(** What a pull is sent and sends before the data. *)
Definition recv_stat (sp : bool) (st : Z * Z * Z) : bytes := if sp then stat_reply st.1.1 st.1.2 st.2 else [].
Definition request (id : Z) (path : bytes) : bytes := msg2 id (Z.of_nat (length path)) ++ path.
Definition recv_sent (sp : bool) (rpath : bytes) : bytes := (if sp then request ID_STAT rpath else []) ++ request ID_RECV rpath.

Lemma recv_size_run fd rpath sp st inp sent c : talks c fd (recv_stat sp st ++ inp) sent ->
  crun (recv_size fd rpath sp) c (fun ok c' => ok = true /\ talks c' fd inp (sent ++ (if sp then request ID_STAT rpath else [])) /\ (c' = c \/ only_fd fd c c')).
Proof.
  intros Ht. unfold recv_size. destruct sp; [|apply crun_ret; rewrite app_nil_r; by auto].
  apply crun_bind. eapply crun_mono; [by apply send_req_talks|]. intros ok c1 (-> & Ht1 & F1). cbn [negb].
  apply crun_bind. eapply crun_mono; [eapply (readx_talks fd (recv_stat true st)); exact Ht1|]. intros b c2 (-> & Ht2 & F2).
  apply crun_ret. split_and!; [|exact Ht2|right; by eapply only_fd_trans].
  unfold recv_stat, stat_reply, word. change (4 * 0)%nat with 0%nat. rewrite drop_0, unle32_le32_app. done.
Qed.

Lemma pull_file_run fd rpath lpath sp st chunks t rest sent r c :
  (length rpath <= 1024)%nat -> lpath <> [] -> l_creates (c_local c) = Some [] :: r ->
  Forall (fun b => Z.of_nat (length b) <= SYNC_DATA_MAX) chunks ->
  talks c fd (recv_stat sp st ++ data_stream chunks t ++ rest) sent ->
  crun (sync_recv fd rpath lpath sp) c (fun x c' => x = 0 /\ talks c' fd rest (sent ++ recv_sent sp rpath) /\
    exists lfd g m, find_entry true (c_local c') lpath = Some (ENew lfd m 0) /\
      c_closed c' = c_closed c ++ [(lfd, g)] /\ io_sent g = concat chunks).
Proof.
  intros Hl Hne Hr Hc Ht. unfold sync_recv. rewrite (proj2 (Z.ltb_ge 1024 _)) by lia.
  apply crun_bind. eapply crun_mono; [by eapply recv_size_run|]. intros ok c1 (-> & Ht1 & F1). cbn [negb].
  apply crun_bind. eapply crun_mono; [by apply send_req_talks|]. intros ok c2 (-> & Ht2 & F2). cbn [negb].
  assert (c_local c2 = c_local c /\ c_closed c2 = c_closed c) as [El2 Ecl2].
  { destruct (only_fd_local _ _ _ F2) as [-> ->]. destruct F1 as [->|F1]; [done|]. by apply (only_fd_local fd). }
  apply crun_bind. rewrite <- (take_drop 8 (data_stream chunks t)), <- app_assoc in Ht2.
  assert (length (take 8 (data_stream chunks t)) = 8%nat) as H8 by (rewrite length_take; pose proof (data_stream_length chunks t); lia).
  rewrite <- H8 at 1. eapply crun_mono; [eapply readx_talks; exact Ht2|]. intros h c3 (-> & Ht3 & F3).
  replace ((word 0 (take 8 (data_stream chunks t)) =? ID_DATA) || (word 0 (take 8 (data_stream chunks t)) =? ID_DONE)) with true.
  2: { destruct chunks as [|b chunks]; unfold data_stream, frames; cbn [map concat app]; [|unfold data_frame at 1 2; rewrite <- !app_assoc, !take_app_exact by done];
       unfold word, msg2; (change (4 * 0)%nat with 0%nat); rewrite !drop_0; [rewrite !take_ge by done|]; by rewrite !unle32_le32_app. }
  apply crun_bind. eapply crun_mono; [apply adb_unlink_run|]. intros u4 c4 F4.
  apply crun_bind. eapply crun_mono; [by apply mkdirs_run|]. intros u5 c5 F5. pose proof (only_tree_trans _ _ _ F4 F5) as F45.
  assert (l_creates (c_local c5) = Some [] :: r /\ c_closed c5 = c_closed c) as [Er5 Ecl5].
  { destruct F45 as [u ->]. destruct (only_fd_local _ _ _ F3) as [E ?]. simpl. rewrite E, El2. split; [done|congruence]. }
  apply (talks_tree _ _ _ _ _ F45) in Ht3.
  apply crun_bind. eapply crun_mono; [by apply (adb_creat_run lpath _ r fd)|]. intros lfd c6 (Hd & Hp & Ht6 & Hl6 & Ecl6 & m & Hm).
  rewrite (proj2 (Z.ltb_ge lfd 0)) by done. apply crun_bind, crun_gets.
  assert (fd_input fd c6 = drop 8 (data_stream chunks t) ++ rest) as ->.
  { destruct Ht6 as (g & Hg & Hs & _). unfold fd_input. by rewrite Hg. }
  eapply crun_mono; [eapply (recv_loop_run fd lfd lpath chunks t rest _ Hd Hc _ []); [|exact Ht6|exact Hl6]|].
  { rewrite length_app, length_drop. pose proof (data_stream_length chunks t). lia. }
  intros x c7 (-> & Ht7 & E7 & g & Hg & Hs). split; [done|]. split; [unfold recv_sent; rewrite app_assoc; exact Ht7|].
  exists lfd, g, m. split_and!; [congruence|congruence|exact Hs].
Qed.

(** ** Local directories *)

Lemma mkcopyinfo_paths spath dpath name isdir :
  let s := name ++ (if isdir : bool then lit "/" else []) in
  ci_src (mkcopyinfo spath dpath name isdir) = spath ++ s /\ ci_dst (mkcopyinfo spath dpath name isdir) = dpath ++ s.
Proof. cbn zeta. unfold mkcopyinfo. simpl. by split; apply snprintf_fits; rewrite !length_app; destruct isdir; simpl; lia. Qed.

(** An entry of the list: a regular file or a link of the local tree, with its
    attributes, that has the same place under both roots. *)
Definition listed (l : local) (lpath rpath : bytes) (ci : copyinfo) : Prop := exists s st,
  ci_src ci = lpath ++ s /\ ci_dst ci = rpath ++ s /\ entry_stat <$> find_entry false l (ci_src ci) = Some st /\
  S_ISREG (st_mode st) || S_ISLNK (st_mode st) = true /\
  ci_time ci = wrap32 (st_mtime st) /\ ci_mode ci = wrap32 (st_mode st) /\ ci_size ci = wrap32 (st_size st) /\ ci_flag ci = false.
(** A subdirectory to visit. *)
Definition below (lpath rpath : bytes) (ci : copyinfo) : Prop := exists s,
  ci_src ci = lpath ++ s /\ ci_dst ci = rpath ++ s /\ s <> [] /\ Z.of_nat (length (ci_src ci)) <= PATH_MAX.

Lemma listed_below l lpath rpath dir ci : below lpath rpath dir -> listed l (ci_src dir) (ci_dst dir) ci -> listed l lpath rpath ci.
Proof.
  intros (s & E1 & E2 & _) (t & st & F1 & F2 & H). exists (s ++ t), st. rewrite E1 in F1. rewrite E2 in F2. rewrite <- app_assoc in F1, F2.
  split; [done|]. split; [done|exact H].
Qed.

Lemma scan_dir_listed (P : copyinfo -> Prop) l lpath rpath names fl dl : (forall ci, listed l lpath rpath ci -> P ci) ->
  Forall P fl -> Forall (below lpath rpath) dl ->
  let '(fl', dl') := scan_dir l lpath rpath names fl dl in
  Forall P fl' /\ match dl' with Some d => Forall (below lpath rpath) d | None => True end.
Proof.
  intros HP. revert fl dl. induction names as [|name r IH]; intros fl dl Hf Hd; cbn [scan_dir]; [done|].
  destruct (dot_name name); [by apply IH|].
  destruct (Z.ltb_spec PATH_MAX (Z.of_nat (length lpath + length name + 1))) as [|Hlen]; [by apply IH|].
  destruct (entry_stat <$> find_entry false l (lpath ++ name)) as [st|]; [|by apply IH].
  destruct (S_ISDIR (st_mode st)).
  { apply IH; [done|]. constructor; [|done]. destruct (mkcopyinfo_paths lpath rpath name true) as [E1 E2].
    exists (name ++ lit "/"). split_and!; [done|done|by destruct name|]. rewrite E1, !length_app. simpl. lia. }
  destruct (mkcopyinfo_paths lpath rpath name false) as [E1 E2]. cbn zeta.
  destruct (entry_stat <$> find_entry false l (ci_src (mkcopyinfo lpath rpath name false))) as [st'|] eqn:Es; [|done].
  destruct (S_ISREG (st_mode st')) eqn:Er, (S_ISLNK (st_mode st')) eqn:El; cbn [negb andb]; apply IH; try done.
  all: constructor; [apply HP|done]; exists (name ++ []), st'; cbn [ci_attrs ci_src ci_dst]; (split_and!; [done|done|done|by rewrite Er, El|done..]).
Qed.

Lemma rfold_ok {A B} (P : B -> Prop) (Q : A -> Prop) (f : B -> A -> res A) l a :
  (forall b a, P b -> Q a -> exists a', f b a = Ok a' /\ Q a') -> Forall P l -> Q a -> exists a', rfold f l a = Ok a' /\ Q a'.
Proof.
  intros Hf Hl. revert a. induction Hl as [|b l Hb Hl IH]; intros a Ha; cbn [rfold]; [by exists a|].
  destruct (Hf b a Hb Ha) as (a' & -> & Ha'). cbn [rbind]. by apply IH.
Qed.

(** The walk over a local tree always ends, and keeps a property that all listed
    files have. *)
Lemma local_build_list_ok (P : copyinfo -> Prop) l fuel : forall lpath rpath fl, (forall ci, listed l lpath rpath ci -> P ci) ->
  PATH_MAX + 1 < Z.of_nat fuel + Z.of_nat (length lpath) -> (0 < fuel)%nat -> Forall P fl ->
  exists r fl', local_build_list fuel l lpath rpath fl = Ok (r, fl') /\ Forall P fl'.
Proof.
  induction fuel as [|n IH]; intros lpath rpath fl HP Hf H0 Hfl; [lia|]. clear H0. cbn [local_build_list].
  destruct (find_entry true l lpath) as [[| |[names|]| |]|]; try (by eexists _, _).
  pose proof (scan_dir_listed P l lpath rpath names fl [] HP Hfl (Forall_nil_2 _)) as Hs.
  destruct (scan_dir l lpath rpath names fl []) as [fl1 [dirs|]]; destruct Hs as [Hfl1 Hd]; [|by eexists _, _].
  destruct (rfold_ok (below lpath rpath) (Forall P)
    (fun ci fl => rbind (local_build_list n l (ci_src ci) (ci_dst ci) fl) (fun r => Ok (snd r))) dirs fl1) as (fl2 & E & Hfl2); [|done|done|].
  - intros dir fl2 Hb Hfl2. destruct (IH (ci_src dir) (ci_dst dir) fl2) as (r & fl3 & E & Hfl3); [| | |done|].
    + intros ci Hci. by eapply HP, listed_below.
    + destruct Hb as (s & E1 & _ & Hne & _). rewrite E1, length_app. destruct s; [done|]. simpl. lia.
    + destruct Hb as (s & E1 & _ & Hne & Hlen). rewrite E1, length_app in Hlen. destruct s; [done|]. simpl in Hlen. lia.
    + rewrite E. by exists fl3.
  - rewrite E. by eexists _, _.
Qed.

(** The names under a local directory that a push copies: the regular files and
    links of a listed directory, and those of its subdirectories. *)
Definition entry_at (l : local) (lpath name : bytes) (st : stat) : Prop :=
  exists names mode, find_entry true l lpath = Some (EDir (Some names) mode) /\ name ∈ names /\ dot_name name = false /\
    Z.of_nat (length lpath + length name + 1) <= PATH_MAX /\ entry_stat <$> find_entry false l (lpath ++ name) = Some st.
Inductive under (l : local) : bytes -> bytes -> Prop :=
  | under_file lpath name st : entry_at l lpath name st -> S_ISDIR (st_mode st) = false ->
      S_ISREG (st_mode st) || S_ISLNK (st_mode st) = true -> under l lpath name
  | under_dir lpath name st s : entry_at l lpath name st -> S_ISDIR (st_mode st) = true ->
      under l (lpath ++ name ++ lit "/") s -> under l lpath (name ++ lit "/" ++ s).

(** The destination of a listed path. *)
Definition has_copy (fl : list copyinfo) (src dst : bytes) : Prop := exists ci, ci ∈ fl /\ ci_src ci = src /\ ci_dst ci = dst.
Lemma has_copy_sub fl fl' src dst : fl ⊆ fl' -> has_copy fl src dst -> has_copy fl' src dst.
Proof. intros Hs (ci & Hin & H). exists ci. split; [by apply Hs|done]. Qed.

Lemma scan_dir_complete l lpath rpath names fl dl : exists fl' dl',
  scan_dir l lpath rpath names fl dl = (fl', Some dl') /\ fl ⊆ fl' /\ dl ⊆ dl' /\
  forall name st, name ∈ names -> dot_name name = false -> Z.of_nat (length lpath + length name + 1) <= PATH_MAX ->
    entry_stat <$> find_entry false l (lpath ++ name) = Some st ->
    if S_ISDIR (st_mode st) then has_copy dl' (lpath ++ name ++ lit "/") (rpath ++ name ++ lit "/")
    else S_ISREG (st_mode st) || S_ISLNK (st_mode st) = true -> has_copy fl' (lpath ++ name) (rpath ++ name).
Proof.
  revert fl dl. induction names as [|x r IH]; intros fl dl; cbn [scan_dir].
  { exists fl, dl. split_and!; [done..|]. intros name st Hin. by apply elem_of_nil in Hin. }
  assert (forall fl1 dl1, fl ⊆ fl1 -> dl ⊆ dl1 ->
    (forall st, dot_name x = false -> Z.of_nat (length lpath + length x + 1) <= PATH_MAX ->
      entry_stat <$> find_entry false l (lpath ++ x) = Some st ->
      if S_ISDIR (st_mode st) then has_copy dl1 (lpath ++ x ++ lit "/") (rpath ++ x ++ lit "/")
      else S_ISREG (st_mode st) || S_ISLNK (st_mode st) = true -> has_copy fl1 (lpath ++ x) (rpath ++ x)) ->
    exists fl' dl', scan_dir l lpath rpath r fl1 dl1 = (fl', Some dl') /\ fl ⊆ fl' /\ dl ⊆ dl' /\
      forall name st, name ∈ x :: r -> dot_name name = false -> Z.of_nat (length lpath + length name + 1) <= PATH_MAX ->
        entry_stat <$> find_entry false l (lpath ++ name) = Some st ->
        if S_ISDIR (st_mode st) then has_copy dl' (lpath ++ name ++ lit "/") (rpath ++ name ++ lit "/")
        else S_ISREG (st_mode st) || S_ISLNK (st_mode st) = true -> has_copy fl' (lpath ++ name) (rpath ++ name)) as Step.
  { intros fl1 dl1 Hf Hd Hx. destruct (IH fl1 dl1) as (fl' & dl' & E & Hf' & Hd' & H). exists fl', dl'. split; [exact E|].
    split; [by etrans|]. split; [by etrans|]. intros name st Hin Hdot Hlen Hst. apply elem_of_cons in Hin as [->|Hin]; [|by eapply H].
    specialize (Hx st Hdot Hlen Hst). destruct (S_ISDIR (st_mode st)); [|intros Hk; specialize (Hx Hk)]; by eapply has_copy_sub. }
  destruct (dot_name x) eqn:Edot; [by apply Step|].
  destruct (Z.ltb_spec PATH_MAX (Z.of_nat (length lpath + length x + 1))) as [|Hlen]; [apply Step; [done|done|intros; lia]|].
  destruct (entry_stat <$> find_entry false l (lpath ++ x)) as [st|] eqn:Est; [|by apply Step].
  destruct (mkcopyinfo_paths lpath rpath x true) as [E1 E2]. destruct (mkcopyinfo_paths lpath rpath x false) as [E3 E4].
  rewrite app_nil_r in E3, E4. destruct (S_ISDIR (st_mode st)) eqn:Ed.
  { apply Step; [done|set_solver|]. intros st' _ _ [= <-]. rewrite Ed. eexists. split; [by left|done]. }
  rewrite E3, Est. destruct (S_ISREG (st_mode st)) eqn:Er, (S_ISLNK (st_mode st)) eqn:El; cbn [negb andb].
  4: { apply Step; [done|done|]. intros st' _ _ [= <-]. by rewrite Ed, Er, El. }
  all: apply Step; [set_solver|done|]; intros st' _ _ [= <-]; rewrite Ed; intros _; (eexists; split; [by left|done]).
Qed.

Lemma rfold_sub {A B} (f : B -> list A -> res (list A)) l a a' :
  (forall b a a', f b a = Ok a' -> a ⊆ a') -> rfold f l a = Ok a' ->
  a ⊆ a' /\ forall b, b ∈ l -> exists a1 a2, f b a1 = Ok a2 /\ a2 ⊆ a'.
Proof.
  intros Hf. revert a. induction l as [|b l IH]; intros a E; cbn [rfold] in E.
  { injection E as <-. split; [done|]. intros b Hb. by apply elem_of_nil in Hb. }
  apply rbind_Ok in E as (a1 & E1 & E2). destruct (IH a1 E2) as [Hs H]. pose proof (Hf _ _ _ E1). split; [by etrans|].
  intros b' [->|Hb]%elem_of_cons; [by exists a, a1|by apply H].
Qed.

Lemma local_build_list_sub l fuel : forall lpath rpath fl r fl', local_build_list fuel l lpath rpath fl = Ok (r, fl') -> fl ⊆ fl'.
Proof.
  induction fuel as [|n IH]; intros lpath rpath fl r fl' E; cbn [local_build_list] in E; [done|].
  destruct (find_entry true l lpath) as [[| |[names|]| |]|]; try (by injection E as <- <-).
  destruct (scan_dir_complete l lpath rpath names fl []) as (fl1 & dl1 & E1 & Hs & _). rewrite E1 in E.
  apply rbind_Ok in E as (fl2 & E & E'). injection E' as <- <-. apply rfold_sub in E as [Hs2 _]; [by etrans|].
  intros ci a a' (x & Ex & Ex')%rbind_Ok. injection Ex' as <-. destruct x. by eapply IH.
Qed.

Lemma local_build_list_complete l lpath s : under l lpath s -> forall fuel rpath fl r fl',
  local_build_list fuel l lpath rpath fl = Ok (r, fl') -> has_copy fl' (lpath ++ s) (rpath ++ s).
Proof.
  induction 1 as [lpath name st (names & mode & Hd & Hin & Hdot & Hlen & Hst) Hn Hk|lpath name st s (names & mode & Hd & Hin & Hdot & Hlen & Hst) Hn Hu IH];
    intros [|n] rpath fl r fl' E; cbn [local_build_list] in E; [done| |done|]; rewrite Hd in E;
    destruct (scan_dir_complete l lpath rpath names fl []) as (fl1 & dl1 & E1 & _ & _ & H1); rewrite E1 in E;
    apply rbind_Ok in E as (fl2 & E & E'); injection E' as <- <-; specialize (H1 name st Hin Hdot Hlen Hst); rewrite Hn in H1;
    (apply rfold_sub in E as [Hs2 H2]; [|intros ci a a' (x & Ex & Ex')%rbind_Ok; injection Ex' as <-; destruct x; by eapply local_build_list_sub]).
  - by eapply has_copy_sub, H1.
  - destruct H1 as (dir & Hdir & Es & Ed). destruct (H2 dir Hdir) as (a1 & a2 & (x & Ex & Ex')%rbind_Ok & Hsub). injection Ex' as <-.
    destruct x as [r2 fl3]. rewrite Es, Ed in Ex. apply IH in Ex. rewrite <- !app_assoc in Ex. eapply has_copy_sub; [exact Hsub|]. exact Ex.
Qed.


(** ** Remote directories *)

(** Code that ends, unless the device makes it overrun a buffer. *)
Definition ends {A} (m : C A) (c : client) (Q : A -> client -> Prop) : Prop :=
  match m c with Ok (a, c') => Q a c' | UB _ => True | _ => False end.
Lemma ends_ret {A} (a : A) c (Q : A -> client -> Prop) : Q a c -> ends (cret a) c Q.
Proof. done. Qed.
Lemma ends_bind {A B} (m : C A) (k : A -> C B) c Q : ends m c (fun a c1 => ends (k a) c1 Q) -> ends (cbind m k) c Q.
Proof. unfold ends, cbind. by destruct (m c) as [[a c1]| | |]. Qed.
Lemma ends_mono {A} (m : C A) c (P Q : A -> client -> Prop) : ends m c P -> (forall a c1, P a c1 -> Q a c1) -> ends m c Q.
Proof. unfold ends. destruct (m c) as [[a c1]| | |]; [|done..]. eauto. Qed.
Lemma ends_gets {A} (f : client -> A) c (Q : A -> client -> Prop) : Q (f c) c -> ends (cgets f) c Q.
Proof. done. Qed.
Lemma crun_ends {A} (m : C A) c Q : crun m c Q -> ends m c Q.
Proof. unfold crun, ends. by destruct (m c) as [[a c1]| | |]. Qed.

(** How much the device still has to say. *)
Definition left_of (fd : Z) (c : client) : nat := length (fd_input fd c).

Lemma readx_left fd n c : crun (c_readx fd n) c (fun r c' =>
  match r with Some b => (left_of fd c' + n = left_of fd c)%nat | None => True end).
Proof.
  unfold c_readx. apply crun_bind, crun_gets. destruct (c_fds c !! fd) as [f|] eqn:Ef.
  - destruct (readx_spec n (io_in f)) as (i & E & Hs). apply crun_bind. eapply crun_lift; [exact E|].
    apply crun_bind, crun_modify, crun_ret. destruct (Nat.leb_spec n (length (stream (io_in f)))) as [Hn|]; [|done].
    unfold left_of, fd_input. unfold with_fds. simpl. rewrite lookup_insert_eq, Ef. simpl. rewrite Hs, length_drop by done. lia.
  - apply crun_ret. by destruct n.
Qed.
Lemma readx_into_left fd cap len c : ends (readx_into fd cap len) c (fun r c' =>
  match r with Some b => (left_of fd c' <= left_of fd c)%nat | None => True end).
Proof.
  unfold readx_into. destruct (len <? 0).
  - apply ends_bind, ends_gets. destruct (cap <? _); [done|]. apply crun_ends. eapply crun_mono; [apply readx_left|]. intros [b|] c'; [|done]. lia.
  - apply crun_ends. eapply crun_mono; [apply readx_left|]. intros [b|] c'; [|done]. lia.
Qed.
Lemma writex_left fd d c : crun (c_writex fd d) c (fun _ c' => left_of fd c' = left_of fd c).
Proof.
  unfold c_writex. apply crun_bind, crun_gets. destruct (c_fds c !! fd) as [f|] eqn:Ef; [|by apply crun_ret].
  destruct (writex_spec d (io_wr f)) as (ok & out & w & E & _). apply crun_bind. eapply crun_lift; [exact E|].
  apply crun_bind, crun_modify, crun_ret. unfold left_of, fd_input, with_fds. simpl. by rewrite lookup_insert_eq, Ef.
Qed.
Lemma send_req_left fd id path c : crun (send_req fd id path) c (fun _ c' => left_of fd c' = left_of fd c).
Proof.
  unfold send_req. apply crun_bind. eapply crun_mono; [apply writex_left|]. intros [] c1 E1; cbn [negb]; [|by apply crun_ret].
  eapply crun_mono; [apply writex_left|]. intros ? c2 E2. by rewrite E2.
Qed.

(** A callback that only changes its cookie, and keeps [P]. *)
Definition cookie_only {A} (P : A -> Prop) (func : Z -> Z -> Z -> bytes -> A -> C A) : Prop :=
  forall mode size time name a c, P a -> exists a', func mode size time name a c = Ok (a', c) /\ P a'.

Lemma ls_loop_ends {A} (P : A -> Prop) fuel fd func (a : A) c : cookie_only P func -> P a -> (left_of fd c < fuel)%nat ->
  ends (ls_loop fuel fd func a) c (fun r c' => P r.1 /\ (r.2 = true -> (left_of fd c' + 20 <= left_of fd c)%nat)).
Proof.
  intros Hfunc. revert a c. induction fuel as [|n IH]; intros a c Ha Hf; [lia|]. cbn [ls_loop].
  apply ends_bind. eapply ends_mono; [apply crun_ends, readx_left|]. intros [dent|] c1 H1; [|by apply ends_ret].
  destruct (word 0 dent =? ID_DONE); [apply ends_ret; split; [done|]; intros _; lia|].
  destruct (word 0 dent =? ID_DENT); cbn [negb]; [|by apply ends_ret].
  destruct (256 <? to_int (word 4 dent)); [by apply ends_ret|].
  apply ends_bind. eapply ends_mono; [apply readx_into_left|]. intros [buf|] c2 H2; [|by apply ends_ret].
  apply ends_bind. destruct (Hfunc (word 1 dent) (word 2 dent) (word 3 dent) (cstr buf) a c2 Ha) as (a' & E & Ha').
  unfold ends at 1. rewrite E. eapply ends_mono; [apply IH; [done|lia]|]. intros r c3 [Hr H3]. split; [done|]. intros Ht. specialize (H3 Ht). lia.
Qed.

Lemma sync_ls_ends {A} (P : A -> Prop) fd path func (a : A) c : cookie_only P func -> P a ->
  ends (sync_ls fd path func a) c (fun r c' => P r.1 /\ (r.2 = 0 -> (left_of fd c' + 20 <= left_of fd c)%nat)).
Proof.
  intros Hfunc Ha. unfold sync_ls. destruct (1024 <? _); [apply ends_bind; by apply ends_ret|].
  apply ends_bind. eapply ends_mono; [apply crun_ends, send_req_left|]. intros ok c1 E1. destruct ok; cbn [negb]; [|apply ends_bind; by apply ends_ret].
  apply ends_bind, ends_gets, ends_bind. eapply ends_mono; [apply (ls_loop_ends P); [done|done|unfold left_of; lia]|].
  intros [a' good] c2 [Ha' H2]. destruct good; [|apply ends_bind; by apply ends_ret]. apply ends_ret. split; [done|]. intros _. simpl in *. specialize (H2 eq_refl). lia.
Qed.

(** The same place under both roots. *)
Definition mirrored (spath dpath : bytes) (ci : copyinfo) : Prop := exists s, ci_src ci = spath ++ s /\ ci_dst ci = dpath ++ s.
Lemma mirrored_below spath dpath dir ci : mirrored spath dpath dir -> mirrored (ci_src dir) (ci_dst dir) ci -> mirrored spath dpath ci.
Proof. intros (s & E1 & E2) (t & F1 & F2). exists (s ++ t). by rewrite F1, F2, E1, E2, <- !app_assoc. Qed.
Lemma mirrored_mk spath dpath name isdir : mirrored spath dpath (mkcopyinfo spath dpath name isdir).
Proof. destruct (mkcopyinfo_paths spath dpath name isdir) as [E1 E2]. by eexists. Qed.

Lemma build_list_cb_ok (P : copyinfo -> Prop) rpath lpath : (forall ci, mirrored rpath lpath ci -> P ci) ->
  cookie_only (fun ls => Forall P ls.1 /\ Forall (mirrored rpath lpath) ls.2) (sync_ls_build_list_cb rpath lpath).
Proof.
  intros HP mode size time name [fl dl] c [Hf Hd]. unfold sync_ls_build_list_cb.
  destruct (S_ISDIR mode); [destruct (dot_name name)|destruct (S_ISREG mode || S_ISLNK mode)]; eexists; (split; [reflexivity|]); split; try done; cbn [fst snd] in *.
  - constructor; [apply mirrored_mk|done].
  - constructor; [|done]. apply HP. apply (mirrored_mk rpath lpath name false).
Qed.

Lemma remote_build_list_ends (P : copyinfo -> Prop) fuel fd : forall rpath lpath fl c, (forall ci, mirrored rpath lpath ci -> P ci) ->
  Forall P fl -> (left_of fd c < fuel)%nat ->
  ends (remote_build_list fuel fd rpath lpath fl) c (fun r c' => Forall P r.1 /\ (r.2 = 0 -> (left_of fd c' + 20 <= left_of fd c)%nat)).
Proof.
  induction fuel as [|n IH]; intros rpath lpath fl c HP Hfl Hf; [lia|]. cbn [remote_build_list].
  apply ends_bind. eapply ends_mono; [apply (sync_ls_ends (fun ls => Forall P ls.1 /\ Forall (mirrored rpath lpath) ls.2)); [by apply build_list_cb_ok|done]|].
  intros [[fl1 dl1] r] c1 [[Hf1 Hd1] H1]. cbn [fst snd] in *. destruct (Z.eqb_spec r 0) as [->|]; cbn [negb]; [|by apply ends_ret].
  specialize (H1 eq_refl). assert (left_of fd c1 + 20 <= left_of fd c)%nat as Hc by done. clear H1. revert fl1 c1 Hf1 Hc.
  induction Hd1 as [|dir dl Hdir Hdl IHd]; intros fl1 c1 Hf1 Hc; [by apply ends_ret|].
  apply ends_bind. eapply ends_mono; [apply (IH (ci_src dir) (ci_dst dir) fl1 c1); [intros ci Hci; by eapply HP, mirrored_below|done|lia]|].
  intros [fl2 r] c2 [Hf2 H2]. cbn [fst snd] in *. destruct (Z.eqb_spec r 0) as [->|]; cbn [negb]; [|by apply ends_ret].
  apply IHd; [done|]. specialize (H2 eq_refl). lia.
Qed.


(** ** Commands *)

(** The server is of this version and lets the client through to the "sync:"
    service, which will say [inp]. *)
Definition sync_ready (c : client) (fd : Z) (inp : bytes) : Prop := exists fd1 f1 f2 r,
  c_conns c = (fd1, f1) :: (fd, f2) :: r /\ (0 <= fd1 /\ 0 <= fd) /\
  (stream (io_in f1) = lit "OKAY" ++ version_reply ADB_SERVER_VERSION /\ io_wr f1 = [] /\ io_sent f1 = []) /\
  (stream (io_in f2) = concat (map (fun _ => lit "OKAY") (preamble c (lit "sync:"))) ++ lit "OKAY" ++ inp /\ io_wr f2 = [] /\ io_sent f2 = []).
(** What was sent to get there. *)
Definition sync_hello (c : client) : bytes := concat (map framed (preamble c (lit "sync:"))) ++ framed (lit "sync:").

Lemma connect_sync c fd inp : sync_ready c fd inp ->
  crun (adb_connect (lit "sync:")) c (fun x c' => x = fd /\ (fd <? 0) = false /\ talks c' fd inp (sync_hello c) /\ c_local c' = c_local c).
Proof.
  intros (fd1 & f1 & f2 & r & Hc & [Hp1 Hp2] & (H1 & W1 & S1) & (H2 & W2 & S2)).
  eapply crun_mono; [apply (connect_current c (lit "sync:") fd1 fd ((fd, f2) :: r) inp); [simpl; lia|done|by eexists _, _|by exists f1]|].
  intros x c' (-> & Ht & El & _). split_and!; [done|by apply Z.ltb_ge|exact Ht|done].
Qed.

Lemma sync_quit_talks fd inp sent c : talks c fd inp sent ->
  crun (sync_quit fd) c (fun _ c' => talks c' fd inp (sent ++ msg2 ID_QUIT 0)).
Proof. intros Ht. unfold sync_quit. apply crun_bind. eapply crun_mono; [by apply writex_talks|]. intros ok c1 (_ & Ht1 & _). by apply crun_ret. Qed.

Lemma stat_reply_words mode size time : is_u32 mode -> is_u32 size -> is_u32 time ->
  word 0 (stat_reply mode size time) = ID_STAT /\ word 1 (stat_reply mode size time) = mode /\
  word 2 (stat_reply mode size time) = size /\ word 3 (stat_reply mode size time) = time.
Proof.
  intros Hm Hs Ht. unfold word, stat_reply. split_and!.
  - change (4 * 0)%nat with 0%nat. rewrite drop_0, unle32_le32_app. done.
  - rewrite drop_app_exact by done. rewrite unle32_le32_app. by apply wrap32_id.
  - rewrite app_assoc, drop_app_exact by done. rewrite unle32_le32_app. by apply wrap32_id.
  - rewrite !app_assoc, drop_app_exact by done. by apply unle32_le32.
Qed.

Lemma sync_readmode_talks fd path mode size time inp sent c : is_u32 mode -> is_u32 size -> is_u32 time ->
  talks c fd (stat_reply mode size time ++ inp) sent ->
  crun (sync_readmode fd path) c (fun r c' => r = Some mode /\ talks c' fd inp (sent ++ request ID_STAT path) /\ only_fd fd c c').
Proof.
  intros Hm Hs Htm Ht. destruct (stat_reply_words mode size time Hm Hs Htm) as (E0 & E1 & _).
  unfold sync_readmode. apply crun_bind. eapply crun_mono; [by apply send_req_talks|]. intros ok c1 (-> & Ht1 & F1). cbn [negb].
  apply crun_bind. eapply crun_mono; [apply (readx_talks fd (stat_reply mode size time)); exact Ht1|]. intros b c2 (-> & Ht2 & F2).
  rewrite E0, E1, Z.eqb_refl. cbn [negb]. apply crun_ret. split_and!; [done|exact Ht2|by eapply only_fd_trans].
Qed.

Lemma sync_unlink_talks fd path id n inp sent c : is_u32 id -> talks c fd (msg2 id n ++ inp) sent ->
  crun (sync_unlink fd path) c (fun r c' => r = (if id =? ID_OKAY then 0 else -1) /\ talks c' fd inp (sent ++ request ID_ULNK path)).
Proof.
  intros Hid Ht. unfold sync_unlink. apply crun_bind. eapply crun_mono; [by apply send_req_talks|]. intros ok c1 (-> & Ht1 & F1). cbn [negb].
  apply crun_bind. eapply crun_mono; [apply (readx_talks fd (msg2 id n)); exact Ht1|]. intros b c2 (-> & Ht2 & F2).
  rewrite <- (app_nil_r (msg2 id n)), word0_msg2 by done. by apply crun_ret.
Qed.

(** C30. Deleting a file of the device.  A directory is refused: the device is only
    asked what the path is.  Anything else, also what does not exist, is passed
    on, and the result is the device's answer. *)
Theorem unlink_spares_directories c fd rpath mode size time id n inp
  (Hm : is_u32 mode) (Hs : is_u32 size) (Ht : is_u32 time) (Hi : is_u32 id)
  (Hr : sync_ready c fd (stat_reply mode size time ++ msg2 id n ++ inp)) :
  crun (do_sync_unlink rpath) c (fun r c' =>
    if S_ISDIR mode then
      r = 1 /\ talks c' fd (msg2 id n ++ inp) (sync_hello c ++ request ID_STAT rpath ++ msg2 ID_QUIT 0)
    else
      r = (if id =? ID_OKAY then 0 else 1) /\
      talks c' fd inp (sync_hello c ++ request ID_STAT rpath ++ request ID_ULNK rpath ++ msg2 ID_QUIT 0)).
Proof.
  unfold do_sync_unlink. apply crun_bind. eapply crun_mono; [by apply connect_sync|]. intros x c1 (-> & Hp & Ht1 & _). rewrite Hp.
  apply crun_bind. eapply crun_mono; [apply (sync_readmode_talks fd rpath mode size time); done|]. intros m c2 (-> & Ht2 & _).
  assert (negb (mode =? 0) && (Z.land mode 0xf000 =? 0x4000) = S_ISDIR mode) as ->.
  { unfold S_ISDIR, S_IFMT. destruct (Z.eqb_spec mode 0) as [->|]; done. }
  destruct (S_ISDIR mode).
  - apply crun_bind. eapply crun_mono; [apply sync_quit_talks; exact Ht2|]. intros u c3 Ht3. apply crun_ret. split; [done|]. by rewrite <- !app_assoc in Ht3.
  - apply crun_bind. eapply crun_mono; [eapply sync_unlink_talks; [exact Hi|exact Ht2]|]. intros r c3 (-> & Ht3).
    apply crun_bind. eapply crun_mono; [apply sync_quit_talks; exact Ht3|]. intros u c4 Ht4. apply crun_ret.
    split; [by destruct (id =? ID_OKAY)|]. by rewrite <- !app_assoc in Ht4.
Qed.


(** ** Keeping a tree in step *)

Lemma wrap32_land m k : 0 <= k < u32_mod -> Z.land (wrap32 m) k = Z.land m k.
Proof.
  intros Hk. unfold wrap32. change u32_mod with (2 ^ 32). rewrite <- Z.land_ones by lia. rewrite <- Z.land_assoc. f_equal.
  rewrite Z.land_comm, Z.land_ones by lia. apply Z.mod_small. exact Hk.
Qed.

(** What a device that has the same file says of it. *)
Definition same_reply (ci : copyinfo) : bytes := stat_reply (ci_mode ci) (ci_size ci) (ci_time ci).

Lemma listed_current l lpath rpath ci : listed l lpath rpath ci ->
  is_u32 (ci_mode ci) /\ is_u32 (ci_size ci) /\ is_u32 (ci_time ci) /\ up_to_date (ci_time ci) (ci_mode ci) (ci_size ci) ci = true.
Proof.
  intros (s & st & _ & _ & _ & Hk & Et & Em & Es & _). unfold up_to_date. rewrite Et, Em, Es. split_and!; try apply wrap32_range.
  rewrite Z.land_diag. unfold S_ISREG, S_ISLNK, S_IFMT in *. rewrite !Z.eqb_refl, Z.leb_refl, !wrap32_land by (by vm_compute).
  apply orb_true_iff in Hk as [-> | ->]; [done|]. by rewrite orb_true_r.
Qed.

Lemma start_all_talks fd files inp sent c : talks c fd inp sent ->
  crun (start_all fd files) c (fun ok c' => ok = true /\
    talks c' fd inp (sent ++ concat (map (fun ci => request ID_STAT (ci_dst ci)) files)) /\ (c' = c \/ only_fd fd c c')).
Proof.
  revert sent c. induction files as [|ci r IH]; intros sent c Ht; cbn [start_all map concat]; [apply crun_ret; rewrite app_nil_r; by auto|].
  unfold sync_start_readtime. apply crun_bind, crun_bind. eapply crun_mono; [by apply send_req_talks|]. intros ok c1 (-> & Ht1 & F1). apply crun_ret.
  change (negb (0 =? 0)) with false. eapply crun_mono; [apply IH; exact Ht1|]. intros ok c2 (-> & Ht2 & F2).
  split_and!; [done|by rewrite <- app_assoc in Ht2|]. right. destruct F2 as [->|F2]; [done|by eapply only_fd_trans].
Qed.

Lemma finish_all_talks fd files inp sent c :
  Forall (fun ci => is_u32 (ci_mode ci) /\ is_u32 (ci_size ci) /\ is_u32 (ci_time ci) /\ up_to_date (ci_time ci) (ci_mode ci) (ci_size ci) ci = true) files ->
  talks c fd (concat (map same_reply files) ++ inp) sent ->
  crun (finish_all fd files) c (fun r c' => r = Some (map ci_set_flag files) /\ talks c' fd inp sent /\ (c' = c \/ only_fd fd c c')).
Proof.
  intros H. revert c. induction H as [|ci r (Hm & Hs & Ht & Hu) Hr IH]; intros c Hc; cbn [finish_all map concat] in *; [apply crun_ret; by auto|].
  rewrite <- app_assoc in Hc. destruct (stat_reply_words (ci_mode ci) (ci_size ci) (ci_time ci) Hm Hs Ht) as (E0 & E1 & E2 & E3).
  unfold sync_finish_readtime. apply crun_bind, crun_bind. eapply crun_mono; [apply (readx_talks fd (same_reply ci)); exact Hc|].
  intros b c1 (-> & Ht1 & F1). unfold same_reply. rewrite E0, E1, E2, E3, Z.eqb_refl. cbn [negb]. apply crun_ret, crun_bind.
  eapply crun_mono; [by apply IH|]. intros x c2 (-> & Ht2 & F2). apply crun_ret. rewrite Hu. split_and!; [done|done|].
  right. destruct F2 as [->|F2]; [done|by eapply only_fd_trans].
Qed.

Lemma push_all_current fd lo files c : push_all fd lo (map ci_set_flag files) c = Ok (0, c).
Proof. induction files as [|ci r IH]; [done|]. exact IH. Qed.

(** C29. A tree the device already has.  [adb sync] asks for the state of every file of
    the tree, in one batch, and sends none of them. *)
Theorem sync_current_tree c fd lpath rpath lo files inp (Hlp : lpath <> []) (Hrp : rpath <> [])
  (Hb : local_build_list build_fuel (c_local c) (with_slash lpath) (with_slash rpath) [] = Ok (0, files))
  (Hr : sync_ready c fd (concat (map same_reply files) ++ inp)) :
  crun (do_sync_sync lpath rpath lo) c (fun r c' => r = 0 /\
    talks c' fd inp (sync_hello c ++ concat (map (fun ci => request ID_STAT (ci_dst ci)) files) ++ msg2 ID_QUIT 0)).
Proof.
  destruct (local_build_list_ok (listed (c_local c) (with_slash lpath) (with_slash rpath)) (c_local c) build_fuel (with_slash lpath) (with_slash rpath) [])
    as (r & fl & E & Hl); [done|unfold build_fuel, PATH_MAX; lia|unfold build_fuel, PATH_MAX; lia|constructor|].
  rewrite Hb in E. injection E as <- <-. unfold do_sync_sync. apply crun_bind. eapply crun_mono; [by apply connect_sync|].
  intros x c1 (-> & Hp & Ht1 & El). rewrite Hp. apply crun_bind. unfold copy_local_dir_remote.
  rewrite !bool_decide_false by done. cbn [orb]. apply crun_bind, crun_gets, crun_bind. rewrite El. eapply crun_lift; [exact Hb|].
  change (negb (0 =? 0)) with false. apply crun_bind. eapply crun_mono; [apply start_all_talks; exact Ht1|]. intros ok c2 (-> & Ht2 & _). cbn [negb].
  apply crun_bind. eapply crun_mono; [apply finish_all_talks; [|exact Ht2]|].
  { eapply Forall_impl; [exact Hl|]. intros ci Hci. by eapply listed_current. }
  intros y c3 (-> & Ht3 & _). unfold crun at 1. rewrite push_all_current. change (negb (0 =? 0)) with false.
  apply crun_bind. eapply crun_mono; [apply sync_quit_talks; exact Ht3|]. intros u c4 Ht4. apply crun_ret. split; [done|]. by rewrite <- !app_assoc in Ht4.
Qed.

(** ** Examples *)

Definition demo_local (tree : gmap bytes entry) : local := mklocal tree (fun _ p => p) [Some []] (fun _ => MkExists) (fun _ _ => true) 18.
Definition demo_sync (tree : gmap bytes entry) (says : bytes) : client :=
  with_local (demo_local tree) (demo_cl ∅ [(3, demo_conn (lit "OKAY00040020")); (4, demo_conn (lit "OKAYOKAY" ++ says))]).
Definition demo_files : gmap bytes entry :=
  {[lit "d/" := EDir (Some [lit "."; lit ".."; lit "f"; lit "e"]) 16877; lit "d/f" := EReg (Some [RBytes (lit "he"); RIntr; RBytes (lit "llo")]) 5 33188 7;
    lit "d/e" := EDir (Some []) 16877; lit "d/e/" := EDir (Some [lit "l"]) 16877; lit "d/e/l" := ELink (Some (lit "f")) 1 41471 9]}.

Lemma demo_sync_ready tree says : sync_ready (demo_sync tree says) 4 says.
Proof. exists 3, (demo_conn (lit "OKAY00040020")), (demo_conn (lit "OKAYOKAY" ++ says)), []. split_and!; try done. simpl. by rewrite app_nil_r. Qed.

Lemma unlink_spares_directories_witness :
  crun (do_sync_unlink (lit "/data")) (demo_sync ∅ (stat_reply 16877 4096 7 ++ msg2 ID_OKAY 0 ++ []))
    (fun r c' => r = 1 /\ talks c' 4 (msg2 ID_OKAY 0) (lit "0012host:transport-any0005sync:" ++ request ID_STAT (lit "/data") ++ msg2 ID_QUIT 0)).
Proof.
  exact (unlink_spares_directories (demo_sync ∅ (stat_reply 16877 4096 7 ++ msg2 ID_OKAY 0 ++ [])) 4 (lit "/data") 16877 4096 7 ID_OKAY 0 []
    ltac:(done) ltac:(done) ltac:(done) ltac:(done) (demo_sync_ready _ _)).
Defined.

Lemma sync_current_tree_witness :
  crun (do_sync_sync (lit "d") (lit "/r") false) (demo_sync demo_files (stat_reply 41471 1 9 ++ stat_reply 33188 5 7))
    (fun r c' => r = 0 /\ talks c' 4 [] (lit "0012host:transport-any0005sync:" ++ request ID_STAT (lit "/r/e/l") ++ request ID_STAT (lit "/r/f") ++ msg2 ID_QUIT 0)).
Proof.
  apply (sync_current_tree (demo_sync demo_files (stat_reply 41471 1 9 ++ stat_reply 33188 5 7)) 4 (lit "d") (lit "/r") false
    [mkci (lit "d/e/l") (lit "/r/e/l") 9 41471 1 false; mkci (lit "d/f") (lit "/r/f") 7 33188 5 false] []);
    [done|done|vm_compute; reflexivity|apply demo_sync_ready].
Defined.

Definition demo_push : client := with_local (demo_local demo_files) (demo_cl {[4 := demo_conn (msg2 ID_OKAY 0)]} []).


(** ** Where the copy goes wrong *)

(** The outcome of a command and the local file it leaves. *)
Definition left_behind (path : bytes) (m : res (Z * client)) : option (Z * option entry) :=
  match m with Ok (r, c) => Some (r, find_entry true (c_local c) path) | _ => None end.
Definition demo_old : gmap bytes entry := {[lit "old" := EReg (Some [RBytes (lit "x")]) 1 33188 5]}.

(** A pull the device refuses reports success, and has deleted the local file
    that was to be replaced. *)
Theorem refused_pull_succeeds :
  left_behind (lit "old") (do_sync_pull (lit "/r/f") (lit "old") false false
    (demo_sync demo_old (stat_reply 33188 5 7 ++ msg2 ID_FAIL 2 ++ lit "no"))) = Some (0, None).
Proof. vm_compute. reflexivity. Qed.

(** A file that cannot be read to its end is sent short, and success is
    reported. *)
Theorem short_push_succeeds :
  exists c', do_sync_push (lit "f") (lit "/r/f") false
    (demo_sync {[lit "f" := EReg (Some [RBytes (lit "ab"); RFail; RBytes (lit "cd")]) 4 33188 5]} (stat_reply 0 0 0 ++ msg2 ID_OKAY 0)) = Ok (0, c') /\
    talks c' 4 [] (lit "0012host:transport-any0005sync:" ++ request ID_STAT (lit "/r/f") ++ send_head (lit "/r/f") 33188 ++ data_stream [lit "ab"] 5 ++ msg2 ID_QUIT 0).
Proof. eexists. split; [vm_compute; reflexivity|]. eexists. split; [vm_compute; reflexivity|]. split_and!; vm_compute; reflexivity. Qed.

(** A negative length passes the check against the size of the buffer, and the
    read that follows overruns it. *)
Theorem negative_length_overruns :
  do_sync_ls (lit "/r") (demo_sync ∅ (le32 ID_DENT ++ le32 0 ++ le32 0 ++ le32 0 ++ le32 (-1) ++ replicate 258 x41)) = UB "buffer overrun".
Proof. vm_compute. reflexivity. Qed.

(** The names a device lists are not checked: a pulled file can land outside the
    local directory. *)
Theorem pull_leaves_directory :
  left_behind (lit "out/../x") (do_sync_pull (lit "/r") (lit "out") false false
    (demo_sync ∅ (stat_reply 16877 0 0 ++ le32 ID_DENT ++ le32 33188 ++ le32 1 ++ le32 0 ++ le32 4 ++ lit "../x" ++
       le32 ID_DONE ++ replicate 16 x00 ++ data_stream [lit "z"] 0))) = Some (0, Some (ENew 5 33188 0)).
Proof. vm_compute. reflexivity. Qed.

(** An empty local path is read past its end. *)
Theorem empty_path_overread :
  do_sync_pull (lit "/r/f") [] false false (demo_sync ∅ (stat_reply 33188 5 7 ++ data_stream [] 0)) = UB "read past the end of the path".
Proof. vm_compute. reflexivity. Qed.
