(* ===== verification/Shell.v ===== *)
(** * Streams and command strings of the command line (commandline.c, console.c)

    The helpers of the command line: copying between descriptors, the quoting of
    arguments and the fixed buffers that commands are assembled in, the transfer
    of update packages, the interactive shell, and the console of an emulator.

    A zero file descriptor is standard input; standard output is [c_out]. *)

From S2P Require Import Prelude CString Io Wire Server Client FileSync.

(** ** Descriptors *)

Definition c_write (fd : Z) (d : bytes) : C wrret :=
  do m <- cgets c_fds;
  match m !! fd with
  | None => cret WErrR
  | Some f =>
      let '(r, w) := adb_write (length d) (io_wr f) in
      let sent := match r with Wrote n => take n d | _ => [] end in
      cmodify (with_fds (<[fd := mkfio (io_in f) w (io_sent f ++ sent)]> m)) ;;
      cret r
  end.

(** ** Copying *)

(** One turn of [read_and_dump]; false at its end. *)
Definition dump_step (fd : Z) : C bool :=
  do r <- c_read fd 4096;
  match r with Got b => print b ;; cret true | _ => cret false end.
Fixpoint dump_loop (fuel : nat) (fd : Z) : C unit :=
  match fuel with
  | O => clift Timeout
  | S n => do more <- dump_step fd; if (more : bool) then dump_loop n fd else cret tt
  end.
Definition read_and_dump (fd : Z) : C unit :=
  if fd <? 0 then cret tt
  else do fuel <- cgets (fun c => S (length (fd_input fd c))); dump_loop fuel fd.

(** [read_status_line] into a buffer of [count] bytes; the result is the C string
    it leaves. *)
Fixpoint status_loop (fuel : nat) (fd : Z) (count : nat) (acc : bytes) : C bytes :=
  match count with
  | O => cret acc
  | _ =>
    match fuel with
    | O => clift Timeout
    | S n =>
        do r <- c_read fd count;
        match r with Got b => status_loop n fd (count - length b) (acc ++ b) | _ => cret acc end
    end
  end.
Definition read_status_line (fd : Z) (count : nat) : C bytes :=
  do b <- status_loop count fd (count - 1) [];
  cret (cstr b).

(** [copy_to_file]; None as the destination is standard output.  What [adb_write]
    returns is not looked at. *)
Definition BUFSIZE : Z := 32768.
Fixpoint copy_loop (fuel : nat) (inFd : Z) (outFd : option Z) : C unit :=
  match fuel with
  | O => clift Timeout
  | S n =>
      do r <- c_read inFd (Z.to_nat BUFSIZE);
      match r with
      | Got b =>
          (match outFd with None => print b | Some fd => c_write fd b ;; cret tt end) ;;
          copy_loop n inFd outFd
      | _ => cret tt
      end
  end.
Definition copy_to_file (inFd : Z) (outFd : option Z) : C unit :=
  do fuel <- cgets (fun c => S (length (fd_input inFd c)));
  copy_loop fuel inFd outFd.

(** ** The interactive shell *)

(** The state of [stdin_read_thread]: after a new line, and after a tilde that
    followed it.  None is the disconnect. *)
Definition tilde_step (state : Z) (b : byte) : option Z :=
  if byte_eqb b (ch 10) then Some 1
  else if byte_eqb b (ch 13) then Some 1
  else if byte_eqb b (ch 126) then Some (if state =? 1 then state + 1 else state)
  else if byte_eqb b (ch 46) then (if state =? 2 then None else Some 0)
  else Some 0.
Fixpoint tilde_scan (state : Z) (buf : bytes) : option Z :=
  match buf with
  | [] => Some state
  | b :: r => match tilde_step state b with None => None | Some s => tilde_scan s r end
  end.

(** One turn of the thread; None when it ends. *)
Definition stdin_step (fd fdi : Z) (state : Z) : C (option Z) :=
  do r <- c_read fdi 1024;
  match r with
  | Got buf =>
      match tilde_scan state buf with
      | None => cstop "disconnect"
      | Some s =>
          do w <- c_write fd buf;
          match w with Wrote (S _) => cret (Some s) | _ => cret None end
      end
  | _ => cret None
  end.

(** The main thread dumps what the device says while the other one forwards the
    input; [sched] says which of the two takes the next turn.  The process ends
    with the main thread. *)
Fixpoint shell_threads (sched : list bool) (fd : Z) (input : option Z) : C unit :=
  match sched with
  | [] => read_and_dump fd
  | true :: r => do more <- dump_step fd; if (more : bool) then shell_threads r fd input else cret tt
  | false :: r =>
      match input with
      | None => shell_threads r fd None
      | Some state => do s <- stdin_step fd 0 state; shell_threads r fd s
      end
  end.
Definition interactive_shell (sched : list bool) : C Z :=
  do fd <- adb_connect (lit "shell:");
  if fd <? 0 then cret 1
  else shell_threads sched fd (Some 0) ;; cret 0.

(** ** Command strings *)

Definition should_escape (c : byte) : bool :=
  existsb (byte_eqb c) [ch 32; ch 39; ch 34; ch 92; ch 40; ch 41].
Definition escape_arg (s : bytes) : bytes :=
  match s with
  | [] => [ch 34; ch 34]
  | _ => flat_map (fun c => if should_escape c then [ch 92; c] else [c]) s
  end.

(** [strncat(buf, s, n)] in a buffer of [size] bytes that holds the string [buf]. *)
Definition strncat (size : Z) (buf s : bytes) (n : Z) : res bytes :=
  let buf' := buf ++ take (Z.to_nat n) s in
  if Z.of_nat (length buf') <? size then Ok buf' else UB "strncat overruns the buffer".

(** The arguments, quoted, each after a space. *)
Fixpoint append_args (size : Z) (buf : bytes) (args : list bytes) : res bytes :=
  match args with
  | [] => Ok buf
  | a :: r =>
      rbind (strncat size buf (lit " ") (size - 1)) (fun b1 =>
      rbind (strncat size b1 (escape_arg a) (size - 1)) (fun b2 => append_args size b2 r))
  end.

Definition format_host_command (buflen : nat) (command : bytes) (ttype : transport_type) (serial : option bytes) : bytes :=
  match serial with
  | Some s => snprintf buflen (lit "host-serial:" ++ s ++ lit ":" ++ command)
  | None =>
      let prefix := match ttype with
                    | kTransportUsb => lit "host-usb"
                    | kTransportLocal => lit "host-local"
                    | _ => lit "host"
                    end in
      snprintf buflen (prefix ++ lit ":" ++ command)
  end.

(** ** Update packages *)

(** [load_file] (load_file.c): the file in one read, or nothing. *)
Definition load_file (fn : bytes) : C (option bytes) :=
  do l <- cgets c_local;
  cret (match find_entry true l fn with
        | Some (EReg (Some reads) size _ _) =>
            let sz := to_int size in
            if sz <? 0 then None
            else match reads with
                 | RIntr :: _ => None
                 | _ =>
                     match fst (adb_read (Z.to_nat sz) reads) with
                     | Got b => if Z.of_nat (length b) =? sz then Some b else None
                     | Eof => if sz =? 0 then Some [] else None
                     | _ => None
                     end
                 end
        | _ => None
        end).

Definition CHUNK_SIZE : Z := 65536.

(** The send loop of [adb_download_buffer]; [sz] bytes are left of a buffer of
    [total].  The percentages it prints while [progress] is set are left out. *)
Fixpoint download_loop (fuel : nat) (fd : Z) (ptr : bytes) : C bool :=
  match fuel with
  | O => clift Timeout
  | S n =>
      let sz := Z.of_nat (length ptr) in
      if sz <=? 0 then cret true
      else
        let xfer := if CHUNK_SIZE <? sz then CHUNK_SIZE else sz in
        do ok <- c_writex fd (take (Z.to_nat xfer) ptr);
        if negb ok then adb_status fd ;; cret false
        else download_loop n fd (drop (Z.to_nat xfer) ptr)
  end.
Definition adb_download_buffer (service data : bytes) : C Z :=
  do fd <- adb_connect (service ++ lit ":" ++ fmt_dec (Z.of_nat (length data)));
  if fd <? 0 then cret (-1)
  else
    do ok <- download_loop (S (length data)) fd data;
    if negb ok then cret (-1)
    else
      do b <- c_readx fd 4;
      match b with
      | None => c_close fd ;; cret (-1)
      | Some buf => c_close fd ;; cret (if bool_decide (buf = lit "OKAY") then 0 else -1)
      end.
Definition adb_download (service fn : bytes) : C Z :=
  do d <- load_file fn;
  match d with None => cret (-1) | Some data => adb_download_buffer service data end.

(** The loop of [adb_sideload_host]: a block number, or the end.  The offset is
    an [int] product; a negative one is a huge [size_t]. *)
Definition SIDELOAD_HOST_BLOCK_SIZE : Z := CHUNK_SIZE.
Fixpoint sideload_loop (fuel : nat) (fd : Z) (data : bytes) : C Z :=
  match fuel with
  | O => clift Timeout
  | S n =>
      do b <- c_readx fd 8;
      match b with
      | None => cret (-1)
      | Some buf =>
          if streq (lit "DONEDONE") buf then cret 0
          else
            let block := to_int (strtol10 (cstr buf)) in
            let offset := block * SIDELOAD_HOST_BLOCK_SIZE in
            if (offset <? -2147483648) || (2147483647 <? offset) then cundefined "block offset overflows"
            else
              let sz := Z.of_nat (length data) in
              if (offset <? 0) || (sz <=? offset) then cret (-1)
              else
                let to_write := if sz <? offset + SIDELOAD_HOST_BLOCK_SIZE then sz - offset else SIDELOAD_HOST_BLOCK_SIZE in
                do ok <- c_writex fd (take (Z.to_nat to_write) (drop (Z.to_nat offset) data));
                if negb ok then adb_status fd ;; cret (-1) else sideload_loop n fd data
      end
  end.
Definition adb_sideload_host (fn : bytes) : C Z :=
  do d <- load_file fn;
  match d with
  | None => cret (-1)
  | Some data =>
      do fd <- adb_connect (lit "sideload-host:" ++ fmt_dec (Z.of_nat (length data)) ++ lit ":" ++ fmt_dec SIDELOAD_HOST_BLOCK_SIZE);
      if fd <? 0 then adb_download_buffer (lit "sideload") data
      else
        do fuel <- cgets (fun c => S (length (fd_input fd c)));
        do status <- sideload_loop fuel fd data;
        c_close fd ;;
        cret status
  end.

(** ** The console of an emulator (console.c) *)

Definition connect_to_console : C Z :=
  do port <- adb_get_emulator_console_port;
  if port <? 0 then cret (-1)
  else do fd <- c_connect; if fd <? 0 then cret (-1) else cret fd.

Fixpoint console_args (fd : Z) (args : list bytes) : C unit :=
  match args with
  | [] => cret tt
  | a :: r =>
      c_write fd a ;;
      c_write fd (match r with [] => [ch 10] | _ => lit " " end) ;;
      console_args fd r
  end.
Definition adb_send_emulator_command (args : list bytes) : C Z :=
  do fd <- connect_to_console;
  if fd <? 0 then cret 1
  else
    console_args fd (drop 1 args) ;;
    c_write fd (lit "quit" ++ [ch 10]) ;;
    c_close fd ;;
    cret 0.
