(* ===== verification/Commandline.v ===== *)
(** * The command line (commandline.c)

    [adb_commandline] reads its flags, then runs one command.  Some commands wait
    for the device by running another command line, so the commands take
    [do_cmd] as a parameter and the knot is tied at the end; the depth never
    exceeds two.  The environment of the process, the server's main loop and the
    key generator are the fields of [env].

    Messages on [stderr], the help text and progress displays are left out. *)

From S2P Require Import Prelude CString Io Wire Server HostRequest Client FileSync Shell.

Record env := mkenv {
  e_product_out : option bytes;       (* ANDROID_PRODUCT_OUT *)
  e_serial : option bytes;            (* ANDROID_SERIAL *)
  e_port : option bytes;              (* ANDROID_ADB_SERVER_PORT *)
  e_log_tags : option bytes;          (* ANDROID_LOG_TAGS *)
  e_build_top : option bytes;         (* ANDROID_BUILD_TOP *)
  e_top : option bytes;               (* TOP *)
  e_cwd : option bytes;
  e_exe : bytes;
  e_sched : list bool;                (* the threads of an interactive shell *)
  e_fork : bool;
  e_adb_main : bool -> bool -> Z -> C Z;
  e_keygen : bytes -> C Z }.

Definition usage : C Z := cret 1.
Definition DEFAULT_ADB_PORT : Z := 5037.

(** ** The product directory *)

Definition non_empty (o : option bytes) : option bytes := match o with Some [] => None | _ => o end.
(** [strcpy] into a buffer of [size] bytes. *)
Definition strcpy (size : Z) (s : bytes) : res bytes :=
  if Z.of_nat (length s) <? size then Ok s else UB "strcpy overruns the buffer".
Definition exists_path (path : bytes) : C bool :=
  cgets (fun c => bool_decide (is_Some (find_entry true (c_local c) path))).
Definition is_absolute (path : bytes) : bool := has_prefix (lit "/") path.
(** [*adb_dirstop(path) = 0]. *)
Definition dir_part (path : bytes) : option bytes :=
  match after_last (ch 47) path with Some t => Some (take (length path - length t - 1) path) | None => None end.

Definition top_works (top : bytes) : C bool :=
  if is_absolute top then exists_path (snprintf (Z.to_nat PATH_MAX) (top ++ lit "/config/envsetup.make")) else cret false.
Fixpoint find_top_loop (fuel : nat) (path_buf : bytes) : C (option bytes) :=
  match fuel with
  | O => clift Timeout
  | S n =>
      do ok <- top_works path_buf;
      if (ok : bool) then cret (Some path_buf)
      else match dir_part path_buf with Some p => find_top_loop n p | None => cret None end
  end.
Definition find_top_from (indir : option bytes) : C (option bytes) :=
  match indir with
  | None => cundefined "null directory"
  | Some d => do path_buf <- clift (strcpy PATH_MAX d); find_top_loop (S (length path_buf)) path_buf
  end.
Definition find_top (e : env) : C (option bytes) :=
  let check (top : bytes) :=
    do ok <- top_works top;
    if (ok : bool) then (do p <- clift (strcpy PATH_MAX top); cret (Some p)) else cret None in
  match non_empty (e_build_top e) with
  | Some top => check top
  | None =>
      match non_empty (e_top e) with
      | Some top => check top
      | None =>
          do top <- find_top_from (e_cwd e);
          match top with Some t => cret (Some t) | None => find_top_from (Some (take (Z.to_nat (PATH_MAX - 1)) (e_exe e))) end
      end
  end.
Definition find_product_out_path (e : env) (hint : bytes) : C (option bytes) :=
  match hint with
  | [] => cret None
  | _ =>
      if is_absolute hint then do p <- clift (strcpy PATH_MAX hint); cret (Some p)
      else if bool_decide (is_Some (split_chr (ch 47) hint)) then
        match e_cwd e with
        | None => cret None
        | Some cwd =>
            if PATH_MAX <=? Z.of_nat (length cwd + 1 + length hint) then cret None
            else cret (Some (cwd ++ lit "/" ++ hint))
        end
      else
        do top <- find_top e;
        match top with
        | None => cret None
        | Some t =>
            let path_buf := snprintf (Z.to_nat PATH_MAX) (t ++ lit "/out/target/product/" ++ hint) in
            do ok <- exists_path path_buf;
            cret (if (ok : bool) then Some path_buf else None)
        end
  end.

Definition product_file (product : option bytes) (extra : bytes) : C bytes :=
  match product with
  | None => cstop "product directory not specified"
  | Some p => cret (snprintf (length p + length extra + 2) (p ++ lit "/" ++ extra))
  end.

(** [find_sync_dirs]: the android, data and vendor directories. *)
Definition find_sync_dirs (product srcarg : option bytes) : C (option (option bytes * option bytes * option bytes)) :=
  match srcarg with
  | None =>
      do a <- product_file product (lit "system");
      do d <- product_file product (lit "data");
      do v <- product_file product (lit "vendor");
      do st <- sys_stat false v;
      let vendor := match st with Some st => if S_ISDIR (st_mode st) then Some v else None | None => None end in
      cret (Some (Some a, Some d, vendor))
  | Some s =>
      if streq s (lit "system") then do a <- product_file product (lit "system"); cret (Some (Some a, None, None))
      else if streq s (lit "data") then do d <- product_file product (lit "data"); cret (Some (None, Some d, None))
      else if streq s (lit "vendor") then do v <- product_file product (lit "vendor"); cret (Some (None, None, Some v))
      else cret None
  end.

(** ** Commands *)

(** The two command lines that a command runs. *)
Inductive subcmd := WaitForDevice | ShellBugreport.
Definition subcmd_argv (s : subcmd) : list bytes :=
  match s with WaitForDevice => [lit "wait-for-device"] | ShellBugreport => [lit "shell"; lit "bugreport"] end.

Section Commands.
Context (do_cmd : transport_type -> option bytes -> subcmd -> C Z).
Context (ttype : transport_type) (serial : option bytes).

(** The loop that connects, waiting for the device as long as that fails.  Once
    the connections to come are used up nothing will change any more. *)
Fixpoint connect_waiting (fuel : nat) (service : bytes) : C Z :=
  match fuel with
  | O => clift Timeout
  | S n =>
      do fd <- adb_connect service;
      if 0 <=? fd then cret fd
      else do_cmd ttype serial WaitForDevice ;; connect_waiting n service
  end.
Definition wait_fuel : C nat := cgets (fun c => S (length (c_conns c))).

Definition send_shellcommand (buf : bytes) : C Z :=
  do fuel <- wait_fuel;
  do fd <- connect_waiting fuel buf;
  read_and_dump fd ;;
  c_close fd ;;
  cret 0.

Definition logcat (log_tags : option bytes) (argv : list bytes) : C Z :=
  let quoted := escape_arg (default [] log_tags) in
  let buf := snprintf 4096 (lit "shell:export ANDROID_LOG_TAGS=" ++ [ch 34] ++ quoted ++ [ch 34] ++ lit "; exec logcat") in
  do buf1 <- clift (match argv with
                    | a :: _ => if streq a (lit "longcat") then strncat 4096 buf (lit " -v long") 4095 else Ok buf
                    | [] => Ok buf
                    end);
  do buf2 <- clift (append_args 4096 buf1 (drop 1 argv));
  send_shellcommand buf2 ;;
  cret 0.

Definition pm_command (argv : list bytes) : C Z :=
  do buf <- clift (append_args 4096 (lit "shell:pm") argv);
  send_shellcommand buf ;;
  cret 0.

Definition uninstall_app (argv : list bytes) : C Z :=
  match argv with
  | [_; k; package] =>
      if streq k (lit "-k") then
        print (lit "The -k option uninstalls the application while retaining the data/cache." ++ [ch 10] ++
               lit "At the moment, there is no way to remove the remaining data." ++ [ch 10] ++
               lit "You will have to reinstall the application with the same signature, and fully uninstall it." ++ [ch 10] ++
               lit "If you truly wish to continue, execute 'adb shell pm uninstall -k " ++ package ++ lit "'" ++ [ch 10]) ;;
        cret (-1)
      else pm_command argv
  | _ => pm_command argv
  end.

Definition delete_file (filename : bytes) : C Z :=
  do buf <- clift (strncat 4096 (lit "shell:rm -f ") (escape_arg filename) 4095);
  send_shellcommand buf ;;
  cret 0.

(** [dot && !strcasecmp(dot, ".apk")]. *)
Definition to_lower (b : byte) : byte := if (65 <=? b2z b) && (b2z b <=? 90) then z2b (b2z b + 32) else b.
Definition is_apk (file : bytes) : bool :=
  match after_last (ch 46) file with Some t => streq (map to_lower t) (lit "apk") | None => false end.
Definition is_regular (file : bytes) : C bool :=
  do st <- sys_stat true file;
  cret (match st with Some st => S_ISREG (st_mode st) | None => false end).

(** The index of the last argument that is an APK. *)
Fixpoint last_index (p : bytes -> bool) (l : list bytes) : option nat :=
  match l with
  | [] => None
  | x :: r => match last_index p r with Some i => Some (S i) | None => if p x then Some O else None end
  end.
Definition install_app (argv : list bytes) : C Z :=
  let dest := if existsb (fun a => streq a (lit "-s")) (drop 1 argv) then lit "/sdcard/tmp/" else lit "/data/local/tmp/" in
  match last_index is_apk argv with
  | None => cret (-1)
  | Some i =>
      let apk_file := default [] (argv !! i) in
      do ok <- is_regular apk_file;
      if negb ok then cret (-1)
      else
        let apk_dest := snprintf (Z.to_nat PATH_MAX) (dest ++ base_name apk_file) in
        do err <- do_sync_push apk_file apk_dest false;
        (if err =? 0 then pm_command (<[i := apk_dest]> argv) else cret 0) ;;
        delete_file apk_dest ;;
        cret err
  end.

(** The APKs at the end of the arguments: how many there are and their total
    size; None when one of them is not a regular file. *)
Fixpoint trailing_apks (rev_args : list bytes) : C (option (nat * Z)) :=
  match rev_args with
  | [] => cret (Some (O, 0))
  | file :: r =>
      if is_apk file then
        do st <- sys_stat true file;
        match st with
        | Some st =>
            if S_ISREG (st_mode st) then
              do rest <- trailing_apks r;
              cret (match rest with Some (n, total) => Some (S n, total + st_size st) | None => None end)
            else cret None
        | None => cret None
        end
      else cret (Some (O, 0))
  end.

(** The session id between the last brackets of a status line. *)
Definition session_of (buf : bytes) : Z :=
  if has_prefix (lit "Success") buf then
    match after_last (ch 91) buf, after_last (ch 93) buf with
    | Some start, Some _ =>
        let text := match after_last (ch 93) start with
                    | Some t => take (length start - length t - 1) start
                    | None => start
                    end in
        to_int (strtol10 text)
    | _, _ => -1
    end
  else -1.

(** Streams the APKs from index [i] on; false when one of them failed. *)
Fixpoint stream_apks (session_id i : Z) (files : list bytes) : C bool :=
  match files with
  | [] => cret true
  | file :: r =>
      do st <- sys_stat true file;
      match st with
      | None => cret false
      | Some st =>
          let buf := snprintf 1024 (lit "exec:pm install-write -S " ++ fmt_dec (st_size st) ++ lit " " ++ fmt_dec session_id ++
                                    lit " " ++ fmt_dec i ++ lit "_" ++ base_name file ++ lit " -") in
          do localFd <- open_rdonly file;
          if localFd <? 0 then cret false
          else
            do remoteFd <- adb_connect buf;
            if remoteFd <? 0 then c_close localFd ;; cret false
            else
              copy_to_file localFd (Some remoteFd) ;;
              do line <- read_status_line remoteFd 1024;
              c_close localFd ;;
              c_close remoteFd ;;
              if has_prefix (lit "Success") line then stream_apks session_id (i + 1) r else cret false
      end
  end.
Definition install_multiple_app (argv : list bytes) : C Z :=
  do apks <- trailing_apks (rev argv);
  match apks with
  | None => cret (-1)
  | Some (O, _) => cret 1
  | Some (n, total_size) =>
      let first_apk := (length argv - n)%nat in
      do buf <- clift (append_args 1024 (lit "exec:pm install-create -S " ++ fmt_dec total_size) (drop 1 (take first_apk argv)));
      do fd <- adb_connect buf;
      if fd <? 0 then cret (-1)
      else
        do line <- read_status_line fd 1024;
        c_close fd ;;
        let session_id := session_of line in
        if session_id <? 0 then cret (-1)
        else
          do success <- stream_apks session_id (Z.of_nat first_apk) (drop first_apk argv);
          let verb := if (success : bool) then lit "exec:pm install-commit " else lit "exec:pm install-abandon " in
          do fd <- adb_connect (verb ++ fmt_dec session_id);
          if fd <? 0 then cret (-1)
          else
            do line <- read_status_line fd 1024;
            c_close fd ;;
            cret (if has_prefix (lit "Success") line then 0 else -1)
  end.

(** ** PAX commands *)

Fixpoint trim_end (rev_s : bytes) : bytes :=
  match rev_s with
  | b :: r => if byte_eqb b (ch 10) || byte_eqb b (ch 13) then trim_end r else rev_s
  | [] => []
  end.
Definition pax_getprop (prop : bytes) (outlen : nat) : C (option bytes) :=
  do fd <- adb_connect (snprintf 128 (lit "shell:getprop " ++ prop));
  if fd <? 0 then cret None
  else
    do out <- status_loop outlen fd (outlen - 1) [];
    c_close fd ;;
    cret (Some (cstr (rev (trim_end (rev out))))).
Definition pax_systool_sysver : C Z :=
  do v <- pax_getprop (lit "pax.ctrl.systool.sysver") 256;
  cret (match v with None => -1 | Some buf => atoi buf end).

(** The exit code of systool in the marker that [PFX] starts, among the bytes of
    one read. *)
Definition PFX : bytes := lit "[SYSTOOL:-".
Fixpoint until (c : byte) (s : bytes) : bytes :=
  match s with [] => [] | b :: r => if byte_eqb b c then [] else b :: until c r end.
Definition marker_digits (buf : bytes) : option bytes :=
  match after_sub PFX buf with
  | None => None
  | Some q => Some (take 31 (filter (fun b => isdigit b = true) (until (ch 93) q)))
  end.
Definition normalise (ret : Z) : res Z :=
  if ret =? -4 then Ok (-6)
  else if (ret =? -22) || (ret =? -101) then Ok 0
  else if 2147483647 <? ret + 310 then UB "exit code overflows"
  else if 9 <? wrap32 (ret + 310) then Ok (-5)
  else Ok ret.
Definition marker_code (digits : bytes) : res Z :=
  let n := atoi digits in
  if n =? -2147483648 then UB "exit code overflows" else normalise (- n).
Fixpoint parse_loop (fuel : nat) (fd : Z) (parse_ret : bool) (ret : Z) : C Z :=
  match fuel with
  | O => clift Timeout
  | S n =>
      do r <- c_read fd 4096;
      match r with
      | Got buf =>
          print buf ;;
          do ret' <- (match (if parse_ret then marker_digits buf else None) with
                      | Some digits => clift (marker_code digits)
                      | None => cret ret
                      end);
          parse_loop n fd parse_ret ret'
      | _ => cret ret
      end
  end.
Definition pax_stream_and_parse_ret (fd : Z) (parse_ret : bool) : C Z :=
  do fuel <- cgets (fun c => S (length (fd_input fd c)));
  parse_loop fuel fd parse_ret 0.

Definition pax_tool_command (tool : bytes) (args : list bytes) : C Z :=
  do svc <- clift (append_args 4096 (snprintf 4096 (lit "shell:" ++ tool)) args);
  do fuel <- wait_fuel;
  do fd <- connect_waiting fuel svc;
  do ret <- pax_stream_and_parse_ret fd (streq tool (lit "systool"));
  c_close fd ;;
  cret ret.

Definition file_based (tool sub : bytes) : bool :=
  if streq tool (lit "systool") then
    streq sub (lit "update") || streq sub (lit "write") || streq sub (lit "install") || streq sub (lit "apn") || streq sub (lit "puk")
  else streq sub (lit "install").

(** [pax_tool_manage], with the arguments after the command word. *)
Definition pax_tool_manage (tool : bytes) (args : list bytes) : C Z :=
  match args with
  | [] => usage
  | sub :: rest =>
      match last rest with
      | Some loc =>
          if file_based tool sub then
            do st <- sys_stat true loc;
            match st with
            | None => cret 1
            | Some _ =>
                let dest := snprintf 256 (lit "/data/local/tmp/" ++ base_name loc) in
                do ret <- do_sync_push loc dest false;
                if negb (ret =? 0) then cret ret
                else
                  do ret <- pax_tool_command tool (sub :: removelast rest ++ [dest]);
                  do rmbuf <- clift (strncat 512 (lit "shell:rm ") (escape_arg dest) 511);
                  do fd <- adb_connect rmbuf;
                  (if 0 <=? fd then read_and_dump fd ;; c_close fd else cret tt) ;;
                  cret ret
            end
          else pax_tool_command tool args
      | None => pax_tool_command tool args
      end
  end.

Definition print_prop (label prop : bytes) : C unit :=
  do v <- pax_getprop prop 512;
  match v with Some s => print (label ++ s ++ [ch 10]) | None => cret tt end.
Definition pax_sysver : C Z :=
  do v <- pax_systool_sysver;
  if v =? 1 then pax_tool_manage (lit "systool") [lit "sysver"]
  else
    print_prop (lit "androidver: ") (lit "pax.ctrl.androidver") ;;
    print_prop (lit "apbootver:  ") (lit "pax.ctrl.apbootver") ;;
    print_prop (lit "spver:      ") (lit "pax.ctrl.spver") ;;
    cret 0.

(** ** Backup *)

(** The -f option of [backup], taken out of the arguments; None when it has no
    value. *)
Fixpoint backup_file (args : list bytes) : option (option bytes * list bytes) :=
  match args with
  | [] => Some (None, [])
  | a :: r =>
      if streq a (lit "-f") then
        match r with [] => None | f :: r' => Some (Some f, r') end
      else match backup_file r with None => None | Some (f, r') => Some (f, a :: r') end
  end.
(** [strncat(buf, s, sizeof(buf) - strlen(buf) - 1)]. *)
Definition append_bounded (size : nat) (buf s : bytes) : bytes := buf ++ take (size - length buf - 1) s.
Definition backup (argv : list bytes) : C Z :=
  match backup_file (drop 1 argv) with
  | None => usage
  | Some (_, []) => usage
  | Some (file, args) =>
      let filename := default (lit "./backup.ab") file in
      adb_unlink filename ;;
      mkdirs filename ;;
      do outFd <- adb_creat filename 0x1a0;
      if outFd <? 0 then cret (-1)
      else
        let buf := foldl (fun buf a => append_bounded 4096 (append_bounded 4096 buf (lit ":")) a) (lit "backup") args in
        do fd <- adb_connect buf;
        if fd <? 0 then c_close outFd ;; cret (-1)
        else
          print (lit "Now unlock your device and confirm the backup operation." ++ [ch 10]) ;;
          copy_to_file fd (Some outFd) ;;
          c_close fd ;;
          c_close outFd ;;
          cret 0
  end.
Definition restore (argv : list bytes) : C Z :=
  match argv with
  | [_; filename] =>
      do tarFd <- open_rdonly filename;
      if tarFd <? 0 then cret (-1)
      else
        do fd <- adb_connect (lit "restore:");
        if fd <? 0 then c_close tarFd ;; cret (-1)
        else
          print (lit "Now unlock your device and confirm the restore operation." ++ [ch 10]) ;;
          copy_to_file tarFd (Some fd) ;;
          c_close fd ;;
          c_close tarFd ;;
          cret 0
  | _ => usage
  end.

(** ** Commands that only talk to the server *)

Definition print_line (s : bytes) : C unit := print (s ++ [ch 10]).
(** A query whose answer is printed. *)
Definition query_and_print (service : bytes) : C Z :=
  do tmp <- adb_query service;
  match tmp with Some t => print_line t ;; cret 0 | None => cret 1 end.

Definition cmd_devices (argv : list bytes) : C Z :=
  let list (listopt : bytes) :=
    do tmp <- adb_query (snprintf 4096 (lit "host:devices" ++ listopt));
    match tmp with Some t => print_line (lit "List of devices attached ") ;; print_line t ;; cret 0 | None => cret 1 end in
  match argv with
  | [] | [_] => list []
  | [_; l] => if streq l (lit "-l") then list l else cret 1
  | _ => cret 1
  end.
Definition cmd_connect (argv : list bytes) : C Z :=
  match argv with [_; host] => query_and_print (snprintf 4096 (lit "host:connect:" ++ host)) | _ => cret 1 end.
Definition cmd_disconnect (argv : list bytes) : C Z :=
  match argv with
  | [_; host] => query_and_print (snprintf 4096 (lit "host:disconnect:" ++ host))
  | [] | [_] => query_and_print (lit "host:disconnect:")
  | _ => cret 1
  end.

(** The non-interactive shell.  With [persist] it starts over for ever. *)
Fixpoint shell_loop (fuel : nat) (buf : bytes) (persist : bool) : C Z :=
  match fuel with
  | O => clift Timeout
  | S n =>
      do fd <- adb_connect buf;
      do r <- (if 0 <=? fd then read_and_dump fd ;; c_close fd ;; cret 0 else cret (-1));
      if persist then do_cmd ttype serial WaitForDevice ;; shell_loop n buf persist
      else cret r
  end.
Definition cmd_shell (sched : list bool) (persist : bool) (argv : list bytes) : C Z :=
  let h := match argv with a :: _ => has_prefix (lit "h") a | [] => false end in
  let colour (s : bytes) := if h then print ([ch 27] ++ s) else cret tt in
  colour (lit "[41;33m") ;;
  match argv with
  | _ :: a :: args =>
      do buf <- clift (append_args 4096 (snprintf 4096 (lit "shell:" ++ a)) args);
      do fuel <- wait_fuel;
      do r <- shell_loop fuel buf persist;
      colour (lit "[0m") ;;
      cret r
  | _ =>
      do r <- interactive_shell sched;
      colour (lit "[0m") ;;
      cret r
  end.
Definition cmd_exec (argv : list bytes) : C Z :=
  match argv with
  | name :: a :: args =>
      do buf <- clift (append_args 4096 (snprintf 4096 (lit "exec:" ++ a)) args);
      do fd <- adb_connect buf;
      if fd <? 0 then cret (-1)
      else
        (if streq name (lit "exec-in") then copy_to_file 0 (Some fd) else copy_to_file fd None) ;;
        c_close fd ;;
        cret 0
  | _ => cundefined "null argument"
  end.
Definition cmd_kill_server : C Z :=
  do fd <- _adb_connect (lit "host:kill");
  cret (if fd =? -1 then 1 else 0).

(** A service that says what it did. *)
Definition dump_service (service : bytes) (failed : Z) : C Z :=
  do fd <- adb_connect service;
  if 0 <=? fd then read_and_dump fd ;; c_close fd ;; cret 0 else cret failed.
Definition cmd_reboot (argv : list bytes) : C Z :=
  match argv with
  | [] => usage
  | a :: r =>
      dump_service (snprintf 100 (if streq a (lit "reboot-bootloader") then lit "reboot:bootloader"
                                  else match r with b :: _ => a ++ lit ":" ++ b | [] => a ++ lit ":" end)) 1
  end.

Definition wait_service (a : bytes) : bytes :=
  if has_prefix (lit "wait-for-device") a then
    match ttype with
    | kTransportUsb => lit "wait-for-usb"
    | kTransportLocal => lit "wait-for-local"
    | _ => lit "wait-for-any"
    end
  else a.
(** true when the device is there. *)
Definition cmd_wait (a : bytes) : C bool :=
  do r <- adb_command (format_host_command 4096 (wait_service a) ttype serial);
  cret (r =? 0).

(** ** Port forwarding *)

Record fwd_opts := mkfwd { f_list : bool; f_remove : bool; f_remove_all : bool; f_no_rebind : bool }.
Fixpoint forward_opts (o : fwd_opts) (args : list bytes) : option (fwd_opts * list bytes) :=
  match args with
  | a :: r =>
      if has_prefix (lit "-") a then
        if streq a (lit "--list") then forward_opts (mkfwd true (f_remove o) (f_remove_all o) (f_no_rebind o)) r
        else if streq a (lit "--remove") then forward_opts (mkfwd (f_list o) true (f_remove_all o) (f_no_rebind o)) r
        else if streq a (lit "--remove-all") then forward_opts (mkfwd (f_list o) (f_remove o) true (f_no_rebind o)) r
        else if streq a (lit "--no-rebind") then forward_opts (mkfwd (f_list o) (f_remove o) (f_remove_all o) true) r
        else None
      else Some (o, args)
  | [] => Some (o, [])
  end.
Definition forward_prefix (reverse : bool) : bytes :=
  snprintf 64 (if reverse then lit "reverse"
               else match serial with
                    | Some s => lit "host-serial:" ++ s
                    | None => match ttype with
                              | kTransportUsb => lit "host-usb"
                              | kTransportLocal => lit "host-local"
                              | _ => lit "host"
                              end
                    end).
Definition cmd_forward (argv : list bytes) : C Z :=
  let reverse := match argv with a :: _ => streq a (lit "reverse") | [] => false end in
  match forward_opts (mkfwd false false false false) (drop 1 argv) with
  | None => usage
  | Some (o, args) =>
      if 1 <? Z.b2z (f_list o) + Z.b2z (f_remove o) + Z.b2z (f_remove_all o) + Z.b2z (f_no_rebind o) then usage
      else
        let prefix := forward_prefix reverse in
        let command (buf : bytes) := do r <- adb_command (snprintf 4096 buf); cret (if r =? 0 then 0 else 1) in
        if f_list o then
          match args with
          | [] =>
              do t <- adb_query (snprintf 4096 (prefix ++ lit ":list-forward"));
              match t with Some s => print s ;; cret 0 | None => cret 1 end
          | _ => usage
          end
        else if f_remove_all o then
          match args with [] => command (prefix ++ lit ":killforward-all") | _ => usage end
        else if f_remove o then
          match args with [loc] => command (prefix ++ lit ":killforward:" ++ loc) | _ => usage end
        else
          match args with
          | [loc; rem] =>
              command (prefix ++ lit ":" ++ (if f_no_rebind o then lit "forward:norebind:" else lit "forward") ++ lit ":" ++ loc ++ lit ";" ++ rem)
          | _ => usage
          end
  end.

(** ** Files *)

(** [parse_push_pull_args]: progress, attributes and the two paths. *)
Fixpoint parse_push_pull_args (p a : bool) (args : list bytes) : bool * bool * option bytes * option bytes :=
  match args with
  | x :: r =>
      if streq x (lit "-p") then parse_push_pull_args true a r
      else if streq x (lit "-a") then parse_push_pull_args p true r
      else (p, a, Some x, match r with y :: _ => Some y | [] => None end)
  | [] => (p, a, None, None)
  end.

Definition RESOURCE_APP : bytes := lit "/data/resource/app/".
(** Does the firmware handle applications itself? *)
Definition routed (path : bytes) : C bool :=
  do v <- pax_systool_sysver;
  cret ((100 <=? v) && contains RESOURCE_APP path).
Definition cmd_unlink (argv : list bytes) : C Z :=
  match argv with
  | [_; path] =>
      do r <- routed path;
      if (r : bool) then pax_tool_manage (lit "systool") [lit "remove"; lit "persist-app"; path]
      else do_sync_unlink path
  | _ => usage
  end.
Definition cmd_push (argv : list bytes) : C Z :=
  match parse_push_pull_args false false (drop 1 argv) with
  | (show_progress, _, Some lpath, Some rpath) =>
      do r <- routed rpath;
      if (r : bool) then pax_tool_manage (lit "systool") [lit "install"; lit "persist-app"; lpath]
      else do_sync_push lpath rpath show_progress
  | _ => usage
  end.
Definition cmd_pull (argv : list bytes) : C Z :=
  match parse_push_pull_args false false (drop 1 argv) with
  | (show_progress, copy_attrs, Some rpath, lpath) => do_sync_pull rpath (default (lit ".") lpath) show_progress copy_attrs
  | _ => usage
  end.
Definition cmd_getappinfo (argv : list bytes) : C Z :=
  match argv with
  | [] | [_] => do_sync_pull (lit "/data/resource/public/appinfo.bin") (lit ".") false false
  | [_; lpath] => do_sync_pull (lit "/data/resource/public/appinfo.bin") lpath false false
  | _ => usage
  end.
Definition cmd_sync (product : option bytes) (argv : list bytes) : C Z :=
  let run (listonly : bool) (srcarg : option bytes) :=
    do dirs <- find_sync_dirs product srcarg;
    match dirs with
    | None => usage
    | Some (android, data, vendor) =>
        let step (ret : Z) (src : option bytes) (dst : bytes) :=
          match src with
          | Some s => if ret =? 0 then do_sync_sync s dst listonly else cret ret
          | None => cret ret
          end in
        do r1 <- step 0 android (lit "/system");
        do r2 <- step r1 vendor (lit "/vendor");
        step r2 data (lit "/data")
    end in
  match argv with
  | [] | [_] => run false None
  | [_; x] => if streq x (lit "-l") then run true None else run false (Some x)
  | _ :: x :: y :: r =>
      if streq x (lit "-l") then run true (match r with [] => Some y | _ => None end) else usage
  end.

(** ** Others *)

(** [status_window] never returns. *)
Definition status_text (s : bytes) : C unit :=
  print ([ch 27] ++ lit "[2J" ++ [ch 27] ++ lit "[2HAndroid Debug Bridge" ++ [ch 10] ++ lit "State: " ++ s ++ [ch 10]).
Fixpoint status_window (fuel : nat) (laststate : option bytes) : C Z :=
  match fuel with
  | O => clift Timeout
  | S n =>
      do state <- adb_query (format_host_command 4096 (lit "get-state") ttype serial);
      match state with
      | Some s =>
          if bool_decide (laststate = Some s) then status_window n laststate
          else status_text s ;; status_window n (Some s)
      | None => status_text (lit "offline") ;; status_window n laststate
      end
  end.

(** [ppp], as its parent process sees it. *)
Definition ppp (fork : bool) (argv : list bytes) : C Z :=
  match argv with
  | _ :: adb_service_name :: _ =>
      do fd <- adb_connect adb_service_name;
      if fd <? 0 then cret 1
      else if negb fork then cret 1
      else c_close fd ;; cret 0
  | _ => cret 1
  end.

(** ** The commands by name *)

Definition one_of (a : bytes) (names : list string) : bool := existsb (fun n => streq a (lit n)) names.
Fixpoint run_command (e : env) (product : option bytes) (persist : bool) (argv : list bytes) : C Z :=
  match argv with
  | [] => usage
  | a :: r =>
      if one_of a ["devices"%string] then cmd_devices argv
      else if one_of a ["connect"%string] then cmd_connect argv
      else if one_of a ["disconnect"%string] then cmd_disconnect argv
      else if one_of a ["emu"%string] then adb_send_emulator_command argv
      else if one_of a ["shell"; "hell"]%string then cmd_shell (e_sched e) persist argv
      else if one_of a ["exec-in"; "exec-out"]%string then cmd_exec argv
      else if one_of a ["kill-server"%string] then cmd_kill_server
      else if one_of a ["sideload"%string] then
        match r with [fn] => do s <- adb_sideload_host fn; cret (if s =? 0 then 0 else 1) | _ => usage end
      else if one_of a ["remount"; "reboot"; "reboot-bootloader"; "tcpip"; "usb"; "root"; "disable-verity"]%string then cmd_reboot argv
      else if one_of a ["bugreport"%string] then
        match r with [] => do_cmd ttype serial ShellBugreport ;; cret 0 | _ => usage end
      else if has_prefix (lit "wait-for-") a then
        do there <- cmd_wait a;
        if negb there then cret 1
        else match r with [] => cret 0 | _ => run_command e product persist r end
      else if one_of a ["forward"; "reverse"]%string then cmd_forward argv
      else if one_of a ["ls"%string] then match r with [path] => do_sync_ls path | _ => usage end
      else if one_of a ["syslog"%string] then match r with [] => send_shellcommand (lit "paxlog:system") | _ => usage end
      else if one_of a ["systool"%string] then match r with [] => usage | _ => pax_tool_manage (lit "systool") r end
      else if one_of a ["puk"%string] then match r with [] => usage | _ => pax_tool_manage (lit "puktools") r end
      else if one_of a ["sysver"%string] then match r with [] => pax_sysver | _ => usage end
      else if one_of a ["getappinfo"%string] then cmd_getappinfo argv
      else if one_of a ["unlink"%string] then cmd_unlink argv
      else if one_of a ["push"%string] then cmd_push argv
      else if one_of a ["pull"%string] then cmd_pull argv
      else if one_of a ["install"%string] then match r with [] => usage | _ => install_app argv end
      else if one_of a ["install-multiple"%string] then match r with [] => usage | _ => install_multiple_app argv end
      else if one_of a ["uninstall"%string] then match r with [] => usage | _ => uninstall_app argv end
      else if one_of a ["sync"%string] then cmd_sync product argv
      else if one_of a ["get-state"; "get-serialno"; "get-devpath"]%string then
        query_and_print (format_host_command 4096 a ttype serial)
      else if one_of a ["status-window"%string] then do fuel <- wait_fuel; status_window fuel None
      else if one_of a ["logcat"; "lolcat"; "longcat"]%string then logcat (e_log_tags e) argv
      else if one_of a ["ppp"%string] then ppp (e_fork e) argv
      else if one_of a ["start-server"%string] then adb_connect (lit "host:start-server")
      else if one_of a ["backup"%string] then backup argv
      else if one_of a ["restore"%string] then restore argv
      else if one_of a ["keygen"%string] then match r with [] => usage | f :: _ => e_keygen e f end
      else if one_of a ["jdwp"%string] then dump_service (lit "jdwp") (-1)
      else if one_of a ["help"; "/?"]%string then cret 0
      else if one_of a ["version"%string] then
        print_line (lit "Android Debug Bridge version 1.0." ++ fmt_dec ADB_SERVER_VERSION) ;; cret 0
      else usage
  end.

End Commands.

(** ** Flags *)

Record flags := mkflags {
  g_server : bool; g_no_daemon : bool; g_daemon : bool; g_persist : bool; g_listen_all : bool;
  g_product : option bytes; g_ttype : transport_type; g_serial : option bytes; g_port : Z }.

(** [server_port] from its text; None when it is refused. *)
Definition parse_port (s : bytes) : option Z :=
  let p := to_int (strtol0 s) in
  if (p <=? 0) || (65535 <? p) then None else Some p.

(** The value of an option: what follows its two letters, or the next
    argument. *)
Definition flag_value (a : bytes) (r : list bytes) : option (bytes * list bytes) :=
  match drop 2 a with
  | [] => match r with v :: r' => Some (v, r') | [] => None end
  | v => Some (v, r)
  end.

(** The modifiers and flags in front of the command; None is [usage].  One turn
    takes an argument. *)
Fixpoint parse_flags (fuel : nat) (e : env) (g : flags) (argv : list bytes) : C (option (flags * list bytes)) :=
  match fuel with
  | O => clift Timeout
  | S n =>
    match argv with
    | [] => cret (Some (g, []))
    | a :: r =>
        let '(mkflags sv nd dm ps la pr ty se po) := g in
        if streq a (lit "server") then parse_flags n e (mkflags true nd dm ps la pr ty se po) r
        else if streq a (lit "nodaemon") then parse_flags n e (mkflags sv true dm ps la pr ty se po) r
        else if streq a (lit "fork-server") then parse_flags n e (mkflags sv nd true ps la pr ty se po) r
        else if streq a (lit "persist") then parse_flags n e (mkflags sv nd dm true la pr ty se po) r
        else if has_prefix (lit "-p") a then
          match flag_value a r with
          | None => cret None
          | Some (v, r') =>
              do p <- find_product_out_path e v;
              match p with
              | None => cret None
              | Some p => parse_flags n e (mkflags sv nd dm ps la (Some p) ty se po) r'
              end
          end
        else if has_prefix (lit "-s") a then
          match drop 2 a with
          | [] => match r with v :: r' => parse_flags n e (mkflags sv nd dm ps la pr ty (Some v) po) r' | [] => cret None end
          | d :: _ => if isdigit d then parse_flags n e (mkflags sv nd dm ps la pr ty (Some (drop 2 a)) po) r else cret None
          end
        else if streq a (lit "-d") then parse_flags n e (mkflags sv nd dm ps la pr kTransportUsb se po) r
        else if streq a (lit "-e") then parse_flags n e (mkflags sv nd dm ps la pr kTransportLocal se po) r
        else if streq a (lit "-a") then parse_flags n e (mkflags sv nd dm ps true pr ty se po) r
        else if has_prefix (lit "-H") a then
          match flag_value a r with
          | None => cret None
          | Some (v, r') => adb_set_tcp_name (Some v) ;; parse_flags n e g r'
          end
        else if has_prefix (lit "-P") a then
          match flag_value a r with
          | None => cret None
          | Some (v, r') =>
              match v, parse_port v with
              | [], _ | _, None => cret None
              | _, Some p => parse_flags n e (mkflags sv nd dm ps la pr ty se p) r'
              end
          end
        else cret (Some (g, argv))
    end
  end.

(** The body of [adb_commandline]. *)
Definition commandline_body (do_cmd : transport_type -> option bytes -> subcmd -> C Z) (e : env) (argv : list bytes) : C Z :=
  let port := match e_port e with
              | Some (b :: s) => parse_port (b :: s)
              | _ => Some DEFAULT_ADB_PORT
              end in
  match port with
  | None => usage
  | Some port =>
      do parsed <- parse_flags (S (length argv)) e
        (mkflags false false false false false (non_empty (e_product_out e)) kTransportAny (e_serial e) port) argv;
      match parsed with
      | None => usage
      | Some (g, argv) =>
          adb_set_transport (g_ttype g) (g_serial g) ;;
          adb_set_tcp_specifics (g_port g) ;;
          if g_server g then
            if g_no_daemon g || g_daemon g then e_adb_main e (g_listen_all g) (g_daemon g) (g_port g)
            else do ok <- launch_server; cret (if (ok : bool) then 0 else -1)
          else run_command do_cmd (g_ttype g) (g_serial g) e (g_product g) (g_persist g) argv
      end
  end.

(** The arguments [do_cmd] runs a command line with. *)
Definition do_cmd_argv (ttype : transport_type) (serial : option bytes) (cmd : subcmd) : list bytes :=
  match serial with
  | Some s => [lit "-s"; s]
  | None => match ttype with kTransportUsb => [lit "-d"] | kTransportLocal => [lit "-e"] | _ => [] end
  end ++ subcmd_argv cmd.
Fixpoint adb_commandline (depth : nat) (e : env) (argv : list bytes) : C Z :=
  match depth with
  | O => clift Timeout
  | S d => commandline_body (fun ttype serial cmd => adb_commandline d e (do_cmd_argv ttype serial cmd)) e argv
  end.
