(* ===== verification/CommandlineProps.v ===== *)
(** * What the command line guarantees

    A command line that waits for the device runs at most one other, for the same
    device.  Arguments reach the device's shell as they were given.  A package is
    served block by block, and the escape sequence of the interactive shell is
    found wherever the reads cut it. *)

From Stdlib Require Import FunctionalExtensionality.
From S2P Require Import Prelude CString Io Wire Server Transports Sockets Listeners HostRequest EngineProps EventProps Client ClientProps FileSync FileSyncProps Shell Commandline.

(** ** The command line within the command line *)

(** The device that [do_cmd] names is the one the nested command line selects. *)
Definition chosen (ttype : transport_type) (serial env_serial : option bytes) : transport_type * option bytes :=
  match serial with
  | Some s => (kTransportAny, Some s)
  | None => (match ttype with kTransportUsb => kTransportUsb | kTransportLocal => kTransportLocal | _ => kTransportAny end, env_serial)
  end.
Lemma parse_do_cmd e product port ttype serial s c :
  parse_flags (S (length (do_cmd_argv ttype serial s))) e
    (mkflags false false false false false product kTransportAny (e_serial e) port) (do_cmd_argv ttype serial s) c =
  Ok (Some (mkflags false false false false false product (chosen ttype serial (e_serial e)).1 (chosen ttype serial (e_serial e)).2 port, subcmd_argv s), c).
Proof. destruct serial as [x|], ttype, s; vm_compute; reflexivity. Qed.

Lemma wait_leaf f ttype serial e product c : run_command f ttype serial e product false (subcmd_argv WaitForDevice) c =
  (do there <- cmd_wait ttype serial (lit "wait-for-device"); cret (if (there : bool) then 0 else 1))%client c.
Proof.
  change (run_command f ttype serial e product false (subcmd_argv WaitForDevice)) with
    (do there <- cmd_wait ttype serial (lit "wait-for-device"); if negb there then cret 1 else cret 0)%client.
  unfold cbind. by destruct (cmd_wait ttype serial (lit "wait-for-device") c) as [[[] c1]| | |].
Qed.

Lemma shell_loop_leaf f g ttype serial fuel buf : shell_loop f ttype serial (S fuel) buf false = shell_loop g ttype serial (S fuel) buf false.
Proof. reflexivity. Qed.
Lemma cbind_same {A B} (m : C A) (k1 k2 : A -> C B) c : (forall a c1, k1 a c1 = k2 a c1) -> cbind m k1 c = cbind m k2 c.
Proof. intros H. unfold cbind. by destruct (m c) as [[a c1]| | |]. Qed.

Lemma cbind_run {A B} (m : C A) (k : A -> C B) c a c1 : m c = Ok (a, c1) -> cbind m k c = k a c1.
Proof. unfold cbind. by intros ->. Qed.

(** Neither of the two command lines that a command runs runs another. *)
Lemma run_leaf f g ttype serial e product s c :
  run_command f ttype serial e product false (subcmd_argv s) c = run_command g ttype serial e product false (subcmd_argv s) c.
Proof.
  destruct s; [by rewrite !wait_leaf|].
  change (run_command ?k ttype serial e product false (subcmd_argv ShellBugreport)) with
    (cmd_shell k ttype serial (e_sched e) false [lit "shell"; lit "bugreport"]).
  unfold cmd_shell. apply cbind_same. intros _ c1. apply cbind_same. intros buf c2. unfold wait_fuel, cbind, cgets.
  by rewrite (shell_loop_leaf f g).
Qed.

Lemma subcmd_leaf f g e ttype serial s : commandline_body f e (do_cmd_argv ttype serial s) = commandline_body g e (do_cmd_argv ttype serial s).
Proof.
  apply functional_extensionality. intros c. unfold commandline_body.
  destruct (match e_port e with Some (b :: s0) => parse_port (b :: s0) | _ => Some DEFAULT_ADB_PORT end) as [port|]; [|done].
  rewrite !(cbind_run _ _ _ _ _ (parse_do_cmd e (non_empty (e_product_out e)) port ttype serial s c)). unfold adb_set_transport, adb_set_tcp_specifics, cbind, cmodify.
  cbn [g_server g_ttype g_serial g_product g_persist]. apply run_leaf.
Qed.

Lemma body_ext f g e argv : (forall t s cmd, f t s cmd = g t s cmd) -> commandline_body f e argv = commandline_body g e argv.
Proof. intros H. assert (f = g) as -> by (do 3 (apply functional_extensionality; intros ?); apply H). reflexivity. Qed.

Lemma adb_commandline_S d e argv :
  adb_commandline (S d) e argv = commandline_body (fun t s cmd => adb_commandline d e (do_cmd_argv t s cmd)) e argv.
Proof. reflexivity. Qed.

(** A command line runs at most one other within itself: a depth of two is
    enough, whatever the arguments and the environment. *)
Theorem depth_two e argv d : adb_commandline (S (S d)) e argv = adb_commandline 2 e argv.
Proof. rewrite (adb_commandline_S (S d)), (adb_commandline_S 1). apply body_ext. intros t s cmd. rewrite !adb_commandline_S. apply subcmd_leaf. Qed.

(** The command line that waits for the device looks for the one that was asked
    for, at the server the environment names, and returns 0 when that server says
    the device is there. *)
Theorem wait_same_device d e ttype serial c (Hs : serial = None -> e_serial e = None) (Hp : e_port e = None) :
  adb_commandline (S d) e (do_cmd_argv ttype serial WaitForDevice) c =
  (do r <- adb_command (format_host_command 4096 (wait_service (chosen ttype serial None).1 (lit "wait-for-device")) (chosen ttype serial None).1 serial);
   cret (if r =? 0 then 0 else 1))%client
    (with_server DEFAULT_ADB_PORT (c_server_name c) (with_target (chosen ttype serial None).1 serial c)).
Proof.
  rewrite adb_commandline_S. unfold commandline_body. rewrite Hp.
  rewrite (cbind_run _ _ _ _ _ (parse_do_cmd e (non_empty (e_product_out e)) DEFAULT_ADB_PORT ttype serial WaitForDevice c)).
  unfold adb_set_transport, adb_set_tcp_specifics, cmodify. unfold cbind at 1 2. cbn [g_server g_ttype g_serial g_product g_persist].
  assert ((chosen ttype serial (e_serial e)).2 = serial /\ (chosen ttype serial (e_serial e)).1 = (chosen ttype serial None).1) as [-> ->].
  { destruct serial; [done|]. simpl. by rewrite Hs. }
  rewrite wait_leaf. unfold cmd_wait, cbind, cret. cbn [c_server_name with_target].
  destruct (adb_command _ _) as [[r c1]| | |]; [|done..]. by destruct (r =? 0).
Qed.

(** ** Quoting *)

(** How a shell reads words: blanks separate them, a backslash quotes the next
    character and double quotes what they enclose. *)
Fixpoint sh_words (quoted : bool) (cur : option bytes) (s : bytes) : list bytes :=
  match s with
  | [] => match cur with Some w => [w] | None => [] end
  | b :: r =>
      if quoted then
        if byte_eqb b (ch 34) then sh_words false cur r else sh_words true (Some (default [] cur ++ [b])) r
      else if byte_eqb b (ch 92) then
        match r with x :: r' => sh_words false (Some (default [] cur ++ [x])) r' | [] => match cur with Some w => [w] | None => [] end end
      else if byte_eqb b (ch 34) then sh_words true (Some (default [] cur)) r
      else if byte_eqb b (ch 32) then
        match cur with Some w => w :: sh_words false None r | None => sh_words false None r end
      else sh_words false (Some (default [] cur ++ [b])) r
  end.

Lemma plain_char b : should_escape b = false -> byte_eqb b (ch 92) = false /\ byte_eqb b (ch 34) = false /\ byte_eqb b (ch 32) = false.
Proof. unfold should_escape. cbn [existsb]. rewrite !orb_false_iff. tauto. Qed.

Lemma sh_escaped s w rest :
  sh_words false (Some w) (flat_map (fun c => if should_escape c then [ch 92; c] else [c]) s ++ rest) = sh_words false (Some (w ++ s)) rest.
Proof.
  revert w. induction s as [|b s IH]; intros w; cbn [flat_map app]; [by rewrite app_nil_r|].
  destruct (should_escape b) eqn:E; cbn [app].
  - change (sh_words false (Some w) (ch 92 :: b :: ?x)) with (sh_words false (Some (w ++ [b])) x). rewrite IH, <- app_assoc. done.
  - destruct (plain_char b E) as (E1 & E2 & E3). cbn [sh_words]. rewrite E1, E2, E3. cbn [default]. rewrite IH, <- app_assoc. done.
Qed.

Lemma sh_escape_arg a rest : sh_words false None (escape_arg a ++ rest) = sh_words false (Some a) rest.
Proof.
  destruct a as [|b s]; [done|]. unfold escape_arg. cbn [flat_map].
  destruct (should_escape b) eqn:E; cbn [app].
  - change (sh_words false None (ch 92 :: b :: ?x)) with (sh_words false (Some [b]) x). by rewrite sh_escaped.
  - destruct (plain_char b E) as (E1 & E2 & E3). cbn [sh_words]. rewrite E1, E2, E3. cbn [default app]. by rewrite sh_escaped.
Qed.

(** The arguments as a command carries them. *)
Definition quoted_args (args : list bytes) : bytes := concat (map (fun a => lit " " ++ escape_arg a) args).
Lemma sh_quoted_args cur args : sh_words false cur (quoted_args args) = match cur with Some w => [w] | None => [] end ++ args.
Proof.
  revert cur. unfold quoted_args. induction args as [|a r IH]; intros cur; cbn [map concat]; [by rewrite app_nil_r|].
  rewrite <- app_assoc. change (sh_words false cur (lit " " ++ ?x)) with (match cur with Some w => w :: sh_words false None x | None => sh_words false None x end).
  rewrite sh_escape_arg, IH. by destruct cur.
Qed.

Lemma strncat_spec size buf s : 2 <= size -> buf <> [] \/ Z.of_nat (length s) < size ->
  strncat size buf s (size - 1) = if Z.of_nat (length (buf ++ s)) <? size then Ok (buf ++ s) else UB "strncat overruns the buffer".
Proof.
  intros Hz Hb. unfold strncat. destruct (Z.ltb_spec (Z.of_nat (length s)) size) as [Hs|Hs].
  - rewrite take_ge by lia. done.
  - destruct Hb as [Hb|]; [|lia]. assert (0 < length buf)%nat by (destruct buf; [done|simpl; lia]).
    rewrite !(proj2 (Z.ltb_ge _ size)); [done|rewrite length_app; lia|rewrite length_app, length_take; lia].
Qed.



(** ** The escape of the interactive shell *)

Lemma tilde_scan_app st a b : tilde_scan st (a ++ b) = match tilde_scan st a with Some s => tilde_scan s b | None => None end.
Proof. revert st. induction a as [|x a IH]; intros st; cbn [app tilde_scan]; [done|]. destruct (tilde_step st x); [apply IH|done]. Qed.

(** The state of the thread after reads that gave [chunks]. *)
Definition thread_scan (st : Z) (chunks : list bytes) : option Z :=
  foldl (fun o b => match o with Some s => tilde_scan s b | None => None end) (Some st) chunks.
Lemma thread_scan_concat chunks st : thread_scan st chunks = tilde_scan st (concat chunks).
Proof.
  revert st. induction chunks as [|b r IH]; intros st; [done|]. cbn [concat]. rewrite tilde_scan_app. unfold thread_scan in *. cbn [foldl].
  destruct (tilde_scan st b) as [s|]; [apply IH|]. clear. induction r as [|x r IH]; [done|exact IH].
Qed.

(** A new line, tildes and a period. *)
Definition tildes (k : nat) (post : bytes) : bytes := replicate k (ch 126) ++ ch 46 :: post.
Definition is_newline (b : byte) : Prop := b = ch 10 \/ b = ch 13.
Definition has_escape (s : bytes) : Prop := exists pre nl k post, is_newline nl /\ s = pre ++ nl :: tildes (S k) post.

Lemma tildes_scan k post : tilde_scan 2 (tildes k post) = None.
Proof. induction k as [|k IH]; [done|]. change (tilde_scan 2 (tildes (S k) post)) with (tilde_scan 2 (tildes k post)). exact IH. Qed.
Lemma newline_scan st nl k post : is_newline nl -> tilde_scan st (nl :: tildes (S k) post) = None.
Proof.
  intros Hnl. change (tildes (S k) post) with (ch 126 :: tildes k post). cbn [tilde_scan].
  assert (tilde_step st nl = Some 1) as -> by (by destruct Hnl as [-> | ->]). change (tilde_step 1 (ch 126)) with (Some 2). apply tildes_scan.
Qed.

Lemma tilde_scan_None st s : tilde_scan st s = None -> 0 <= st <= 2 ->
  has_escape s \/ (exists k post, s = tildes k post /\ (st = 2 \/ st = 1 /\ (0 < k)%nat)).
Proof.
  revert st. induction s as [|b r IH]; intros st H Hst; cbn [tilde_scan] in H; [done|].
  assert (forall st', tilde_scan st' r = None -> 0 <= st' <= 2 ->
    has_escape (b :: r) \/ exists k post, r = tildes k post /\ (st' = 2 \/ st' = 1 /\ (0 < k)%nat)) as Step.
  { intros st' H' Hst'. destruct (IH st' H' Hst') as [(pre & nl & k & post & Hnl & ->)|Hr]; [left|by right]. by exists (b :: pre), nl, k, post. }
  unfold tilde_step in H.
  assert (is_newline b -> tilde_scan 1 r = None -> has_escape (b :: r) \/ (exists k post, b :: r = tildes k post /\ (st = 2 \/ st = 1 /\ (0 < k)%nat))) as Hnl.
  { intros Hb H1. left. destruct (Step 1 H1 ltac:(lia)) as [?|(k & post & -> & [?|[_ Hk]])]; [done|lia|].
    destruct k as [|k]; [lia|]. by exists [], b, k, post. }
  destruct (byte_eqb b (ch 10)) eqn:E1; [apply byte_eqb_true in E1; apply Hnl; [by left|done]|].
  destruct (byte_eqb b (ch 13)) eqn:E2; [apply byte_eqb_true in E2; apply Hnl; [by right|done]|].
  destruct (byte_eqb b (ch 126)) eqn:E3; [apply byte_eqb_true in E3 as ->|].
  { destruct (Z.eqb_spec st 1) as [->|Hne].
    - destruct (Step 2 H ltac:(lia)) as [?|(k & post & -> & _)]; [by left|right]. exists (S k), post. split; [done|right; lia].
    - destruct (Step st H Hst) as [?|(k & post & -> & [?|?])]; [by left| |lia]. right. exists (S k), post. by split; [|left]. }
  assert (tilde_scan 0 r = None -> has_escape (b :: r)) as H0.
  { intros H1. destruct (Step 0 H1 ltac:(lia)) as [?|(k & post & _ & [?|?])]; [done|lia|lia]. }
  destruct (byte_eqb b (ch 46)) eqn:E4; [apply byte_eqb_true in E4 as ->|left; by apply H0].
  destruct (Z.eqb_spec st 2) as [->|]; [right; exists O, r; by split; [|left]|left; by apply H0].
Qed.

(** C32. Leaving the interactive shell.  However the reads cut the input, the thread
    disconnects exactly when the input has a new line followed by one or more
    tildes and a period. *)
Theorem escape_found chunks : thread_scan 0 chunks = None <-> has_escape (concat chunks).
Proof.
  rewrite thread_scan_concat. split.
  - intros H. destruct (tilde_scan_None 0 _ H ltac:(lia)) as [?|(k & post & _ & [?|?])]; [done|lia|lia].
  - intros (pre & nl & k & post & Hnl & ->). rewrite tilde_scan_app. destruct (tilde_scan 0 pre); [by apply newline_scan|done].
Qed.

(** ** Serving a package *)

Definition asked (q : bytes) : Z := to_int (strtol10 (cstr q)).
(** A block of the file; the last one may be short. *)
Definition block (data : bytes) (b : Z) : bytes := take (Z.to_nat SIDELOAD_HOST_BLOCK_SIZE) (drop (Z.to_nat (b * SIDELOAD_HOST_BLOCK_SIZE)) data).
Definition good_request (data q : bytes) : Prop :=
  length q = 8%nat /\ q <> lit "DONEDONE" /\ 0 <= asked q < 32768 /\ asked q * SIDELOAD_HOST_BLOCK_SIZE < Z.of_nat (length data).

Lemma sideload_loop_run fd data reqs rest sent fuel c : Forall (good_request data) reqs -> (length reqs < fuel)%nat ->
  talks c fd (concat reqs ++ lit "DONEDONE" ++ rest) sent ->
  crun (sideload_loop fuel fd data) c (fun r c' => r = 0 /\ talks c' fd rest (sent ++ concat (map (fun q => block data (asked q)) reqs))).
Proof.
  intros H. revert fuel sent c. induction H as [|q reqs (Hl & Hd & Hr & Hb) Hq IH]; intros [|fuel] sent c Hf Ht; try (simpl in Hf; lia); cbn [sideload_loop concat map] in *.
  - apply crun_bind. eapply crun_mono; [apply (readx_talks fd (lit "DONEDONE")); exact Ht|]. intros r c1 (-> & Ht1 & _).
    rewrite streq_refl. apply crun_ret. by rewrite app_nil_r.
  - rewrite <- app_assoc in Ht. apply crun_bind. rewrite <- Hl. eapply crun_mono; [by eapply readx_talks|]. intros r c1 (-> & Ht1 & _).
    rewrite (proj2 (streq_false _ _)) by congruence. fold (asked q). unfold SIDELOAD_HOST_BLOCK_SIZE, CHUNK_SIZE in *.
    rewrite !(proj2 (Z.ltb_ge _ _)) by lia. cbn [orb]. rewrite (proj2 (Z.leb_gt _ _)) by lia.
    set (off := asked q * 65536) in *. apply crun_bind.
    assert (take (Z.to_nat (if Z.of_nat (length data) <? off + 65536 then Z.of_nat (length data) - off else 65536)) (drop (Z.to_nat off) data) = block data (asked q)) as ->.
    { unfold block, SIDELOAD_HOST_BLOCK_SIZE, CHUNK_SIZE. fold off. destruct (Z.ltb_spec (Z.of_nat (length data)) (off + 65536)); [|done].
      rewrite !take_ge; [done|rewrite length_drop; lia|rewrite length_drop; lia]. }
    eapply crun_mono; [apply writex_talks; exact Ht1|]. intros ok c2 (-> & Ht2 & _). cbn [negb].
    eapply crun_mono; [apply IH; [simpl in Hf; lia|exact Ht2]|]. intros r c3 (-> & Ht3). split; [done|]. by rewrite <- app_assoc in Ht3.
Qed.

Lemma blocks_concat n data : Z.of_nat (length data) <= Z.of_nat n * SIDELOAD_HOST_BLOCK_SIZE ->
  concat (map (fun i => block data (Z.of_nat i)) (seq 0 n)) = data.
Proof.
  revert data. induction n as [|n IH]; intros data Hn; [by destruct data; [|simpl in Hn; lia]|].
  cbn [seq map concat]. rewrite <- seq_shift, map_map.
  transitivity (block data 0 ++ concat (map (fun i => block (drop (Z.to_nat SIDELOAD_HOST_BLOCK_SIZE) data) (Z.of_nat i)) (seq 0 n))).
  - f_equal. f_equal. apply map_ext. intros i. unfold block. rewrite drop_drop. f_equal. f_equal. unfold SIDELOAD_HOST_BLOCK_SIZE, CHUNK_SIZE. lia.
  - rewrite IH; [|rewrite length_drop; unfold SIDELOAD_HOST_BLOCK_SIZE, CHUNK_SIZE in *; lia]. unfold block. change (Z.to_nat (0 * _)) with 0%nat.
    rewrite drop_0. apply take_drop.
Qed.

(** C34. Serving an update package.  Whatever blocks the device asks for, in any order
    and any number of times, it is sent exactly those, until it says that it is
    done; and the blocks of the file in order are the file. *)
Theorem sideload_serves fd data reqs rest sent c
  (Hq : Forall (good_request data) reqs) (Ht : talks c fd (concat reqs ++ lit "DONEDONE" ++ rest) sent) :
  crun (do fuel <- cgets (fun c => S (length (fd_input fd c))); sideload_loop fuel fd data)%client c (fun r c' =>
    r = 0 /\ talks c' fd rest (sent ++ concat (map (fun q => block data (asked q)) reqs))) /\
  forall n, Z.of_nat (length data) <= Z.of_nat n * SIDELOAD_HOST_BLOCK_SIZE -> concat (map (fun i => block data (Z.of_nat i)) (seq 0 n)) = data.
Proof.
  split; [|intros n; apply blocks_concat]. apply crun_bind, crun_gets. apply (sideload_loop_run fd data reqs); [done| |done].
  destruct Ht as (f & Hf & Hs & _). unfold fd_input. rewrite Hf, Hs, length_app. apply le_n_S.
  assert (length reqs <= length (concat reqs))%nat; [|lia]. clear -Hq. induction Hq as [|q r (Hl & _) _ IH]; cbn [concat length]; [lia|]. rewrite length_app. lia.
Qed.

Lemma sideload_serves_witness :
  crun (do fuel <- cgets (fun c => S (length (fd_input 4 c))); sideload_loop fuel 4 (lit "package"))%client
    (demo_cl {[4 := demo_conn (lit "0000000000000000DONEDONE")]} []) (fun r c' => r = 0 /\ talks c' 4 [] (lit "packagepackage")) /\
  concat (map (fun i => block (lit "package") (Z.of_nat i)) (seq 0 2)) = lit "package".
Proof.
  destruct (sideload_serves 4 (lit "package") [lit "00000000"; lit "00000000"] [] [] (demo_cl {[4 := demo_conn (lit "0000000000000000DONEDONE")]} [])) as [H1 H2].
  - assert (good_request (lit "package") (lit "00000000")) as H by (split_and!; [done|done|by vm_compute|by vm_compute|by vm_compute]). by repeat constructor.
  - eexists. split; [reflexivity|]. by split_and!.
  - split; [exact H1|]. apply H2. simpl. unfold SIDELOAD_HOST_BLOCK_SIZE, CHUNK_SIZE. lia.
Defined.

(** ** The exit code of systool *)

(** The codes that [adb] returns for the codes that systool reports. *)
Definition systool_code (n : Z) : Z :=
  if n =? 4 then -6 else if (n =? 22) || (n =? 101) then 0 else if (301 <=? n) && (n <=? 310) then - n else -5.

Lemma normalise_code n : 0 <= n < 2147483648 -> normalise (- n) = Ok (systool_code n).
Proof.
  intros Hn. unfold normalise, systool_code.
  replace (- n =? -4) with (n =? 4) by (destruct (Z.eqb_spec n 4), (Z.eqb_spec (- n) (-4)); lia || done). destruct (n =? 4); [done|].
  replace ((- n =? -22) || (- n =? -101)) with ((n =? 22) || (n =? 101)).
  2: { destruct (Z.eqb_spec n 22), (Z.eqb_spec (- n) (-22)), (Z.eqb_spec n 101), (Z.eqb_spec (- n) (-101)); lia || done. }
  destruct ((n =? 22) || (n =? 101)); [done|]. rewrite (proj2 (Z.ltb_ge _ _)) by lia. unfold wrap32, u32_mod.
  destruct (Z.leb_spec 301 n), (Z.leb_spec n 310); cbn [andb]; destruct (Z.ltb_spec 9 ((- n + 310) mod 4294967296)); try done; div_mod_lia.
Qed.

Lemma until_app s c rest : c ∉ s -> until c (s ++ c :: rest) = s.
Proof.
  induction s as [|b s IH]; intros Hn; cbn [app until]; [by rewrite byte_eqb_refl|].
  apply not_elem_of_cons in Hn as [Hb Hs]. rewrite (proj2 (byte_eqb_false b c)) by congruence. by rewrite IH.
Qed.
Lemma digit_chars ds : Forall (fun d => 0 <= d < 10) ds -> Forall (fun b => isdigit b = true) (map digit_char ds) /\ ch 93 ∉ map digit_char ds.
Proof.
  intros H. assert (forall d, 0 <= d < 10 -> isdigit (digit_char d) = true /\ digit_char d <> ch 93) as Hd.
  { intros d Hd. assert (d = 0 \/ d = 1 \/ d = 2 \/ d = 3 \/ d = 4 \/ d = 5 \/ d = 6 \/ d = 7 \/ d = 8 \/ d = 9) as Hx by lia. destruct_or! Hx; subst d; by split. }
  induction H as [|d ds H _ [IH1 IH2]]; cbn [map]; [split; [constructor|apply not_elem_of_nil]|]. destruct (Hd d H).
  split; [by constructor|]. apply not_elem_of_cons. split; [congruence|done].
Qed.
Lemma filter_digits s : Forall (fun b => isdigit b = true) s -> filter (fun b => isdigit b = true) s = s.
Proof. induction 1 as [|b s Hb _ IH]; [done|]. rewrite filter_cons, decide_True by exact Hb. by rewrite IH. Qed.

Lemma after_sub_prefix pat s : has_prefix pat s = true -> after_sub pat s = Some (drop (length pat) s).
Proof. intros H. destruct s; cbn [after_sub]; by rewrite H. Qed.
Lemma PFX_cons : PFX = ch 91 :: drop 1 PFX.
Proof. vm_compute. reflexivity. Qed.
Lemma after_sub_first pre t : ch 91 ∉ pre -> after_sub PFX (pre ++ PFX ++ t) = Some t.
Proof.
  induction pre as [|b pre IH]; intros Hn; [cbn [app]; rewrite after_sub_prefix by apply has_prefix_app; by rewrite drop_app_length|].
  apply not_elem_of_cons in Hn as [Hb Hp]. cbn [app after_sub].
  destruct (has_prefix PFX (b :: pre ++ PFX ++ t)) eqn:E; [|by apply IH].
  apply has_prefix_true in E as [r E]. rewrite PFX_cons in E. injection E as Eb _. by rewrite Eb in Hb.
Qed.
Lemma after_sub_none s : ch 91 ∉ s -> after_sub PFX s = None.
Proof.
  induction s as [|b s IH]; intros Hn; [done|]. apply not_elem_of_cons in Hn as [Hb Hs]. cbn [after_sub].
  destruct (has_prefix PFX (b :: s)) eqn:E; [|by apply IH]. apply has_prefix_true in E as [r E]. rewrite PFX_cons in E. injection E as Eb _. by rewrite Eb in Hb.
Qed.

Lemma marker_found pre n post : ch 91 ∉ pre -> 0 <= n < 1000000000 ->
  marker_digits (pre ++ PFX ++ fmt_dec n ++ ch 93 :: post) = Some (fmt_dec n).
Proof.
  intros Hp Hn. unfold marker_digits. rewrite after_sub_first by done. unfold fmt_dec. rewrite (proj2 (Z.ltb_ge n 0)) by lia.
  destruct (fmt_dec_nonneg_digits n ltac:(lia)) as (d & ds & E & Hf & _). pose proof (length_digits 10 num_fuel n []) as Hlen.
  rewrite E in *. destruct (digit_chars (d :: ds) Hf) as [H1 H2]. rewrite until_app by done. rewrite filter_digits by done.
  f_equal. apply take_ge. rewrite length_map. unfold num_fuel in Hlen. cbn [length Nat.add] in Hlen |- *. lia.
Qed.

(** A descriptor with [out] in one piece, or at its end. *)
Definition one_read (c : client) (fd : Z) (out : bytes) : Prop :=
  exists f, c_fds c !! fd = Some f /\ io_in f = match out with [] => [] | _ => [RBytes out] end.
Lemma read_whole fd out n c : one_read c fd out -> (length out <= n)%nat ->
  crun (c_read fd n) c (fun r c' => r = match out with [] => Eof | _ => Got out end /\ one_read c' fd [] /\ c_out c' = c_out c).
Proof.
  intros (f & Hf & Hi) Hl. unfold c_read. apply crun_bind, crun_gets. rewrite Hf, Hi. destruct out as [|b l].
  - apply crun_bind, crun_modify, crun_ret. split_and!; [done| |done]. eexists. unfold with_fds. simpl. by rewrite lookup_insert_eq.
  - cbn [adb_read]. rewrite (proj2 (Nat.leb_le _ _)) by exact Hl. apply crun_bind, crun_modify, crun_ret. split_and!; [done| |done].
    eexists. unfold with_fds. simpl. by rewrite lookup_insert_eq.
Qed.

Lemma parse_loop_whole fuel fd out ret r c : one_read c fd out -> (0 < length out <= 4096)%nat -> (2 <= fuel)%nat ->
  match marker_digits out with Some ds => marker_code ds = Ok r | None => r = ret end ->
  crun (parse_loop fuel fd true ret) c (fun x c' => x = r /\ c_out c' = c_out c ++ out).
Proof.
  intros Ho Hl Hfuel Hr. destruct fuel as [|[|n]]; [lia..|]. destruct out as [|b l] eqn:Eo; [simpl in Hl; lia|]. rewrite <- Eo in *.
  cbn [parse_loop]. apply crun_bind. eapply crun_mono; [apply (read_whole fd out); [done|lia]|]. intros x c1 (Ex & H1 & E1).
  assert (x = Got out) as -> by (by rewrite Ex, Eo). apply crun_bind, crun_modify, crun_bind.
  assert (crun (parse_loop (S n) fd true r) (with_stdout (c_out c1 ++ out) c1) (fun x c' => x = r /\ c_out c' = c_out c ++ out)) as Hend.
  { cbn [parse_loop]. apply crun_bind. eapply crun_mono; [apply (read_whole fd []); [exact H1|simpl; lia]|]. intros y c2 (-> & _ & E2).
    apply crun_ret. split; [done|]. rewrite E2. simpl. by rewrite E1. }
  destruct (marker_digits out) as [ds|]; [eapply crun_lift; [exact Hr|exact Hend]|]. apply crun_ret. subst ret. exact Hend.
Qed.



(** ** Port forwarding *)

(** What the server does with a request to forward [loc] to [rem]. *)
Definition forward_to (ttype : transport_type) (loc rem : bytes) (no_rebind : bool) (reply_fd : Z) : M Z :=
  bind (bind (acquire_any ttype None) (fun t =>
    match t with
    | inr why => fail_with reply_fd why
    | inl t => bind (install_listener loc rem (Some t) no_rebind) (fun r =>
        if r =? 0 then okay_twice reply_fd else fail_with reply_fd (install_message r))
    end)) (fun _ => ret 1).

Lemma forward_parsed ttype pre loc rem nr reply_fd : pre = [] /\ nr = false \/ pre = lit "norebind:" /\ nr = true ->
  has_prefix (lit "norebind:") (pre ++ loc ++ ch 59 :: rem) = nr -> loc <> [] -> rem <> [] -> starts_star rem = false -> ch 59 ∉ loc ->
  handle_forward_request (lit "forward:" ++ pre ++ loc ++ ch 59 :: rem) ttype None reply_fd = forward_to ttype loc rem nr reply_fd.
Proof.
  intros Hpre Hn Hl Hr Hstar Hc. unfold handle_forward_request. rewrite !(proj2 (streq_false _ _)).
  2-3: intros E; apply (f_equal (take 8)) in E; rewrite take_app_exact in E by reflexivity; discriminate E.
  rewrite has_prefix_app. change 8%nat with (length (lit "forward:")). rewrite drop_app_length. unfold create_forward. rewrite Hn.
  assert ((if nr then drop 9 (pre ++ loc ++ ch 59 :: rem) else pre ++ loc ++ ch 59 :: rem) = loc ++ ch 59 :: rem) as ->
    by (destruct Hpre as [[-> ->]|[-> ->]]; reflexivity).
  rewrite split_chr_app by exact Hc. rewrite Hstar. destruct loc, rem; done.
Qed.



(** ** Where the command line goes wrong *)

Definition demo_env : env := mkenv None None None None None None None [] [] true (fun _ _ _ => cret 0) (fun _ => cret 0).
Lemma wait_same_device_witness :
  adb_commandline 1 demo_env (do_cmd_argv kTransportUsb (Some (lit "PAX1")) WaitForDevice) (demo_cl ∅ []) =
  cbind (adb_command (lit "host-serial:PAX1:wait-for-any")) (fun r => cret (if r =? 0 then 0 else 1))
    (with_server 5037 None (with_target kTransportAny (Some (lit "PAX1")) (demo_cl ∅ []))).
Proof. apply (wait_same_device 0 demo_env kTransportUsb (Some (lit "PAX1")) (demo_cl ∅ [])); [discriminate|reflexivity]. Defined.

Definition demo_conns : list (Z * fio) -> client := demo_cl ∅.
Definition version_ok (fd : Z) : Z * fio := (fd, demo_conn (lit "OKAY00040020")).
(** The outcome of a command line and what it has sent on a descriptor. *)
Definition outcome (m : res (Z * client)) : option Z := match m with Ok (r, _) => Some r | _ => None end.

(** A command that waited for its device goes on with the default server, not
    with the one that was asked for. *)
Theorem port_forgotten :
  match adb_commandline 2 demo_env [lit "-P"; lit "5099"; lit "syslog"]
          (demo_conns [(-1, demo_conn []); version_ok 3; (4, demo_conn (lit "OKAYOKAY")); version_ok 5; (6, demo_conn (lit "OKAYOKAYlog"))]) with
  | Ok (r, c) => r = 0 /\ c_server_port c = 5037 /\ c_out c = lit "log"
  | _ => False
  end.
Proof. vm_compute. by split_and!. Qed.

(** The request of [forward --no-rebind] has a colon too many, and the server
    takes it for a part of the local name. *)
Theorem no_rebind_refused :
  match adb_commandline 2 demo_env [lit "forward"; lit "--no-rebind"; lit "tcp:6100"; lit "tcp:7"]
          (demo_conns [version_ok 3; (4, demo_conn (lit "OKAYOKAY"))]) with
  | Ok (r, c) => io_sent <$> c_fds c !! 4 = Some (framed (lit "host:forward:norebind::tcp:6100;tcp:7"))
  | _ => False
  end /\
  handle_forward_request (lit "forward:norebind::tcp:6100;tcp:7") kTransportAny None 9 =
    forward_to kTransportAny (lit ":tcp:6100") (lit "tcp:7") true 9 /\
  forall s, local_name_to_fd (lit ":tcp:6100") s = Ok (-1, s).
Proof.
  split_and!; [vm_compute; reflexivity| |intros s; reflexivity].
  apply (forward_parsed kTransportAny (lit "norebind:") (lit ":tcp:6100") (lit "tcp:7") true 9);
    [by right|reflexivity|discriminate|discriminate|reflexivity|by apply (bool_decide_eq_false_1 _)].
Qed.

(** [kill-server] reports success when there is no server. *)
Theorem kill_without_server : outcome (adb_commandline 2 demo_env [lit "kill-server"] (demo_conns [])) = Some 0.
Proof. vm_compute. reflexivity. Qed.

(** A marker that two reads deliver in parts is not seen: the failure is reported
    as success. *)
Theorem split_marker_lost :
  outcome (adb_commandline 2 demo_env [lit "systool"; lit "reboot"]
    (demo_conns [version_ok 3; (4, mkfio [RBytes (lit "OKAYOKAY"); RBytes (lit "[SYST"); RBytes (lit "OOL:-3]")] [] [])])) = Some 0.
Proof. vm_compute. reflexivity. Qed.

(** [exec-out] without a command formats a null pointer. *)
Theorem exec_without_command : adb_commandline 2 demo_env [lit "exec-out"] (demo_conns []) = UB "null argument".
Proof. vm_compute. reflexivity. Qed.

(** Arguments longer than the buffer overrun it. *)
Theorem long_arguments_overrun :
  adb_commandline 2 demo_env [lit "shell"; lit "echo"; replicate (Z.to_nat 4096) x61] (demo_conns []) = UB "strncat overruns the buffer".
Proof. vm_compute. reflexivity. Qed.

(** A block number of 32768 or more overflows the offset. *)
Theorem block_overflows :
  sideload_loop 2 4 (lit "package") (demo_cl {[4 := demo_conn (lit "00032768")]} []) = UB "block offset overflows".
Proof. vm_compute. reflexivity. Qed.
