(* ===== verification/Usb.v ===== *)
(** * USB devices (usb_linux.c, usb_vendors.c, transport_usb.c)

    A thread looks for devices once a second: it reads the descriptors of every
    node under /dev/bus/usb that it does not know, registers those that have an
    ADB interface, and drops the devices whose node is gone.  This file models
    the vendor list, the descriptor parser, the list of handles and the two bulk
    transfers.  What the kernel says of a node is the record [devnode]. *)

From S2P Require Import Prelude CString Io Wire DList Fdevent Server Transports Sockets Registry.

(** ** Vendors (usb_vendors.c) *)

Definition VENDOR_ID_PAX : Z := 0x2fb8.
Definition VENDOR_ID_PAX_LEGACY : Z := 0x0327.
Definition builtInVendorIds : list Z :=
  [0x0502; 0x1f3a; VENDOR_ID_PAX; VENDOR_ID_PAX_LEGACY; 0x1b8e; 0x16d5; 0x0e79; 0x0b05; 0x1d91; 0x04b7; 0x1219; 0x413c; 0x03fc; 0x297f;
   0x2207; 0x0489; 0x04c5; 0x0f1c; 0x091e; 0x0414; 0x1e85; 0x271d; 0x18d1; 0x201e; 0x19a5; 0x109b; 0x0c2e; 0x03f0;
   0x0bb4; 0x12d1; 0x2314; 0x8087; 0x067e; 0x2420; 0x2237; 0x24e3; 0x2116; 0x0482; 0x1949; 0x17ef; 0x2006; 0x1004;
   0x25e3; 0x22b8; 0x0db0; 0x0e8d; 0x0409; 0x2080; 0x0955; 0x22d9; 0x2257; 0x2836; 0x10a9; 0x1d4d; 0x0471; 0x04da;
   0x1662; 0x29e4; 0x1d45; 0x05c6; 0x0408; 0x2207; 0x04e8; 0x04dd; 0x1f53; 0x29a9; 0x054c; 0x0fce; 0x1bbb; 0x1d09;
   0x2340; 0x0451; 0x0930; 0x2a49; 0xe040; 0x0531; 0x2717; 0x2916; 0x1ebf; 0x19d2].
Definition VENDOR_COUNT_MAX : nat := 128.

(** [fgets(temp, PATH_MAX, f)]: what it reads of the rest of the file. *)
Fixpoint fgets_split (n : nat) (s : bytes) : bytes * bytes :=
  match n, s with
  | O, _ | _, [] => ([], s)
  | S k, b :: r => if byte_eqb b (ch 10) then ([b], r) else let '(l, t) := fgets_split k r in (b :: l, t)
  end.
(** The lines of the file; [errno_set] says that an earlier call has left EINVAL
    or ERANGE in [errno], which nothing clears. *)
Fixpoint read_vendors (fuel : nat) (errno_set : bool) (f : bytes) (ids : list Z) : res (list Z) :=
  match fuel, f with
  | _, [] => Ok ids
  | O, _ => Timeout
  | S n, _ =>
      let '(temp, rest) := fgets_split 4095 f in
      if has_prefix (lit "#") temp then read_vendors n errno_set rest ids
      else
        let value := strtol0 (cstr temp) in
        if errno_set || (2147483647 <? value) || (value <? 0) then Exit "invalid vendor file"
        else
          let ids := ids ++ [value] in
          if (length ids =? VENDOR_COUNT_MAX)%nat then Ok ids else read_vendors n errno_set rest ids
  end.
Definition get_adb_usb_ini (home : option bytes) : option bytes :=
  let path := default (lit "/tmp") home ++ lit "/.android/adb_usb.ini" in
  if 4096 <=? Z.of_nat (length path) then None else Some path.
Definition usb_vendors_init (home : option bytes) (errno_set : bool) (fopen : bytes -> option bytes) : res (list Z) :=
  match get_adb_usb_ini home with
  | None => Ok builtInVendorIds
  | Some path =>
      match fopen path with
      | None => Ok builtInVendorIds
      | Some f => read_vendors (length f) errno_set f builtInVendorIds
      end
  end.

(** [is_adb_interface] (transport_usb.c). *)
Definition ADB_CLASS : Z := 0xff.
Definition ADB_SUBCLASS : Z := 0x42.
Definition ADB_PROTOCOL : Z := 1.
Fixpoint is_adb_interface (vendorIds : list Z) (vid usb_class usb_subclass usb_protocol : Z) : bool :=
  match vendorIds with
  | [] => false
  | v :: r =>
      if vid =? v then (usb_class =? ADB_CLASS) && (usb_subclass =? ADB_SUBCLASS) && (usb_protocol =? ADB_PROTOCOL)
      else is_adb_interface r vid usb_class usb_subclass usb_protocol
  end.

(** ** Descriptors *)

Definition USB_DT_DEVICE_SIZE : nat := 18.
Definition USB_DT_CONFIG_SIZE : nat := 9.
Definition USB_DT_INTERFACE_SIZE : Z := 9.
Definition USB_DT_ENDPOINT_SIZE : nat := 7.

(** A byte of [devdesc], of which only the first [length buf] are set. *)
Definition at_ (buf : bytes) (i : nat) : res Z := deref "descriptor is read past its end" (b2z <$> buf !! i).
Definition at16 (buf : bytes) (i : nat) : res Z :=
  let* lo := at_ buf i in
  let* hi := at_ buf (S i) in
  Ok (lo + 256 * hi).

(** What [register_device_callback] is called with. *)
Record usb_match := mkfound { fo_in : Z; fo_out : Z; fo_interface : Z; fo_serial : Z; fo_zero_mask : Z }.

(** The two endpoints behind an ADB interface: [inl] ends the loop, [inr] goes on
    behind them. *)
Definition endpoints (buf : bytes) (ifc e1 : nat) (serial : Z) : res (option usb_match + nat) :=
  let e2 := (e1 + USB_DT_ENDPOINT_SIZE)%nat in
  let next := (e2 + USB_DT_ENDPOINT_SIZE)%nat in
  if (length buf <? next)%nat then Ok (inl None)
  else
    let* l1 := at_ buf e1 in
    let* t1 := at_ buf (e1 + 1) in
    let* l2 := at_ buf e2 in
    let* t2 := at_ buf (e2 + 1) in
    if negb (l1 =? 7) || negb (t1 =? 5) || negb (l2 =? 7) || negb (t2 =? 5) then Ok (inl None)
    else
      let* a1 := at_ buf (e1 + 3) in
      let* a2 := at_ buf (e2 + 3) in
      if negb (a1 =? 2) || negb (a2 =? 2) then Ok (inr next)
      else
        let* protocol := at_ buf (ifc + 7) in
        let* size := at16 buf (e1 + 4) in
        let zero_mask := if protocol =? 1 then wrap32 (size - 1) else 0 in
        let* d1 := at_ buf (e1 + 2) in
        let* d2 := at_ buf (e2 + 2) in
        let* number := at_ buf (ifc + 2) in
        let '(i, o) := if negb (Z.land d1 0x80 =? 0) then (d1, d2) else (d2, d1) in
        Ok (inl (Some (mkfound i o number serial zero_mask))).

(** The loop over the descriptors, from [bufptr] on. *)
Fixpoint descriptor_loop (fuel : nat) (ids : list Z) (buf : bytes) (bufptr : nat) (vid serial : Z) : res (option usb_match) :=
  match fuel with
  | O => Timeout
  | S n =>
      if (length buf <=? bufptr)%nat then Ok None
      else
        let* len := at_ buf bufptr in
        let* type := at_ buf (bufptr + 1) in
        let next := (bufptr + Z.to_nat len)%nat in
        if type =? 4 then
          if negb (len =? USB_DT_INTERFACE_SIZE) then Ok None
          else
            let* count := at_ buf (bufptr + 4) in
            if count =? 2 then
              let* cls := at_ buf (bufptr + 5) in
              let* sub := at_ buf (bufptr + 6) in
              let* proto := at_ buf (bufptr + 7) in
              if is_adb_interface ids vid cls sub proto then
                let* r := endpoints buf bufptr next serial in
                match r with inl o => Ok o | inr p => descriptor_loop n ids buf p vid serial end
              else descriptor_loop n ids buf next vid serial
            else descriptor_loop n ids buf next vid serial
        else descriptor_loop n ids buf next vid serial
  end.

(** The descriptors of a node, as [adb_read] gave them; None is its error, which
    the unsigned [desclength] does not show. *)
Definition parse_device (fuel : nat) (ids : list Z) (read : option bytes) : res (option usb_match) :=
  match read with
  | None => UB "descriptor was never read"
  | Some buf =>
      if (length buf <? USB_DT_DEVICE_SIZE + USB_DT_CONFIG_SIZE)%nat then Ok None
      else
        let* l := at_ buf 0 in
        let* t := at_ buf 1 in
        if negb (l =? 18) || negb (t =? 1) then Ok None
        else
          let* vid := at16 buf 8 in
          let* cl := at_ buf 18 in
          let* ct := at_ buf 19 in
          if negb (cl =? 9) || negb (ct =? 2) then Ok None
          else
            let* serial := at_ buf 16 in
            descriptor_loop fuel ids buf 27 vid serial
  end.

(** ** Handles *)

Record usb_handle := mkusb {
  h_id : nat; h_fname : bytes; h_desc : Z; h_ep_in : Z; h_ep_out : Z; h_zero_mask : Z;
  h_writeable : bool; h_dead : bool; h_mark : bool }.
Definition h_set_mark (m : bool) (h : usb_handle) : usb_handle :=
  mkusb (h_id h) (h_fname h) (h_desc h) (h_ep_in h) (h_ep_out h) (h_zero_mask h) (h_writeable h) (h_dead h) m.
Definition h_set_dead (h : usb_handle) : usb_handle :=
  mkusb (h_id h) (h_fname h) (h_desc h) (h_ep_in h) (h_ep_out h) (h_zero_mask h) (h_writeable h) true (h_mark h).

(** [handle_list], and the next handle to be allocated. *)
Record usbs := mkusbs { us_list : list usb_handle; us_next : nat }.
Definition with_list (l : list usb_handle) (u : usbs) : usbs := mkusbs l (us_next u).

(** [known_device] marks the handle of that name. *)
Fixpoint mark_named (name : bytes) (l : list usb_handle) : list usb_handle * bool :=
  match l with
  | [] => ([], false)
  | h :: r =>
      if streq (h_fname h) name then (h_set_mark true h :: r, true)
      else let '(r', k) := mark_named name r in (h :: r', k)
  end.
Definition known_device (name : bytes) (u : usbs) : usbs * bool :=
  let '(l, k) := mark_named name (us_list u) in (with_list l u, k).

(** [usb_kick]: the pending transfers of a device that can be written are
    cancelled, which the threads in [usb_bulk_read] and [usb_bulk_write] see as
    [ReapDead] and [w_dead] below; one that cannot is unregistered here. *)
Definition usb_kick (h : usb_handle) : M usb_handle :=
  if h_dead h then ret h
  else (if h_writeable h then ret tt else unregister_usb_transport (h_id h)) ;; ret (h_set_dead h).
Fixpoint kick_unmarked (l : list usb_handle) : M (list usb_handle) :=
  match l with
  | [] => ret []
  | h :: r =>
      do h' <- (if h_mark h then ret (h_set_mark false h) else usb_kick h);
      do r' <- kick_unmarked r;
      ret (h' :: r')
  end.
Definition kick_disconnected_devices (u : usbs) : M usbs :=
  do l <- kick_unmarked (us_list u);
  ret (with_list l u).

(** [usb_close]. *)
Definition usb_close (id : nat) (u : usbs) : M usbs :=
  match find (fun h => (h_id h =? id)%nat) (us_list u) with
  | None => undefined "handle is not listed"
  | Some h => fd_close (h_desc h) ;; ret (with_list (filter (fun x => h_id x <> id) (us_list u)) u)
  end.

(** ** Serial numbers *)

(** The answer to a control transfer into 128 words: the bytes, or an error. *)
Definition words (b : bytes) (i : nat) : Z := match at16 b (2 * i) with Ok w => w | _ => 0 end.

(** The serial in the first string descriptor that one of the languages from [i]
    on gives; the rest of the answer buffer is zero. *)
Fixpoint serial_loop (n i : nat) (langs : bytes) (get_string : Z -> option bytes) : bytes :=
  match n with
  | O => []
  | S k =>
      match get_string (words langs i) with
      | Some (b :: r) =>
          let buffer := take 256 (b :: r) in
          let result := (length buffer / 2)%nat in
          cstr (map (fun i => z2b (words (buffer ++ replicate 256 x00) i)) (seq 1 (result - 1)))
      | _ => serial_loop k (S i) langs get_string
      end
  end.
Definition read_serial (serial_index : Z) (langs : option bytes) (get_string : Z -> option bytes) : bytes :=
  if serial_index =? 0 then []
  else
    match langs with
    | Some l =>
        let l := take 256 l in
        let languageCount := ((length l - 2) / 2)%nat in
        serial_loop languageCount 1 (l ++ replicate 256 x00) get_string
    | None => []
    end.

(** ** Discovery *)

(** A node of the bus: its name; the descriptors, when it can be opened and what
    the read gives; the link of its device number; and, to open it for use, the
    descriptors for writing and for reading only, the claim of its interface, and
    its string descriptors. *)
Record devnode := mknode {
  d_name : bytes;
  d_desc : option (option bytes);
  d_link : option bytes;
  d_rdwr : option Z;
  d_rdonly : option Z;
  d_claim : bool;
  d_langs : option bytes;
  d_string : Z -> Z -> option bytes }.

Definition badname (name : bytes) : bool := existsb (fun b => negb (isdigit b)) name.
(** "usb:" and the last component of the link. *)
Definition device_path (link : option bytes) : option bytes :=
  match link with
  | Some (b :: r) =>
      match after_last (ch 47) (take 255 (b :: r)) with
      | Some t => Some (snprintf 128 (lit "usb:" ++ t))
      | None => None
      end
  | _ => None
  end.

Definition register_device (dev_name : bytes) (d : devnode) (f : usb_match) (u : usbs) : M usbs :=
  if existsb (fun h => streq (h_fname h) dev_name) (us_list u) then ret u
  else
    let opened := match d_rdwr d with
                  | Some fd => if d_claim d then Some (fd, true) else None
                  | None => match d_rdonly d with Some fd => Some (fd, false) | None => None end
                  end in
    match opened with
    | None => (match d_rdwr d with Some fd => fd_close fd | None => ret tt end) ;; ret u
    | Some (fd, writeable) =>
        let h := mkusb (us_next u) dev_name fd (fo_in f) (fo_out f) (fo_zero_mask f) writeable false true in
        let serial := read_serial (fo_serial f) (d_langs d) (d_string d (fo_serial f)) in
        register_usb_transport (us_next u) (Some serial) (device_path (d_link d)) writeable ;;
        ret (mkusbs (us_list u ++ [h]) (S (us_next u)))
    end.

Definition scan_node (fuel : nat) (ids : list Z) (busname : bytes) (d : devnode) (u : usbs) : M usbs :=
  if badname (d_name d) then ret u
  else
    let devname := snprintf 32 (busname ++ lit "/" ++ d_name d) in
    let '(u, known) := known_device devname u in
    if known then ret u
    else
      match d_desc d with
      | None => ret u
      | Some read =>
          do r <- lift (parse_device fuel ids read);
          match r with None => ret u | Some f => register_device devname d f u end
      end.
Fixpoint scan_bus (fuel : nat) (ids : list Z) (busname : bytes) (nodes : list devnode) (u : usbs) : M usbs :=
  match nodes with
  | [] => ret u
  | d :: r => do u' <- scan_node fuel ids busname d u; scan_bus fuel ids busname r u'
  end.
(** [find_usb_device]; a bus that cannot be opened has no nodes. *)
Fixpoint find_usb_device (fuel : nat) (ids : list Z) (base : bytes) (buses : list (bytes * list devnode)) (u : usbs) : M usbs :=
  match buses with
  | [] => ret u
  | (name, nodes) :: r =>
      do u' <- (if badname name then ret u else scan_bus fuel ids (snprintf 32 (base ++ lit "/" ++ name)) nodes u);
      find_usb_device fuel ids base r u'
  end.
(** One turn of [device_poll_thread]. *)
Definition poll_step (fuel : nat) (ids : list Z) (buses : list (bytes * list devnode)) (u : usbs) : M usbs :=
  do u' <- find_usb_device fuel ids (lit "/dev/bus/usb") buses u;
  kick_disconnected_devices u'.

(** ** Bulk transfers *)

(** One return of [ioctl(USBDEVFS_REAPURB)]: the read, with its status and
    length; the write of another thread; a signal; an error; or the device was
    kicked meanwhile. *)
Inductive reap := ReapIn (good : bool) (n : Z) | ReapOut | ReapIntr | ReapErr | ReapDead.
Fixpoint reap_loop (script : list reap) : res Z :=
  match script with
  | [] => Timeout
  | ReapDead :: _ => Ok (-1)
  | ReapErr :: _ => Ok (-1)
  | ReapIntr :: r => reap_loop r
  | ReapIn good n :: _ => Ok (if good then n else -1)
  | ReapOut :: r => reap_loop r
  end.
Definition usb_bulk_read (dead submitted : bool) (script : list reap) : res Z :=
  if dead then Ok (-1) else if negb submitted then Ok (-1) else reap_loop script.

(** One return of [pthread_cond_timedwait]: by a timeout or not, whether the
    device was kicked, and the outcome of the transfer once it is complete.  A
    timeout is reported by the positive number ETIMEDOUT. *)
Definition ETIMEDOUT : Z := 110.
Record wake := mkwake { w_timedout : bool; w_dead : bool; w_done : option (bool * Z) }.
Fixpoint wait_loop (script : list wake) : res Z :=
  match script with
  | [] => Timeout
  | w :: r =>
      let res := if w_timedout w then ETIMEDOUT else 0 in
      if (res <? 0) || w_dead w then Ok res
      else match w_done w with
           | Some (good, n) => Ok (if (good : bool) then n else res)
           | None => wait_loop r
           end
  end.
Definition usb_bulk_write (dead submitted : bool) (script : list wake) : res Z :=
  if dead then Ok (-1) else if negb submitted then Ok (-1) else wait_loop script.
