(* ===== verification/UsbProps.v ===== *)
(** * What the discovery of USB devices guarantees

    A device with an ADB interface of a known vendor is found with its endpoints,
    the vendor list never outgrows its array, and a scan drops exactly the devices
    whose node is gone. *)

From S2P Require Import Prelude CString Io Wire DList Fdevent Server Transports Sockets SocketInv EngineProps Registry Usb.

(** ** Vendors *)

Lemma is_adb_interface_spec ids vid c s p :
  is_adb_interface ids vid c s p = bool_decide (vid ∈ ids) && ((c =? ADB_CLASS) && (s =? ADB_SUBCLASS) && (p =? ADB_PROTOCOL)).
Proof.
  induction ids as [|v r IH]; [by rewrite bool_decide_false by apply not_elem_of_nil|]. cbn [is_adb_interface].
  destruct (Z.eqb_spec vid v) as [->|Hn]; [rewrite bool_decide_true by (by left); reflexivity|].
  rewrite IH. f_equal. apply bool_decide_ext. rewrite elem_of_cons. naive_solver.
Qed.

Lemma fgets_split_app n s : let '(a, b) := fgets_split n s in s = a ++ b /\ (length a <= n)%nat /\ (n <> O -> s <> [] -> a <> []).
Proof.
  revert s. induction n as [|n IH]; intros s; cbn [fgets_split]; [destruct s; (split_and!; [done|simpl; lia|done])|].
  destruct s as [|x s]; [split_and!; [done|simpl; lia|done]|].
  destruct (byte_eqb x (ch 10)); [split_and!; [done|simpl; lia|done]|]. specialize (IH s). destruct (fgets_split n s) as [l t].
  destruct IH as (-> & Hl & _). split_and!; [done|simpl; lia|done].
Qed.

Lemma read_vendors_ok fuel err f ids : (length f <= fuel)%nat -> (length ids < VENDOR_COUNT_MAX)%nat ->
  match read_vendors fuel err f ids with
  | Ok l => (exists new, l = ids ++ new) /\ (length l <= VENDOR_COUNT_MAX)%nat
  | Exit _ => True
  | _ => False
  end.
Proof.
  revert f ids. induction fuel as [|n IH]; intros f ids Hf Hi; (destruct f as [|x f]; [split; [by exists []; rewrite app_nil_r|lia]|]); [simpl in Hf; lia|].
  cbn [read_vendors]. pose proof (fgets_split_app 4095 (x :: f)) as Hs. destruct (fgets_split 4095 (x :: f)) as [temp rest].
  destruct Hs as (E & _ & Hne). assert (length rest <= n)%nat as Hr.
  { apply (f_equal length) in E. rewrite length_app in E. simpl in E, Hf. destruct temp; [by destruct Hne|]. simpl in E. lia. }
  destruct (has_prefix (lit "#") temp); [by apply IH|]. destruct (err || _ || _); [done|].
  destruct (Nat.eqb_spec (length (ids ++ [strtol0 (cstr temp)])) VENDOR_COUNT_MAX) as [El|El]; [split; [by eexists|lia]|].
  rewrite length_app in El. simpl in El.
  specialize (IH rest (ids ++ [strtol0 (cstr temp)]) Hr). rewrite length_app in IH. simpl in IH. specialize (IH ltac:(lia)).
  destruct (read_vendors n err rest _) as [l| | |]; [|done..]. destruct IH as [[new ->] Hl]. split; [|done]. exists ([strtol0 (cstr temp)] ++ new). by rewrite app_assoc.
Qed.

(** Whatever the vendor file holds, reading it ends, with the built-in vendors and
    at most as many more as fit the array, or with the program leaving over a
    line that is not a number. *)
Theorem vendors_bounded home err fopen :
  match usb_vendors_init home err fopen with
  | Ok l => (exists new, l = builtInVendorIds ++ new) /\ (length l <= VENDOR_COUNT_MAX)%nat /\
            is_adb_interface l VENDOR_ID_PAX ADB_CLASS ADB_SUBCLASS ADB_PROTOCOL = true
  | Exit _ => True
  | _ => False
  end.
Proof.
  assert (length builtInVendorIds < VENDOR_COUNT_MAX)%nat as Hb by (vm_compute; lia).
  assert (forall l, (exists new, l = builtInVendorIds ++ new) -> is_adb_interface l VENDOR_ID_PAX ADB_CLASS ADB_SUBCLASS ADB_PROTOCOL = true) as Hpax.
  { intros l [new ->]. rewrite is_adb_interface_spec, !Z.eqb_refl, bool_decide_true; [done|]. apply elem_of_app. left. do 2 right. by left. }
  unfold usb_vendors_init.
  assert (exists new, builtInVendorIds = builtInVendorIds ++ new) as H0 by (exists []; by rewrite app_nil_r).
  destruct (get_adb_usb_ini home) as [path|]; [|split_and!; [done|lia|by apply Hpax]]. destruct (fopen path) as [f|]; [|split_and!; [done|lia|by apply Hpax]].
  pose proof (read_vendors_ok (length f) err f builtInVendorIds ltac:(lia) Hb) as H. destruct (read_vendors _ _ _ _) as [l| | |]; try done.
  destruct H. split_and!; [done|done|by apply Hpax].
Qed.

(** ** Descriptors *)

Lemma at_sub pre d post i : (i < length d)%nat -> at_ (pre ++ d ++ post) (length pre + i) = at_ d i.
Proof.
  intros Hi. unfold at_. f_equal. f_equal. rewrite lookup_app_r by lia. replace (length pre + i - length pre)%nat with i by lia. by apply lookup_app_l.
Qed.

(** A descriptor the loop passes over: of another type, or an interface that is
    not ADB's. *)
Definition passed (ids : list Z) (vid : Z) (d : bytes) : Prop :=
  (2 <= length d)%nat /\ at_ d 0 = Ok (Z.of_nat (length d)) /\ exists t, at_ d 1 = Ok t /\
  (t <> 4 \/ length d = 9%nat /\ exists n c s p, at_ d 4 = Ok n /\ at_ d 5 = Ok c /\ at_ d 6 = Ok s /\ at_ d 7 = Ok p /\
     (n <> 2 \/ is_adb_interface ids vid c s p = false)).

Lemma loop_passes ids vid serial d pre post fuel : passed ids vid d ->
  descriptor_loop (S fuel) ids (pre ++ d ++ post) (length pre) vid serial =
  descriptor_loop fuel ids (pre ++ d ++ post) (length (pre ++ d)) vid serial.
Proof.
  intros (Hl & H0 & t & H1 & Ht). cbn [descriptor_loop]. rewrite (proj2 (Nat.leb_gt _ _)) by (rewrite !length_app; lia).
  rewrite <- (Nat.add_0_r (length pre)) at 1. rewrite (at_sub pre d post 0), H0 by lia. cbn [rbind].
  rewrite (at_sub pre d post 1), H1 by lia. cbn [rbind]. rewrite Nat2Z.id, length_app. cbn zeta.
  destruct (Z.eqb_spec t 4) as [->|]; [|done]. destruct Ht as [?|(L9 & n & c & s & p & H4 & H5 & H6 & H7 & Hn)]; [done|].
  rewrite L9. change (negb (Z.of_nat 9 =? USB_DT_INTERFACE_SIZE)) with false. cbv iota.
  rewrite (at_sub pre d post 4), H4 by lia. cbn [rbind]. destruct (Z.eqb_spec n 2) as [->|]; [|done].
  rewrite !(at_sub pre d post), H5, H6, H7 by lia. cbn [rbind]. by destruct Hn as [?| ->].
Qed.

Lemma loop_passes_all ids vid serial others pre post fuel : Forall (passed ids vid) others ->
  descriptor_loop (length others + fuel) ids (pre ++ concat others ++ post) (length pre) vid serial =
  descriptor_loop fuel ids (pre ++ concat others ++ post) (length (pre ++ concat others)) vid serial.
Proof.
  intros H. revert pre. induction H as [|d r Hd _ IH]; intros pre; cbn [concat length Nat.add]; [by rewrite app_nil_r|].
  rewrite <- !app_assoc. rewrite loop_passes by done.
  specialize (IH (pre ++ d)). rewrite <- !app_assoc in IH. rewrite IH. by rewrite app_assoc.
Qed.

(** The descriptors of a device, with the bytes that are not looked at. *)
Definition device_desc (a : bytes) (vl vh : byte) (b : bytes) (serial n : byte) : bytes := [z2b 18; z2b 1] ++ a ++ [vl; vh] ++ b ++ [serial; n].
Definition config_desc (c : bytes) : bytes := [z2b 9; z2b 2] ++ c.
Definition adb_desc (number alt idx : byte) : bytes := [z2b 9; z2b 4; number; alt; z2b 2; z2b 0xff; z2b 0x42; z2b 1; idx].
Definition bulk_desc (addr lo hi interval : byte) : bytes := [z2b 7; z2b 5; addr; z2b 2; lo; hi; interval].

Lemma loop_finds ids vid serial pre post number alt idx a1 lo hi i1 a2 lo2 hi2 i2 fuel : vid ∈ ids ->
  descriptor_loop (S fuel) ids (pre ++ (adb_desc number alt idx ++ bulk_desc a1 lo hi i1 ++ bulk_desc a2 lo2 hi2 i2) ++ post) (length pre) vid serial =
  Ok (Some (mkfound (if negb (Z.land (b2z a1) 0x80 =? 0) then b2z a1 else b2z a2) (if negb (Z.land (b2z a1) 0x80 =? 0) then b2z a2 else b2z a1)
    (b2z number) serial (wrap32 (b2z lo + 256 * b2z hi - 1)))).
Proof.
  intros Hv. set (d := adb_desc number alt idx ++ bulk_desc a1 lo hi i1 ++ bulk_desc a2 lo2 hi2 i2).
  assert (length d = 23%nat) as Hd by reflexivity. cbn [descriptor_loop]. rewrite (proj2 (Nat.leb_gt _ _)) by (rewrite !length_app; lia).
  rewrite <- (Nat.add_0_r (length pre)) at 1. rewrite !(at_sub pre d post) by lia.
  change (at_ d 0) with (Ok 9). change (at_ d 1) with (Ok 4). change (at_ d 4) with (Ok 2). change (at_ d 5) with (Ok 0xff).
  change (at_ d 6) with (Ok 0x42). change (at_ d 7) with (Ok 1). cbn [rbind]. change (4 =? 4) with true. change (2 =? 2) with true.
  change (negb (9 =? USB_DT_INTERFACE_SIZE)) with false. cbv iota.
  rewrite is_adb_interface_spec, bool_decide_true by done. change (true && _) with true. cbv iota. change (Z.to_nat 9) with 9%nat.
  unfold endpoints, USB_DT_ENDPOINT_SIZE. rewrite (proj2 (Nat.ltb_ge _ _)) by (rewrite !length_app; lia). unfold at16.
  replace (S (length pre + 9 + 4)) with (length pre + 14)%nat by lia.
  rewrite <- !Nat.add_assoc. cbn [Nat.add]. rewrite !(at_sub pre d post) by lia.
  unfold at_, d, adb_desc, bulk_desc. cbn [lookup list_lookup app fmap option_fmap option_map deref rbind]. rewrite !b2z_z2b.
  change (7 mod 256) with 7. change (5 mod 256) with 5. change (2 mod 256) with 2. change (1 mod 256) with 1. cbn [Z.eqb Pos.eqb negb orb].
  destruct (Z.land (b2z a1) 128 =? 0); reflexivity.
Qed.

(** C37. A device that puts an ADB interface with two bulk endpoints behind any
    descriptors that are well formed and not an ADB interface is registered with
    its endpoints told apart by their direction, the number of the interface, the
    index of its serial and the size of its packets; the loop turns once for each
    descriptor in front and once more. *)
Theorem adb_device_found ids a vl vh b serial n c others number alt idx a1 lo hi i1 a2 lo2 hi2 i2 rest fuel :
  length a = 6%nat -> length b = 6%nat -> length c = 7%nat ->
  b2z vl + 256 * b2z vh ∈ ids -> Forall (passed ids (b2z vl + 256 * b2z vh)) others ->
  parse_device (length others + S fuel) ids
    (Some (device_desc a vl vh b serial n ++ config_desc c ++ concat others ++
           adb_desc number alt idx ++ bulk_desc a1 lo hi i1 ++ bulk_desc a2 lo2 hi2 i2 ++ rest)) =
  Ok (Some (mkfound (if negb (Z.land (b2z a1) 0x80 =? 0) then b2z a1 else b2z a2) (if negb (Z.land (b2z a1) 0x80 =? 0) then b2z a2 else b2z a1)
    (b2z number) (b2z serial) (wrap32 (b2z lo + 256 * b2z hi - 1)))).
Proof.
  intros Ha Hb Hc Hv Ho. do 7 (destruct a as [|? a]; try done). do 7 (destruct b as [|? b]; try done). do 8 (destruct c as [|? c]; try done).
  set (tl := concat others ++ _).
  match goal with |- context [Some (?x ++ ?y ++ tl)] => set (pre := x ++ y); replace (x ++ y ++ tl) with (pre ++ tl) by (unfold pre; by rewrite <- app_assoc) end.
  assert (length pre = 27%nat) as Hl by reflexivity.
  assert (forall i, (i < 27)%nat -> at_ (pre ++ tl) i = at_ pre i) as Hat by (intros i Hi; unfold at_; by rewrite lookup_app_l by lia).
  unfold parse_device, at16, USB_DT_DEVICE_SIZE, USB_DT_CONFIG_SIZE. rewrite (proj2 (Nat.ltb_ge _ _)) by (rewrite length_app; lia).
  rewrite !Hat by lia. change (at_ pre 0) with (Ok 18). change (at_ pre 1) with (Ok 1). change (at_ pre 8) with (Ok (b2z vl)).
  change (at_ pre 9) with (Ok (b2z vh)). change (at_ pre 18) with (Ok 9). change (at_ pre 19) with (Ok 2). change (at_ pre 16) with (Ok (b2z serial)).
  cbn [rbind Z.eqb Pos.eqb negb orb]. rewrite <- Hl. unfold tl. rewrite loop_passes_all by done.
  pose proof (loop_finds ids (b2z vl + 256 * b2z vh) (b2z serial) (pre ++ concat others) rest number alt idx a1 lo hi i1 a2 lo2 hi2 i2 fuel Hv) as F.
  by rewrite <- !app_assoc in F.
Qed.

(** A terminal: an interface of its own in front of the ADB one. *)
Lemma adb_device_found_witness :
  exists l, parse_device 10 builtInVendorIds (Some l) = Ok (Some (mkfound 0x81 2 1 3 511)).
Proof.
  exists (device_desc (replicate 6 x00) (z2b 0xb8) (z2b 0x2f) (replicate 6 x00) (z2b 3) (z2b 1) ++ config_desc (replicate 7 x00) ++
    concat [[z2b 9; z2b 4; x00; x00; z2b 1; z2b 3; x00; x00; x00]; [z2b 7; z2b 5; z2b 0x83; z2b 3; z2b 8; x00; z2b 10]] ++
    adb_desc (z2b 1) x00 x00 ++ bulk_desc (z2b 0x81) x00 (z2b 2) x00 ++ bulk_desc (z2b 2) x00 (z2b 2) x00 ++ []).
  apply (adb_device_found builtInVendorIds) with (fuel := 7%nat); [reflexivity..| |].
  - vm_compute. do 2 right. left.
  - constructor; [|constructor; [|constructor]].
    + split; [simpl; lia|]. split; [reflexivity|]. exists 4. split; [reflexivity|]. right. split; [reflexivity|].
      exists 1, 3, 0, 0. split_and!; try reflexivity. left. lia.
    + split; [simpl; lia|]. split; [reflexivity|]. exists 5. split; [reflexivity|]. left. lia.
Defined.

(** ** Serial numbers *)

(** A string descriptor: the characters in 16 bits each. *)
Definition string_desc (s : bytes) : bytes := [z2b (2 + 2 * Z.of_nat (length s)); z2b 3] ++ concat ((fun b => [b; x00]) <$> s).

Lemma length_wide s : length (concat ((fun b => [b; x00]) <$> s)) = (2 * length s)%nat.
Proof. induction s as [|b s IH]; [done|]. cbn [fmap list_fmap concat length app]. rewrite IH. lia. Qed.

Lemma words_drop buf i : words buf (S i) = words (drop 2 buf) i.
Proof. unfold words, at16, at_. rewrite !lookup_drop. by replace (2 * S i)%nat with (2 + 2 * i)%nat by lia. Qed.

Lemma words_wide s tl : (fun i => z2b (words (concat ((fun b => [b; x00]) <$> s) ++ tl) i)) <$> seq 0 (length s) = s.
Proof.
  induction s as [|b s IH]; [done|]. cbn [length seq fmap list_fmap concat app]. f_equal.
  - unfold words, at16, at_. cbn -[Z.mul Z.add]. rewrite Z.mul_0_r, Z.add_0_r. apply z2b_b2z.
  - rewrite <- fmap_S_seq, <- list_fmap_compose. etrans; [|exact IH]. apply list_fmap_ext. intros _ i _. unfold compose. by rewrite words_drop.
Qed.

(** A device that lists a language and answers with the string descriptor of its
    serial is known by that serial. *)
Theorem usb_serial_read index langs get_string s : index <> 0 -> (4 <= length langs)%nat ->
  get_string (words langs 1) = Some (string_desc s) -> (length s <= 126)%nat -> no_nul s ->
  read_serial index (Some langs) get_string = s.
Proof.
  intros Hi Hl Hg Hs Hn. unfold read_serial. rewrite (proj2 (Z.eqb_neq _ _)) by done. cbv zeta.
  assert (exists n, ((length (take 256 langs) - 2) / 2)%nat = S n) as [n ->].
  { exists ((length (take 256 langs) - 4) / 2)%nat. rewrite length_take. replace (256 `min` length langs - 2)%nat with (256 `min` length langs - 4 + 1 * 2)%nat by lia.
    rewrite Nat.div_add by lia. lia. }
  cbn [serial_loop].
  assert (words (take 256 langs ++ replicate 256 x00) 1 = words langs 1) as ->.
  { unfold words, at16, at_. rewrite !lookup_app_l, !lookup_take_lt by (rewrite ?length_take; lia). done. }
  rewrite Hg. assert (length (string_desc s) = 2 + 2 * length s)%nat as Hlen by (unfold string_desc; rewrite length_app, length_wide; reflexivity).
  unfold string_desc at 1. cbn [app]. fold (string_desc s).
  match goal with |- context [take 256 ?x] => change x with (string_desc s) end. rewrite take_ge by lia. rewrite Hlen.
  replace ((2 + 2 * length s) / 2 - 1)%nat with (length s) by (rewrite Nat.mul_comm, (Nat.div_add 2) by lia; change (2 / 2)%nat with 1%nat; lia).
  transitivity (cstr s); [|by apply cstr_id]. f_equal. etrans; [|apply (words_wide s (replicate 256 x00))].
  rewrite <- fmap_S_seq. change (map ?f ?l) with (f <$> l). rewrite <- list_fmap_compose. apply list_fmap_ext. intros _ k _. unfold compose. by rewrite words_drop.
Qed.
Lemma usb_serial_read_witness : read_serial 3 (Some (map z2b [4; 3; 9; 4])) (fun l => if l =? 0x409 then Some (string_desc (lit "PAX1")) else None) = lit "PAX1".
Proof. apply usb_serial_read; [lia|simpl; lia|reflexivity|simpl; lia|apply (bool_decide_eq_false_1 (_ ∈ _)); by vm_compute]. Defined.

(** ** A poll *)

(** The nodes of the buses that the scan looks at, under the names it gives them. *)
Definition present_in (bus : bytes) (ds : list devnode) : list (bytes * devnode) :=
  (fun d => (snprintf 32 (bus ++ lit "/" ++ d_name d), d)) <$> filter (fun d => badname (d_name d) = false) ds.
Definition present (base : bytes) (buses : list (bytes * list devnode)) : list (bytes * devnode) :=
  concat ((fun '(name, ds) => if badname name then [] else present_in (snprintf 32 (base ++ lit "/" ++ name)) ds) <$> buses).

Section poll.
Context (fuel : nat) (ids : list Z).

(** The descriptors of a node, when it can be opened, are parsed to an end. *)
Definition readable (d : devnode) : Prop :=
  match d_desc d with Some read => exists r, parse_device fuel ids read = Ok r | None => True end.
(** A node with an ADB interface that can be opened and claimed. *)
Definition usable (d : devnode) : Prop :=
  exists read f fd, d_desc d = Some read /\ parse_device fuel ids read = Ok (Some f) /\ d_rdwr d = Some fd /\ d_claim d = true.

Definition mark_seen (seen : list bytes) (h : usb_handle) : usb_handle :=
  if bool_decide (h_fname h ∈ seen) then h_set_mark true h else h.
(** A handle of this scan, and the transport that is announced for it. *)
Definition fresh (seen : list bytes) (h : usb_handle) : Prop := h_fname h ∈ seen /\ h_dead h = false.
Definition announced (s : sv) (h : usb_handle) (t : ptr) : Prop :=
  (t < next_ptr s)%nat /\ exists u, trs s !! t = Some u /\ t_type u = kTransportUsb /\ t_usb u = Some (h_id h) /\
  t_connection_state u = if h_writeable h then CS_OFFLINE else CS_NOPERM.

(** After the nodes named [seen], those of [served] having a handle if they are
    usable. *)
Record scanned (s0 : sv) (u0 : usbs) (seen : list bytes) (served : list (bytes * devnode)) (u : usbs) (s : sv) : Prop := mkscanned {
  sc_list : exists new ts, us_list u = (mark_seen seen <$> us_list u0) ++ new /\
    Forall (fun h => fresh seen h /\ h_mark h = true) new /\
    pending_list s = pending_list s0 ++ ts /\ actions s = actions s0 ++ ((fun t => (t, 1)) <$> ts) /\ Forall2 (announced s) new ts;
  sc_nodup : NoDup (h_fname <$> us_list u);
  sc_served : forall n d, (n, d) ∈ served -> usable d -> n ∈ h_fname <$> us_list u }.

Lemma mark_named_run name l : NoDup (h_fname <$> l) ->
  mark_named name l = (mark_seen [name] <$> l, bool_decide (name ∈ h_fname <$> l)).
Proof.
  induction l as [|h l IH]; intros Hn; [by rewrite bool_decide_false by apply not_elem_of_nil|].
  cbn [mark_named fmap list_fmap] in *. apply NoDup_cons in Hn as [Hh Hn].
  assert (mark_seen [name] h = if streq (h_fname h) name then h_set_mark true h else h) as ->.
  { unfold mark_seen, streq. rewrite (bool_decide_ext _ (h_fname h = name)) by apply list_elem_of_singleton. by case_bool_decide. }
  destruct (streq (h_fname h) name) eqn:E.
  - apply streq_true in E. rewrite E in Hh. rewrite bool_decide_true by (rewrite E; by left). f_equal. f_equal.
    clear IH Hn. induction l as [|x l IH]; [done|]. apply not_elem_of_cons in Hh as [Hx Hl]. cbn [fmap list_fmap]. rewrite <- IH by done. f_equal.
    unfold mark_seen. rewrite bool_decide_false; [done|]. rewrite list_elem_of_singleton. congruence.
  - rewrite IH by done. f_equal. apply streq_false in E. apply bool_decide_ext. rewrite elem_of_cons. naive_solver.
Qed.

Lemma mark_seen_app a b h : mark_seen b (mark_seen a h) = mark_seen (a ++ b) h.
Proof.
  unfold mark_seen. destruct (decide (h_fname h ∈ a)) as [Ha|Ha].
  - rewrite (bool_decide_true (h_fname h ∈ a)), (bool_decide_true (h_fname h ∈ a ++ b)) by (rewrite ?elem_of_app; by auto).
    by destruct h, (bool_decide _).
  - rewrite (bool_decide_false (h_fname h ∈ a)) by done. erewrite bool_decide_ext; [reflexivity|]. rewrite elem_of_app. naive_solver.
Qed.
Lemma mark_seen_fname seen (l : list usb_handle) : h_fname <$> (mark_seen seen <$> l) = h_fname <$> l.
Proof. rewrite <- list_fmap_compose. apply list_fmap_ext. intros _ h _. unfold compose, mark_seen. by case_bool_decide. Qed.

Lemma register_usb_run id serial path w s :
  exists s', register_usb_transport id serial path w s = Ok (tt, s') /\ next_ptr s' = S (next_ptr s) /\
    pending_list s' = pending_list s ++ [next_ptr s] /\ actions s' = actions s ++ [(next_ptr s, 1)] /\
    (forall t, t <> next_ptr s -> trs s' !! t = trs s !! t) /\
    exists u, trs s' !! next_ptr s = Some u /\ t_type u = kTransportUsb /\ t_usb u = Some id /\
      t_connection_state u = if w then CS_OFFLINE else CS_NOPERM.
Proof.
  unfold register_usb_transport, link_pending, post_action, new_tr, upd_tr, get_tr, bind, modify. cbn -[lookup insert].
  rewrite lookup_insert_eq. eexists. split; [reflexivity|]. cbn -[lookup insert]. split_and!; [done..| |].
  - intros t Ht. by rewrite !lookup_insert_ne.
  - rewrite lookup_insert_eq. eexists. split; [reflexivity|done].
Qed.

Lemma scanned_seen s0 u0 seen served name u s : scanned s0 u0 seen served u s ->
  scanned s0 u0 (seen ++ [name]) served (with_list (mark_seen [name] <$> us_list u) u) s.
Proof.
  intros [(new & ts & Hl & Hnew & Hp & Ha & Ht) Hn Hw]. constructor; simpl.
  - exists (mark_seen [name] <$> new), ts. split_and!; [|..|done|done|].
    + rewrite Hl, fmap_app. f_equal. rewrite <- list_fmap_compose. apply list_fmap_ext. intros _ h _. apply mark_seen_app.
    + apply Forall_fmap. eapply Forall_impl; [exact Hnew|]. intros h [[Hf Hdd] Hm]. unfold compose, fresh, mark_seen.
      rewrite elem_of_app. case_bool_decide; (split; [split; [by left|done]|done]).
    + rewrite Forall2_fmap_l. eapply Forall2_impl; [exact Ht|]. intros h t Hh. unfold compose, announced, mark_seen in *. by case_bool_decide.
  - by rewrite mark_seen_fname.
  - intros n d Hin Hu. rewrite mark_seen_fname. eauto.
Qed.

Lemma scanned_serves s0 u0 seen served name d u s : scanned s0 u0 seen served u s ->
  (usable d -> name ∈ h_fname <$> us_list u) -> scanned s0 u0 seen (served ++ [(name, d)]) u s.
Proof.
  intros [Hl Hn Hw] Hd. constructor; [done..|]. intros n x [Hx|Hx]%elem_of_app Hu; [eauto|].
  apply list_elem_of_singleton in Hx. injection Hx as -> ->. by apply Hd.
Qed.

Lemma scanned_registers s0 u0 seen served next u s h serial path : scanned s0 u0 seen served u s ->
  h_fname h ∉ h_fname <$> us_list u -> fresh seen h -> h_mark h = true ->
  wp (register_usb_transport (h_id h) serial path (h_writeable h)) s (fun _ s' =>
    scanned s0 u0 seen served (mkusbs (us_list u ++ [h]) next) s').
Proof.
  intros [(new & ts & Hl & Hnew & Hp0 & Ha0 & Ht) Hn Hw] Hnot Hf Hm.
  destruct (register_usb_run (h_id h) serial path (h_writeable h) s) as (s' & E & Hnx & Hp & Ha & Hk & Htr).
  unfold wp. rewrite E. constructor; cbn [us_list].
  - exists (new ++ [h]), (ts ++ [next_ptr s]). rewrite Hl, Hp, Hp0, Ha, Ha0, fmap_app, !app_assoc. split_and!; [done|..|done|done|].
    + apply Forall_app. split; [done|]. by constructor.
    + apply Forall2_app; [|constructor; [|done]; split; [lia|exact Htr]]. eapply Forall2_impl; [exact Ht|].
      intros x t [Hlt Hx]. split; [lia|]. rewrite Hk by lia. exact Hx.
  - rewrite fmap_app. apply NoDup_app. split; [done|]. split; [|apply NoDup_singleton].
    intros x Hx Hin. apply list_elem_of_singleton in Hin. by subst x.
  - intros n d Hin Hu. rewrite fmap_app. apply elem_of_app. left. eauto.
Qed.

Lemma scan_node_run s0 u0 seen served bus d u s : scanned s0 u0 seen served u s -> readable d ->
  wp (scan_node fuel ids bus d u) s (fun u' s' =>
    scanned s0 u0 (seen ++ (present_in bus [d]).*1) (served ++ present_in bus [d]) u' s').
Proof.
  intros Hsc Hr. unfold scan_node, present_in. destruct (badname (d_name d)) eqn:Eb.
  { rewrite filter_cons_False by congruence. simpl. rewrite !app_nil_r. by apply wp_ret. }
  rewrite filter_cons_True by done. cbn [filter list_filter fmap list_fmap fst]. set (name := snprintf 32 _).
  unfold known_device. rewrite mark_named_run by apply Hsc. cbv zeta.
  pose proof (scanned_seen _ _ _ _ name _ _ Hsc) as Hs. set (u1 := with_list _ u) in *.
  assert (forall n, n ∈ h_fname <$> us_list u <-> n ∈ h_fname <$> us_list u1) as Hu1 by (intros n; unfold u1; simpl; by rewrite mark_seen_fname).
  case_bool_decide as Hin; cbv iota.
  { apply wp_ret, scanned_serves; [done|]. intros _. by apply Hu1. }
  unfold readable in Hr. destruct (d_desc d) as [read|] eqn:Ed.
  2:{ apply wp_ret, scanned_serves; [done|]. intros (? & ? & ? & ? & _). congruence. }
  destruct Hr as [r Er]. apply wp_bind. eapply wp_lift; [exact Er|]. destruct r as [f|].
  2:{ apply wp_ret, scanned_serves; [done|]. intros (? & ? & ? & ? & ? & _). congruence. }
  unfold register_device. destruct (existsb _ (us_list u1)) eqn:Ex.
  { exfalso. apply existsb_exists in Ex as (h & Hh & E%streq_true). apply Hin, Hu1, list_elem_of_fmap.
    exists h. split; [done|]. by apply list_elem_of_In. }
  assert (forall h, h_fname h = name -> h_dead h = false -> h_mark h = true -> forall serial path next,
    wp (register_usb_transport (h_id h) serial path (h_writeable h)) s (fun _ s' =>
      wp (ret (mkusbs (us_list u1 ++ [h]) next)) s' (scanned s0 u0 (seen ++ [name]) (served ++ [(name, d)])))) as Hreg.
  { intros h Hf Hd Hm serial path next. eapply wp_mono.
    - eapply (scanned_registers _ _ _ _ next); [exact Hs|rewrite Hf, <- Hu1; done|split; [rewrite Hf; apply elem_of_app; right; by left|done]|done].
    - intros a0 s' Hs'. apply wp_ret, scanned_serves; [exact Hs'|]. intros _. cbn [us_list]. rewrite fmap_app. apply elem_of_app. right. rewrite <- Hf. by left. }
  destruct (d_rdwr d) as [fd|] eqn:Ew; [destruct (d_claim d) eqn:Ec|destruct (d_rdonly d) as [fd|]]; cbv iota zeta.
  - apply wp_bind. by apply (Hreg (mkusb _ _ _ _ _ _ true _ _)).
  - apply wp_bind. unfold wp, fd_close. apply scanned_serves; [destruct Hs; constructor; done|]. intros (? & ? & ? & ? & ? & ? & ?). congruence.
  - apply wp_bind. by apply (Hreg (mkusb _ _ _ _ _ _ false _ _)).
  - apply wp_bind, wp_ret, wp_ret, scanned_serves; [exact Hs|]. intros (? & ? & ? & ? & ? & ? & ?). congruence.
Qed.

Lemma present_in_cons bus d ds : present_in bus (d :: ds) = present_in bus [d] ++ present_in bus ds.
Proof. unfold present_in. rewrite <- fmap_app. f_equal. by rewrite <- filter_app. Qed.

Lemma scan_bus_run s0 u0 bus ds : forall seen served u s, scanned s0 u0 seen served u s -> Forall readable ds ->
  wp (scan_bus fuel ids bus ds u) s (scanned s0 u0 (seen ++ (present_in bus ds).*1) (served ++ present_in bus ds)).
Proof.
  induction ds as [|d ds IH]; intros seen served u s Hsc Hr; cbn [scan_bus]; [unfold present_in; simpl; rewrite !app_nil_r; by apply wp_ret|].
  apply Forall_cons in Hr as [Hd Hr]. apply wp_bind. eapply wp_mono; [by apply scan_node_run|]. intros u' s' Hs'.
  rewrite present_in_cons, fmap_app, !app_assoc. by apply IH.
Qed.

Lemma find_usb_run s0 u0 base buses : forall seen served u s, scanned s0 u0 seen served u s -> Forall (fun b => Forall readable b.2) buses ->
  wp (find_usb_device fuel ids base buses u) s (scanned s0 u0 (seen ++ (present base buses).*1) (served ++ present base buses)).
Proof.
  induction buses as [|[name ds] bs IH]; intros seen served u s Hsc Hr; cbn [find_usb_device]; [unfold present; simpl; rewrite !app_nil_r; by apply wp_ret|].
  apply Forall_cons in Hr as [Hd Hr]. apply wp_bind. unfold present. cbn [fmap list_fmap concat]. fold (present base bs).
  rewrite fmap_app, !app_assoc. destruct (badname name).
  - apply wp_ret. simpl. rewrite !app_nil_r. by apply IH.
  - eapply wp_mono; [by apply scan_bus_run|]. intros u' s' Hs'. by apply IH.
Qed.

(** What the sweep makes of a handle. *)
Definition sweep (h : usb_handle) : usb_handle := if h_mark h then h_set_mark false h else h_set_dead h.
Lemma kick_run l s : Forall (fun h => h_mark h = true \/ h_writeable h = true) l -> kick_unmarked l s = Ok (sweep <$> l, s).
Proof.
  intros H. induction H as [|h l Hh _ IH]; [done|]. cbn [kick_unmarked fmap list_fmap]. unfold bind at 1, sweep, usb_kick.
  destruct (h_mark h) eqn:Em; [unfold bind at 1; cbn; by rewrite IH|]. destruct Hh as [?|Hw]; [done|]. rewrite Hw.
  destruct (h_dead h) eqn:Ed; unfold bind; cbn; rewrite IH; [|done]. by destruct h; simpl in *; subst.
Qed.

End poll.

(** A terminal is plugged in where another device has gone. *)
Definition demo_node : devnode :=
  mknode (lit "007") (Some (Some (device_desc (replicate 6 x00) (z2b 0xb8) (z2b 0x2f) (replicate 6 x00) (z2b 3) (z2b 1) ++ config_desc (replicate 7 x00) ++
    adb_desc (z2b 1) x00 x00 ++ bulk_desc (z2b 0x81) x00 (z2b 2) x00 ++ bulk_desc (z2b 2) x00 (z2b 2) x00)))
    (Some (lit "../../devices/1-1")) (Some 20) None true None (fun _ _ => None).
Definition demo_handle : usb_handle := mkusb 0 (lit "/dev/bus/usb/001/004") 9 0x81 2 511 true false false.

(** ** Where the parser and the transfers fail *)

Lemma at_cases buf p : (exists v, at_ buf p = Ok v /\ 0 <= v) \/ exists w, at_ buf p = UB w.
Proof.
  unfold at_. destruct (buf !! p) as [b|]; [left|right; by eexists]. exists (b2z b). split; [done|]. pose proof (b2z_range b). lia.
Qed.
Ltac next_byte := match goal with |- context [rbind (at_ ?b ?i) _] =>
  let v := fresh "v" in let E := fresh "E" in let Hv := fresh "Hv" in let w := fresh "w" in
  destruct (at_cases b i) as [(v & E & Hv)|(w & E)]; rewrite E; cbn [rbind]; [|done] end.

Lemma endpoints_next buf ifc e1 serial :
  match endpoints buf ifc e1 serial with Ok (inr q) => q = (e1 + 14)%nat | Timeout => False | _ => True end.
Proof.
  unfold endpoints, at16, USB_DT_ENDPOINT_SIZE. destruct (length buf <? _)%nat; [done|]. do 4 next_byte. destruct (_ || _); [done|].
  do 2 next_byte. destruct (_ || _); [lia|]. next_byte.
  destruct (at_cases buf (e1 + 4)) as [(? & -> & _)|[? ->]]; [|done]. destruct (at_cases buf (S (e1 + 4))) as [(? & -> & _)|[? ->]]; [|done].
  cbn [rbind]. do 3 next_byte. by destruct (negb _).
Qed.

(** The loop over the descriptors comes to an end within the length of what was
    read, unless a descriptor of length zero keeps it from moving on. *)
Theorem loop_ends_or_zero fuel ids buf p vid serial : (length buf - p < fuel)%nat ->
  descriptor_loop fuel ids buf p vid serial = Timeout -> exists q, (p <= q < length buf)%nat /\ at_ buf q = Ok 0.
Proof.
  revert p. induction fuel as [|n IH]; intros p Hf; [lia|]. cbn [descriptor_loop]. destruct (Nat.leb_spec (length buf) p) as [|Hp]; [done|].
  assert (forall q, (p < q)%nat -> descriptor_loop n ids buf q vid serial = Timeout -> exists q', (p <= q' < length buf)%nat /\ at_ buf q' = Ok 0) as Hstep.
  { intros q Hq Hd. apply IH in Hd as (q' & Hq' & E); [|lia]. exists q'. split; [lia|done]. }
  next_byte. destruct (decide (v = 0)) as [->|Hz]; [intros _; exists p; split; [lia|done]|]. next_byte.
  assert (p < p + Z.to_nat v)%nat as Hn by lia. destruct (_ =? 4); [|by apply Hstep]. destruct (negb _); [done|]. next_byte.
  destruct (_ =? 2); [|by apply Hstep]. do 3 next_byte. destruct (is_adb_interface _ _ _ _ _); [|by apply Hstep].
  pose proof (endpoints_next buf p (p + Z.to_nat v) serial) as He. destruct (endpoints _ _ _ _) as [[o|q]| | |]; cbn [rbind]; try done.
  apply Hstep. lia.
Qed.
Lemma loop_ends_or_zero_witness : exists q, (0 <= q < 2)%nat /\ at_ [x00; x00] q = Ok 0.
Proof. apply (loop_ends_or_zero 3 [] [x00; x00] 0 0 0); [simpl; lia|reflexivity]. Defined.

(** The front of a device's descriptors. *)
Definition demo_front : bytes :=
  device_desc (replicate 6 x00) (z2b 0xb8) (z2b 0x2f) (replicate 6 x00) (z2b 3) (z2b 1) ++ config_desc (replicate 7 x00).

(** A descriptor of length zero, which a faulty device can send, stops the
    discovery for good. *)
Theorem zero_length_hangs fuel : parse_device fuel builtInVendorIds (Some (demo_front ++ [x00; x00])) = Timeout.
Proof.
  change (descriptor_loop fuel builtInVendorIds (demo_front ++ [x00; x00]) 27 (b2z (z2b 0xb8) + 256 * b2z (z2b 0x2f)) (b2z (z2b 3)) = Timeout).
  induction fuel as [|n IH]; [done|]. exact IH.
Qed.

(** A single byte behind the configuration makes the loop read past it. *)
Theorem cut_descriptor_overread fuel : (0 < fuel)%nat ->
  parse_device fuel builtInVendorIds (Some (demo_front ++ [x00])) = UB "descriptor is read past its end".
Proof. intros H. destruct fuel as [|n]; [lia|]. reflexivity. Qed.

(** The five seconds of [usb_bulk_write] do not bound its wait: a timeout is not
    below zero, and the loop waits again. *)
Theorem write_outlives_timeouts n k : wait_loop (replicate n (mkwake true false None) ++ [mkwake false false (Some (true, k))]) = Ok k.
Proof. induction n as [|n IH]; [done|exact IH]. Qed.

(** A device that is kicked while the wait times out makes the transfer return
    ETIMEDOUT, a length like any other: 110 bytes look as if they were sent. *)
Theorem kicked_write_completes d : length d = 110%nat ->
  usb_bulk_write false true [mkwake true true None] = Ok 110 /\ fst (fst (usb_write 0 d [UShort 110])) = true.
Proof.
  intros Hd. split; [reflexivity|]. unfold usb_write.
  assert (forall f, usb_write_loop (S f) d [] [UShort 110] = (true, [d], [])) as E.
  { intros f. destruct d as [|x d]; [done|]. unfold usb_write_loop. fold usb_write_loop. rewrite Hd. cbv zeta.
    rewrite (proj2 (Nat.ltb_ge 4096 110)) by lia. rewrite Nat.eqb_refl. rewrite (take_ge (x :: d)), (drop_ge (x :: d)) by lia. by destruct f. }
  replace (length d) with (S 109) by lia. by rewrite E.
Qed.
