(* ===== verification/AuthHost.v ===== *)
(** * Keys of the host (adb_auth_host.c)

    The server signs the challenges of devices with the user's private key and the
    keys that ADB_VENDOR_KEYS names, and offers the public key of the user as a
    last resort.  This file models the files the keys are kept in, the conversion
    of a key to the form a device reads, and what the server starts with.

    OpenSSL is the class [OpenSSL]: its operations with what their manual pages
    say of them.  Memory that runs out and the trace messages are left out. *)

From S2P Require Import Prelude CString Io Wire DList Fdevent Server Transports Sockets Packets.

(** ** OpenSSL *)

(** The modulus, the public and the private exponent. *)
Record RSA := mkrsa { rsa_n : Z; rsa_e : Z; rsa_d : Z }.

Class OpenSSL := {
  BN_div : Z -> Z -> Z * Z;
  BN_mod_sqr : Z -> Z -> Z;
  BN_mod_inverse : Z -> Z -> Z;
  RSA_size : RSA -> Z;
  RSA_sign : RSA -> bytes -> option bytes;
  PEM_write : RSA -> option bytes;
  PEM_read : bytes -> option RSA;
  base64 : bytes -> bytes;
  BN_div_spec a b : 0 <= a -> 0 < b -> BN_div a b = (a / b, a mod b);
  BN_mod_sqr_spec a m : 0 <= a -> 0 < m -> BN_mod_sqr a m = (a * a) mod m;
  BN_mod_inverse_spec a m : 1 < m -> 0 <= a -> Z.gcd a m = 1 ->
    0 <= BN_mod_inverse a m < m /\ (a * BN_mod_inverse a m) mod m = 1;
  RSA_size_spec k : 0 < rsa_n k -> RSA_size k = Z.log2 (rsa_n k) / 8 + 1;
  PEM_spec k b : PEM_write k = Some b -> PEM_read b = Some k;
  base64_length b : length (base64 b) = (4 * ((length b + 2) / 3))%nat }.

(** [BN_get_word]: the number, or all ones when it is too large for a word. *)
Definition BN_get_word (a : Z) : Z := if a <? 2 ^ 64 then a else 2 ^ 64 - 1.

(** ** The public key of a device (mincrypt/rsa.h) *)

Definition RSANUMBYTES : Z := 256.
Definition RSANUMWORDS : nat := 64.
Record RSAPublicKey := mkpub { pk_len : Z; pk_n0inv : Z; pk_n : list Z; pk_rr : list Z; pk_exponent : Z }.

(** The memory of the structure. *)
Definition pub_bytes (p : RSAPublicKey) : bytes :=
  le32 (pk_len p) ++ le32 (pk_n0inv p) ++ concat (le32 <$> pk_n p) ++ concat (le32 <$> pk_rr p) ++ le32 (pk_exponent p).

(** ** Files *)

(** The files with their contents and the directories, by name. *)
Record store := mkstore { st_files : gmap bytes bytes; st_dirs : gset bytes }.
Definition put_file (path contents : bytes) (st : store) : store := mkstore (<[path := contents]> (st_files st)) (st_dirs st).
Definition put_dir (path : bytes) (st : store) : store := mkstore (st_files st) ({[path]} ∪ st_dirs st).
Definition exists_ (path : bytes) (st : store) : bool := bool_decide (is_Some (st_files st !! path)) || bool_decide (path ∈ st_dirs st).

(** The environment: variables, the names of the machine and of the user (the
    error numbers of [getlogin_r] are positive), which files and directories can
    be created, and the next key that is generated. *)
Record host := mkhost {
  h_home : option bytes;              (* HOME *)
  h_vendor_keys : option bytes;       (* ADB_VENDOR_KEYS *)
  h_hostname : option bytes;          (* HOSTNAME *)
  h_logname : option bytes;           (* LOGNAME *)
  h_gethostname : option bytes;
  h_getlogin : Z + bytes;
  h_creat : bytes -> bool;
  h_mkdir : bytes -> bool;
  h_new_key : RSA }.

(** [get_user_info]. *)
Definition get_user_info (h : host) (len : nat) : res bytes :=
  let hostname := match h_hostname h with
                  | Some s => take 1023 s
                  | None => default (lit "unknown") (h_gethostname h)
                  end in
  let* username := match h_logname h with
                   | Some s => Ok (take 1023 s)
                   | None => match h_getlogin h with
                             | inr s => Ok s
                             | inl e => if e <? 0 then Ok (lit "unknown") else UB "user name was never set"
                             end
                   end in
  Ok (snprintf len (lit " " ++ username ++ lit "@" ++ hostname)).

Section auth.
Context `{OpenSSL}.

(** The loop of [RSA_to_RSAPublicKey]: the words of rr and of n. *)
Fixpoint word_loop (i : nat) (rr n : Z) : list Z * list Z :=
  match i with
  | O => ([], [])
  | S k =>
      let '(rr', r1) := BN_div rr (2 ^ 32) in
      let '(n', r2) := BN_div n (2 ^ 32) in
      let '(lr, ln) := word_loop k rr' n' in
      (wrap32 (BN_get_word r1) :: lr, wrap32 (BN_get_word r2) :: ln)
  end.
Definition RSA_to_RSAPublicKey (rsa : RSA) : option RSAPublicKey :=
  if negb (RSA_size rsa =? RSANUMBYTES) then None
  else
    let r := 2 ^ (Z.of_nat RSANUMWORDS * 32) in
    let rr := BN_mod_sqr r (rsa_n rsa) in
    let rem := snd (BN_div (rsa_n rsa) (2 ^ 32)) in
    let n0inv := BN_mod_inverse rem (2 ^ 32) in
    let '(lr, ln) := word_loop RSANUMWORDS rr (rsa_n rsa) in
    Some (mkpub (Z.of_nat RSANUMWORDS) (wrap32 (0 - BN_get_word n0inv)) ln lr (to_int (wrap32 (BN_get_word (rsa_e rsa))))).

Definition write_public_keyfile (h : host) (private_key : RSA) (private_key_path : bytes) (st : store) : res (bool * store) :=
  let path := private_key_path ++ lit ".pub" in
  if 4096 <=? Z.of_nat (length path) then Ok (false, st)
  else
    match RSA_to_RSAPublicKey private_key with
    | None => Ok (false, st)
    | Some pkey =>
        if negb (h_creat h path) then Ok (false, st)
        else
          let* info := get_user_info h 4096 in
          Ok (true, put_file path (base64 (pub_bytes pkey) ++ info) st)
    end.

(** [generate_key]: a key that cannot be written leaves an empty file. *)
Definition generate_key (h : host) (file : bytes) (st : store) : res (bool * store) :=
  if negb (h_creat h file) then Ok (false, st)
  else
    match PEM_write (h_new_key h) with
    | None => Ok (false, put_file file [] st)
    | Some pem => write_public_keyfile h (h_new_key h) file (put_file file pem st)
    end.

Definition read_key (file : bytes) (st : store) (list : list RSA) : bool * Datatypes.list RSA :=
  match st_files st !! file with
  | None => (false, list)
  | Some contents =>
      match PEM_read contents with
      | None => (false, list)
      | Some key => (true, list ++ [key])
      end
  end.

(** [get_user_keyfilepath]: the length that [snprintf] returns or -1, and what
    the buffer of [len] bytes holds then. *)
Definition get_user_keyfilepath (h : host) (len : nat) (st : store) : Z * bytes * store :=
  match h_home h with
  | None => (-1, [], st)
  | Some home =>
      let android_dir := home ++ lit "/.android" in
      if 4096 <=? Z.of_nat (length android_dir) then (-1, [], st)
      else
        let made := if exists_ android_dir st then Some st else if h_mkdir h android_dir then Some (put_dir android_dir st) else None in
        match made with
        | None => (-1, [], st)
        | Some st' =>
            let filename := android_dir ++ lit "/adbkey" in
            (Z.of_nat (length filename), snprintf len filename, st')
        end
  end.

Definition get_user_key (h : host) (st : store) (list : list RSA) : res (bool * Datatypes.list RSA * store) :=
  let '(ret, path, st) := get_user_keyfilepath h 4096 st in
  if (ret <? 0) || (4096 <=? ret) then Ok (false, list, st)
  else
    let* '(ok, st) := (if exists_ path st then Ok (true, st) else generate_key h path st) in
    if negb ok then Ok (false, list, st)
    else Ok (read_key path st list, st).

(** [get_vendor_keys]: [strncpy] does not terminate a value that fills the
    buffer. *)
Definition get_vendor_keys (h : host) (st : store) (list : list RSA) : res (Datatypes.list RSA) :=
  match h_vendor_keys h with
  | None => Ok list
  | Some adb_keys_path =>
      if MAX_PAYLOAD <=? Z.of_nat (length adb_keys_path) then UB "list of vendor keys is not terminated"
      else Ok (foldl (fun l path => if exists_ path st then snd (read_key path st l) else l) list (tokens (ch 58) adb_keys_path))
  end.

(** [adb_auth_init]: the key list, and the files it leaves. *)
Definition adb_auth_init (h : host) (st : store) : res (list RSA * store) :=
  let* '(ret, list, st) := get_user_key h st [] in
  if negb ret then Ok (list, st)
  else
    let* list := get_vendor_keys h st list in
    Ok (list, st).

(** The file that [adb_auth_get_userkey] loads. *)
Definition load_userkey (h : host) (st : store) : option bytes * store :=
  let '(ret, path, st) := get_user_keyfilepath h (4096 - 4) st in
  if (ret <? 0) || (4096 - 4 <=? ret) then (None, st)
  else (st_files st !! (path ++ lit ".pub"), st).

Definition adb_auth_keygen (h : host) (filename : bytes) (st : store) : res (Z * store) :=
  let* '(ok, st) := generate_key h filename st in
  Ok (if (ok : bool) then 0 else 1, st).

(** [adb_auth_sign] with the key of a node: nothing when it fails. *)
Definition adb_auth_sign (keys : list RSA) (node : nat) (token : bytes) : bytes :=
  match keys !! node with
  | Some key => default [] (RSA_sign key token)
  | None => []
  end.

(** What the packet engine is given: the nodes of the list, the signatures and
    the file. *)
Definition host_auth (h : host) (st : store) (keys : list RSA) : auth_env :=
  mkauth (seq 0 (length keys)) (adb_auth_sign keys) (fst (load_userkey h st)).
End auth.
