(* ===== verification/AuthHostProps.v ===== *)
(** * What the key files of the host guarantee

    The public key that is written for a device is the modulus with the two
    numbers that Montgomery multiplication needs; a server that finds no key makes
    one, and every later server loads that key again, with the vendor keys behind
    it in the order they are named. *)

From S2P Require Import Prelude CString Io Wire DList Fdevent Server Transports Sockets Packets AuthHost.
From Stdlib Require Import Znumtheory Zpow_facts.

(** ** Numbers in words *)

(** The words of a number and the number of a list of words, least first. *)
Fixpoint words_of (base : Z) (k : nat) (x : Z) : list Z :=
  match k with O => [] | S k => x mod base :: words_of base k (x / base) end.
Definition value (base : Z) (l : list Z) : Z := foldr (fun w acc => w + base * acc) 0 l.

Lemma length_words base k x : length (words_of base k x) = k.
Proof. revert x. induction k as [|k IH]; intros x; [done|]. simpl. by rewrite IH. Qed.
Lemma words_range base k x : 0 < base -> Forall (fun w => 0 <= w < base) (words_of base k x).
Proof. intros Hb. revert x. induction k as [|k IH]; intros x; constructor; [by apply Z.mod_pos_bound|done]. Qed.
Lemma value_words base k x : 1 < base -> 0 <= x < base ^ Z.of_nat k -> value base (words_of base k x) = x.
Proof.
  intros Hb. revert x. induction k as [|k IH]; intros x Hx; [change (Z.of_nat 0) with 0 in Hx; rewrite Z.pow_0_r in Hx; simpl; lia|].
  rewrite Nat2Z.inj_succ, Z.pow_succ_r in Hx by lia. cbn [words_of value foldr]. fold (value base (words_of base k (x / base))).
  rewrite IH; [rewrite Z.add_comm; symmetry; apply Z.div_mod; lia|]. split; [apply Z.div_pos; lia|apply Z.div_lt_upper_bound; lia].
Qed.

(** What a device reads from the memory of the structure. *)
Definition read_words (n : nat) (b : bytes) : list Z := (fun i => unle32 (drop (4 * i) b)) <$> seq 0 n.
Definition read_pub (b : bytes) : RSAPublicKey :=
  mkpub (unle32 b) (unle32 (drop 4 b)) (read_words 64 (drop 8 b)) (read_words 64 (drop 264 b)) (to_int (unle32 (drop 520 b))).

Lemma read_words_cat l tl : Forall is_u32 l -> read_words (length l) (concat (le32 <$> l) ++ tl) = l.
Proof.
  unfold read_words. induction l as [|w l IH]; intros Hl; [done|]. apply Forall_cons in Hl as [Hw Hl].
  cbn [length seq fmap list_fmap concat]. rewrite <- app_assoc. f_equal; [rewrite drop_0, unle32_le32_app; by apply wrap32_id|].
  rewrite <- fmap_S_seq, <- list_fmap_compose. etrans; [|by apply IH]. apply list_fmap_ext. intros _ i _. unfold compose. f_equal.
  replace (4 * S i)%nat with (4 + 4 * i)%nat by lia. by rewrite <- drop_drop, (drop_app_length' (le32 w)) by (by rewrite length_le32).
Qed.
Lemma length_words_cat (l : list Z) : length (concat (le32 <$> l)) = (4 * length l)%nat.
Proof. induction l as [|w l IH]; [done|]. change (concat (le32 <$> w :: l)) with (le32 w ++ concat (le32 <$> l)). rewrite length_app, length_le32, IH. simpl. lia. Qed.

Lemma read_pub_back len k n rr e : is_u32 len -> is_u32 k -> length n = 64%nat -> length rr = 64%nat ->
  Forall is_u32 n -> Forall is_u32 rr -> 0 <= e < 2 ^ 31 -> read_pub (pub_bytes (mkpub len k n rr e)) = mkpub len k n rr e.
Proof.
  intros Hl Hk Ln Lr Hn Hr He. unfold read_pub, pub_bytes. cbn [pk_n pk_rr pk_n0inv pk_exponent pk_len].
  set (tl := concat (le32 <$> n) ++ concat (le32 <$> rr) ++ le32 e).
  assert (drop 4 (le32 len ++ le32 k ++ tl) = le32 k ++ tl) as -> by done. assert (drop 8 (le32 len ++ le32 k ++ tl) = tl) as -> by done.
  assert (drop 264 (le32 len ++ le32 k ++ tl) = concat (le32 <$> rr) ++ le32 e) as ->.
  { change (drop 256 tl = concat (le32 <$> rr) ++ le32 e). apply drop_app_length'. rewrite length_words_cat. lia. }
  assert (drop 520 (le32 len ++ le32 k ++ tl) = le32 e) as ->.
  { change (drop 512 tl = le32 e). unfold tl. rewrite app_assoc. apply drop_app_length'. rewrite length_app, !length_words_cat. lia. }
  unfold tl. rewrite !unle32_le32_app, (wrap32_id len), (wrap32_id k) by done.
  rewrite <- Ln at 1. rewrite read_words_cat by done. rewrite <- Lr at 1. rewrite read_words_cat by done.
  f_equal. rewrite unle32_le32 by (unfold is_u32, u32_mod; lia). unfold to_int. rewrite wrap32_id by (unfold is_u32, u32_mod; lia).
  by rewrite (proj2 (Z.ltb_lt _ _)) by lia.
Qed.

(** ** The public key *)

Section auth.
Context `{OpenSSL}.

Lemma word_loop_run k rr n : 0 <= rr -> 0 <= n -> word_loop k rr n = (words_of (2 ^ 32) k rr, words_of (2 ^ 32) k n).
Proof.
  assert (forall x, wrap32 (BN_get_word (x mod 2 ^ 32)) = x mod 2 ^ 32) as Hw.
  { intros x. pose proof (Z.mod_pos_bound x (2 ^ 32) ltac:(lia)). unfold BN_get_word. rewrite (proj2 (Z.ltb_lt _ _)) by lia.
    apply wrap32_id. unfold is_u32, u32_mod. lia. }
  revert rr n. induction k as [|k IH]; intros rr n Hr Hn; [done|]. cbn [word_loop words_of]. rewrite !BN_div_spec by lia.
  rewrite IH, !Hw by (apply Z.div_pos; lia). done.
Qed.

Lemma odd_coprime n : Z.odd n = true -> Z.gcd (n mod 2 ^ 32) (2 ^ 32) = 1.
Proof.
  intros Ho. rewrite Z.gcd_mod_l. apply Zgcd_1_rel_prime. apply rel_prime_Zpower_r; [lia|]. apply rel_prime_sym, prime_rel_prime; [apply prime_2|].
  intros [q Hq]. rewrite Hq, Z.odd_mul in Ho. by rewrite andb_false_r in Ho.
Qed.

Lemma n0inv_clears n a : 0 <= n -> Z.odd n = true ->
  (a + (a * wrap32 (0 - BN_get_word (BN_mod_inverse (n mod 2 ^ 32) (2 ^ 32)))) mod 2 ^ 32 * n) mod 2 ^ 32 = 0.
Proof.
  intros Hn Ho. destruct (BN_mod_inverse_spec (n mod 2 ^ 32) (2 ^ 32)) as [Hr Hi]; [lia|apply Z.mod_pos_bound; lia|by apply odd_coprime|].
  set (x := BN_mod_inverse _ _) in *. unfold BN_get_word. rewrite (proj2 (Z.ltb_lt _ _)) by lia.
  rewrite Z.mul_mod_idemp_l in Hi by lia. unfold wrap32. change u32_mod with (2 ^ 32).
  rewrite <- Z.add_mod_idemp_r, Z.mul_mod_idemp_l, <- (Z.mul_mod_idemp_l (a * _)), Z.mul_mod_idemp_r, Z.mul_mod_idemp_l, Z.add_mod_idemp_r by lia.
  replace (a + a * (0 - x) * n) with (a * (1 - n * x)) by lia. rewrite <- Z.mul_mod_idemp_r, Zminus_mod, Hi by lia. by rewrite Z.mul_0_r.
Qed.

(** C38. A key of 2048 bits is converted: the words of the modulus and of R² modulo it
    are right, n0inv is the negated inverse of the modulus that clears a word in
    Montgomery's reduction, and a device reads all of it back from the 524 bytes
    of the structure.  A key of another size is refused. *)
Theorem public_key_sound rsa : 0 < rsa_n rsa -> Z.odd (rsa_n rsa) = true -> 0 <= rsa_e rsa < 2 ^ 31 ->
  match RSA_to_RSAPublicKey rsa with
  | None => ~ 2 ^ 2040 <= rsa_n rsa < 2 ^ 2048
  | Some p =>
      2 ^ 2040 <= rsa_n rsa < 2 ^ 2048 /\ length (pub_bytes p) = 524%nat /\ read_pub (pub_bytes p) = p /\
      value (2 ^ 32) (pk_n p) = rsa_n rsa /\ value (2 ^ 32) (pk_rr p) = (2 ^ 2048) ^ 2 mod rsa_n rsa /\
      (forall a, (a + (a * pk_n0inv p) mod 2 ^ 32 * rsa_n rsa) mod 2 ^ 32 = 0) /\ pk_exponent p = rsa_e rsa
  end.
Proof.
  intros Hpos Hodd He. unfold RSA_to_RSAPublicKey. rewrite RSA_size_spec by done.
  assert (2 ^ 2040 <= rsa_n rsa < 2 ^ 2048 <-> Z.log2 (rsa_n rsa) / 8 + 1 = 256) as Hsize.
  { rewrite (Z.log2_le_pow2 _ 2040), (Z.log2_lt_pow2 _ 2048) by lia. split; intros ?; div_mod_lia. }
  unfold RSANUMBYTES. destruct (Z.eqb_spec (Z.log2 (rsa_n rsa) / 8 + 1) 256) as [E|E]; cbn [negb]; [|tauto]. apply Hsize in E. clear Hsize.
  change (Z.of_nat RSANUMWORDS * 32) with 2048. rewrite BN_mod_sqr_spec, BN_div_spec by lia. cbn [snd].
  rewrite word_loop_run by (try apply Z.mod_pos_bound; lia).
  pose proof (fun a => n0inv_clears (rsa_n rsa) a ltac:(lia) Hodd) as Hclear. set (k := wrap32 (0 - _)) in *.
  assert (0 <= (2 ^ 2048 * 2 ^ 2048) mod rsa_n rsa < rsa_n rsa) as Hrr by (apply Z.mod_pos_bound; lia).
  assert (to_int (wrap32 (BN_get_word (rsa_e rsa))) = rsa_e rsa) as ->.
  { unfold BN_get_word. rewrite (proj2 (Z.ltb_lt _ _)) by lia. unfold to_int. rewrite !(wrap32_id (rsa_e rsa)) by (unfold is_u32, u32_mod; lia).
    by rewrite (proj2 (Z.ltb_lt _ _)) by lia. }
  cbn [pk_n pk_rr pk_n0inv pk_exponent]. split; [done|]. split_and!.
  - unfold pub_bytes. cbn [pk_n pk_rr pk_n0inv pk_exponent pk_len]. by rewrite !length_app, !length_words_cat, !length_words, !length_le32.
  - apply read_pub_back; [unfold is_u32, u32_mod, RSANUMWORDS; lia|apply wrap32_range|apply length_words|apply length_words|by apply words_range..|lia].
  - apply value_words; [lia|]. change (Z.of_nat RSANUMWORDS) with 64. rewrite <- Z.pow_mul_r by lia. split; [lia|apply E].
  - rewrite value_words; [by rewrite Z.pow_2_r|lia|]. change (Z.of_nat RSANUMWORDS) with 64. rewrite <- Z.pow_mul_r by lia. split; [apply Hrr|]. eapply Z.lt_trans; [apply Hrr|apply E].
  - exact Hclear.
  - done.
Qed.

(** ** Starts of the server *)

Definition key_dir (home : bytes) : bytes := home ++ lit "/.android".
Definition key_path (home : bytes) : bytes := key_dir home ++ lit "/adbkey".
(** The keys that ADB_VENDOR_KEYS names and that can be read, in order. *)
Definition vendor_list (h : host) (st : store) : list RSA :=
  omap (fun path => st_files st !! path ≫= PEM_read) (match h_vendor_keys h with Some v => tokens (ch 58) v | None => [] end).
Definition vendor_ok (h : host) : Prop := forall v, h_vendor_keys h = Some v -> Z.of_nat (length v) < MAX_PAYLOAD.

Lemma get_vendor_keys_run h st l : vendor_ok h -> get_vendor_keys h st l = Ok (l ++ vendor_list h st).
Proof.
  unfold vendor_ok, get_vendor_keys, vendor_list. destruct (h_vendor_keys h) as [v|]; intros Hv; [|by rewrite app_nil_r].
  rewrite (proj2 (Z.leb_gt _ _)) by (by apply Hv). f_equal. clear Hv. revert l. induction (tokens (ch 58) v) as [|p ps IH]; intros l; [by rewrite app_nil_r|].
  cbn [foldl omap list_omap]. rewrite IH. unfold exists_, read_key.
  destruct (st_files st !! p) as [b|]; [rewrite bool_decide_true by done; cbn [orb]|].
  - cbn [mbind option_bind]. destruct (PEM_read b); [|done]. cbn [snd]. by rewrite <- app_assoc.
  - cbn [mbind option_bind]. by destruct (_ || _).
Qed.

Lemma keyfilepath_run h home st len : h_home h = Some home -> (length home + 16 < len <= 4096)%nat ->
  exists_ (key_dir home) st = true \/ h_mkdir h (key_dir home) = true ->
  get_user_keyfilepath h len st = (Z.of_nat (length home + 16), key_path home, if exists_ (key_dir home) st then st else put_dir (key_dir home) st).
Proof.
  intros Hh Hl Hd. unfold get_user_keyfilepath. rewrite Hh. fold (key_dir home). fold (key_path home).
  assert (length (key_dir home) = length home + 9)%nat as L1 by (unfold key_dir; by rewrite length_app).
  assert (length (key_path home) = length home + 16)%nat as L2 by (unfold key_path; rewrite length_app, L1; simpl; lia).
  rewrite (proj2 (Z.leb_gt _ _)) by lia. rewrite snprintf_fits, L2 by lia. destruct (exists_ _ st); [done|]. by destruct Hd as [?| ->].
Qed.

(** A server that can make a key: the home directory and its files, the key in
    both of its forms. *)
Record first_start (h : host) (home : bytes) (st : store) (pem info : bytes) (p : RSAPublicKey) : Prop := mkfirst {
  fs_home : h_home h = Some home;
  fs_short : (length home + 20 < 4096)%nat;
  fs_dir : exists_ (key_dir home) st = true \/ h_mkdir h (key_dir home) = true;
  fs_none : exists_ (key_path home) st = false;
  fs_creat : h_creat h (key_path home) = true;
  fs_creat_pub : h_creat h (key_path home ++ lit ".pub") = true;
  fs_pem : PEM_write (h_new_key h) = Some pem;
  fs_pub : RSA_to_RSAPublicKey (h_new_key h) = Some p;
  fs_info : get_user_info h 4096 = Ok info }.

(** The files after the first start. *)
Definition started_store (home pem : bytes) (p : RSAPublicKey) (info : bytes) (st : store) : store :=
  put_file (key_path home ++ lit ".pub") (base64 (pub_bytes p) ++ info) (put_file (key_path home) pem
    (if exists_ (key_dir home) st then st else put_dir (key_dir home) st)).

Lemma key_path_new home : key_path home <> key_dir home.
Proof. unfold key_path. intros E. apply (f_equal length) in E. rewrite length_app in E. simpl in E. lia. Qed.
Lemma pub_path_new home : key_path home ++ lit ".pub" <> key_path home.
Proof. intros E. apply (f_equal length) in E. rewrite length_app in E. simpl in E. lia. Qed.

Lemma started_file home pem p info st : st_files (started_store home pem p info st) !! key_path home = Some pem.
Proof. unfold started_store, put_file. cbn [st_files]. rewrite lookup_insert_ne by apply pub_path_new. apply lookup_insert_eq. Qed.
Lemma started_dir home pem p info st : exists_ (key_dir home) (started_store home pem p info st) = true.
Proof.
  unfold started_store, put_file, exists_ at 1. cbn [st_files st_dirs]. destruct (exists_ (key_dir home) st) eqn:E.
  - unfold exists_ in E. apply orb_true_iff in E as [E%bool_decide_eq_true|E%bool_decide_eq_true]; apply orb_true_iff; [left|right]; apply bool_decide_eq_true; [|done].
    destruct (decide (key_path home ++ lit ".pub" = key_dir home)) as [->|]; [rewrite lookup_insert_eq; by eexists|].
    rewrite !lookup_insert_ne; [done|apply key_path_new|done].
  - apply orb_true_iff. right. apply bool_decide_eq_true. cbn [put_dir st_dirs]. set_solver.
Qed.

(** C39. A server that finds no key makes one and starts with it and the vendor keys;
    from then on every server of that home starts with the same key and offers
    devices its public form. *)
Theorem keys_persist h home st pem info p : first_start h home st pem info p -> vendor_ok h ->
  let st' := started_store home pem p info st in
  adb_auth_init h st = Ok (h_new_key h :: vendor_list h st', st') /\
  forall h', h_home h' = Some home -> vendor_ok h' ->
    adb_auth_init h' st' = Ok (h_new_key h :: vendor_list h' st', st') /\
    load_userkey h' st' = (Some (base64 (pub_bytes p) ++ info), st').
Proof.
  intros [Hh Hs Hd Hn Hc Hcp Hpem Hpub Hinfo] Hv st'.
  assert (forall l, read_key (key_path home) st' l = (true, l ++ [h_new_key h])) as Hread.
  { intros l. unfold read_key, st'. by rewrite started_file, (PEM_spec _ _ Hpem). }
  split.
  - unfold adb_auth_init, get_user_key. rewrite (keyfilepath_run h home) by (done || lia).
    rewrite (proj2 (Z.ltb_ge _ _)), (proj2 (Z.leb_gt _ _)) by lia. cbn [orb].
    set (st1 := if exists_ (key_dir home) st then st else _).
    assert (exists_ (key_path home) st1 = false) as ->.
    { unfold st1. destruct (exists_ (key_dir home) st); [done|]. unfold exists_, put_dir in *. cbn [st_files st_dirs].
      apply orb_false_iff in Hn as [-> Hn%bool_decide_eq_false]. apply bool_decide_eq_false. pose proof (key_path_new home). set_solver. }
    unfold generate_key, write_public_keyfile. rewrite Hc, Hpem. cbn [negb].
    assert (length (key_path home ++ lit ".pub") = length home + 20)%nat as L by (unfold key_path, key_dir; rewrite !length_app; simpl; lia).
    rewrite L, (proj2 (Z.leb_gt _ _)), Hpub, Hcp, Hinfo by lia. cbn [negb rbind]. change (put_file _ _ (put_file _ _ st1)) with st'.
    rewrite Hread. cbn [negb rbind]. rewrite get_vendor_keys_run by done. done.
  - intros h' Hh' Hv'. pose proof (started_dir home pem p info st) as Hdir. fold st' in Hdir.
    split; [unfold adb_auth_init, get_user_key|unfold load_userkey]; rewrite (keyfilepath_run h' home) by (done || lia || by left);
      rewrite Hdir, (proj2 (Z.ltb_ge _ _)), (proj2 (Z.leb_gt _ _)) by lia; cbn [orb].
    + assert (exists_ (key_path home) st' = true) as -> by (unfold exists_, st'; by rewrite started_file, bool_decide_true).
      cbn [rbind negb]. rewrite Hread. cbn [negb rbind]. rewrite get_vendor_keys_run by done. done.
    + f_equal. apply lookup_insert_eq.
Qed.
End auth.

(** ** Offering the public key *)

Lemma user_info_short h info : get_user_info h 4096 = Ok info ->
  (forall s, h_gethostname h = Some s -> (length s < 1024)%nat) -> (forall s, h_getlogin h = inr s -> (length s < 1024)%nat) ->
  (length info <= 2048)%nat.
Proof.
  intros E Hh Hl. unfold get_user_info in E.
  assert (length (match h_hostname h with Some s => take 1023 s | None => default (lit "unknown") (h_gethostname h) end) <= 1023)%nat as L1.
  { destruct (h_hostname h); [rewrite length_take; lia|]. destruct (h_gethostname h) as [s|]; [specialize (Hh s eq_refl)|]; simpl; lia. }
  destruct (match h_logname h with Some s => _ | None => _ end) as [u| | |] eqn:Eu; try done.
  assert (length u <= 1023)%nat as L2.
  { destruct (h_logname h); [injection Eu as <-; rewrite length_take; lia|]. destruct (h_getlogin h) as [e|s].
    - destruct (e <? 0); [injection Eu as <-; simpl; lia|done].
    - injection Eu as <-. specialize (Hl s eq_refl). lia. }
  cbn [rbind] in E. apply (f_equal (fun r => match r with Ok a => length a | _ => 0%nat end)) in E. cbv beta iota in E.
  rewrite <- E. unfold snprintf. rewrite length_take, !length_app. change (length (lit " ")) with 1%nat. change (length (lit "@")) with 1%nat. lia.
Qed.

(** After the last key a device is offered the whole public key with its
    terminator: the file that [write_public_keyfile] makes always fits a packet. *)
Theorem userkey_fits `{OpenSSL} h h' home st pem info p keys : first_start h home st pem info p ->
  (forall s, h_gethostname h = Some s -> (length s < 1024)%nat) -> (forall s, h_getlogin h = inr s -> (length s < 1024)%nat) ->
  length (pub_bytes p) = 524%nat -> h_home h' = Some home ->
  adb_auth_get_userkey (host_auth h' (started_store home pem p info st) keys) MAX_PAYLOAD = base64 (pub_bytes p) ++ info ++ [x00].
Proof.
  intros Hf Hh Hl Hp Hh'. pose proof (user_info_short h info (fs_info _ _ _ _ _ _ Hf) Hh Hl) as Hi. pose proof (fs_short _ _ _ _ _ _ Hf) as Hs.
  unfold adb_auth_get_userkey, host_auth, load_userkey. cbn [e_pubkey].
  rewrite (keyfilepath_run h' home) by (done || lia || left; apply started_dir).
  rewrite started_dir, (proj2 (Z.ltb_ge _ _)), (proj2 (Z.leb_gt _ _)) by lia. cbn [orb fst].
  unfold started_store at 1, put_file at 1. cbn [st_files]. rewrite lookup_insert_eq.
  rewrite (proj2 (Z.ltb_ge _ _)) by (rewrite length_app, base64_length, Hp; change (4 * ((524 + 2) / 3))%nat with 700%nat; unfold MAX_PAYLOAD; lia).
  by rewrite <- app_assoc.
Qed.

(** ** An instance of the interface *)

Definition key_bytes (x : Z) : bytes := z2b <$> words_of 256 256 x.
Lemma key_bytes_back x : 0 <= x < 256 ^ 256 -> value 256 (b2z <$> key_bytes x) = x.
Proof.
  intros Hx. unfold key_bytes. rewrite <- list_fmap_compose. etrans; [|apply (value_words 256 256); [lia|exact Hx]]. f_equal.
  pose proof (words_range 256 256 x ltac:(lia)) as Hr. revert Hr. generalize (words_of 256 256 x). intros l Hl.
  rewrite <- (list_fmap_id l) at 2. apply list_fmap_ext. intros i w Hw. unfold compose. rewrite b2z_z2b. apply Z.mod_small. exact (Forall_lookup_1 _ _ _ _ Hl Hw).
Qed.
Definition key_fits (x : Z) : bool := (0 <=? x) && (x <? 256 ^ 256).
#[local] Program Instance plain_ssl : OpenSSL := {|
  BN_div a b := (a / b, a mod b);
  BN_mod_sqr a m := (a * a) mod m;
  BN_mod_inverse a m := Z.invmod a m;
  RSA_size k := Z.log2 (rsa_n k) / 8 + 1;
  RSA_sign k t := Some t;
  PEM_write k := if key_fits (rsa_n k) && key_fits (rsa_e k) && key_fits (rsa_d k)
    then Some (key_bytes (rsa_n k) ++ key_bytes (rsa_e k) ++ key_bytes (rsa_d k)) else None;
  PEM_read b := if (length b =? 768)%nat
    then Some (mkrsa (value 256 (b2z <$> take 256 b)) (value 256 (b2z <$> take 256 (drop 256 b))) (value 256 (b2z <$> drop 512 b))) else None;
  base64 b := b ++ replicate (4 * ((length b + 2) / 3) - length b) x00 |}.
Next Obligation. done. Qed.
Next Obligation. done. Qed.
Next Obligation.
  intros a m Hm Ha Hg. split; [rewrite <- Z.mod_invmod; apply Z.mod_pos_bound; lia|]. rewrite Z.mul_comm. by apply Z.invmod_coprime; [lia|].
Qed.
Next Obligation. done. Qed.
Next Obligation.
  intros [n e d] b E. cbn [rsa_n rsa_e rsa_d] in E. destruct (_ && _) eqn:Ef; [|discriminate E]. apply (inj Some) in E. subst b.
  assert (forall x, length (key_bytes x) = 256%nat) as L by (intros x; unfold key_bytes; by rewrite length_fmap, length_words).
  assert (forall x, key_fits x = true -> value 256 (b2z <$> key_bytes x) = x) as V.
  { intros x Hx. apply key_bytes_back. unfold key_fits in Hx. apply andb_prop in Hx as [H1%Z.leb_le H2%Z.ltb_lt]. by split. }
  apply andb_prop in Ef as [[Hn He]%andb_prop Hd]. rewrite !length_app, !L. change (256 + (256 + 256) =? 768)%nat with true. cbv iota.
  rewrite take_app_length', drop_app_length', take_app_length' by (by rewrite L).
  rewrite app_assoc, (drop_app_length' (key_bytes n ++ key_bytes e)) by (by rewrite length_app, !L). by rewrite !V.
Qed.
Next Obligation.
  intros b. cbv beta. rewrite length_app, length_replicate. pose proof (Nat.div_mod (length b + 2) 3 ltac:(lia)).
  pose proof (Nat.mod_upper_bound (length b + 2) 3 ltac:(lia)). lia.
Qed.

Definition demo_key : RSA := mkrsa (2 ^ 2047 + 12345) 65537 7.
Definition demo_host : host :=
  mkhost (Some (lit "/home/u")) (Some (lit "/v1:/v2")) None (Some (lit "u")) (Some (lit "pc")) (inl 25) (fun _ => true) (fun _ => true) demo_key.
Definition demo_store : store := mkstore {[ lit "/v2" := default [] (PEM_write (mkrsa 5 3 1)) ]} ∅.
Definition demo_pub : RSAPublicKey := default (mkpub 0 0 [] [] 0) (RSA_to_RSAPublicKey demo_key).
Definition demo_pem : bytes := default [] (PEM_write demo_key).

Lemma demo_first : first_start demo_host (lit "/home/u") demo_store demo_pem (lit " u@pc") demo_pub.
Proof. constructor; [reflexivity|simpl; lia|by right|vm_compute; reflexivity..]. Qed.

Lemma public_key_sound_witness : value (2 ^ 32) (pk_n demo_pub) = rsa_n demo_key /\ read_pub (pub_bytes demo_pub) = demo_pub.
Proof.
  pose proof (public_key_sound demo_key) as H.
  assert (RSA_to_RSAPublicKey demo_key = Some demo_pub) as E by (vm_compute; reflexivity). rewrite E in H.
  destruct H as (_ & _ & H1 & H2 & _); [reflexivity|reflexivity|simpl; lia|]. by split.
Defined.

Lemma keys_persist_witness : exists st', adb_auth_init demo_host demo_store = Ok ([demo_key; mkrsa 5 3 1], st').
Proof.
  exists (started_store (lit "/home/u") demo_pem demo_pub (lit " u@pc") demo_store).
  assert (vendor_ok demo_host) as Hv by (intros v [= <-]; reflexivity).
  assert (vendor_list demo_host (started_store (lit "/home/u") demo_pem demo_pub (lit " u@pc") demo_store) = [mkrsa 5 3 1]) as E by (vm_compute; reflexivity).
  rewrite <- E. exact (proj1 (keys_persist demo_host (lit "/home/u") demo_store demo_pem (lit " u@pc") demo_pub demo_first Hv)).
Defined.

(** ** Where the files go wrong *)

(** A key that cannot be written leaves an empty file, which is found at every
    later start and never replaced: there is no key any more, and the vendor keys
    are not looked at either. *)
Theorem empty_key_sticks `{OpenSSL} h h' home st : h_home h = Some home -> h_home h' = Some home -> (length home + 20 < 4096)%nat ->
  exists_ (key_dir home) st = true -> exists_ (key_path home) st = false -> h_creat h (key_path home) = true ->
  PEM_write (h_new_key h) = None -> PEM_read [] = None ->
  exists st', adb_auth_init h st = Ok ([], st') /\ adb_auth_init h' st' = Ok ([], st').
Proof.
  intros Hh Hh' Hs Hd Hn Hc Hw Hr. exists (put_file (key_path home) [] st).
  assert (exists_ (key_dir home) (put_file (key_path home) [] st) = true) as Hd'.
  { unfold exists_, put_file in *. cbn [st_files st_dirs]. by rewrite lookup_insert_ne by apply key_path_new. }
  unfold adb_auth_init, get_user_key. rewrite (keyfilepath_run h home), (keyfilepath_run h' home) by (done || lia || by left).
  rewrite Hd, Hd', !(proj2 (Z.ltb_ge _ _)), !(proj2 (Z.leb_gt _ _)) by lia. cbn [orb]. split.
  - rewrite Hn. unfold generate_key. rewrite Hc, Hw. done.
  - unfold exists_ at 1, read_key, put_file at 1 2. cbn [st_files]. rewrite lookup_insert_eq, bool_decide_true by done. cbn [orb rbind negb].
    unfold put_file at 1. cbn [st_files]. rewrite lookup_insert_eq. by rewrite Hr.
Qed.

(** Without LOGNAME and without a terminal the name of the user is not set, as
    the errors of [getlogin_r] are not negative. *)
Theorem login_error_missed h e len : h_logname h = None -> h_getlogin h = inl e -> 0 <= e -> get_user_info h len = UB "user name was never set".
Proof. intros Hl Hg He. unfold get_user_info. rewrite Hl, Hg, (proj2 (Z.ltb_ge _ _)) by lia. done. Qed.

(** A list of vendor keys of 4096 bytes is copied without its terminator. *)
Theorem vendor_keys_unterminated `{OpenSSL} h st keys v : h_vendor_keys h = Some v -> MAX_PAYLOAD <= Z.of_nat (length v) ->
  get_vendor_keys h st keys = UB "list of vendor keys is not terminated".
Proof. intros Hv Hl. unfold get_vendor_keys. rewrite Hv, (proj2 (Z.leb_le _ _)) by lia. done. Qed.
