(* ===== verification/Net.v ===== *)
(** * Sockets of the kernel (socket_*.c) and the start of a server (adb.c)

    The helpers that open a server or a client socket are sequences of system
    calls, each of which can fail.  Code runs in the monad [K] over the sockets
    that are open and the outcomes that the calls will have.  The last part is
    [launch_server] and what [adb_main] sets up before its event loop. *)

From S2P Require Import Prelude CString Io Wire DList Fdevent Server Transports Sockets Packets Registry Listeners HostRequest SmartSocket Services Usb AuthHost.

(** ** The kernel *)

(** An address: a host and a port, or the bytes of [sun_path]. *)
Inductive addr := Inet (host port : Z) | Unix (path : bytes).
(** A socket: the address it is bound to, whether it listens, its peer, its
    O_NONBLOCK flag. *)
Record skt := mkskt { sk_bound : option addr; sk_listens : bool; sk_to : option addr; sk_nonblock : bool }.
Definition blank : skt := mkskt None false None false.

(** The open descriptors, the next one, the results of the calls to come (below
    zero for an error) and the names that were unlinked. *)
Record kernel := mkkernel { k_open : gmap Z skt; k_next : Z; k_results : list Z; k_unlinked : list bytes }.
Definition K (A : Type) : Type := kernel -> A * kernel.
Definition nret {A} (a : A) : K A := fun k => (a, k).
Definition nbind {A B} (m : K A) (f : A -> K B) : K B := fun k => let '(a, k') := m k in f a k'.
Declare Scope net_scope.
Delimit Scope net_scope with net.
Notation "'do' x <- m ; k" := (nbind m (fun x => k)) (at level 200, x name, m at level 99, k at level 200) : net_scope.
Notation "m ;; k" := (nbind m (fun _ => k)) (at level 100, k at level 200, right associativity) : net_scope.
#[local] Open Scope net_scope.

(** The result of the next call; there is always one, and an error when the list
    is used up. *)
Definition pop : K Z := fun k =>
  match k_results k with
  | [] => (-1, k)
  | r :: l => (r, mkkernel (k_open k) (k_next k) l (k_unlinked k))
  end.
Definition modify_skt (fd : Z) (f : skt -> skt) : K unit := fun k => (tt, mkkernel (alter f fd (k_open k)) (k_next k) (k_results k) (k_unlinked k)).

(** [socket]: which number the kernel gives is immaterial. *)
Definition sys_socket : K Z :=
  do r <- pop;
  if r <? 0 then nret (-1)
  else fun k => (k_next k, mkkernel (<[k_next k := blank]> (k_open k)) (k_next k + 1) (k_results k) (k_unlinked k)).
Definition sys_close (fd : Z) : K unit := fun k => (tt, mkkernel (delete fd (k_open k)) (k_next k) (k_results k) (k_unlinked k)).
Definition sys_unlink (path : bytes) : K unit := fun k => (tt, mkkernel (k_open k) (k_next k) (k_results k) (k_unlinked k ++ [path])).
(** A call that changes the socket when it succeeds. *)
Definition sys_change (fd : Z) (f : skt -> skt) : K Z :=
  do r <- pop;
  if r <? 0 then nret r else modify_skt fd f ;; nret 0.
Definition sys_bind (fd : Z) (a : addr) : K Z := sys_change fd (fun s => mkskt (Some a) (sk_listens s) (sk_to s) (sk_nonblock s)).
Definition sys_listen (fd : Z) : K Z := sys_change fd (fun s => mkskt (sk_bound s) true (sk_to s) (sk_nonblock s)).
Definition sys_setfl (fd : Z) (nonblock : bool) : K Z := sys_change fd (fun s => mkskt (sk_bound s) (sk_listens s) (sk_to s) nonblock).
Definition sys_getfl (fd : Z) : K (option bool) :=
  do r <- pop;
  if r <? 0 then nret None else fun k => (sk_nonblock <$> k_open k !! fd, k).
(** [connect]: a socket that does not block can answer EINPROGRESS, which is the
    result [in_progress]; the peer is then the one that was asked for, if the
    connection comes about. *)
Definition in_progress : Z := -115.
Definition sys_connect (fd : Z) (a : addr) : K Z :=
  do r <- pop;
  if negb (r <? 0) || (r =? in_progress) then
    modify_skt fd (fun s => mkskt (sk_bound s) (sk_listens s) (Some a) (sk_nonblock s)) ;; nret (if r <? 0 then r else 0)
  else nret r.

(** ** Addresses *)

Definition ANDROID_SOCKET_NAMESPACE_ABSTRACT : Z := 0.
Definition ANDROID_SOCKET_NAMESPACE_RESERVED : Z := 1.
Definition ANDROID_SOCKET_NAMESPACE_FILESYSTEM : Z := 2.
Definition ANDROID_RESERVED_SOCKET_PREFIX : bytes := lit "/dev/socket/".
Definition SUN_PATH : nat := 108.
Definition INADDR_ANY : Z := 0.
Definition INADDR_LOOPBACK : Z := 0x7f000001.
Definition htons (port : Z) : Z := port mod 65536.

(** [socket_make_sockaddr_un]: the bytes of [sun_path] that count, and [alen]. *)
Definition socket_make_sockaddr_un (name : bytes) (namespaceId : Z) : option (bytes * Z) :=
  if namespaceId =? ANDROID_SOCKET_NAMESPACE_ABSTRACT then
    let namelen := length name in
    if (SUN_PATH <? namelen + 1)%nat then None else Some (x00 :: name, Z.of_nat namelen + 2 + 1)
  else if namespaceId =? ANDROID_SOCKET_NAMESPACE_RESERVED then
    let path := ANDROID_RESERVED_SOCKET_PREFIX ++ name in
    if (SUN_PATH - 1 <? length path)%nat then None else Some (path ++ [x00], Z.of_nat (length path) + 2 + 1)
  else if namespaceId =? ANDROID_SOCKET_NAMESPACE_FILESYSTEM then
    let namelen := length name in
    if (SUN_PATH - 1 <? namelen)%nat then None else Some (name ++ [x00], Z.of_nat namelen + 2 + 1)
  else None.

(** ** Clients *)

Definition socket_local_client_connect (fd : Z) (name : bytes) (namespaceId : Z) : K Z :=
  match socket_make_sockaddr_un name namespaceId with
  | None => nret (-1)
  | Some (path, _) => do r <- sys_connect fd (Unix path); nret (if r <? 0 then -1 else fd)
  end.
Definition socket_local_client (name : bytes) (namespaceId : Z) : K Z :=
  do s <- sys_socket;
  if s <? 0 then nret (-1)
  else
    do r <- socket_local_client_connect s name namespaceId;
    if r <? 0 then sys_close s ;; nret (-1) else nret s.
Definition socket_loopback_client (port : Z) : K Z :=
  do s <- sys_socket;
  if s <? 0 then nret (-1)
  else
    do r <- sys_connect s (Inet INADDR_LOOPBACK (htons port));
    if r <? 0 then sys_close s ;; nret (-1) else nret s.

(** [socket_network_client_timeout]; [host] is what [gethostbyname] found.  The
    timeout itself is the result 0 of [select]. *)
Definition socket_network_client_timeout (host : option Z) (port : Z) : K Z :=
  match host with
  | None => nret (-1)
  | Some ip =>
      do s <- sys_socket;
      if s <? 0 then nret (-1)
      else
        let fail := sys_close s ;; nret (-1) in
        do flags <- sys_getfl s;
        match flags with
        | None => fail
        | Some flags =>
            do r <- sys_setfl s true;
            if r <? 0 then fail
            else
              let finish := do r <- sys_setfl s flags; if r <? 0 then fail else nret s in
              do r <- sys_connect s (Inet ip (htons port));
              if r =? 0 then finish
              else if negb (r =? in_progress) then fail
              else
                do r <- pop;                             (* select *)
                if r <? 0 then fail
                else if r =? 0 then fail
                else
                  do isset <- pop;                       (* FD_ISSET in either set *)
                  if isset <=? 0 then fail
                  else
                    do r <- pop;                         (* getsockopt *)
                    if r <? 0 then fail
                    else
                      do error <- pop;                   (* the value it stores *)
                      if negb (error =? 0) then fail else finish
        end
  end.

(** ** Servers *)

(** The socket type is SOCK_STREAM everywhere; SO_REUSEADDR is set without a look
    at the result. *)
Definition listen_or_close (s : Z) : K Z :=
  do r <- sys_listen s;
  if r <? 0 then sys_close s ;; nret (-1) else nret s.
Definition inet_server (host port : Z) : K Z :=
  do s <- sys_socket;
  if s <? 0 then nret (-1)
  else
    do r <- sys_bind s (Inet host (htons port));
    if r <? 0 then sys_close s ;; nret (-1) else listen_or_close s.
Definition socket_inaddr_any_server (port : Z) : K Z := inet_server INADDR_ANY port.
Definition socket_loopback_server (port : Z) : K Z := inet_server INADDR_LOOPBACK port.

Definition socket_local_server_bind (s : Z) (name : bytes) (namespaceId : Z) : K Z :=
  match socket_make_sockaddr_un name namespaceId with
  | None => nret (-1)
  | Some (path, _) =>
      (if (namespaceId =? ANDROID_SOCKET_NAMESPACE_RESERVED) || (namespaceId =? ANDROID_SOCKET_NAMESPACE_FILESYSTEM)
       then sys_unlink (cstr path) else nret tt) ;;
      do r <- sys_bind s (Unix path);
      nret (if r <? 0 then -1 else s)
  end.
Definition socket_local_server (name : bytes) (namespaceId : Z) : K Z :=
  do s <- sys_socket;
  if s <? 0 then nret (-1)
  else
    do err <- socket_local_server_bind s name namespaceId;
    if err <? 0 then sys_close s ;; nret (-1) else listen_or_close s.

(** [local_name_to_fd] (adb.c) and [service_to_fd] (services.c) down to their
    calls; [resolve] is [gethostbyname]. *)
Definition bind_name (gListenAll : bool) (name : bytes) : K Z :=
  if has_prefix (lit "tcp:") name then
    let port := atoi (drop 4 name) in
    if gListenAll then socket_inaddr_any_server port else socket_loopback_server port
  else if has_prefix (lit "local:") name then socket_local_server (drop 6 name) ANDROID_SOCKET_NAMESPACE_ABSTRACT
  else if has_prefix (lit "localabstract:") name then socket_local_server (drop 14 name) ANDROID_SOCKET_NAMESPACE_ABSTRACT
  else if has_prefix (lit "localfilesystem:") name then socket_local_server (drop 16 name) ANDROID_SOCKET_NAMESPACE_FILESYSTEM
  else nret (-1).
Definition connect_name (resolve : bytes -> option Z) (name : bytes) : K Z :=
  if has_prefix (lit "tcp:") name then
    let port := atoi (drop 4 name) in
    match split_chr (ch 58) (drop 4 name) with
    | None => socket_loopback_client port
    | Some (_, host) => socket_network_client_timeout (resolve host) port
    end
  else if has_prefix (lit "local:") name then socket_local_client (drop 6 name) ANDROID_SOCKET_NAMESPACE_RESERVED
  else if has_prefix (lit "localreserved:") name then socket_local_client (drop 14 name) ANDROID_SOCKET_NAMESPACE_RESERVED
  else if has_prefix (lit "localabstract:") name then socket_local_client (drop 14 name) ANDROID_SOCKET_NAMESPACE_ABSTRACT
  else if has_prefix (lit "localfilesystem:") name then socket_local_client (drop 16 name) ANDROID_SOCKET_NAMESPACE_FILESYSTEM
  else nret (-1).

(** ** The start of a server *)

(** [launch_server]: the pipe, the fork (below zero for an error, 0 in the child)
    and the one read of the parent.  The child only comes back when [execl]
    failed. *)
Definition launch_server (answer : list rres) : K Z :=
  do p <- pop;
  if p <? 0 then nret (-1)
  else
    do fd0 <- (fun k => (k_next k, mkkernel (<[k_next k := blank]> (k_open k)) (k_next k + 1) (k_results k) (k_unlinked k)));
    do fd1 <- (fun k => (k_next k, mkkernel (<[k_next k := blank]> (k_open k)) (k_next k + 1) (k_results k) (k_unlinked k)));
    do pid <- pop;
    if pid <? 0 then nret (-1)
    else if pid =? 0 then sys_close fd0 ;; sys_close fd1 ;; nret 0
    else
      sys_close fd1 ;;
      sys_close fd0 ;;
      nret (match fst (adb_read 3 answer) with
            | Got b => if bool_decide (b = lit "OK" ++ [ch 10]) then 0 else -1
            | _ => -1
            end).

(** [build_local_name] and [adb_main] of the host up to its event loop: the
    vendors, the keys and the listener for clients.  The threads that look for
    devices and emulators are [poll_step] and [client_socket_thread]. *)
Definition build_local_name (target_size : nat) (server_port : Z) : bytes := snprintf target_size (lit "tcp:" ++ fmt_dec server_port).
Definition adb_main `{OpenSSL} (home : option bytes) (errno_set : bool) (fopen : bytes -> option bytes) (h : host) (st : store) (server_port : Z) : M (list Z * list RSA) :=
  (do ids <- lift (usb_vendors_init home errno_set fopen);
   do keys <- lift (adb_auth_init h st);
   do r <- install_listener (build_local_name 30 server_port) (lit "*smartsocket*") None false;
   if negb (r =? 0) then stop "cannot listen for clients" else ret (ids, fst keys))%adb.

(** [client_socket_thread]: emulators that run already. *)
Fixpoint connect_ports (adbhost : bool) (count : nat) (port : Z) : M unit :=
  match count with
  | O => ret tt
  | S n => (local_connect adbhost port ;; connect_ports adbhost n (port + 2))%adb
  end.
Definition client_socket_thread (adbhost : bool) : M unit := connect_ports adbhost ADB_LOCAL_TRANSPORT_MAX DEFAULT_ADB_LOCAL_TRANSPORT_PORT.
