(* ===== verification/NetProps.v ===== *)
(** * What the socket helpers and the start of the server guarantee

    Whatever the kernel answers, a helper either returns a socket in the state
    that was asked for or leaves no descriptor behind; the addresses of unix
    sockets fit and are distinct; and a server that starts listens for clients. *)

From S2P Require Import Prelude CString Io Wire DList Fdevent Server Transports Sockets Packets Registry Listeners HostRequest SmartSocket Services Usb AuthHost Net.

#[local] Open Scope net_scope.

(** ** Descriptors *)

Definition kwp {A} (m : K A) (k : kernel) (Q : A -> kernel -> Prop) : Prop := let '(a, k') := m k in Q a k'.
Lemma kwp_ret {A} (a : A) k (Q : A -> kernel -> Prop) : Q a k -> kwp (nret a) k Q.
Proof. done. Qed.
Lemma kwp_bind {A B} (m : K A) (f : A -> K B) k Q : kwp m k (fun a k' => kwp (f a) k' Q) -> kwp (nbind m f) k Q.
Proof. unfold kwp, nbind. by destruct (m k). Qed.

(** The sockets are [O] and [s] in the state [x]; the next descriptor is [n]. *)
Definition holds (O : gmap Z skt) (s : Z) (x : skt) (n : Z) (k : kernel) : Prop := k_open k = <[s := x]> O /\ k_next k = n.

Section helpers.
Context (O : gmap Z skt) (s n : Z).

Lemma kwp_pop x k (Q : Z -> kernel -> Prop) : holds O s x n k -> (forall r k', holds O s x n k' -> Q r k') -> kwp pop k Q.
Proof. intros H HQ. unfold kwp, pop. destruct (k_results k); by apply HQ. Qed.
Lemma kwp_modify x f k (Q : unit -> kernel -> Prop) : holds O s x n k -> (forall k', holds O s (f x) n k' -> Q tt k') -> kwp (modify_skt s f) k Q.
Proof. intros [Ho Hn] HQ. apply HQ. split; [|done]. cbn [k_open]. by rewrite Ho, alter_insert_eq. Qed.
Lemma kwp_change x f k (Q : Z -> kernel -> Prop) : holds O s x n k -> (forall r k', r < 0 -> holds O s x n k' -> Q r k') ->
  (forall k', holds O s (f x) n k' -> Q 0 k') -> kwp (sys_change s f) k Q.
Proof.
  intros H Hf Hs. apply kwp_bind. eapply kwp_pop; [exact H|]. intros r k' Hk'. destruct (Z.ltb_spec r 0); [by apply kwp_ret, Hf|].
  apply kwp_bind. eapply kwp_modify; [exact Hk'|]. intros k2 Hk2. by apply kwp_ret, Hs.
Qed.
Lemma kwp_getfl x k (Q : option bool -> kernel -> Prop) : holds O s x n k -> (forall k', holds O s x n k' -> Q None k') ->
  (forall k', holds O s x n k' -> Q (Some (sk_nonblock x)) k') -> kwp (sys_getfl s) k Q.
Proof.
  intros H Hf Hs. apply kwp_bind. eapply kwp_pop; [exact H|]. intros r k' Hk'. destruct (Z.ltb_spec r 0); [by apply kwp_ret, Hf|].
  unfold kwp. rewrite (proj1 Hk'), lookup_insert_eq. by apply Hs.
Qed.
Definition connected (a : addr) (x : skt) : skt := mkskt (sk_bound x) (sk_listens x) (Some a) (sk_nonblock x).
Lemma kwp_connect x a k (Q : Z -> kernel -> Prop) : holds O s x n k ->
  (forall r x' k', r < 0 -> (r = in_progress -> x' = connected a x) -> holds O s x' n k' -> Q r k') ->
  (forall k', holds O s (connected a x) n k' -> Q 0 k') -> kwp (sys_connect s a) k Q.
Proof.
  intros H Hf Hs. apply kwp_bind. eapply kwp_pop; [exact H|]. intros r k' Hk'. destruct (Z.eqb_spec r in_progress) as [->|Hr].
  - apply kwp_bind. eapply kwp_modify; [exact Hk'|]. intros k2 Hk2. apply kwp_ret. by eapply Hf.
  - destruct (Z.ltb_spec r 0); cbn [negb orb]; [apply kwp_ret; by apply (Hf r x)|]. apply kwp_bind. eapply kwp_modify; [exact Hk'|].
    intros k2 Hk2. by apply kwp_ret, Hs.
Qed.
Lemma kwp_fail x k (Q : Z -> kernel -> Prop) : O !! s = None -> holds O s x n k -> (forall k', k_open k' = O -> k_next k' = n -> Q (-1) k') ->
  kwp (sys_close s ;; nret (-1)) k Q.
Proof. intros Hs [Ho Hn] HQ. apply kwp_bind. apply HQ; [|done]. cbn [k_open]. rewrite Ho. by apply delete_insert_id. Qed.
End helpers.

(** The helpers, and the socket each is to return. *)
Inductive helper :=
  | LocalClient (name : bytes) (ns : Z) | LoopbackClient (port : Z) | NetworkClient (host : option Z) (port : Z)
  | AnyServer (port : Z) | LoopbackServer (port : Z) | LocalServer (name : bytes) (ns : Z).
Definition run_helper (h : helper) : K Z :=
  match h with
  | LocalClient name ns => socket_local_client name ns
  | LoopbackClient port => socket_loopback_client port
  | NetworkClient host port => socket_network_client_timeout host port
  | AnyServer port => socket_inaddr_any_server port
  | LoopbackServer port => socket_loopback_server port
  | LocalServer name ns => socket_local_server name ns
  end.
Definition client_of (a : addr) : skt := mkskt None false (Some a) false.
Definition server_of (a : addr) : skt := mkskt (Some a) true None false.
Definition wanted (h : helper) : option skt :=
  match h with
  | LocalClient name ns => (fun p => client_of (Unix p.1)) <$> socket_make_sockaddr_un name ns
  | LoopbackClient port => Some (client_of (Inet INADDR_LOOPBACK (htons port)))
  | NetworkClient host port => (fun ip => client_of (Inet ip (htons port))) <$> host
  | AnyServer port => Some (server_of (Inet INADDR_ANY (htons port)))
  | LoopbackServer port => Some (server_of (Inet INADDR_LOOPBACK (htons port)))
  | LocalServer name ns => (fun p => server_of (Unix p.1)) <$> socket_make_sockaddr_un name ns
  end.

(** No descriptor from the next one on is open. *)
Definition kernel_ok (k : kernel) : Prop := 0 <= k_next k /\ forall fd, k_next k <= fd -> k_open k !! fd = None.
(** Nothing is left behind, or just the socket that was wanted. *)
Definition accounted (h : helper) (k : kernel) (r : Z) (k' : kernel) : Prop :=
  kernel_ok k' /\ (r = -1 /\ k_open k' = k_open k \/
    r = k_next k /\ exists x, wanted h = Some x /\ k_open k' = <[r := x]> (k_open k)).

Section accounted.
Context (h : helper) (k : kernel) (Hk : kernel_ok k).
Let s := k_next k.

Lemma acc_nothing k' : k_open k' = k_open k -> k_next k' = s \/ k_next k' = s + 1 -> accounted h k (-1) k'.
Proof.
  intros Ho Hn. destruct Hk as [H0 Hf]. split; [|by left]. split; [lia|]. intros fd Hfd. rewrite Ho. apply Hf. unfold s in Hn. lia.
Qed.
Lemma acc_socket x k' : holds (k_open k) s x (s + 1) k' -> wanted h = Some x -> accounted h k s k'.
Proof.
  intros [Ho Hn] Hw. destruct Hk as [H0 Hf]. split; [|right; eauto]. unfold s in *. split; [lia|]. intros fd Hfd.
  rewrite Ho, lookup_insert_ne by lia. apply Hf. lia.
Qed.
Lemma acc_open (f : Z -> K Z) : (forall k', holds (k_open k) s blank (s + 1) k' -> kwp (f s) k' (accounted h k)) ->
  kwp (do r <- sys_socket; if r <? 0 then nret (-1) else f r) k (accounted h k).
Proof.
  intros H. assert (forall k0 : kernel, k_open k0 = k_open k -> k_next k0 = k_next k ->
    kwp (fun q => (k_next q, mkkernel (<[k_next q := blank]> (k_open q)) (k_next q + 1) (k_results q) (k_unlinked q))) k0
      (fun r k' => kwp (if r <? 0 then nret (-1) else f r) k' (accounted h k))) as Hgo.
  { intros k0 Ho Hn. unfold kwp at 1. rewrite Hn. fold s. rewrite (proj2 (Z.ltb_ge _ _)) by apply Hk. apply H. split; cbn; [by rewrite Ho|done]. }
  unfold sys_socket. do 2 apply kwp_bind. unfold kwp at 1, pop. destruct (k_results k) as [|r l].
  - apply kwp_ret. apply acc_nothing; [done|by left].
  - destruct (r <? 0); [apply kwp_ret; apply acc_nothing; [done|by left]|by apply Hgo].
Qed.
Lemma acc_fail x k' : holds (k_open k) s x (s + 1) k' -> kwp (sys_close s ;; nret (-1)) k' (accounted h k).
Proof.
  intros Hh. eapply kwp_fail; [|exact Hh|]; [apply Hk; unfold s; lia|]. intros k2 Ho Hn. apply acc_nothing; [done|by right].
Qed.
Lemma acc_listen a k' : holds (k_open k) s (mkskt (Some a) false None false) (s + 1) k' -> wanted h = Some (server_of a) ->
  kwp (listen_or_close s) k' (accounted h k).
Proof.
  intros Hh Hw. unfold listen_or_close. apply kwp_bind. eapply kwp_change; [exact Hh|..].
  - intros r k2 Hr H2. rewrite (proj2 (Z.ltb_lt _ _)) by done. by eapply acc_fail.
  - intros k2 H2. apply kwp_ret. by eapply acc_socket.
Qed.
End accounted.

Lemma acc_inet_server h k host port : kernel_ok k -> wanted h = Some (server_of (Inet host (htons port))) ->
  kwp (inet_server host port) k (accounted h k).
Proof.
  intros Hk Hw. unfold inet_server. apply (acc_open h k Hk). intros k1 H1. apply kwp_bind. eapply kwp_change; [exact H1|..].
  - intros r k2 Hr H2. rewrite (proj2 (Z.ltb_lt _ _)) by done. by eapply acc_fail.
  - intros k2 H2. by eapply acc_listen.
Qed.

Lemma acc_local_server k name ns : kernel_ok k -> kwp (socket_local_server name ns) k (accounted (LocalServer name ns) k).
Proof.
  intros Hk. unfold socket_local_server. apply (acc_open (LocalServer name ns) k Hk (fun s => do err <- socket_local_server_bind s name ns; _)).
  intros k1 H1. apply kwp_bind. unfold socket_local_server_bind. destruct (socket_make_sockaddr_un name ns) as [[path alen]|] eqn:E.
  2:{ apply kwp_ret. by eapply acc_fail. }
  apply kwp_bind. assert (forall q, holds (k_open k) (k_next k) blank (k_next k + 1) q ->
    kwp (do r <- sys_bind (k_next k) (Unix path); nret (if r <? 0 then -1 else k_next k)) q
      (fun err k' => kwp (if err <? 0 then sys_close (k_next k) ;; nret (-1) else listen_or_close (k_next k)) k' (accounted (LocalServer name ns) k))) as Hgo.
  { intros q Hq. apply kwp_bind. eapply kwp_change; [exact Hq|..].
    - intros r k2 Hr H2. rewrite (proj2 (Z.ltb_lt _ _)) by done. apply kwp_ret. by eapply acc_fail.
    - intros k2 H2. apply kwp_ret. cbn [Z.ltb Z.compare]. rewrite (proj2 (Z.ltb_ge _ _)) by apply Hk.
      eapply acc_listen; [done|exact H2|]. cbn [wanted]. by rewrite E. }
  destruct (_ || _); unfold kwp at 1; [|by apply Hgo]. apply Hgo. exact H1.
Qed.

Lemma acc_local_client k name ns : kernel_ok k -> kwp (socket_local_client name ns) k (accounted (LocalClient name ns) k).
Proof.
  intros Hk. unfold socket_local_client. apply (acc_open (LocalClient name ns) k Hk (fun s => do r <- socket_local_client_connect s name ns; _)).
  intros k1 H1. apply kwp_bind. unfold socket_local_client_connect. destruct (socket_make_sockaddr_un name ns) as [[path alen]|] eqn:E.
  2:{ apply kwp_ret. by eapply acc_fail. }
  apply kwp_bind. eapply kwp_connect; [exact H1|..].
  - intros r x k2 Hr _ H2. rewrite (proj2 (Z.ltb_lt _ _)) by done. apply kwp_ret. by eapply acc_fail.
  - intros k2 H2. apply kwp_ret. cbn [Z.ltb Z.compare]. rewrite (proj2 (Z.ltb_ge _ _)) by apply Hk. apply kwp_ret.
    eapply acc_socket; [done|exact H2|]. cbn [wanted]. by rewrite E.
Qed.

Lemma acc_loopback_client k port : kernel_ok k -> kwp (socket_loopback_client port) k (accounted (LoopbackClient port) k).
Proof.
  intros Hk. unfold socket_loopback_client. apply (acc_open (LoopbackClient port) k Hk). intros k1 H1. apply kwp_bind. eapply kwp_connect; [exact H1|..].
  - intros r x k2 Hr _ H2. rewrite (proj2 (Z.ltb_lt _ _)) by done. by eapply acc_fail.
  - intros k2 H2. apply kwp_ret. by eapply acc_socket.
Qed.

(** The way out of [socket_network_client_timeout] with a connection. *)
Lemma acc_finish k ip port q : kernel_ok k ->
  holds (k_open k) (k_next k) (mkskt None false (Some (Inet ip (htons port))) true) (k_next k + 1) q ->
  kwp (do r <- sys_setfl (k_next k) false; if r <? 0 then sys_close (k_next k) ;; nret (-1) else nret (k_next k)) q
    (accounted (NetworkClient (Some ip) port) k).
Proof.
  intros Hk Hq. apply kwp_bind. eapply kwp_change; [exact Hq|..].
  - intros r k2 Hr H2. rewrite (proj2 (Z.ltb_lt _ _)) by done. by eapply acc_fail.
  - intros k2 H2. apply kwp_ret. by eapply acc_socket.
Qed.
Lemma acc_network_client k host port : kernel_ok k ->
  kwp (socket_network_client_timeout host port) k (accounted (NetworkClient host port) k).
Proof.
  intros Hk. unfold socket_network_client_timeout. destruct host as [ip|]; [|apply kwp_ret, acc_nothing; [done|done|by left]].
  apply (acc_open (NetworkClient (Some ip) port) k Hk (fun s => do flags <- sys_getfl s; _)). intros k1 H1. cbv zeta.
  apply kwp_bind. eapply kwp_getfl; [exact H1|intros k2 H2; by eapply acc_fail|intros k2 H2].
  apply kwp_bind. eapply kwp_change; [exact H2|intros r k3 Hr H3; rewrite (proj2 (Z.ltb_lt _ _)) by done; by eapply acc_fail|intros k3 H3].
  apply kwp_bind. eapply kwp_connect; [exact H3| |intros k4 H4; by apply acc_finish].
  intros r x k4 Hr Hx H4. rewrite (proj2 (Z.eqb_neq r 0)) by lia. destruct (Z.eqb_spec r in_progress) as [->|]; cbn [negb]; [|by eapply acc_fail].
  rewrite (Hx eq_refl) in H4. clear Hx.
  do 4 (apply kwp_bind; eapply kwp_pop; [eassumption|]; clear H4; intros ? ? H4;
        repeat match goal with |- context [if ?b then _ else _] => destruct b; [by eapply acc_fail|] end).
  by apply acc_finish.
Qed.

(** C40. Whatever the kernel answers to the calls of a helper, it returns -1 and leaves
    the open descriptors as they were, or it returns a new one that is the socket
    that was asked for (bound and listening, or connected and in blocking mode)
    and leaves nothing else open. *)
Theorem sockets_accounted h k : kernel_ok k -> let '(r, k') := run_helper h k in accounted h k r k'.
Proof.
  intros Hk. change (kwp (run_helper h) k (accounted h k)).
  destruct h; cbn [run_helper]; [by apply acc_local_client|by apply acc_loopback_client|by apply acc_network_client|..|by apply acc_local_server];
    by apply acc_inet_server.
Qed.
Lemma sockets_accounted_witness :
  accounted (LoopbackServer 5037) (mkkernel ∅ 3 [0; 0; 0] []) 3
    (mkkernel {[3 := server_of (Inet INADDR_LOOPBACK 5037)]} 4 [] []).
Proof.
  assert (kernel_ok (mkkernel ∅ 3 [0; 0; 0] [])) as Hk by (split; [done|intros; apply lookup_empty]).
  exact (sockets_accounted (LoopbackServer 5037) (mkkernel ∅ 3 [0; 0; 0] []) Hk).
Defined.

(** The names of forwardings and of local services that the server takes for
    sockets are the ones the helpers are called for; any other name is refused
    before a system call. *)
Theorem names_reach_sockets all resolve name k :
  (bind_name all name = nret (-1) \/ exists h, bind_name all name = run_helper h) /\
  (connect_name resolve name = nret (-1) \/ exists h, connect_name resolve name = run_helper h) /\
  (forall s, conns s <> [] -> (exists fd, local_name_to_fd name s = Ok (fd, s)) -> bind_name all name k = (-1, k)) /\
  (forall s, conns s <> [] -> (exists fd, service_to_fd name s = Ok (fd, s)) -> connect_name resolve name k = (-1, k)).
Proof.
  assert (forall s fd, conns s <> [] -> next_fd s <> Ok (fd, s)) as Hnext.
  { intros s fd Hc E. unfold next_fd in E. destruct (conns s) as [|[f io] r] eqn:Es; [done|]. injection E as _ E.
    apply (f_equal conns) in E. rewrite Es in E. destruct (0 <=? f); cbn in E; by apply (f_equal length) in E; simpl in E; lia. }
  unfold bind_name, connect_name, local_name_to_fd, service_to_fd. split_and!.
  - destruct (has_prefix (lit "tcp:") name).
    { right. destruct all; [by exists (AnyServer (atoi (drop 4 name)))|by exists (LoopbackServer (atoi (drop 4 name)))]. }
    destruct (has_prefix (lit "local:") name); [right; by eexists (LocalServer _ _)|].
    destruct (has_prefix (lit "localabstract:") name); [right; by eexists (LocalServer _ _)|].
    destruct (has_prefix (lit "localfilesystem:") name); [right; by eexists (LocalServer _ _)|by left].
  - destruct (has_prefix (lit "tcp:") name).
    { right. destruct (split_chr _ _) as [[? host]|]; [by eexists (NetworkClient _ _)|by eexists (LoopbackClient _)]. }
    do 4 (match goal with |- context [has_prefix ?p name] => destruct (has_prefix p name) end; [right; by eexists (LocalClient _ _)|]). by left.
  - intros s Hc [fd E]. repeat match type of E with context [has_prefix ?p name] => destruct (has_prefix p name); cbn [orb] in E; [by apply Hnext in E|] end. done.
  - intros s Hc [fd E]. repeat match type of E with context [has_prefix ?p name] => destruct (has_prefix p name); cbn [orb] in E; [by apply Hnext in E|] end. done.
Qed.

(** An address of a unix socket fits its structure, tells how long it is and
    belongs to one name only; a name is refused exactly when it is too long. *)
Theorem unix_address name ns : ns = ANDROID_SOCKET_NAMESPACE_ABSTRACT \/ ns = ANDROID_SOCKET_NAMESPACE_RESERVED \/ ns = ANDROID_SOCKET_NAMESPACE_FILESYSTEM ->
  match socket_make_sockaddr_un name ns with
  | Some (path, alen) =>
      (length path <= SUN_PATH)%nat /\ alen = 2 + Z.of_nat (length path) /\
      forall name' alen', socket_make_sockaddr_un name' ns = Some (path, alen') -> name' = name
  | None => (SUN_PATH - 1 < length (if (ns =? ANDROID_SOCKET_NAMESPACE_RESERVED)%Z then ANDROID_RESERVED_SOCKET_PREFIX else []) + length name)%nat
  end.
Proof.
  unfold socket_make_sockaddr_un, SUN_PATH. intros [-> | [-> | -> ] ].
  - change (ANDROID_SOCKET_NAMESPACE_ABSTRACT =? ANDROID_SOCKET_NAMESPACE_ABSTRACT) with true. cbv iota.
    destruct (Nat.ltb_spec 108 (length name + 1)); [simpl; lia|]. split_and!; [simpl; lia|simpl; lia|].
    intros name' alen' E. destruct (_ <? _)%nat; [done|]. by injection E.
  - change (ANDROID_SOCKET_NAMESPACE_RESERVED =? ANDROID_SOCKET_NAMESPACE_ABSTRACT) with false.
    change (ANDROID_SOCKET_NAMESPACE_RESERVED =? ANDROID_SOCKET_NAMESPACE_RESERVED) with true. cbv iota.
    destruct (Nat.ltb_spec (108 - 1) (length (ANDROID_RESERVED_SOCKET_PREFIX ++ name))) as [Hl|Hl]; [by rewrite length_app in Hl|].
    rewrite length_app. simpl (length [x00]). split_and!; [lia|lia|].
    intros name' alen' E. destruct (_ <? _)%nat; [done|]. apply (f_equal (option_map fst)) in E. cbn [option_map fst] in E. apply (inj Some) in E.
    apply app_inj_2 in E as [E _]; [|done]. by apply (inj (app ANDROID_RESERVED_SOCKET_PREFIX)) in E.
  - change (ANDROID_SOCKET_NAMESPACE_FILESYSTEM =? ANDROID_SOCKET_NAMESPACE_ABSTRACT) with false.
    change (ANDROID_SOCKET_NAMESPACE_FILESYSTEM =? ANDROID_SOCKET_NAMESPACE_RESERVED) with false.
    change (ANDROID_SOCKET_NAMESPACE_FILESYSTEM =? ANDROID_SOCKET_NAMESPACE_FILESYSTEM) with true. cbv iota.
    destruct (Nat.ltb_spec (108 - 1) (length name)) as [Hl|Hl]; [simpl; lia|].
    rewrite length_app. simpl (length [x00]). split_and!; [lia|lia|].
    intros name' alen' E. destruct (_ <? _)%nat; [done|]. apply (f_equal (option_map fst)) in E. cbn [option_map fst] in E. apply (inj Some) in E.
    by apply app_inj_2 in E as [E _].
Qed.

(** ** The start of a server *)

(** [adb_main] of a server without listeners that can bind its port listens for
    clients under that port, with the vendors and the keys it read; when it cannot
    bind it leaves. *)
Theorem server_listens `{OpenSSL} home err fopen h st port s ids keys st' fd f rest :
  usb_vendors_init home err fopen = Ok ids -> adb_auth_init h st = Ok (keys, st') ->
  listener_list s = [] -> conns s = (fd, f) :: rest -> fd <= 32000 ->
  match adb_main home err fopen h st port s with
  | Ok ((ids', keys'), s') =>
      0 <= fd /\ ids' = ids /\ keys' = keys /\ listener_list s' = [next_ptr s] /\
      listeners s' !! next_ptr s = Some (mklis (build_local_name 30 port) (lit "*smartsocket*") None fd true)
  | Exit _ => fd < 0
  | _ => False
  end.
Proof.
  intros Hv Hk Hl Hc Hfd. unfold adb_main, install_listener, local_name_to_fd.
  assert (has_prefix (lit "tcp:") (build_local_name 30 port) = true) as Ht by reflexivity.
  set (name := build_local_name 30 port) in *. unfold bind, lift, gets. rewrite Hv, Hk. cbn [rbind]. rewrite Hl. cbn [find_listener].
  unfold ret at 1. rewrite Ht. cbn [orb]. unfold next_fd. rewrite Hc. destruct (Z.ltb_spec fd 0) as [Hneg|Hpos]; [by vm_compute|].
  rewrite (proj2 (Z.leb_le 0 fd)), (proj2 (Z.ltb_ge 32000 fd)) by lia.
  unfold put_lis, modify, ret. cbn -[lookup insert name]. rewrite Hl, lookup_insert_eq. split_and!; done.
Qed.

(** [launch_server]: the parent reports a server exactly when the child wrote
    "OK" and a newline, and keeps no end of the pipe. *)
Theorem launch_reported answer k pid r : kernel_ok k -> k_results k = 0 :: pid :: r -> 0 < pid ->
  let '(v, k') := launch_server answer k in
  k_open k' = k_open k /\ (v = 0 <-> fst (adb_read 3 answer) = Got (lit "OK" ++ [ch 10])).
Proof.
  intros [H0 Hf] Hr Hp. unfold launch_server, nbind, pop, nret. rewrite Hr. cbn -[delete insert adb_read lit ch Z.add].
  rewrite (proj2 (Z.ltb_ge pid 0)), (proj2 (Z.eqb_neq pid 0)) by lia. cbn -[delete insert adb_read lit ch Z.add]. split.
  - rewrite delete_insert_id, delete_insert_id; [done|apply Hf; lia|]. rewrite lookup_insert_ne by lia. apply Hf. lia.
  - destruct (fst (adb_read 3 answer)) as [b| | |]; try (split; [lia|congruence]).
    case_bool_decide as E; split; try done; [by intros _; f_equal|intros Eq; by injection Eq].
Qed.

(** A fork that fails leaves both ends of the pipe open. *)
Theorem failed_fork_leaks answer k r : kernel_ok k -> k_results k = 0 :: -1 :: r ->
  let '(v, k') := launch_server answer k in v = -1 /\ is_Some (k_open k' !! k_next k).
Proof.
  intros [H0 Hf] Hr. unfold launch_server, nbind, pop, nret. rewrite Hr. cbn -[lookup insert Z.add]. split; [done|].
  rewrite lookup_insert_ne, lookup_insert_eq by lia. by eexists.
Qed.

(** A child whose [execl] fails returns from [launch_server] with 0, as if it had
    started a server. *)
Theorem failed_exec_succeeds answer k r : k_results k = 0 :: 0 :: r -> fst (launch_server answer k) = 0.
Proof. intros Hr. unfold launch_server, nbind, pop, nret. by rewrite Hr. Qed.

(** A port is cut to 16 bits: a forwarding of port 65616 listens on port 80. *)
Theorem port_wraps k l : kernel_ok k -> k_results k = 0 :: 0 :: 0 :: l ->
  k_open (snd (bind_name false (lit "tcp:65616") k)) = <[k_next k := server_of (Inet INADDR_LOOPBACK 80)]> (k_open k).
Proof.
  intros [H0 Hf] Hr. change (bind_name false (lit "tcp:65616")) with (inet_server INADDR_LOOPBACK 65616).
  unfold inet_server, sys_socket, sys_bind, listen_or_close, sys_listen, sys_change, modify_skt, nbind, pop, nret. rewrite Hr.
  assert (forall A (a b : A), (if 0 <? 0 then a else b) = b) as Hz by done.
  do 2 (cbn [k_results k_open k_next k_unlinked snd]; rewrite ?Hz). rewrite (proj2 (Z.ltb_ge (k_next k) 0)) by lia.
  do 6 (cbn [k_results k_open k_next k_unlinked snd]; rewrite ?Hz). by rewrite !alter_insert_eq.
Qed.

(** The thread that looks for emulators: two of the first three ports answer. *)
Definition demo_ports : sv := set_locals (replicate ADB_LOCAL_TRANSPORT_MAX None) (mksv ∅ [] [] 1 100%nat [] ∅ [] [] ∅ [] ∅
  [(10, mkfio [] [] []); (-1, mkfio [] [] []); (11, mkfio [] [] [])] [] false [] []).
Example emulators_found :
  match client_socket_thread false demo_ports with
  | Ok (_, s) => (fun t => t_serial <$> trs s !! t) <$> pending_list s = [Some (Some (lit "emulator-5554")); Some (Some (lit "emulator-5558"))]
  | _ => False
  end.
Proof. vm_compute. reflexivity. Qed.
