(* ===== verification/Start.v ===== *)
(** * Around the event loop: trace tags, the registration socket, service threads,
    the log and the progress display

    [adb_trace_init] and [start_logging] of adb.c, [init_transport_registration]
    and [close_usb_devices] of transport.c, [fdevent_subproc_setup] of fdevent.c, [create_service_thread] of services.c
    with the helpers of sysdeps.h, [local_init] and [server_socket_thread] of
    transport_local.c, [usb_init] of usb_linux.c, [get_my_path], [main], and the
    numbers that file_sync_client.c prints.  The kernel is that of Net. *)

From S2P Require Import Prelude CString Io Wire DList Fdevent Server Transports Sockets Registry Client Commandline Net.

(** ** Trace tags *)

(** [AdbTrace]. *)
Definition TRACE_ADB : Z := 0.
Definition TRACE_SOCKETS : Z := 1.
Definition TRACE_PACKETS : Z := 2.
Definition TRACE_TRANSPORT : Z := 3.
Definition TRACE_RWX : Z := 4.
Definition TRACE_USB : Z := 5.
Definition TRACE_SYNC : Z := 6.
Definition TRACE_SYSDEPS : Z := 7.
Definition TRACE_JDWP : Z := 8.
Definition TRACE_SERVICES : Z := 9.
Definition TRACE_AUTH : Z := 10.
Definition TRACE_FDEVENT : Z := 11.

Definition tags : list (bytes * Z) :=
  [(lit "1", 0); (lit "all", 0); (lit "adb", TRACE_ADB); (lit "sockets", TRACE_SOCKETS); (lit "packets", TRACE_PACKETS);
   (lit "rwx", TRACE_RWX); (lit "usb", TRACE_USB); (lit "sync", TRACE_SYNC); (lit "sysdeps", TRACE_SYSDEPS);
   (lit "transport", TRACE_TRANSPORT); (lit "jdwp", TRACE_JDWP); (lit "services", TRACE_SERVICES); (lit "auth", TRACE_AUTH)].

(** [for (tagn = 0; tags[tagn].tag != NULL; tagn++)]: the flag of a tag. *)
Fixpoint find_tag (l : list (bytes * Z)) (word : bytes) : option Z :=
  match l with
  | [] => None
  | (tag, flag) :: r => if (length word =? length tag)%nat && streq tag word then Some flag else find_tag r word
  end.

(** [strpbrk(p, ...)]: what is before the first separator, and the rest. *)
Definition is_sep (b : byte) : bool := byte_eqb b (ch 32) || byte_eqb b (ch 44) || byte_eqb b (ch 58) || byte_eqb b (ch 59).
Fixpoint strpbrk (p : bytes) : bytes * bytes :=
  match p with
  | [] => ([], [])
  | b :: r => if is_sep b then ([], p) else let '(w, q) := strpbrk r in (b :: w, q)
  end.

(** The loop: one word is looked up, and one separator skipped. *)
Fixpoint trace_loop (fuel : nat) (p : bytes) (mask : Z) : res Z :=
  match p with
  | [] => Ok mask
  | _ =>
      match fuel with
      | O => Timeout
      | S f =>
          let '(word, q) := strpbrk p in
          match find_tag tags word with
          | Some flag => if flag =? 0 then Ok (-1) else trace_loop f (drop 1 q) (Z.lor mask (Z.shiftl 1 flag))
          | None => trace_loop f (drop 1 q) mask
          end
      end
  end.
Definition adb_trace_init (env : option bytes) : res Z :=
  match env with None => Ok 0 | Some p => trace_loop (length p) p 0 end.

(** ** Threads and pairs of sockets *)

#[local] Open Scope net_scope.

Definition new_descriptor : K Z := fun k =>
  (k_next k, mkkernel (<[k_next k := blank]> (k_open k)) (k_next k + 1) (k_results k) (k_unlinked k)).
(** [adb_socketpair]: the two ends. *)
Definition adb_socketpair : K (option (Z * Z)) :=
  do rc <- pop;
  if rc <? 0 then nret None
  else do s0 <- new_descriptor; do s1 <- new_descriptor; nret (Some (s0, s1)).
(** [adb_thread_create]: what [pthread_create] answers. *)
Definition adb_thread_create : K Z := pop.

(** [create_service_thread]: the server's end, and the end that the thread was
    started with. *)
Definition create_service_thread : K (Z * option Z) :=
  do s <- adb_socketpair;
  match s with
  | None => nret (-1, None)
  | Some (s0, s1) =>
      do t <- adb_thread_create;
      if negb (t =? 0) then sys_close s0 ;; sys_close s1 ;; nret (-1, None) else nret (s0, Some s1)
  end.

(** [local_init]: which thread is started, None when there is none. *)
Inductive local_thread := ClientSocketThread | ServerSocketThread.
Definition local_init (HOST : bool) : K (option local_thread) :=
  let func := if HOST then ClientSocketThread else ServerSocketThread in
  do r <- adb_thread_create;
  nret (if negb (r =? 0) then None else Some func).

(** [usb_init]: the thread that polls the USB bus has to start. *)
Definition usb_init : K (res unit) :=
  do r <- adb_thread_create;
  nret (if negb (r =? 0) then Exit "cannot create input thread" else Ok tt).

(** [adb_socket_accept]. *)
Definition adb_socket_accept (serverfd : Z) : K Z :=
  do r <- pop;
  if r <? 0 then nret (-1) else new_descriptor.

(** One round of [server_socket_thread]: the server's socket, which is bound when it
    can be, and the connection that was accepted; [registers] is what the thread
    does with it. *)
Definition server_socket_round (port serverfd : Z) : K (Z * option Z) :=
  do serverfd <- (if serverfd =? -1 then socket_inaddr_any_server port else nret serverfd);
  if serverfd <? 0 then nret (serverfd, None)
  else do fd <- adb_socket_accept serverfd; nret (serverfd, if 0 <=? fd then Some fd else None).
Definition registers (port fd : Z) : M bool := register_socket_transport fd (lit "host") port true.
(** [n] rounds of it: the socket and the connections, in their order. *)
Fixpoint server_socket_thread (n : nat) (port serverfd : Z) (fds : list Z) : K (Z * list Z) :=
  match n with
  | O => nret (serverfd, fds)
  | S m => do r <- server_socket_round port serverfd; server_socket_thread m port (fst r) (fds ++ option_list (snd r))
  end.

(** ** The executable *)

(** [get_my_path] in a buffer of [maxLen] bytes; [readlink] is the target of a
    symbolic link. *)
Definition get_my_path (readlink : bytes -> option bytes) (pid : Z) (maxLen : nat) : bytes :=
  let proc := snprintf 64 (lit "/proc/" ++ fmt_dec pid ++ lit "/exe") in
  match readlink proc with
  | Some target => cstr (take (maxLen - 1) target)
  | None => []
  end.

(** [main]: the trace mask and the command line without the program's name; two
    levels of command lines are enough. *)
Definition main (e : env) (trace : option bytes) (argv : list bytes) : res (Z * C Z) :=
  let* mask := adb_trace_init trace in
  Ok (mask, adb_commandline 2 e (drop 1 argv)).

(** ** The registration socket *)

(** [init_transport_registration]: the end that is written, and the loop that
    watches the other; [fde] is [transport_registration_fde]. *)
Definition init_transport_registration (fde : ptr) (l : loop) : K (res (Z * Z * loop)) :=
  do s <- adb_socketpair;
  nret (match s with
        | None => Exit "cannot open transport registration socketpair"
        | Some (s0, s1) =>
            (let* l1 := fdevent_install fde s1 l in
             let* l2 := fdevent_set fde FDE_READ l1 in
             Ok (s0, s1, l2))
        end).

(** What [adb_main] opens and starts, in its order; the part on the server's own
    state is [adb_main] of Net. *)
Definition start_threads (fde : ptr) (l : loop) : K (res (Z * Z * loop * option local_thread)) :=
  do reg <- init_transport_registration fde l;
  match reg with
  | Ok (s0, s1, l') =>
      do usb <- usb_init;
      match usb with
      | Ok tt => do thr <- local_init true; nret (Ok (s0, s1, l', thr))
      | Exit why => nret (Exit why)
      | UB why => nret (UB why)
      | Timeout => nret Timeout
      end
  | Exit why => nret (Exit why)
  | UB why => nret (UB why)
  | Timeout => nret Timeout
  end.

(** [fdevent_subproc_setup]: [SHELL_EXIT_NOTIFY_FD] and the other end, which is
    watched through an event [fde] of its own. *)
Definition fdevent_subproc_setup (fde : ptr) (l : loop) : K (res (Z * Z * loop)) :=
  do s <- adb_socketpair;
  nret (match s with
        | None => Exit "cannot create shell-exit socket-pair"
        | Some (s0, s1) =>
            (let* l1 := fdevent_create fde s1 l in
             let* l2 := fdevent_add fde FDE_READ l1 in
             Ok (s0, s1, l2))
        end).

(** [close_usb_devices]. *)
Fixpoint kick_each (l : list ptr) : M unit :=
  match l with
  | [] => ret tt
  | t :: r => (do u <- get_tr t; when (negb (t_kicked u)) (upd_tr t (tr_kicked true) ;; remote_kick t) ;; kick_each r)%adb
  end.
Definition close_usb_devices : M unit := (do l <- gets transport_list; kick_each l)%adb.

(** ** The log *)

(** Descriptors by number; an open takes the lowest free one. *)
Notation fdtable := (gmap Z bytes).
Fixpoint lowest_free (fuel : nat) (i : Z) (d : fdtable) : Z :=
  match fuel with
  | O => i
  | S f => match d !! i with None => i | Some _ => lowest_free f (i + 1) d end
  end.
(** [unix_open]: [can_open] says which paths can be opened. *)
Definition unix_open (can_open : bytes -> bool) (path : bytes) (d : fdtable) : Z * fdtable :=
  if can_open path then let fd := lowest_free (size d) 0 d in (fd, <[fd := path]> d) else (-1, d).
Definition dup2 (fd n : Z) (d : fdtable) : fdtable := match d !! fd with Some f => <[n := f]> d | None => d end.
Definition adb_close (fd : Z) (d : fdtable) : fdtable := delete fd d.

(** [start_logging]. *)
Definition start_logging (can_open : bytes -> bool) (d : fdtable) : fdtable :=
  let '(fd, d) := unix_open can_open (lit "/dev/null") d in
  let d := adb_close fd (dup2 fd 0 d) in
  let '(fd, d) := unix_open can_open (lit "/tmp/adb.log") d in
  let '(fd, d) := if fd <? 0 then unix_open can_open (lit "/dev/null") d else (fd, d) in
  adb_close fd (dup2 fd 2 (dup2 fd 1 d)).

(** ** Progress *)

Definition u64_mod : Z := 2 ^ 64.
Definition wrap64 (z : Z) : Z := z mod u64_mod.

(** [END]: the rate in KB/s, the bytes, the seconds and the milliseconds, in
    [unsigned long long] arithmetic; nothing is printed for no bytes. *)
Definition END_ (total_bytes t0 : Z) : option (Z * Z * Z * Z) :=
  if total_bytes =? 0 then None
  else
    let t := if t0 =? 0 then 1000000 else t0 in
    Some (wrap64 (total_bytes * 1000000) / wrap64 t / 1024, total_bytes, Z.quot t 1000000, Z.quot (Z.rem t 1000000) 1000).

(** [print_transfer_progress]: the percentage, and whether the line ends. *)
Definition print_transfer_progress (bytes_current bytes_total : Z) : option (Z * bool) :=
  if bytes_total =? 0 then None
  else Some (to_int (wrap64 (bytes_current * 100) / bytes_total), bytes_current =? bytes_total).
