(* ===== verification/StartProps.v ===== *)
(** * What the start of the server and the display guarantee *)

From S2P Require Import Prelude CString Io Wire DList Fdevent Server Transports Sockets Registry Net NetProps Start.

(** ** Trace tags *)

(** The words of ADB_TRACE: the first one, and the later ones. *)
Fixpoint fields (p : bytes) : bytes * list bytes :=
  match p with
  | [] => ([], [])
  | b :: r => let '(w, ws) := fields r in if is_sep b then ([], w :: ws) else (b :: w, ws)
  end.
Definition tag_words (p : bytes) : list bytes := let '(w, ws) := fields p in w :: ws.
(** The mask that a list of words asks for. *)
Definition traces_all (w : bytes) : bool := bool_decide (find_tag tags w = Some 0).
Definition bit_of (w : bytes) : Z := match find_tag tags w with Some f => Z.shiftl 1 f | None => 0 end.
Definition mask_of (ws : list bytes) (mask : Z) : Z :=
  if existsb traces_all ws then -1 else foldl (fun m w => Z.lor m (bit_of w)) mask ws.

Lemma mask_of_cons w ws mask : mask_of (w :: ws) mask = if traces_all w then -1 else mask_of ws (Z.lor mask (bit_of w)).
Proof. unfold mask_of. cbn [existsb foldl]. by destruct (traces_all w). Qed.

Lemma strpbrk_fields p : fst (strpbrk p) = fst (fields p) /\
  (snd (strpbrk p) = [] /\ snd (fields p) = [] \/ snd (strpbrk p) <> [] /\ snd (fields p) = tag_words (drop 1 (snd (strpbrk p)))) /\
  (length (snd (strpbrk p)) <= length p)%nat /\ (p <> [] -> snd (strpbrk p) = p \/ (length (snd (strpbrk p)) < length p)%nat).
Proof.
  induction p as [|b r IH]; cbn [strpbrk fields]; [cbn; split_and!; [done|by left|lia|done]|]. destruct (is_sep b) eqn:Es.
  - unfold tag_words. cbn [fst snd drop]. destruct (fields r) as [w ws] eqn:E. split_and!; [done|right; split; [done|]|cbn; lia|by left]. rewrite drop_0, E. done.
  - destruct (strpbrk r) as [w q], (fields r) as [w' ws]. cbn in *. destruct IH as (-> & Hf & Hl & _). split_and!; [done|done|lia|]. intros _. right. lia.
Qed.

Lemma trace_loop_words : forall fuel p mask, (length p <= fuel)%nat -> trace_loop fuel p mask = Ok (mask_of (tag_words p) mask).
Proof.
  assert (forall mask, mask_of [[]] mask = mask) as H0.
  { intros mask. unfold mask_of. cbn. by rewrite Z.lor_0_r. }
  induction fuel as [|fuel IH]; intros p mask Hl; (destruct p as [|b r]; [cbn [trace_loop]; unfold tag_words; cbn [fields]; by rewrite H0|]); [simpl in Hl; lia|].
  cbn [trace_loop]. destruct (strpbrk_fields (b :: r)) as (Hw & Hf & Hlen & Hlt). specialize (Hlt ltac:(done)).
  unfold tag_words at 1. destruct (fields (b :: r)) as [w' ws]. destruct (strpbrk (b :: r)) as [w q]. cbn [fst snd] in *. subst w'.
  rewrite mask_of_cons. assert (length (drop 1 q) <= fuel)%nat as Hd by (rewrite length_drop; cbn [length] in *; destruct Hlt as [->|?]; cbn [length] in *; lia).
  assert (forall m, mask_of ws m = mask_of (tag_words (drop 1 q)) m) as Hrest.
  { intros m. destruct Hf as [[-> ->]|[_ ->]]; [|done]. cbn [drop]. unfold tag_words. cbn [fields]. by rewrite H0. }
  unfold traces_all, bit_of. destruct (find_tag tags w) as [f|].
  - destruct (Z.eqb_spec f 0) as [->|Hne]; [by rewrite bool_decide_eq_true_2|].
    rewrite bool_decide_eq_false_2 by congruence. by rewrite IH, Hrest.
  - rewrite bool_decide_eq_false_2 by done. by rewrite IH, Hrest, Z.lor_0_r.
Qed.

(** ADB_TRACE is a list of words, and the mask is the union of what they ask for,
    whatever their order and however they are separated; the loop ends. *)
Theorem trace_words p : adb_trace_init (Some p) = Ok (mask_of (tag_words p) 0).
Proof. by apply trace_loop_words. Qed.

(** The tag [adb] has the flag 0, which marks the tags that enable everything. *)
Theorem adb_tag_traces_all : adb_trace_init (Some (lit "adb")) = Ok (-1) /\ Z.shiftl 1 TRACE_ADB = 1.
Proof. by vm_compute. Qed.
(** The last of the trace classes has no tag, so it can only be enabled with all. *)
Theorem fdevent_has_no_tag : Forall (fun '(_, flag) => flag <> TRACE_FDEVENT) tags.
Proof. unfold tags. repeat (apply Forall_cons; split; [done|]). by apply Forall_nil. Qed.

(** ** Threads *)

Lemma kernel_new k : kernel_ok k -> kernel_ok (mkkernel (<[k_next k := blank]> (k_open k)) (k_next k + 1) (k_results k) (k_unlinked k)).
Proof. intros [H1 H2]. split; cbn; [lia|]. intros fd Hfd. rewrite lookup_insert_ne by lia. apply H2. lia. Qed.

Lemma kwp_socketpair k (Q : option (Z * Z) -> kernel -> Prop) : kernel_ok k ->
  (forall k', kernel_ok k' -> k_open k' = k_open k -> Q None k') ->
  (forall k', kernel_ok k' -> k_open k' = <[k_next k + 1 := blank]> (<[k_next k := blank]> (k_open k)) -> k_next k' = k_next k + 2 ->
     Q (Some (k_next k, k_next k + 1)) k') ->
  kwp adb_socketpair k Q.
Proof.
  intros Hk H1 H2. unfold adb_socketpair, kwp, nbind, pop, new_descriptor, nret.
  assert (forall l, kernel_ok (mkkernel (k_open k) (k_next k) l (k_unlinked k))) as Hl by (intros l; exact Hk).
  destruct (k_results k) as [|r l]; cbn; [by apply H1|]. destruct (r <? 0); cbn; [apply H1; [apply Hl|done]|].
  apply H2; [|done|cbn; lia]. apply (kernel_new (mkkernel _ _ _ _)), (kernel_new (mkkernel _ _ _ _)), Hl.
Qed.

(** Whatever the kernel answers, a service thread is started with one end of a new
    pair and the server has the other, or nothing is left open. *)
Theorem service_thread_accounted k : kernel_ok k ->
  kwp create_service_thread k (fun r k' => kernel_ok k' /\
    (r = (-1, None) /\ k_open k' = k_open k \/
     exists s0 s1, r = (s0, Some s1) /\ 0 <= s0 /\ s0 <> s1 /\ k_open k !! s0 = None /\ k_open k !! s1 = None /\
       k_open k' = <[s1 := blank]> (<[s0 := blank]> (k_open k)))).
Proof.
  intros Hk. pose proof Hk as [Hn Hfree]. unfold create_service_thread. apply kwp_bind, kwp_socketpair; [done|intros k1 Hk1 E1; apply kwp_ret; auto|].
  intros k1 Hk1 E1 En. apply kwp_bind. unfold kwp at 1, adb_thread_create, pop.
  assert (forall k2, k_open k2 = k_open k1 -> k_next k2 = k_next k1 -> kwp (sys_close (k_next k);; sys_close (k_next k + 1);; nret (-1, None))%net k2
    (fun r k' => kernel_ok k' /\ (r = (-1, None : option Z) /\ k_open k' = k_open k \/
      exists s0 s1, r = (s0, Some s1) /\ 0 <= s0 /\ s0 <> s1 /\ k_open k !! s0 = None /\ k_open k !! s1 = None /\
       k_open k' = <[s1 := blank]> (<[s0 := blank]> (k_open k))))) as Hclose.
  { intros k2 E2 En2. assert (delete (k_next k + 1) (delete (k_next k) (k_open k2)) = k_open k) as E.
    { apply map_eq. intros i. destruct (decide (i = k_next k + 1)) as [->|]; [rewrite lookup_delete_eq; symmetry; apply Hfree; lia|].
      destruct (decide (i = k_next k)) as [->|]; [rewrite lookup_delete_ne, lookup_delete_eq by done; symmetry; apply Hfree; lia|].
      by rewrite !lookup_delete_ne, E2, E1, !lookup_insert_ne by done. }
    unfold kwp, nbind, sys_close, nret. cbn. rewrite E. split; [|by left]. split; cbn; [lia|]. intros fd Hfd. apply Hfree. lia. }
  destruct (k_results k1) as [|r l]; [apply (Hclose k1); done|]. destruct (r =? 0); cbn [negb]; [|by apply Hclose].
  apply kwp_ret. split; [exact Hk1|]. right. exists (k_next k), (k_next k + 1). cbn. split_and!; [done|lia|lia|apply Hfree; lia|apply Hfree; lia|done].
Qed.

Lemma service_thread_accounted_witness :
  kernel_ok (mkkernel ∅ 3 [0; 11] []) /\
  kwp create_service_thread (mkkernel ∅ 3 [0; 11] []) (fun r k' => kernel_ok k' /\
    (r = (-1, None) /\ k_open k' = ∅ \/
     exists s0 s1, r = (s0, Some s1) /\ 0 <= s0 /\ s0 <> s1 /\ (∅ : gmap Z skt) !! s0 = None /\ (∅ : gmap Z skt) !! s1 = None /\
       k_open k' = <[s1 := blank]> (<[s0 := blank]> (∅ : gmap Z skt)))).
Proof.
  assert (kernel_ok (mkkernel ∅ 3 [0; 11] [])) as Hk by (split; cbn; [lia|done]).
  split; [exact Hk|apply (service_thread_accounted (mkkernel ∅ 3 [0; 11] []) Hk)].
Defined.

(** ** The thread that accepts devices *)

(** The descriptors [O] with connections on them. *)
Definition accepted (O : gmap Z skt) (fds : list Z) : gmap Z skt := foldl (fun o fd => <[fd := blank]> o) O fds.
(** No socket yet, or the listening one and the connections, all of them new. *)
Definition accepting (port : Z) (k : kernel) (r : Z * list Z) (k' : kernel) : Prop :=
  kernel_ok k' /\
  (r = (-1, []) /\ k_open k' = k_open k \/
   exists serverfd fds, r = (serverfd, fds) /\ 0 <= serverfd /\ NoDup (serverfd :: fds) /\
     Forall (fun fd => k_open k !! fd = None) (serverfd :: fds) /\
     k_open k' = accepted (<[serverfd := server_of (Inet INADDR_ANY (htons port))]> (k_open k)) fds).

Lemma accepted_free O fds fd : accepted O fds !! fd = None <-> O !! fd = None /\ fd ∉ fds.
Proof.
  revert O. induction fds as [|x r IH]; intros O; cbn [accepted foldl]; [set_solver|]. unfold accepted in IH.
  rewrite IH, lookup_insert_None, not_elem_of_cons. naive_solver.
Qed.

Lemma kwp_accept k serverfd (Q : Z -> kernel -> Prop) :
  (forall k', k_open k' = k_open k -> k_next k' = k_next k -> Q (-1) k' /\
     Q (k_next k) (mkkernel (<[k_next k := blank]> (k_open k)) (k_next k + 1) (k_results k') (k_unlinked k'))) ->
  kwp (adb_socket_accept serverfd) k Q.
Proof.
  intros H. unfold adb_socket_accept, kwp, nbind, pop, new_descriptor, nret.
  destruct (k_results k) as [|r l]; cbn; [by apply H|]. destruct (r <? 0); cbn; [by apply H|].
  by apply (H (mkkernel (k_open k) (k_next k) l (k_unlinked k))).
Qed.

(** One more connection. *)
Lemma accepting_step port k serverfd fds k1 : 0 <= serverfd -> accepting port k (serverfd, fds) k1 ->
  kwp (do fd <- adb_socket_accept serverfd; nret (serverfd, if 0 <=? fd then Some fd else None))%net k1
    (fun r k2 => accepting port k (fst r, fds ++ option_list (snd r)) k2).
Proof.
  intros Hs (Hk & [[[=] _]|(? & ? & [= <- <-] & _ & Hnd & Hnew & E)]); [lia|]. pose proof Hk as [Hn Hfree].
  pose proof (Hfree (k_next k1) ltac:(lia)) as Hf. rewrite E in Hf. apply accepted_free in Hf as [Hf1 Hf2]. apply lookup_insert_None in Hf1 as [Hf1 Hf3].
  apply kwp_bind, kwp_accept. intros k2 E2 En. split; (apply kwp_ret); cbn [fst snd].
  - split; [unfold kernel_ok; by rewrite E2, En|]. right. exists serverfd, fds. cbn. rewrite app_nil_r, E2. auto.
  - rewrite (proj2 (Z.leb_le _ _)) by done. cbn [option_list]. split.
    { destruct (kernel_new k1 Hk) as [H1 H2]. by split. }
    right. exists serverfd, (fds ++ [k_next k1]). cbn [k_open]. split_and!; [done|done|..].
    + rewrite app_comm_cons. apply NoDup_app. split_and!; [done|set_solver|apply NoDup_singleton].
    + rewrite app_comm_cons. apply Forall_app. split; [done|by apply Forall_singleton].
    + unfold accepted in *. by rewrite foldl_app, E.
Qed.

(** After any number of rounds the thread holds one listening socket on its port and
    the connections that it accepted, each a descriptor of its own, or nothing
    while it cannot bind. *)
Theorem server_socket_thread_accounted port k n : kernel_ok k -> kwp (server_socket_thread n port (-1) []) k (accepting port k).
Proof.
  intros Hk. assert (accepting port k (-1, []) k) as H0 by (split; [done|by left]). revert H0.
  generalize (-1) as serverfd, (@nil Z) as fds, k at 2 3 as k1. induction n as [|n IH]; intros serverfd fds k1 H; cbn [server_socket_thread]; [by apply kwp_ret|].
  apply kwp_bind. cut (kwp (server_socket_round port serverfd) k1 (fun r k2 => accepting port k (fst r, fds ++ option_list (snd r)) k2)).
  { unfold kwp. destruct (server_socket_round port serverfd k1) as [r k2]. apply IH. }
  unfold server_socket_round. apply kwp_bind. destruct (Z.eqb_spec serverfd (-1)) as [->|Hne].
  - destruct H as [Hk1 [[[= ->] E1]|(? & ? & [= <- <-] & Hneg & _)]]; [|lia].
    pose proof (acc_inet_server (AnyServer port) k1 INADDR_ANY port Hk1 eq_refl) as Ha.
    unfold socket_inaddr_any_server, kwp in *. destruct (inet_server INADDR_ANY port k1) as [s k2]. destruct Ha as [Hk2 [[-> E2]|(-> & x & [= <-] & E2)]].
    + apply kwp_ret. cbn. split; [done|]. left. by rewrite E2.
    + pose proof Hk1 as [Hn Hf]. rewrite (proj2 (Z.ltb_ge _ _)) by done. apply accepting_step; [done|]. split; [done|]. right.
      exists (k_next k1), []. rewrite <- E1. split_and!; [done|done|apply NoDup_singleton|by apply Forall_singleton, Hf|done].
  - apply kwp_ret. assert (0 <= serverfd) as Hs by (destruct H as [_ [[[= ? ?] _]|(? & ? & [= -> ->] & ? & _)]]; lia).
    rewrite (proj2 (Z.ltb_ge _ _)) by done. by apply accepting_step.
Qed.

(** ** The executable *)

(** The name of the link always fits its buffer, so the path of the executable is
    what the link of this process says, cut to the caller's buffer. *)
Theorem my_path_read readlink pid maxLen target (Hp : 0 <= pid < 2147483648) (Hl : (0 < maxLen)%nat)
  (Hr : readlink (lit "/proc/" ++ fmt_dec pid ++ lit "/exe") = Some target) (H0 : no_nul target) :
  get_my_path readlink pid maxLen = take (maxLen - 1) target /\ (length (get_my_path readlink pid maxLen) < maxLen)%nat.
Proof.
  unfold get_my_path. rewrite snprintf_fits, Hr.
  - rewrite cstr_id by (intros (i & Hi & _)%elem_of_take; apply H0; by eapply list_elem_of_lookup_2). split; [done|]. rewrite length_take. lia.
  - rewrite !length_app. pose proof (length_fmt_dec pid). cbn [length lit] in *. simpl. lia.
Qed.

(** ** The registration socket *)

Lemma install_sets p fd l l1 : wf_loop l -> 0 <= fd < 128 -> fdevent_install p fd l = Ok l1 ->
  fdes l1 !! p = Some (mkfde fd false FDE_ACTIVE 0) /\ read_fds l1 = read_fds l /\ write_fds l1 = write_fds l.
Proof.
  intros W Hfd E. destruct (fdevent_install_shape l p fd W Hfd) as (l' & E' & Ef & _ & _ & _ & Er & Ew & _).
  rewrite E in E'. injection E' as <-. by rewrite Ef, lookup_insert_eq.
Qed.

(** The two ends of a new pair are not watched yet. *)
Section new_pair.
Context (fde : ptr) (l : loop) (k : kernel) (W : wf_loop l) (Hk : kernel_ok k) (Hf : fdes l !! fde = None) (Hlim : k_next k + 1 < 128)
  (Hfds : forall p f, fdes l !! p = Some f -> f_fd f < k_next k).
Let fd := k_next k + 1.

Lemma end_in_range : 0 <= fd < 128.
Proof. destruct Hk. unfold fd. lia. Qed.
Lemma end_unwatched x : x ∈ read_fds l \/ x ∈ write_fds l -> x <> fd.
Proof.
  intros [Hx|Hx]; [apply (wf_read _ W) in Hx|apply (wf_write _ W) in Hx]; destruct Hx as (q & f & Hq & _ & <- & _); apply Hfds in Hq; unfold fd; lia.
Qed.
Lemma end_free : free_slot fde fd l.
Proof.
  split; [intros f Hp; congruence|]. split; [apply end_in_range|]. intros q Hq. pose proof end_in_range.
  destruct (wf_cells _ W _ _ Hq) as (f & Hp & _ & Hi). apply Hfds in Hp. unfold fd in *. lia.
Qed.

(** What installing an event and asking for input does. *)
Lemma end_watched l1 f e : wf_loop l1 -> fdes l1 !! fde = Some f -> f_fd f = fd -> active f -> read_fds l1 = read_fds l -> write_fds l1 = write_fds l ->
  has e FDE_READ = true -> has e FDE_WRITE = false ->
  exists l2, fdevent_set fde e l1 = Ok l2 /\ wf_loop l2 /\ read_fds l2 = {[fd]} ∪ read_fds l /\ write_fds l2 = write_fds l.
Proof.
  intros W1 Hp Efd Ha Er Ew Hr1 Hw1. destruct (fdevent_interest l1 fde f e W1 Hp Ha) as (l2 & E2 & Hr & Hw & _).
  destruct (fdevent_set_wf l1 fde e W1 ltac:(eauto)) as (l2' & E2' & W2 & _). rewrite E2 in E2'. injection E2' as <-.
  exists l2. split_and!; [done|done|..]; apply set_eq; intros x.
  - rewrite (Hr x), Er, Efd, Hr1. destruct (decide (x = fd)) as [->|Hne]; set_solver.
  - rewrite (Hw x), Ew, Efd, Hw1. destruct (decide (x = fd)) as [->|Hne]; [|done]. split; [done|]. intros Hx. by destruct (end_unwatched fd (or_intror Hx)).
Qed.
Lemma end_installed : exists l1, fdevent_install fde fd l = Ok l1 /\ wf_loop l1 /\ fdes l1 !! fde = Some (mkfde fd false FDE_ACTIVE 0) /\
  read_fds l1 = read_fds l /\ write_fds l1 = write_fds l.
Proof.
  destruct end_free as (H1 & H2 & H3). destruct (fdevent_install_ok l fde fd W H2) as (l1 & E1).
  pose proof (wf_install _ _ _ _ W H1 H2 H3 E1) as W1. exists l1. split; [done|]. split; [done|]. by apply install_sets.
Qed.

(** The pair is opened, or the process ends. *)
Lemma pair_watched why (start : Z -> Z -> res (Z * Z * loop)) :
  (exists l', start (k_next k) fd = Ok (k_next k, fd, l') /\ wf_loop l' /\ read_fds l' = {[fd]} ∪ read_fds l /\ write_fds l' = write_fds l) ->
  kwp (do s <- adb_socketpair;
       nret (match s with None => Exit why | Some (s0, s1) => start s0 s1 end))%net k (fun r _ =>
    r = Exit why \/
    exists s0 s1 l', r = Ok (s0, s1, l') /\ s0 <> s1 /\ wf_loop l' /\ read_fds l' = {[s1]} ∪ read_fds l /\ write_fds l' = write_fds l).
Proof.
  intros (l' & E & H). apply kwp_bind, kwp_socketpair; [done|intros; apply kwp_ret; by left|].
  intros k' _ _ _. apply kwp_ret. right. exists (k_next k), fd, l'. fold fd. rewrite E. split_and!; [done|unfold fd; lia|apply H..].
Qed.
End new_pair.

Lemma registration_sets fde l k
  (W : wf_loop l) (Hk : kernel_ok k) (Hf : fdes l !! fde = None) (Hlim : k_next k + 1 < 128)
  (Hfds : forall p f, fdes l !! p = Some f -> f_fd f < k_next k) :
  kwp (init_transport_registration fde l) k (fun r _ =>
    r = Exit "cannot open transport registration socketpair" \/
    exists s0 s1 l', r = Ok (s0, s1, l') /\ s0 <> s1 /\ wf_loop l' /\ read_fds l' = {[s1]} ∪ read_fds l /\ write_fds l' = write_fds l).
Proof.
  unfold init_transport_registration. destruct (end_installed fde l k) as (l1 & E1 & W1 & Hp & Er & Ew); [done..|].
  refine (pair_watched l k Hk _ (fun s0 s1 => let* l1 := _ in let* l2 := _ in Ok (s0, s1, l2)) _). rewrite E1. cbn [rbind].
  destruct (end_watched fde l k W Hk Hf Hlim Hfds l1 _ FDE_READ W1 Hp) as (l2 & E2 & H2); [done..|]. exists l2. by rewrite E2.
Qed.

(** The loop watches the end of the new pair that the server reads, and only for
    reading; the descriptors that were watched before still are. *)
Theorem registration_watched fde l k
  (W : wf_loop l) (Hk : kernel_ok k) (Hf : fdes l !! fde = None) (Hlim : k_next k + 1 < 128)
  (Hfds : forall p f, fdes l !! p = Some f -> f_fd f < k_next k) :
  kwp (init_transport_registration fde l) k (fun r _ =>
    r = Exit "cannot open transport registration socketpair" \/
    exists s0 s1 l', r = Ok (s0, s1, l') /\ s0 <> s1 /\ wf_loop l' /\ read_fds l' = {[s1]} ∪ read_fds l /\ write_fds l' = write_fds l).
Proof. by apply registration_sets. Qed.

Lemma registration_watched_witness :
  kwp (init_transport_registration 1%nat init_loop) (mkkernel ∅ 3 [0] []) (fun r _ =>
    r = Exit "cannot open transport registration socketpair" \/
    exists s0 s1 l', r = Ok (s0, s1, l') /\ s0 <> s1 /\ wf_loop l' /\ read_fds l' = {[s1]} ∪ read_fds init_loop /\ write_fds l' = write_fds init_loop).
Proof.
  apply (registration_watched 1%nat init_loop (mkkernel ∅ 3 [0] [])); [exact wf_init_loop|split; cbn; [lia|done]|done|cbn; lia|done].
Defined.

(** A server that gets as far as its event loop watches the registration socket and
    has the thread that polls USB; it stops only when the pair or that thread cannot
    be had, and looks for no emulators when their thread cannot be started. *)
Theorem threads_started fde l k
  (W : wf_loop l) (Hk : kernel_ok k) (Hf : fdes l !! fde = None) (Hlim : k_next k + 1 < 128)
  (Hfds : forall p f, fdes l !! p = Some f -> f_fd f < k_next k) :
  kwp (start_threads fde l) k (fun r _ =>
    r = Exit "cannot open transport registration socketpair" \/ r = Exit "cannot create input thread" \/
    exists s0 s1 l' thr, r = Ok (s0, s1, l', thr) /\ (thr = None \/ thr = Some ClientSocketThread) /\
      s0 <> s1 /\ wf_loop l' /\ read_fds l' = {[s1]} ∪ read_fds l /\ write_fds l' = write_fds l).
Proof.
  unfold start_threads. apply kwp_bind. pose proof (registration_sets fde l k W Hk Hf Hlim Hfds) as H. unfold kwp at 1 in H. unfold kwp at 1.
  destruct (init_transport_registration fde l k) as [r k1]. destruct H as [->|(s0 & s1 & l' & -> & H)]; [by left|].
  apply kwp_bind. unfold usb_init, adb_thread_create, kwp at 1, nbind, nret. destruct (pop k1) as [z k2]. cbn.
  destruct (z =? 0); cbn [negb]; [|by right; left]. unfold kwp, local_init, adb_thread_create, nbind, nret. destruct (pop k2) as [y k3]. cbn.
  right. right. exists s0, s1, l'. destruct (y =? 0); cbn [negb]; eexists; (split; [done|]); (split; [by auto|done]).
Qed.

(** The descriptor that tells of the end of a shell is watched in the same way, by an
    event that can be destroyed. *)
Theorem subproc_watched fde l k
  (W : wf_loop l) (Hk : kernel_ok k) (Hf : fdes l !! fde = None) (Hlim : k_next k + 1 < 128)
  (Hfds : forall p f, fdes l !! p = Some f -> f_fd f < k_next k) :
  kwp (fdevent_subproc_setup fde l) k (fun r _ =>
    r = Exit "cannot create shell-exit socket-pair" \/
    exists s0 s1 l', r = Ok (s0, s1, l') /\ s0 <> s1 /\ wf_loop l' /\ read_fds l' = {[s1]} ∪ read_fds l /\ write_fds l' = write_fds l).
Proof.
  unfold fdevent_subproc_setup. destruct (end_installed fde l k) as (l1 & E1 & W1 & Hp & Er & Ew); [done..|].
  refine (pair_watched l k Hk _ (fun s0 s1 => let* l1 := _ in let* l2 := _ in Ok (s0, s1, l2)) _).
  destruct (wf_create l fde (k_next k + 1) W ltac:(by apply end_free)) as (l2 & E2 & W2). rewrite E2. cbn [rbind].
  revert E2. unfold fdevent_create. rewrite E1. cbn [rbind]. unfold get_fde. rewrite Hp. cbn [deref rbind]. intros [= <-].
  set (f := set_state _ _) in *. assert (fdes (put_fde fde f l1) !! fde = Some f) as Hp2 by apply lookup_insert_eq.
  destruct (fdevent_interest _ _ f FDE_READ W2 Hp2 ltac:(done)) as (_ & _ & _ & _ & _ & -> & _).
  destruct (end_watched fde l k W Hk Hf Hlim Hfds _ f (Z.lor (f_state f) FDE_READ) W2 Hp2) as (l3 & E3 & H3); [done..|]. exists l3. by rewrite E3.
Qed.

(** ** The log *)

Lemma lowest_free_spec : forall fuel i d, (forall j, 0 <= j < i -> is_Some (d !! j)) -> 0 <= i ->
  (forall j, is_Some (d !! j) -> 0 <= j) -> (size d <= Z.to_nat i + fuel)%nat ->
  let fd := lowest_free fuel i d in d !! fd = None /\ i <= fd.
Proof.
  assert (forall i (d : gmap Z bytes), 0 <= i -> (forall j, 0 <= j < i + 1 -> is_Some (d !! j)) -> (Z.to_nat i < size d)%nat) as Hsize.
  { intros i d Hi H. assert (list_to_set (seqZ 0 (i + 1)) ⊆ dom d) as Hsub.
    { intros x Hx. apply elem_of_list_to_set, elem_of_seqZ in Hx. apply elem_of_dom, H. lia. }
    apply subseteq_size in Hsub. rewrite size_list_to_set, length_seqZ in Hsub by apply NoDup_seqZ. rewrite size_dom in Hsub. lia. }
  induction fuel as [|fuel IH]; intros i d Hlow Hi Hpos Hs; cbn [lowest_free]; destruct (d !! i) as [x|] eqn:E.
  - exfalso. assert (Z.to_nat i < size d)%nat; [|lia]. apply Hsize; [done|]. intros j Hj. destruct (decide (j = i)) as [->|]; [by rewrite E|apply Hlow; lia].
  - split; [done|lia].
  - destruct (IH (i + 1) d) as [H1 H2]; [|lia|done|lia|split; [done|lia]]. intros j Hj. destruct (decide (j = i)) as [->|]; [by rewrite E|apply Hlow; lia].
  - split; [done|lia].
Qed.

(** The descriptors 0, 1 and 2 are open, as they are in a process that was
    started with them. *)
Definition std_open (d : fdtable) : Prop := (forall j, 0 <= j < 3 -> is_Some (d !! j)) /\ forall j, is_Some (d !! j) -> 0 <= j.

Lemma open_std can_open path d : std_open d ->
  (can_open path = false /\ unix_open can_open path d = (-1, d)) \/
  (can_open path = true /\ exists fd, 3 <= fd /\ d !! fd = None /\ unix_open can_open path d = (fd, <[fd := path]> d)).
Proof.
  intros [H1 H2]. unfold unix_open. destruct (can_open path); [right|by left]. split; [done|].
  destruct (lowest_free_spec (size d) 0 d ltac:(lia) ltac:(lia) H2 ltac:(lia)) as [Hn Hle]. set (fd := lowest_free (size d) 0 d) in *.
  exists fd. split_and!; [|done|done]. destruct (Z.leb_spec 3 fd); [done|]. destruct (H1 fd ltac:(lia)) as [x Hx]. congruence.
Qed.

(** What is open when one of the descriptors was replaced. *)
Lemma redirect d fd path n : std_open d -> 3 <= fd -> d !! fd = None -> 0 <= n < 3 ->
  adb_close fd (dup2 fd n (<[fd := path]> d)) = <[n := path]> d.
Proof.
  intros H1 Hfd Hf Hn. unfold adb_close, dup2. rewrite lookup_insert_eq. apply map_eq. intros i.
  destruct (decide (i = fd)) as [->|]; [rewrite lookup_delete_eq, lookup_insert_ne by lia; done|]. rewrite lookup_delete_ne by done.
  destruct (decide (i = n)) as [->|]; [by rewrite !lookup_insert_eq|]. by rewrite !lookup_insert_ne by done.
Qed.
Lemma redirect_two d fd path n m : std_open d -> 3 <= fd -> d !! fd = None -> 0 <= n < 3 -> 0 <= m < 3 ->
  adb_close fd (dup2 fd m (dup2 fd n (<[fd := path]> d))) = <[m := path]> (<[n := path]> d).
Proof.
  intros H1 Hfd Hf Hn Hm. unfold adb_close, dup2. rewrite lookup_insert_eq, lookup_insert_ne, lookup_insert_eq by lia. apply map_eq. intros i.
  destruct (decide (i = fd)) as [->|]; [rewrite lookup_delete_eq, !lookup_insert_ne by lia; done|]. rewrite lookup_delete_ne by done.
  destruct (decide (i = m)) as [->|]; [by rewrite !lookup_insert_eq|]. rewrite !(lookup_insert_ne _ m) by done.
  destruct (decide (i = n)) as [->|]; [by rewrite !lookup_insert_eq|]. by rewrite !lookup_insert_ne by done.
Qed.

(** A server started with its three standard descriptors reads nothing from its
    terminal and writes to the log, or to nowhere when the log cannot be opened;
    no other descriptor is opened or closed. *)
Theorem log_redirected can_open d (H : std_open d) (Hnull : can_open (lit "/dev/null") = true) :
  let log := if can_open (lit "/tmp/adb.log") then lit "/tmp/adb.log" else lit "/dev/null" in
  start_logging can_open d = <[2 := log]> (<[1 := log]> (<[0 := lit "/dev/null"]> d)).
Proof.
  unfold start_logging. destruct (open_std can_open (lit "/dev/null") d H) as [[E _]|(_ & fd & H3 & Hf & ->)]; [congruence|].
  rewrite redirect by (done || lia). set (d1 := <[0 := lit "/dev/null"]> d). assert (std_open d1) as Hd1.
  { destruct H as [H1 H2]. split; intros j Hj; unfold d1 in *; [apply lookup_insert_is_Some'; right; by apply H1|].
    apply lookup_insert_is_Some' in Hj as [<-|Hj]; [lia|by apply H2]. }
  cbv zeta. destruct (open_std can_open (lit "/tmp/adb.log") d1 Hd1) as [[-> ->]|(-> & fd2 & H32 & Hf2 & ->)].
  - cbn [fst snd]. change (-1 <? 0) with true. cbv iota.
    destruct (open_std can_open (lit "/dev/null") d1 Hd1) as [[E _]|(_ & fd3 & H33 & Hf3 & ->)]; [congruence|]. by apply redirect_two.
  - rewrite (proj2 (Z.ltb_ge _ _)) by lia. by apply redirect_two.
Qed.

Definition terminal : fdtable := <[0 := lit "tty"]> (<[1 := lit "tty"]> {[2 := lit "pipe"]}).
Lemma log_redirected_witness :
  start_logging (fun _ => true) terminal = <[2 := lit "/tmp/adb.log"]> (<[1 := lit "/tmp/adb.log"]> (<[0 := lit "/dev/null"]> terminal)).
Proof.
  apply (log_redirected (fun _ => true) terminal); [|done]. split.
  - intros j Hj. assert (j = 0 \/ j = 1 \/ j = 2) as [-> | [-> | -> ] ] by lia; by eexists.
  - intros j Hj. unfold terminal in Hj. rewrite !lookup_insert_is_Some', lookup_singleton_is_Some in Hj. lia.
Defined.

(** Started without a standard input, it has none afterwards: the descriptor that
    was opened for it is the one that is closed. *)
Theorem log_without_stdin :
  start_logging (fun _ => true) {[1 := lit "tty"; 2 := lit "pipe"]} !! 0 = None.
Proof. by vm_compute. Qed.

(** ** Progress *)

(** The percentage of a transfer that has not gone past its size is between 0 and
    100, 100 only at the end, when the line ends; no product overflows below 184
    petabytes. *)
Theorem progress_percent cur total (H : 0 <= cur <= total) (Hb : 0 < total < 2 ^ 57) :
  exists pct, print_transfer_progress cur total = Some (pct, bool_decide (cur = total)) /\ 0 <= pct <= 100 /\
    pct * total <= cur * 100 < (pct + 1) * total /\ (pct = 100 <-> cur = total).
Proof.
  assert (wrap64 (cur * 100) = cur * 100) as E by (unfold wrap64, u64_mod; apply Z.mod_small; nia).
  assert (0 <= cur * 100 / total <= 100) as Hp by (split; [apply Z.div_pos; lia|apply Z.div_le_upper_bound; nia]).
  unfold print_transfer_progress. rewrite (proj2 (Z.eqb_neq total 0)) by lia. rewrite E, to_int_small by lia.
  exists (cur * 100 / total). pose proof (Z.div_mod (cur * 100) total ltac:(lia)). pose proof (Z.mod_pos_bound (cur * 100) total ltac:(lia)).
  split; [|nia]. do 2 f_equal. destruct (Z.eqb_spec cur total); [by rewrite bool_decide_eq_true_2|by rewrite bool_decide_eq_false_2].
Qed.
Lemma progress_percent_witness : exists pct, print_transfer_progress 4095 4096 = Some (pct, bool_decide (4095 = 4096)) /\ 0 <= pct <= 100 /\
  pct * 4096 <= 4095 * 100 < (pct + 1) * 4096 /\ (pct = 100 <-> 4095 = 4096).
Proof. apply (progress_percent 4095 4096); lia. Defined.

(** The rate is the exact one, rounded down, for transfers below 18 terabytes that
    took some time; an instant counts as a second. *)
Theorem rate_exact total t (H : 0 < total < 2 ^ 44) (Ht : 0 <= t < 2 ^ 63) :
  END_ total t = let u := if t =? 0 then 1000000 else t in
    Some (total * 1000000 / (u * 1024), total, u / 1000000, u mod 1000000 / 1000).
Proof.
  unfold END_. rewrite (proj2 (Z.eqb_neq total 0)) by lia. cbv zeta. set (u := if t =? 0 then 1000000 else t).
  assert (0 < u < 2 ^ 63) as Hu by (unfold u; destruct (Z.eqb_spec t 0); lia).
  assert (wrap64 u = u /\ wrap64 (total * 1000000) = total * 1000000) as [-> ->] by (unfold wrap64, u64_mod; split; apply Z.mod_small; lia).
  rewrite Z.div_div, Z.quot_div_nonneg, Z.rem_mod_nonneg, Z.quot_div_nonneg by (lia || (apply Z.mod_pos_bound; lia)). done.
Qed.
Lemma rate_exact_witness : END_ 4096 0 = Some (4096 * 1000000 / (1000000 * 1024), 4096, 1000000 / 1000000, 1000000 mod 1000000 / 1000).
Proof. apply (rate_exact 4096 0); lia. Defined.

(** When the clock is set back during a transfer, its rate is 0 and its time is
    negative. *)
Theorem clock_set_back : END_ (2 ^ 20) (-3500000) = Some (0, 2 ^ 20, -3, -500).
Proof. by vm_compute. Qed.
